(* ===== verification/_CoqProject ===== *)
-Q . S2P
Prelude.v
GoStrings.v
Contracts.v
Signing.v
SignerService.v
ReleaseLifecycle.v
GenerationStore.v
Canonical.v
Shape.v
Policy.v
Rules.v
Gate.v
ModelContracts.v
ListenPlan.v
ReleaseSet.v
ModelIngress.v
ModelIngressProofs.v
Saga.v
SagaProofs.v
SagaRuns.v
RunBudget.v
Spool.v
SpoolProofs.v
EvidenceRing.v
EdgeProxy.v
ExtAuthz.v
AuditChain.v
Ledger.v
Govern.v
Catalog.v
Scheduler.v
GovernProofs.v
GovernHistory.v
SchedulerProofs.v
Triage.v
TriageTurns.v
RateLimits.v
Accounts.v
Idempotency.v
Tokens.v
ToolGateway.v
