(* ===== verification/Prelude.v ===== *)
(** * YuFeng: a verification library

    YuFeng protects HTTP applications.  Edges stand in front of the applications: they turn a
    request into one canonical view, inspect it, and a gate decides whether it is blocked.  What an
    edge does is fixed by signed artifacts that the control plane (the brain) publishes as
    generations; a release goes from draft through signature, shadow and canary to enforcement, and
    is rolled back when counters say so.  Edges send events back; events are gathered in clusters;
    agents look at clusters under leases, tokens and budgets and propose releases; everything that
    changes is written to an audit chain.

    The library translates this logic from the Go sources, function by function, and proves what
    makes it correct.  Source paths are relative to the repository.

    ** Files

    Shared:
    - [Prelude]: results and errors, machine integers, time, binary64, lists and maps.
    - [GoStrings]: the string, UTF-8, URL and hexadecimal functions of Go the sources call.
    - [Contracts]: the protobuf messages (proto/yufeng/common, artifact).

    Kernel (lib/kernel):
    - [Signing]: artifact.go, generation.go, listen_plan.go, keyring.go; [SignerService]: signer.go,
      checkpoint.go; [ReleaseLifecycle]: release.go; [ModelContracts]: model_profile.go,
      model_ingress_window.go; limits.go wherever its constants are used.

    Edge (lib/edgecore, lib/edgeclient):
    - [Canonical]: canonical.go; [Shape]: shape.go, scope.go; [Policy]: evaluate.go, taxonomy.go,
      inspector.go; [Rules]: rule.go, engine.go; [Gate]: the gate of release_set.go, status.go,
      canary.go; [ReleaseSet]: the rest of release_set.go; [GenerationStore]: generation.go;
      [ListenPlan]: listen.go and dataplane_contract.go; [ModelIngress], [ModelIngressProofs]:
      model_bypass.go; [EvidenceRing]: evidence.go; [EdgeProxy]: source.go, proxy.go,
      release_proxy.go; [ExtAuthz]: external_authorization.go; [Spool], [SpoolProofs]: spool.go,
      upload_acknowledgement.go and the upload loop of cmd/yufeng-edge/brain.go.

    Runs of agents (agents/runtime, lib/brain):
    - [Saga], [SagaProofs], [SagaRuns]: saga.go, agent_run_saga.go and the leases and settlement of
      agent_run.go; [RunBudget]: run_budget.go.

    Control plane (lib/brain):
    - [AuditChain]: audit.go; [Ledger]: ledger_maintenance.go; [Govern]: govern.go,
      govern_write.go, baseline_generation.go; [Catalog]: catalog_govern.go,
      asset_traffic_review.go; [Scheduler]: scheduler.go, guard.go, the counters of registry.go;
      [GovernProofs], [GovernHistory], [SchedulerProofs]: theorems on these; [Triage]: cluster.go,
      proposal_trust.go; [TriageTurns]: triage_turn.go, triage_complete.go, turn_runtime.go;
      [RateLimits]: ratelimit.go and the login throttle; [Accounts]: auth.go, auth_support.go,
      users.go, grant.go, access.go, authorization.go and the creation of assets; [Idempotency]:
      idempotency_rpc.go and the keys of budget.go; [Tokens]: token.go, claims.go, dualtoken.go,
      the authentication of toolgateway.go and the counts of budget.go; [ToolGateway]: the rest
      of a tool call in toolgateway.go.

    Clients use what the files they require prove: the release set applies what [Signing] verifies,
    the gate runs what the release set holds, [GovernHistory] shows that what governance publishes
    is accepted by [GenerationStore], [Scheduler] and [TriageTurns] change releases only through the
    transactions of [Govern], [Ledger] drops what [AuditChain] has signed checkpoints for, [Tokens]
    uses the sessions' hashes of [Accounts], and [ToolGateway] composes the keys of [Idempotency], the
    budgets of [RunBudget] and the counts of [Tokens].

    ** How code is modelled

    A pure function is a function.  A handler is a function from the state it reads and its
    arguments to the new state and a [result]; what the environment decides (clock, random bytes,
    order in which Go walks a map, whether a statement, a write or a commit fails) is an argument.
    A critical section or a transaction is one step; where a handler makes several, or reads before
    it writes, the steps are separate and other handlers run between them: the histories of
    [GovernHistory] and of the clusters of [Triage] let every step read any earlier state, [TriageTurns]
    takes the interference as a function, [Idempotency] and [ToolGateway] interleave the statements of any number of calls, [SagaProofs]
    interleaves lease holders, crashes and lost replies.  A panic is [None].  Integers keep the width
    they have in Go where they can leave it; sums made by the database fail instead of wrapping.
    Loops that are not structurally recursive recurse on a count that bounds their rounds:
    [Canonical] decodes as many rounds as the profile names, the loops of [ModelIngress] remove or
    lease an item per round and get the number of items held, which their lemmas show to be enough;
    a waiting loop ([TakeBatch]) gets the clock readings of its rounds, one each.  All other loops
    walk a list.

    Code outside the sources is a parameter, with what is documented of it as laws:
    [Crypto] (SHA-256, Ed25519, deterministic protobuf), [Wire] (envelopes of the signing socket),
    [Unicode] (case and classes beyond ASCII), [HttpDecoders] (gzip, zlib, JSON, MIME), [ShapeWire],
    [Payloads] (protojson of payloads), [Regexp], [NetParse], [NetAddr], [SourceAddr] (package net
    and netip), [OutboundCopy] (the request the reverse proxy prepares), [InspectorCompiler] (engines), [SpecJSON], [SagaJSON], [EventWire], [AuditWire],
    [GovernDetails], [IdemWire], [ClaimsWire] (encodings), [Passwords] (bcrypt), and the encoders
    passed to [Triage] and [TriageTurns].  Every theorem with such a law has a run with a concrete
    instance beside it.

    ** What is shown

    - Signing and release: the signer only returns signatures that verify over the canonical bytes;
      enforcement implies a passed gate and a signature; over all histories of the control plane
      published generations are signed, chained and made of gated releases, releases only move
      forward, a retirement reaches the edges, and every edge that starts empty can follow what is
      published.
    - Edge: a generation is applied as a whole or not at all and only along its chain; the gate
      blocks exactly by mode, bucket and posture; policies and shapes block what they say; it is stated
      exactly which requests the proxy forwards and what of them its rewrite changes; in a chain of
      addresses that parses, a sender cannot move the source past the last hop that is not trusted;
      the model queue behaves, answers included, as a window on plain lists whatever order the clock
      is read in, stays in its limits, and its snapshots converge; uploads lose nothing that was not acknowledged.
    - Runs: an action that must not be repeated runs once under crashes and zombies; an ordinary
      run that ended is settled (the work of an investigation is not: [cancelled_investigation_succeeds]); recovery completes; budgets are never overspent and requests charged once.
    - Ledger: the chain verifies after appends and retention as long as the table is not emptied and
      the months do not go back, a change of a chained entry is detected where texts have no line
      breaks, what is dropped was checkpointed.
    - Promotion: who may promote and on what evidence, after which windows the guard rolls back,
      that automatic promotion keeps every guard.
    - Triage: proposals of agents block nothing the pinned events did not show; clusters are
      bounded and at most one is open per identity, under unlocked reads; a turn is decided once under interference and an agent never gets past shadow.
    - Access: a deployment keeps an administrator, grants are confined to the giver's, the limiter
      is a sliding window, a keyed call is executed once, tool calls need both tokens and a live
      lease, a revoked token stays refused through later writes of its tables, and a tool runs at most once for a request.

    Theorems named after a fault (such as [revoke_removes_last_admin], [guard_counts_old_failures],
    [forged_sources_unlimited], [saved_error_reworded], [resumed_call_claims_shadow],
    [repeated_key_refused], [oversize_result_unsettled], [slash_binding_escapes], [coverage_requirement_gaps],
    [cancelled_investigation_succeeds]) show that the code does what it should not.

    ** Not modelled

    Services that only read or list; the tools that agents read with, the model gateway and its results, agent
    catalogues and conversations, onboarding, cases, approvals and evidence requests,
    investigations beyond what they settle of a run, traffic review samples, enrolment of workers and edges: their tables touch
    the modelled ones only through the transactions above.  Certificates, sockets, processes,
    sandboxes, key files, the message bus and the exchange of the reverse proxy with an application are
    operating system and library calls.  Coraza, the
    console, the Python models, generated protocol code, migrations and deployment files are not
    the logic of this program.  Reads of the database that fail, and the sizes of texts and tables,
    are left out where a file does not say otherwise. *)

From Stdlib Require Export Ascii ZArith Lia.
From Stdlib Require Import SpecFloat.
From stdpp Require Export base tactics gmap strings fin_maps numbers option list.


#[global] Open Scope Z_scope.

(** ** Errors

    Go functions of the repository return [(value, error)] pairs; a call that
    fails returns its zero value next to the error.  They are modelled by
    [result]: the payload of [Err] is the constant part of the error text. *)

Inductive result (A : Type) : Type :=
  | Ok (a : A)
  | Err (e : string).
Arguments Ok {A} a.
Arguments Err {A} e.

Definition result_bind {A B} (r : result A) (k : A → result B) : result B :=
  match r with
  | Ok a => k a
  | Err e => Err e
  end.

Definition is_ok {A} (r : result A) : bool :=
  match r with Ok _ => true | Err _ => false end.

Declare Scope go_scope.
Delimit Scope go_scope with go.
Notation "'let!' x ':=' c 'in' k" := (result_bind c (λ x, k))
  (at level 10, x pattern, c at level 100, k at level 200) : go_scope.
Notation "'guard!' b 'else' e 'in' k" := (if b : bool then k else Err e)
  (at level 10, b at level 100, e at level 100, k at level 200) : go_scope.
#[global] Open Scope go_scope.

#[global] Instance result_eq_dec {A} `{EqDecision A} : EqDecision (result A).
Proof. solve_decision. Defined.

Lemma result_bind_Ok {A B} (r : result A) (k : A → result B) b :
  result_bind r k = Ok b ↔ ∃ a, r = Ok a ∧ k a = Ok b.
Proof. destruct r; simpl; naive_solver. Qed.

(** ** Machine integers

    An integer of the source is a [Z]; where a Go operation can wrap, the wrap
    is written with one of these functions. *)

Definition wrap_u (w x : Z) : Z := x mod 2 ^ w.
Definition wrap_s (w x : Z) : Z := (x + 2 ^ (w - 1)) mod 2 ^ w - 2 ^ (w - 1).
Abbreviation u64 := (wrap_u 64).
Abbreviation u32 := (wrap_u 32).
Abbreviation i32 := (wrap_s 32).
Abbreviation i64 := (wrap_s 64).

Definition in_u (w x : Z) : Prop := 0 ≤ x < 2 ^ w.
Definition in_s (w x : Z) : Prop := - 2 ^ (w - 1) ≤ x < 2 ^ (w - 1).

Lemma wrap_u_id w x : in_u w x → wrap_u w x = x.
Proof. intros [??]. by apply Z.mod_small. Qed.

Lemma wrap_s_id w x : 0 < w → in_s w x → wrap_s w x = x.
Proof.
  intros Hw [??]. unfold wrap_s.
  assert (2 ^ w = 2 * 2 ^ (w - 1)) as E.
  { rewrite <- Z.pow_succ_r by lia. f_equal. lia. }
  rewrite Z.mod_small; lia.
Qed.

Lemma wrap_u_range w x : 0 ≤ w → in_u w (wrap_u w x).
Proof. intros. apply Z.mod_pos_bound. lia. Qed.

(** Adding to and then subtracting from an unsigned counter is exact as long as
    the true value fits. *)
Lemma wrap_u_add_sub w a b : in_u w a → wrap_u w (wrap_u w (a + b) - b) = a.
Proof.
  intros Ha. unfold wrap_u. rewrite Zminus_mod_idemp_l.
  replace (a + b - b) with a by lia. by apply wrap_u_id.
Qed.

(** ** Go integer division truncates towards zero. *)
Abbreviation go_div := Z.quot.
Abbreviation go_rem := Z.rem.

(** ** Time

    [time.Time] is nanoseconds on one axis; [time.Duration] is an [int64] of
    nanoseconds, and [Time.Sub] saturates at its bounds. *)

Definition time := Z.
Definition duration := Z.
Definition max_duration : Z := 2 ^ 63 - 1.
Definition min_duration : Z := - 2 ^ 63.
Definition time_sub (a b : time) : duration := Z.max min_duration (Z.min max_duration (a - b)).
Definition time_after (a b : time) : bool := b <? a.
Definition time_before (a b : time) : bool := a <? b.

Definition Nanosecond : Z := 1.
Definition Microsecond : Z := 1000.
Definition Millisecond : Z := 1000000.
Definition Second : Z := 1000000000.
Definition Minute : Z := 60 * Second.
Definition Hour : Z := 60 * Minute.

Lemma time_sub_gt a b d : 0 ≤ d < max_duration → (d < time_sub a b ↔ d < a - b).
Proof. unfold time_sub, max_duration, min_duration. lia. Qed.

(** ** IEEE 754 binary64

    A [float64] is a [spec_float] of the Standard Library at precision 53 and
    maximal exponent 1024; comparisons with NaN are false, as in Go. *)

Definition f64 := spec_float.
Definition f64_of_Z (n : Z) : f64 := binary_normalize 53 1024 n 0 false.
Definition f64_mul (a b : f64) : f64 := SFmul 53 1024 a b.
Definition f64_add (a b : f64) : f64 := SFadd 53 1024 a b.
Definition f64_sub (a b : f64) : f64 := SFsub 53 1024 a b.
Definition f64_div (a b : f64) : f64 := SFdiv 53 1024 a b.
Definition f64_ltb : f64 → f64 → bool := SFltb.
Definition f64_leb : f64 → f64 → bool := SFleb.
Definition f64_zero : f64 := S754_zero false.

#[global] Instance f64_eq_dec : EqDecision f64.
Proof. unfold f64. solve_decision. Defined.

(** ** Lists *)

Definition sum_list_Z {A} (f : A → Z) (l : list A) : Z := foldr (λ x s, f x + s) 0 l.

Lemma sum_list_Z_app {A} (f : A → Z) l1 l2 :
  sum_list_Z f (l1 ++ l2) = sum_list_Z f l1 + sum_list_Z f l2.
Proof. induction l1 as [|x l1 IH]; simpl; [lia|]. rewrite IH. lia. Qed.

Lemma sum_list_Z_nonneg {A} (f : A → Z) l :
  (∀ x, x ∈ l → 0 ≤ f x) → 0 ≤ sum_list_Z f l.
Proof.
  induction l as [|x l IH]; intros H; simpl; [lia|].
  assert (0 ≤ f x) by (apply H; set_solver).
  assert (0 ≤ sum_list_Z f l) by (apply IH; set_solver). lia.
Qed.

#[global] Instance sum_list_Z_perm {A} (f : A → Z) :
  Proper ((≡ₚ) ==> (=)) (sum_list_Z f).
Proof. induction 1; simpl; lia. Qed.

Lemma existsb_app_or {A} (p : A → bool) l1 l2 :
  existsb p (l1 ++ l2) = existsb p l1 || existsb p l2.
Proof. apply existsb_app. Qed.

#[global] Instance existsb_perm {A} (p : A → bool) :
  Proper ((≡ₚ) ==> (=)) (existsb p).
Proof.
  intros l1 l2 H. induction H as [|x l1 l2 _ IH|x y l|l1 l2 l3 _ IH1 _ IH2]; simpl.
  - done.
  - by rewrite IH.
  - by destruct (p x), (p y), (existsb p l).
  - congruence.
Qed.

(** A left fold whose steps commute does not depend on the order of the list: how a loop
    over a Go map is shown to be deterministic. *)
Lemma foldl_perm_comm {A B} (f : A → B → A) a l1 l2 :
  (∀ a x y, f (f a x) y = f (f a y) x) → l1 ≡ₚ l2 → foldl f a l1 = foldl f a l2.
Proof.
  intros Hf Hp. revert a. induction Hp as [|x l1 l2 _ IH|x y l|l1 l2 l3 _ IH1 _ IH2]; intros a; simpl.
  - done.
  - apply IH.
  - by rewrite Hf.
  - by rewrite IH1.
Qed.

Lemma list_find_perm {A} (P : A → Prop) `{∀ x, Decision (P x)} (l1 l2 : list A) :
  (∀ x y, x ∈ l1 → y ∈ l1 → P x → P y → x = y) → l1 ≡ₚ l2 → snd <$> list_find P l1 = snd <$> list_find P l2.
Proof.
  intros Hu Hp. destruct (list_find P l1) as [[i x]|] eqn:E1, (list_find P l2) as [[j y]|] eqn:E2; simpl.
  - apply list_find_Some in E1 as (?%list_elem_of_lookup_2 & ? & _).
    apply list_find_Some in E2 as (?%list_elem_of_lookup_2 & ? & _). f_equal. apply Hu; try done. by rewrite Hp.
  - apply list_find_Some in E1 as (?%list_elem_of_lookup_2 & ? & _). apply list_find_None in E2.
    rewrite Forall_forall in E2. exfalso. apply (E2 x); [by rewrite <- Hp|done].
  - apply list_find_Some in E2 as (?%list_elem_of_lookup_2 & ? & _). apply list_find_None in E1.
    rewrite Forall_forall in E1. exfalso. apply (E1 y); [by rewrite Hp|done].
  - done.
Qed.

Lemma filter_Forall {A} (P : A → Prop) `{∀ x, Decision (P x)} (l : list A) : Forall P l → filter P l = l.
Proof. induction 1; [done|]. rewrite filter_cons_True by done. by f_equal. Qed.

Lemma NoDup_fmap_inj {A B} (f : A → B) l x y : NoDup (f <$> l) → x ∈ l → y ∈ l → f x = f y → x = y.
Proof.
  induction l as [|a l IH]; [set_solver|]. intros [Ha Hn]%NoDup_cons Hx Hy E.
  apply elem_of_cons in Hx as [->|Hx], Hy as [->|Hy]; [done| | |by apply IH].
  - exfalso. apply Ha. rewrite E. by apply list_elem_of_fmap_2.
  - exfalso. apply Ha. rewrite <- E. by apply list_elem_of_fmap_2.
Qed.

(** ** Sums over maps *)

Definition map_sum {K V} `{Countable K} (f : V → Z) (m : gmap K V) : Z := sum_list_Z f (map_to_list m).*2.

Section map_sum.
Context {K V : Type} `{Countable K}.
Implicit Types (f g : V → Z) (m : gmap K V).

Lemma map_sum_empty f : map_sum f (∅ : gmap K V) = 0.
Proof. unfold map_sum. by rewrite map_to_list_empty. Qed.

Lemma map_sum_insert f m k v : m !! k = None → map_sum f (<[k := v]> m) = f v + map_sum f m.
Proof. intros Hk. unfold map_sum. by rewrite map_to_list_insert. Qed.

Lemma map_sum_delete f m k v : m !! k = Some v → map_sum f (delete k m) = map_sum f m - f v.
Proof. intros Hk. rewrite <- (insert_delete_id m k v Hk) at 2. rewrite map_sum_insert by apply lookup_delete_eq. lia. Qed.

Lemma map_sum_update f m k v v' : m !! k = Some v → map_sum f (<[k := v']> m) = map_sum f m - f v + f v'.
Proof.
  intros Hk. rewrite <- insert_delete_eq, map_sum_insert by apply lookup_delete_eq. rewrite (map_sum_delete f m k v Hk). lia.
Qed.

Lemma map_sum_nonneg f m : (∀ k v, m !! k = Some v → 0 ≤ f v) → 0 ≤ map_sum f m.
Proof.
  intros Hpos. apply sum_list_Z_nonneg. intros v Hv. apply list_elem_of_fmap in Hv as ([k v'] & -> & Hin).
  apply elem_of_map_to_list in Hin. by eapply Hpos.
Qed.

Lemma map_sum_ge f m k v : (∀ k v, m !! k = Some v → 0 ≤ f v) → m !! k = Some v → f v ≤ map_sum f m.
Proof.
  intros Hpos Hk. pose proof (map_sum_delete f m k v Hk). assert (0 ≤ map_sum f (delete k m)); [|lia].
  apply map_sum_nonneg. intros k' v' [_ Hv]%lookup_delete_Some. by eapply Hpos.
Qed.

Lemma map_sum_ext f g m : (∀ k v, m !! k = Some v → f v = g v) → map_sum f m = map_sum g m.
Proof.
  induction m as [|k v m Hk IH] using map_ind; intros Hfg; [by rewrite !map_sum_empty|].
  rewrite !map_sum_insert by done. rewrite (Hfg k v) by apply lookup_insert_eq. f_equal. apply IH. intros k' v' Hv. apply (Hfg k').
  rewrite lookup_insert_ne; [done|congruence].
Qed.

Lemma map_sum_add f g m : map_sum (λ v, f v + g v) m = map_sum f m + map_sum g m.
Proof.
  induction m as [|k v m Hk IH] using map_ind; [by rewrite !map_sum_empty|]. rewrite !map_sum_insert, IH by done. lia.
Qed.

Lemma map_sum_zero f m : (∀ k v, m !! k = Some v → f v = 0) → map_sum f m = 0.
Proof.
  intros H0. rewrite (map_sum_ext f (λ _, 0)) by done. clear H0. induction m as [|k v m Hk IH] using map_ind; [apply map_sum_empty|].
  rewrite map_sum_insert by done. lia.
Qed.

Lemma map_sum_fmap f (g : V → V) m : map_sum f (g <$> m) = map_sum (λ v, f (g v)) m.
Proof.
  induction m as [|k v m Hk IH] using map_ind; [by rewrite fmap_empty, !map_sum_empty|].
  rewrite fmap_insert, !map_sum_insert, IH; [done..|]. by rewrite lookup_fmap, Hk.
Qed.
End map_sum.

(** ** Automation *)

Create HintDb yufeng.
Create Rewrite HintDb yufeng.
#[export] Hint Rewrite andb_true_iff orb_true_iff negb_true_iff andb_false_iff orb_false_iff
  negb_false_iff Z.ltb_lt Z.ltb_ge Z.leb_le Z.leb_gt Z.eqb_eq Z.eqb_neq : yufeng.

(** Turn boolean tests of the code, in hypotheses and goal, into propositions. *)
Ltac breflect := autorewrite with yufeng in *.

(** Case analysis along the branches a handler takes in hypothesis [H]. *)
Ltac branch_in H :=
  repeat (match type of H with
          | context [match ?x with _ => _ end] => destruct x eqn:?
          end; simpl in H; try discriminate H).

(** Case analysis on every [if]/[match] scrutinee of the goal. *)
Ltac branches := repeat (case_match; simplify_eq/=; try done).
