(* ===== verification/GoStrings.v ===== *)
(** * Go strings: the part of the standard library the sources call

    A Go string is a byte sequence, which is what [String.string] is.  The file
    models [strings.Split], [Join], [HasPrefix], [HasSuffix], [Contains], [Cut],
    [IndexByte], [TrimSpace], [ToLower], [ToUpper], [EqualFold], UTF-8 iteration
    ([for _, r := range s]), [url.PathUnescape], [url.QueryUnescape],
    [url.ParseQuery], [Values.Encode], [hex.EncodeToString], [slices.Sort] on
    strings.

    Case mapping and letter/digit classes of code points from 128 on come from
    the Unicode tables that are compiled into the Go runtime; they are the class
    [Unicode], a parameter of what uses them.  The ASCII part is concrete. *)

From stdpp Require Import sorting.
From S2P Require Import Prelude.

Class Unicode := {
  wide_lower : string → string;
  wide_upper : string → string;
  wide_fold : string → string → bool;
  wide_digit : Z → bool;
  wide_letter : Z → bool;
}.

(** A table with no case pairs and no letters above 127; used by witnesses. *)
Definition ascii_only_unicode : Unicode := {|
  wide_lower s := s; wide_upper s := s; wide_fold s t := bool_decide (s = t);
  wide_digit _ := false; wide_letter _ := false;
|}.

(** ** Bytes *)

Definition byte (c : ascii) : Z := Z.of_N (Ascii.N_of_ascii c).
Definition of_byte (z : Z) : ascii := Ascii.ascii_of_N (Z.to_N z).
Definition NUL : string := String (of_byte 0) "".

Lemma byte_range c : 0 ≤ byte c < 256.
Proof.
  unfold byte. pose proof (Ascii.N_ascii_bounded c). lia.
Qed.

Lemma of_byte_byte c : of_byte (byte c) = c.
Proof. unfold of_byte, byte. rewrite N2Z.id. apply Ascii.ascii_N_embedding. Qed.

Lemma byte_of_byte z : 0 ≤ z < 256 → byte (of_byte z) = z.
Proof.
  intros. unfold byte, of_byte. rewrite Ascii.N_ascii_embedding; lia.
Qed.

Definition str_len (s : string) : Z := Z.of_nat (String.length s).

Lemma str_app_cons c (a b : string) : String c a +:+ b = String c (a +:+ b).
Proof. done. Qed.

Lemma str_app_assoc (a b c : string) : a +:+ (b +:+ c) = (a +:+ b) +:+ c.
Proof. induction a as [|x a IH]; [done|]. by rewrite !str_app_cons, IH. Qed.

Lemma str_app_nil_r (a : string) : a +:+ "" = a.
Proof. induction a as [|x a IH]; [done|]. by rewrite str_app_cons, IH. Qed.

Lemma str_len_cons c a : str_len (String c a) = 1 + str_len a.
Proof. unfold str_len. simpl. lia. Qed.

Lemma str_len_app a b : str_len (a +:+ b) = str_len a + str_len b.
Proof. induction a as [|x a IH]; [done|]. rewrite str_app_cons, !str_len_cons. lia. Qed.

Lemma str_len_nonneg s : 0 ≤ str_len s.
Proof. unfold str_len. lia. Qed.

Lemma str_len_0 s : str_len s = 0 ↔ s = "".
Proof. destruct s; unfold str_len; simpl; split; (done || lia). Qed.

Fixpoint str_map (f : ascii → ascii) (s : string) : string :=
  match s with
  | EmptyString => EmptyString
  | String c s' => String (f c) (str_map f s')
  end.

Fixpoint str_forallb (p : ascii → bool) (s : string) : bool :=
  match s with
  | EmptyString => true
  | String c s' => p c && str_forallb p s'
  end.

Definition is_ascii (s : string) : bool := str_forallb (λ c, byte c <? 128) s.

(** ** Substrings *)

Fixpoint strip_prefix (p s : string) : option string :=
  match p, s with
  | EmptyString, _ => Some s
  | String a p', String b s' => if bool_decide (a = b) then strip_prefix p' s' else None
  | _, _ => None
  end.

Definition has_prefix (s p : string) : bool :=
  match strip_prefix p s with Some _ => true | None => false end.
Definition has_suffix (s p : string) : bool := has_prefix (String.rev s) (String.rev p).
Definition trim_prefix (s p : string) : string := default s (strip_prefix p s).

Fixpoint contains (s sub : string) : bool :=
  has_prefix s sub || match s with
                      | EmptyString => false
                      | String _ s' => contains s' sub
                      end.

Fixpoint str_take (n : nat) (s : string) : string :=
  match n, s with
  | S n', String c s' => String c (str_take n' s')
  | _, _ => EmptyString
  end.

Lemma str_take_length n s : str_len (str_take n s) = Z.min (Z.of_nat n) (str_len s).
Proof.
  revert s. induction n as [|n IH]; intros s.
  - pose proof (str_len_nonneg s). change (str_take 0 s) with EmptyString. change (str_len "") with 0. lia.
  - destruct s as [|c s]; [done|]. simpl str_take. rewrite !str_len_cons, IH. lia.
Qed.

Fixpoint str_drop (n : nat) (s : string) : string :=
  match n, s with
  | S n', String _ s' => str_drop n' s'
  | O, _ => s
  | _, EmptyString => EmptyString
  end.

Lemma str_take_drop n s : str_take n s +:+ str_drop n s = s.
Proof. revert s. induction n as [|n IH]; intros [|c s]; try done. simpl. rewrite str_app_cons. by rewrite IH. Qed.

Lemma str_take_prefix n s : ∃ rest, s = str_take n s +:+ rest.
Proof.
  revert s. induction n as [|n IH]; intros s; [by exists s|]. destruct s as [|c s]; [by exists ""|].
  destruct (IH s) as [rest Hr]. exists rest. simpl. rewrite str_app_cons. by f_equal.
Qed.

(** [strings.Split(s, c)] for a one-byte separator: never empty. *)
Fixpoint split_byte (c : ascii) (s : string) : list string :=
  match s with
  | EmptyString => [EmptyString]
  | String a s' =>
      if bool_decide (a = c) then EmptyString :: split_byte c s'
      else match split_byte c s' with
           | [] => [String a EmptyString]
           | h :: t => String a h :: t
           end
  end.

Fixpoint join (sep : string) (l : list string) : string :=
  match l with
  | [] => EmptyString
  | [x] => x
  | x :: l' => x +:+ sep +:+ join sep l'
  end.

(** [strings.Cut(s, c)]: before, after, found. *)
Fixpoint cut_byte (c : ascii) (s : string) : string * string * bool :=
  match s with
  | EmptyString => (EmptyString, EmptyString, false)
  | String a s' =>
      if bool_decide (a = c) then (EmptyString, s', true)
      else let '(b, t, f) := cut_byte c s' in (String a b, t, f)
  end.

(** [if i := strings.IndexByte(s, c); i >= 0 { s = s[:i] }] *)
Definition before_byte (c : ascii) (s : string) : string := (cut_byte c s).1.1.

Fixpoint str_mem (c : ascii) (s : string) : bool :=
  match s with
  | EmptyString => false
  | String a s' => bool_decide (a = c) || str_mem c s'
  end.

Fixpoint str_count (c : ascii) (s : string) : Z :=
  match s with
  | EmptyString => 0
  | String a s' => (if bool_decide (a = c) then 1 else 0) + str_count c s'
  end.

(** ** Case mapping *)

Definition lower_byte (c : ascii) : ascii :=
  if (65 <=? byte c) && (byte c <=? 90) then of_byte (byte c + 32) else c.
Definition upper_byte (c : ascii) : ascii :=
  if (97 <=? byte c) && (byte c <=? 122) then of_byte (byte c - 32) else c.

Section case_mapping.
Context {U : Unicode}.

Definition to_lower (s : string) : string :=
  if is_ascii s then str_map lower_byte s else wide_lower s.
Definition to_upper (s : string) : string :=
  if is_ascii s then str_map upper_byte s else wide_upper s.
Definition equal_fold (s t : string) : bool :=
  if is_ascii s && is_ascii t
  then bool_decide (str_map lower_byte s = str_map lower_byte t)
  else wide_fold s t.
End case_mapping.

(** ** UTF-8 *)

Definition rune_error : Z := 65533.
Definition cont (c : ascii) (lo hi : Z) : bool := (lo <=? byte c) && (byte c <=? hi).

(** The runes [for _, r := range s] yields, each with the bytes it spans. *)
Fixpoint rune_chunks (s : string) : list (Z * string) :=
  match s with
  | EmptyString => []
  | String a s1 =>
      let a' := byte a in
      let bad := (rune_error, String a EmptyString) in
      if a' <? 128 then (a', String a EmptyString) :: rune_chunks s1
      else if (194 <=? a') && (a' <=? 223) then
        match s1 with
        | String b s2 =>
            if cont b 128 191
            then ((a' - 192) * 64 + (byte b - 128), String a (String b EmptyString)) :: rune_chunks s2
            else bad :: rune_chunks s1
        | EmptyString => bad :: rune_chunks s1
        end
      else if (224 <=? a') && (a' <=? 239) then
        match s1 with
        | String b (String c s3) =>
            if cont b (if a' =? 224 then 160 else 128) (if a' =? 237 then 159 else 191) && cont c 128 191
            then ((a' - 224) * 4096 + (byte b - 128) * 64 + (byte c - 128),
                  String a (String b (String c EmptyString))) :: rune_chunks s3
            else bad :: rune_chunks s1
        | _ => bad :: rune_chunks s1
        end
      else if (240 <=? a') && (a' <=? 244) then
        match s1 with
        | String b (String c (String d s4)) =>
            if cont b (if a' =? 240 then 144 else 128) (if a' =? 244 then 143 else 191)
               && cont c 128 191 && cont d 128 191
            then ((a' - 240) * 262144 + (byte b - 128) * 4096 + (byte c - 128) * 64 + (byte d - 128),
                  String a (String b (String c (String d EmptyString)))) :: rune_chunks s4
            else bad :: rune_chunks s1
        | _ => bad :: rune_chunks s1
        end
      else bad :: rune_chunks s1
  end.

Definition runes (s : string) : list Z := (rune_chunks s).*1.

(** [unicode.IsSpace]: the White_Space property. *)
Definition is_space (r : Z) : bool :=
  ((9 <=? r) && (r <=? 13)) || (r =? 32) || (r =? 133) || (r =? 160) || (r =? 5760)
  || ((8192 <=? r) && (r <=? 8202)) || (r =? 8232) || (r =? 8233) || (r =? 8239)
  || (r =? 8287) || (r =? 12288).

Fixpoint drop_space (l : list (Z * string)) : list (Z * string) :=
  match l with
  | [] => []
  | (r, b) :: l' => if is_space r then drop_space l' else l
  end.

Definition chunks_str (l : list (Z * string)) : string := foldr (λ x s, x.2 +:+ s) EmptyString l.

Definition trim_space (s : string) : string :=
  chunks_str (reverse (drop_space (reverse (drop_space (rune_chunks s))))).

Section unicode_classes.
Context {U : Unicode}.
Definition is_digit (r : Z) : bool :=
  if r <? 128 then (48 <=? r) && (r <=? 57) else wide_digit r.
Definition is_letter (r : Z) : bool :=
  if r <? 128 then ((65 <=? r) && (r <=? 90)) || ((97 <=? r) && (r <=? 122)) else wide_letter r.
End unicode_classes.

(** ** Hexadecimal and URL escaping *)

Definition is_hex (c : ascii) : bool :=
  ((48 <=? byte c) && (byte c <=? 57)) || ((97 <=? byte c) && (byte c <=? 102))
  || ((65 <=? byte c) && (byte c <=? 70)).
Definition unhex (c : ascii) : Z :=
  if byte c <=? 57 then byte c - 48 else if byte c <=? 70 then byte c - 55 else byte c - 87.
Definition hex_digit (upper : bool) (n : Z) : ascii :=
  of_byte (if n <? 10 then 48 + n else if upper then 55 + n else 87 + n).

Fixpoint hex_encode (s : string) : string :=
  match s with
  | EmptyString => EmptyString
  | String c s' => String (hex_digit false (byte c / 16)) (String (hex_digit false (byte c mod 16)) (hex_encode s'))
  end.

(** [url.unescape]: in query mode ['+'] is a space; a ['%'] that is not followed by
    two hexadecimal digits is an error. *)
Fixpoint unescape (query : bool) (s : string) : option string :=
  match s with
  | EmptyString => Some EmptyString
  | String c s1 =>
      if bool_decide (c = "%"%char) then
        match s1 with
        | String a (String b s2) =>
            if is_hex a && is_hex b
            then String (of_byte (unhex a * 16 + unhex b)) <$> unescape query s2
            else None
        | _ => None
        end
      else String (if query && bool_decide (c = "+"%char) then " "%char else c) <$> unescape query s1
  end.

Definition PathUnescape := unescape false.
Definition QueryUnescape := unescape true.

Definition unreserved (c : ascii) : bool :=
  ((48 <=? byte c) && (byte c <=? 57)) || ((65 <=? byte c) && (byte c <=? 90))
  || ((97 <=? byte c) && (byte c <=? 122)) || (byte c =? 45) || (byte c =? 46)
  || (byte c =? 95) || (byte c =? 126).

Fixpoint QueryEscape (s : string) : string :=
  match s with
  | EmptyString => EmptyString
  | String c s' =>
      if unreserved c then String c (QueryEscape s')
      else if bool_decide (c = " "%char) then String "+"%char (QueryEscape s')
      else String "%"%char (String (hex_digit true (byte c / 16))
             (String (hex_digit true (byte c mod 16)) (QueryEscape s')))
  end.

(** [url.Values]: key to the list of its values, in order of appearance. *)
Abbreviation values := (gmap string (list string)).

Definition values_add (k v : string) (m : values) : values :=
  <[k := default [] (m !! k) ++ [v]]> m.

(** One [&]-separated piece: [None] is the piece that sets the error. *)
Definition query_piece (m : values) (piece : string) : values * bool :=
  if contains piece ";" then (m, true)
  else if bool_decide (piece = EmptyString) then (m, false)
  else let '(k, v, _) := cut_byte "="%char piece in
       match QueryUnescape k, QueryUnescape v with
       | Some k', Some v' => (values_add k' v' m, false)
       | _, _ => (m, true)
       end.

Definition url_max_query_params : Z := 10000.

(** [url.ParseQuery]: the values parsed and whether an error is returned. *)
Definition ParseQuery (q : string) : values * bool :=
  if url_max_query_params <? str_count "&"%char q + 1 then (∅, true)
  else foldl (λ '(m, e) piece, let '(m', e') := query_piece m piece in (m', e || e'))
             (∅, false) (split_byte "&"%char q).

(** ** Order and sorting ([<] on strings, [slices.Sort], [sort.Strings]) *)

Definition str_le (s t : string) : Prop := String.leb s t = true.
#[global] Instance str_le_dec : RelDecision str_le.
Proof. intros s t. unfold str_le. apply _. Defined.
Definition str_ltb (s t : string) : bool := String.ltb s t.

Definition sort_strings (l : list string) : list string := merge_sort str_le l.

(** [Values.Encode]: keys in order, each value escaped. *)
Definition encode_pair (k v : string) : string := QueryEscape k +:+ "=" +:+ QueryEscape v.
Definition encode_pieces (m : values) : list string :=
  concat (map (λ k, map (encode_pair k) (default [] (m !! k)))
              (sort_strings (map_to_list m).*1)).
Definition Encode (m : values) : string := join "&" (encode_pieces m).

#[global] Instance str_le_total : Total str_le.
Proof. intros s t. apply String.leb_total. Qed.

Lemma sort_strings_sorted l : Sorted str_le (sort_strings l).
Proof. apply Sorted_merge_sort, _. Qed.

Lemma sort_strings_elem x l : x ∈ sort_strings l ↔ x ∈ l.
Proof. unfold sort_strings. by rewrite merge_sort_Permutation. Qed.

(** ** Decimal numbers: [strconv.Atoi] with a 64-bit [int] *)

Definition digit_value (c : ascii) : option Z :=
  if (48 <=? byte c) && (byte c <=? 57) then Some (byte c - 48) else None.

Fixpoint parse_digits (s : string) (acc : Z) : option Z :=
  match s with
  | EmptyString => Some acc
  | String c s' => match digit_value c with Some d => parse_digits s' (acc * 10 + d) | None => None end
  end.

Definition Atoi (s : string) : option Z :=
  let '(neg, digits) :=
    match s with
    | String c s' => if bool_decide (c = "-"%char) then (true, s')
                     else if bool_decide (c = "+"%char) then (false, s') else (false, s)
    | EmptyString => (false, s)
    end in
  if bool_decide (digits = EmptyString) then None
  else match parse_digits digits 0 with
  | None => None
  | Some n =>
      let v := if neg : bool then - n else n in
      if (- 2 ^ 63 <=? v) && (v <? 2 ^ 63) then Some v else None
  end.

(** ** Splitting and joining *)

Lemma split_byte_no_sep c s seg : seg ∈ split_byte c s → str_mem c seg = false.
Proof.
  revert seg. induction s as [|a s IH]; intros seg; simpl; [by intros ->%list_elem_of_singleton|].
  case_bool_decide as Ha.
  - intros [->|Hs]%elem_of_cons; [done|by apply IH].
  - destruct (split_byte c s) as [|h t] eqn:E; simpl.
    + intros ->%list_elem_of_singleton. simpl. by rewrite bool_decide_eq_false_2.
    + intros [->|Hs]%elem_of_cons; simpl; [rewrite bool_decide_eq_false_2 by done|]; apply IH; set_solver.
Qed.

Lemma split_byte_app c (a b : string) :
  str_mem c a = false → split_byte c (a +:+ String c b) = a :: split_byte c b.
Proof.
  induction a as [|x a IH]; intros Ha.
  - change ("" +:+ String c b) with (String c b). simpl. by rewrite bool_decide_eq_true_2.
  - rewrite str_app_cons. simpl in *. apply orb_false_iff in Ha as [Hx Ha]. rewrite Hx, IH; done.
Qed.

Lemma split_byte_plain c a : str_mem c a = false → split_byte c a = [a].
Proof.
  induction a as [|x a IH]; simpl; [done|]. intros [Hx Ha]%orb_false_iff. by rewrite Hx, IH.
Qed.

(** Splitting undoes joining when no element holds the separator. *)
Lemma split_join c l :
  l ≠ [] → Forall (λ s, str_mem c s = false) l → split_byte c (join (String c "") l) = l.
Proof.
  intros Hne Hl. induction Hl as [|x l Hx Hl IH]; [done|]. destruct l as [|y l].
  - by apply split_byte_plain.
  - change (join (String c "") (x :: y :: l)) with (x +:+ String c "" +:+ join (String c "") (y :: l)).
    change (String c "" +:+ join (String c "") (y :: l)) with (String c (join (String c "") (y :: l))).
    rewrite split_byte_app by done. f_equal. by apply IH.
Qed.

(** ** Escaping round trips *)

Lemma contains_byte c s : contains s (String c "") = str_mem c s.
Proof.
  induction s as [|a s IH]; [done|]. cbn [contains str_mem]. rewrite IH. f_equal.
  unfold has_prefix. simpl. repeat case_bool_decide; by subst.
Qed.

Lemma str_mem_app c a b : str_mem c (a +:+ b) = str_mem c a || str_mem c b.
Proof. induction a as [|x a IH]; [done|]. rewrite str_app_cons. simpl. rewrite IH. by rewrite orb_assoc. Qed.

Lemma cut_byte_app c a b : str_mem c a = false → cut_byte c (a +:+ String c b) = (a, b, true).
Proof.
  induction a as [|x a IH]; intros Ha.
  - change ("" +:+ String c b) with (String c b). simpl. by rewrite bool_decide_eq_true_2.
  - rewrite str_app_cons. simpl in *. apply orb_false_iff in Ha as [Hx Ha]. by rewrite Hx, IH.
Qed.

(** A property of bytes that can be checked on each of the 256. *)
Fixpoint bytes_below (n : nat) : list ascii :=
  match n with O => [] | S n' => of_byte (Z.of_nat n') :: bytes_below n' end.

Lemma bytes_below_spec n c : byte c < Z.of_nat n → c ∈ bytes_below n.
Proof.
  induction n as [|n IH]; intros H; [pose proof (byte_range c); lia|]. simpl.
  destruct (Z.eq_dec (byte c) (Z.of_nat n)) as [E|E].
  - rewrite <- E, of_byte_byte. left.
  - right. apply IH. lia.
Qed.

Lemma byte_forall (p : ascii → bool) : forallb p (bytes_below 256) = true → ∀ c, p c = true.
Proof.
  intros H c. rewrite forallb_forall in H. apply H, list_elem_of_In, bytes_below_spec.
  apply byte_range.
Qed.

(** How one byte is escaped, and what decoding does with it. *)
Definition escape_byte (c : ascii) : string := QueryEscape (String c "").

Definition escaped_ok (c : ascii) : bool :=
  negb (str_mem "&" (escape_byte c)) && negb (str_mem "=" (escape_byte c)) && negb (str_mem ";" (escape_byte c))
  && (if unreserved c || bool_decide (c = " "%char) then true
      else is_hex (hex_digit true (byte c / 16)) && is_hex (hex_digit true (byte c mod 16))
           && bool_decide (of_byte (unhex (hex_digit true (byte c / 16)) * 16
                                    + unhex (hex_digit true (byte c mod 16))) = c))
  && (if unreserved c then negb (bool_decide (c = "%"%char)) && negb (bool_decide (c = "+"%char)) else true).

Lemma escaped_ok_all c : escaped_ok c = true.
Proof. apply byte_forall. vm_compute. reflexivity. Qed.

Lemma QueryEscape_cons c s : QueryEscape (String c s) = escape_byte c +:+ QueryEscape s.
Proof. unfold escape_byte. simpl. by repeat case_match. Qed.

Lemma QueryEscape_clean s c : c = "&"%char ∨ c = "="%char ∨ c = ";"%char → str_mem c (QueryEscape s) = false.
Proof.
  intros Hc. induction s as [|a s IH]; [done|].
  rewrite QueryEscape_cons, str_mem_app, IH, orb_false_r.
  pose proof (escaped_ok_all a) as H. unfold escaped_ok in H. breflect.
  destruct H as [[[[??]?]_]_]. by destruct Hc as [->|[->| ->]].
Qed.

Lemma unescape_escape s : QueryUnescape (QueryEscape s) = Some s.
Proof.
  unfold QueryUnescape. induction s as [|c s IH]; [done|].
  pose proof (escaped_ok_all c) as H. unfold escaped_ok in H. breflect. destruct H as [[_ H1] H2].
  simpl. destruct (unreserved c) eqn:Hu.
  - simpl in *. breflect. destruct H2 as [H2 H3].
    simpl. rewrite H2, H3. by rewrite IH.
  - destruct (decide (c = " "%char)) as [->|Hs]; [simpl; by rewrite IH|].
    rewrite bool_decide_eq_false_2 by done.
    rewrite orb_false_l, bool_decide_eq_false_2 in H1 by done. breflect.
    destruct H1 as [[Ha Hb] Hc]. apply bool_decide_eq_true in Hc.
    cbn [unescape]. rewrite bool_decide_eq_true_2 by done. rewrite Ha, Hb, IH. cbn [andb]. simpl. by rewrite Hc.
Qed.

Lemma str_count_app c a b : str_count c (a +:+ b) = str_count c a + str_count c b.
Proof. induction a as [|x a IH]; [done|]. rewrite str_app_cons. simpl. rewrite IH. lia. Qed.

Lemma str_count_0 c a : str_mem c a = false → str_count c a = 0.
Proof. induction a as [|x a IH]; simpl; [done|]. intros [Hx Ha]%orb_false_iff. by rewrite Hx, IH. Qed.

Lemma str_count_join c l :
  l ≠ [] → Forall (λ s, str_mem c s = false) l → str_count c (join (String c "") l) + 1 = Z.of_nat (length l).
Proof.
  intros Hne Hl. induction Hl as [|x l Hx Hl IH]; [done|]. destruct l as [|y l].
  - simpl. by rewrite str_count_0.
  - change (join (String c "") (x :: y :: l)) with (x +:+ String c "" +:+ join (String c "") (y :: l)).
    rewrite !str_count_app, (str_count_0 _ _ Hx). specialize (IH ltac:(done)).
    simpl (str_count c (String c "")). rewrite bool_decide_eq_true_2 by done. simpl length in *. lia.
Qed.

(** [ParseQuery] reads one encoded pair back. *)
Lemma query_piece_pair m k v : query_piece m (encode_pair k v) = (values_add k v m, false).
Proof.
  unfold query_piece, encode_pair.
  assert (contains (QueryEscape k +:+ "=" +:+ QueryEscape v) ";" = false) as ->.
  { rewrite contains_byte, !str_mem_app. rewrite !QueryEscape_clean by tauto. done. }
  rewrite bool_decide_eq_false_2.
  2:{ intros E. apply (f_equal str_len) in E. rewrite !str_len_app in E. change (str_len "=") with 1 in E.
      change (str_len "") with 0 in E.
      pose proof (str_len_nonneg (QueryEscape k)). pose proof (str_len_nonneg (QueryEscape v)). lia. }
  change ("=" +:+ QueryEscape v) with (String "=" (QueryEscape v)).
  rewrite cut_byte_app by (apply QueryEscape_clean; tauto). by rewrite !unescape_escape.
Qed.

Lemma encode_pair_clean k v : str_mem "&" (encode_pair k v) = false.
Proof. unfold encode_pair. rewrite !str_mem_app. by rewrite !QueryEscape_clean by tauto. Qed.

(** Reading back the values of one key. *)
Lemma query_pieces_key m k vs :
  foldl (λ '(m, e) piece, let '(m', e') := query_piece m piece in (m', e || e')) (m, false) (map (encode_pair k) vs)
  = (match vs with [] => m | _ => <[k := default [] (m !! k) ++ vs]> m end, false).
Proof.
  revert m. induction vs as [|v vs IH]; intros m; [done|]. cbn [map foldl].
  rewrite query_piece_pair. cbn [orb]. rewrite IH. f_equal. unfold values_add.
  destruct vs as [|v' vs]; [done|]. rewrite lookup_insert_eq. simpl. rewrite insert_insert_eq.
  by rewrite <- app_assoc.
Qed.

Lemma query_pieces_keys (m acc : values) keys :
  NoDup keys → (∀ k, k ∈ keys → acc !! k = None) → (∀ k vs, m !! k = Some vs → vs ≠ []) →
  ∃ r, foldl (λ '(m, e) piece, let '(m', e') := query_piece m piece in (m', e || e')) (acc, false)
         (concat (map (λ k, map (encode_pair k) (default [] (m !! k))) keys)) = (r, false) ∧
       ∀ k, r !! k = if decide (k ∈ keys) then m !! k else acc !! k.
Proof.
  intros Hn. revert acc. induction Hn as [|x keys Hx Hn IH]; intros acc Hacc Hm; simpl.
  { by exists acc. }
  rewrite foldl_app, query_pieces_key.
  set (acc' := match default [] (m !! x) with [] => acc | _ => _ end).
  assert (∀ k, acc' !! k = if decide (k = x) then m !! x else acc !! k) as Hacc'.
  { intros k. unfold acc'. pose proof (Hacc x ltac:(set_solver)) as Hax.
    destruct (m !! x) as [[|v vs]|] eqn:Hmx; simpl; [by apply Hm in Hmx|..].
    - case_decide; subst; [by rewrite lookup_insert_eq, Hax|by rewrite lookup_insert_ne].
    - by case_decide; subst. }
  destruct (IH acc') as (r & Hr & Hl); [|done|].
  { intros k Hk. rewrite Hacc'. case_decide; [by subst|]. apply Hacc. set_solver. }
  exists r. split; [done|]. intros k. rewrite Hl, Hacc'.
  repeat case_decide; subst; (done || set_solver).
Qed.

(** Everything a canonical query holds survives [Encode] and [ParseQuery]. *)
Lemma parse_encode (m : values) :
  (∀ k vs, m !! k = Some vs → vs ≠ []) → Z.of_nat (length (encode_pieces m)) ≤ url_max_query_params →
  ParseQuery (Encode m) = (m, false).
Proof.
  intros Hm Hlen. unfold ParseQuery, Encode.
  destruct (query_pieces_keys m ∅ (sort_strings (map_to_list m).*1)) as (r & Hr & Hl); [|done|done|].
  { unfold sort_strings. rewrite merge_sort_Permutation. apply NoDup_fst_map_to_list. }
  fold (encode_pieces m) in Hr.
  assert (r = m) as ->.
  { apply map_eq. intros k. rewrite Hl. case_decide as Hk; [done|].
    rewrite lookup_empty. destruct (m !! k) as [vs|] eqn:E; [|done]. exfalso. apply Hk.
    unfold sort_strings. rewrite merge_sort_Permutation. apply list_elem_of_fmap.
    exists (k, vs). split; [done|]. by apply elem_of_map_to_list. }
  destruct (encode_pieces m) as [|x l] eqn:E.
  - simpl in *. by simplify_eq.
  - assert (Forall (λ s, str_mem "&" s = false) (x :: l)) as Hc.
    { rewrite <- E. unfold encode_pieces. rewrite Forall_forall. intros s Hs%list_elem_of_In%in_concat.
      destruct Hs as (ps & Hps & Hs). apply in_map_iff in Hps as (k & <- & _).
      apply in_map_iff in Hs as (v & <- & _). apply encode_pair_clean. }
    pose proof (str_count_join "&" (x :: l) ltac:(done) Hc) as Hcount.
    destruct (Z.ltb_spec url_max_query_params (str_count "&" (join "&" (x :: l)) + 1)); [lia|].
    by rewrite (split_join "&" (x :: l)).
Qed.

(** ** Suffixes *)

Definition trim_suffix (s p : string) : string :=
  match strip_prefix (String.rev p) (String.rev s) with Some r => String.rev r | None => s end.

Lemma rev_app_spec (a b : string) : String.rev_app a b = String.rev a +:+ b.
Proof.
  unfold String.rev. revert b. induction a as [|c a IH]; intros b; [done|]. simpl. rewrite IH, (IH (String c "")).
  by rewrite <- str_app_assoc.
Qed.

Lemma str_rev_cons c (a : string) : String.rev (String c a) = String.rev a +:+ String c "".
Proof. unfold String.rev at 1. simpl. apply rev_app_spec. Qed.

Lemma str_rev_app (a b : string) : String.rev (a +:+ b) = String.rev b +:+ String.rev a.
Proof.
  induction a as [|c a IH]; [by rewrite str_app_nil_r|]. rewrite str_app_cons, !str_rev_cons, IH. by rewrite str_app_assoc.
Qed.

Lemma str_rev_rev (a : string) : String.rev (String.rev a) = a.
Proof. induction a as [|c a IH]; [done|]. by rewrite str_rev_cons, str_rev_app, IH. Qed.

Lemma strip_prefix_app p s : strip_prefix p (p +:+ s) = Some s.
Proof. induction p as [|c p IH]; [done|]. rewrite str_app_cons. simpl. by rewrite bool_decide_eq_true_2. Qed.

Lemma strip_prefix_Some p s r : strip_prefix p s = Some r → s = p +:+ r.
Proof.
  revert s. induction p as [|c p IH]; intros s; simpl; [by intros [= ->]|]. destruct s as [|a s]; [done|].
  case_bool_decide; [|done]. subst. intros H. rewrite str_app_cons. by rewrite (IH _ H).
Qed.

Lemma has_prefix_app p s : has_prefix (p +:+ s) p = true.
Proof. unfold has_prefix. by rewrite strip_prefix_app. Qed.

Lemma has_suffix_app s p : has_suffix (s +:+ p) p = true.
Proof. unfold has_suffix. rewrite str_rev_app. apply has_prefix_app. Qed.

Lemma trim_suffix_app s p : trim_suffix (s +:+ p) p = s.
Proof. unfold trim_suffix. by rewrite str_rev_app, strip_prefix_app, str_rev_rev. Qed.

Lemma has_suffix_Some s p : has_suffix s p = true → s = trim_suffix s p +:+ p.
Proof.
  unfold has_suffix, has_prefix, trim_suffix. destruct (strip_prefix _ _) as [r|] eqn:E; [|done]. intros _.
  apply strip_prefix_Some in E. rewrite <- (str_rev_rev s), E, str_rev_app, !str_rev_rev. done.
Qed.

(** ** Runes and concatenation *)

(** The first rune of a string: its value, its bytes and the rest. *)
Definition first_rune (a : ascii) (s1 : string) : Z * string * string :=
  let a' := byte a in
  let bad := (rune_error, String a EmptyString, s1) in
  if a' <? 128 then (a', String a EmptyString, s1)
  else if (194 <=? a') && (a' <=? 223) then
    match s1 with
    | String b s2 => if cont b 128 191 then ((a' - 192) * 64 + (byte b - 128), String a (String b EmptyString), s2) else bad
    | EmptyString => bad
    end
  else if (224 <=? a') && (a' <=? 239) then
    match s1 with
    | String b (String c s3) =>
        if cont b (if a' =? 224 then 160 else 128) (if a' =? 237 then 159 else 191) && cont c 128 191
        then ((a' - 224) * 4096 + (byte b - 128) * 64 + (byte c - 128), String a (String b (String c EmptyString)), s3)
        else bad
    | _ => bad
    end
  else if (240 <=? a') && (a' <=? 244) then
    match s1 with
    | String b (String c (String d s4)) =>
        if cont b (if a' =? 240 then 144 else 128) (if a' =? 244 then 143 else 191) && cont c 128 191 && cont d 128 191
        then ((a' - 240) * 262144 + (byte b - 128) * 4096 + (byte c - 128) * 64 + (byte d - 128),
              String a (String b (String c (String d EmptyString))), s4)
        else bad
    | _ => bad
    end
  else bad.

Lemma rune_chunks_cons a s1 : rune_chunks (String a s1) = (first_rune a s1).1 :: rune_chunks (first_rune a s1).2.
Proof.
  unfold first_rune. cbn [rune_chunks]. destruct (byte a <? 128); [done|]. destruct (_ && _); [by repeat case_match|].
  destruct (_ && _); [by repeat case_match|]. destruct (_ && _); by repeat case_match.
Qed.

Lemma first_rune_split a s1 : String a s1 = (first_rune a s1).1.2 +:+ (first_rune a s1).2.
Proof. unfold first_rune. repeat case_match; done. Qed.

Lemma first_rune_shorter a s1 : (String.length (first_rune a s1).2 ≤ String.length s1)%nat.
Proof. unfold first_rune. repeat case_match; simpl; lia. Qed.

Lemma first_rune_app x (a : string) c (b : string) :
  byte c < 128 → first_rune x (a +:+ String c b) = ((first_rune x a).1, (first_rune x a).2 +:+ String c b).
Proof.
  intros Hc. assert (∀ lo hi, 128 ≤ lo → cont c lo hi = false) as Hcont.
  { intros lo hi Hlo. unfold cont. destruct (Z.leb_spec lo (byte c)); [lia|done]. }
  unfold first_rune. destruct (byte x <? 128); [done|]. destruct (_ && _).
  { destruct a as [|y a]; [|rewrite str_app_cons; by destruct (cont _ _ _)].
    change ("" +:+ String c b) with (String c b); cbv beta iota. by rewrite Hcont by lia. }
  destruct (_ && _).
  { destruct a as [|y [|z a]]; rewrite ?str_app_cons.
    - change ("" +:+ String c b) with (String c b); cbv beta iota. destruct b; [done|]. rewrite Hcont; [done|]. by case_match.
    - change ("" +:+ String c b) with (String c b); cbv beta iota. rewrite (Hcont 128) by lia. by rewrite andb_false_r.
    - by destruct (_ && _). }
  destruct (_ && _); [|done].
  destruct a as [|y [|z [|w a]]]; rewrite ?str_app_cons.
  - change ("" +:+ String c b) with (String c b); cbv beta iota. destruct b as [|? [|? b]]; [done..|]. rewrite Hcont; [done|]. by case_match.
  - change ("" +:+ String c b) with (String c b); cbv beta iota. destruct b as [|? b]; [done|]. rewrite (Hcont 128) by lia. by rewrite andb_false_r.
  - change ("" +:+ String c b) with (String c b); cbv beta iota. rewrite (Hcont 128) by lia. by rewrite andb_false_r.
  - by destruct (_ && _).
Qed.

(** An ASCII byte is a rune of its own wherever it stands. *)
Lemma rune_chunks_app (a : string) c (b : string) :
  byte c < 128 → rune_chunks (a +:+ String c b) = rune_chunks a ++ rune_chunks (String c b).
Proof.
  intros Hc. remember (String.length a) as n eqn:Hn. revert a Hn. induction n as [n IH] using (well_founded_induction lt_wf).
  intros a ->. destruct a as [|x a]; [done|]. rewrite str_app_cons, !(rune_chunks_cons x), first_rune_app by done. simpl. f_equal.
  eapply IH; [|done]. pose proof (first_rune_shorter x a). simpl. lia.
Qed.

Lemma chunks_str_rune_chunks s : chunks_str (rune_chunks s) = s.
Proof.
  remember (String.length s) as n eqn:Hn. revert s Hn. induction n as [n IH] using (well_founded_induction lt_wf).
  intros s ->. destruct s as [|x s]; [done|]. rewrite rune_chunks_cons. simpl. rewrite (first_rune_split x s). f_equal.
  eapply IH; [|done]. pose proof (first_rune_shorter x s). simpl. lia.
Qed.

Lemma chunks_str_app l1 l2 : chunks_str (l1 ++ l2) = chunks_str l1 +:+ chunks_str l2.
Proof. induction l1 as [|[r x] l1 IH]; [done|]. simpl. rewrite IH. apply str_app_assoc. Qed.

(** Trimming a line that begins and ends with ASCII characters other than blanks removes its newline only. *)
Lemma trim_line c (m : string) d :
  byte c < 128 → is_space (byte c) = false → byte d < 128 → is_space (byte d) = false →
  trim_space (String c (m +:+ String d (String (of_byte 10) ""))) = String c (m +:+ String d "")
  ∧ trim_space (String c (m +:+ String d "")) = String c (m +:+ String d "").
Proof.
  intros Hc Hcs Hd Hds. assert (∀ e l, byte e < 128 → rune_chunks (String e l) = (byte e, String e "") :: rune_chunks l) as Hone.
  { intros e l He. simpl. by rewrite (proj2 (Z.ltb_lt _ _) He). }
  assert (chunks_str ((byte c, String c "") :: rune_chunks m ++ [(byte d, String d "")]) = String c (m +:+ String d "")) as Hall.
  { etrans; [|apply chunks_str_rune_chunks]. f_equal. by rewrite Hone, rune_chunks_app, (Hone d) by done. }
  unfold trim_space. rewrite !(Hone c), !rune_chunks_app, !(Hone d), (Hone (of_byte 10)) by done. simpl drop_space at 2 4. rewrite Hcs.
  split.
  - rewrite reverse_cons, reverse_app. simpl. rewrite Hds. simpl. rewrite <- Hall. f_equal.
    rewrite reverse_cons, reverse_app, reverse_involutive. done.
  - rewrite reverse_cons, reverse_app. simpl. rewrite Hds. simpl. rewrite <- Hall. f_equal.
    rewrite reverse_cons, reverse_app, reverse_involutive. done.
Qed.
