(* ===== verification/Contracts.v ===== *)
(** * Data contracts

    The protobuf messages and enumerations the modelled components exchange
    (proto/yufeng/common/v1, proto/yufeng/artifact/v1).  A proto3 enumeration is
    open: a decoder keeps a number it does not know, so every enumeration has an
    [..._other] constructor.  A message pointer that may be nil is an [option];
    [bytes] and [string] fields are [string]; timestamps and durations are
    nanoseconds. *)

From S2P Require Import Prelude.

(** ** Enumerations *)

Inductive ReleaseMode :=
  | RELEASE_MODE_UNSPECIFIED | RELEASE_MODE_SHADOW | RELEASE_MODE_CANARY
  | RELEASE_MODE_ENFORCE | RELEASE_MODE_other (n : Z).

Inductive ReleaseState :=
  | RELEASE_STATE_UNSPECIFIED | RELEASE_STATE_DRAFT | RELEASE_STATE_SIGNED
  | RELEASE_STATE_SHADOW | RELEASE_STATE_CANARY | RELEASE_STATE_ENFORCE
  | RELEASE_STATE_RETIRED | RELEASE_STATE_other (n : Z).

Inductive RetireReason :=
  | RETIRE_REASON_UNSPECIFIED | RETIRE_REASON_ROLLBACK | RETIRE_REASON_MANUAL
  | RETIRE_REASON_TTL | RETIRE_REASON_SUPERSEDED | RETIRE_REASON_HARD_EXPIRED
  | RETIRE_REASON_other (n : Z).

Inductive IngressPosture :=
  | INGRESS_POSTURE_UNSPECIFIED | INGRESS_POSTURE_REVERSE_PROXY | INGRESS_POSTURE_EXT_AUTHZ
  | INGRESS_POSTURE_TAP_ALERT | INGRESS_POSTURE_MIRROR_OBSERVE | INGRESS_POSTURE_other (n : Z).

Inductive InspectionSurface :=
  | INSPECTION_SURFACE_UNSPECIFIED | INSPECTION_SURFACE_PATH | INSPECTION_SURFACE_QUERY
  | INSPECTION_SURFACE_BODY | INSPECTION_SURFACE_HEADER | INSPECTION_SURFACE_other (n : Z).

Inductive CoverageStatus :=
  | COVERAGE_STATUS_UNSPECIFIED | COVERAGE_STATUS_FULL | COVERAGE_STATUS_PARTIAL
  | COVERAGE_STATUS_ABSENT | COVERAGE_STATUS_UNSUPPORTED | COVERAGE_STATUS_ERROR
  | COVERAGE_STATUS_other (n : Z).

Inductive AttackClass :=
  | ATTACK_CLASS_UNSPECIFIED | ATTACK_CLASS_SQLI | ATTACK_CLASS_XSS | ATTACK_CLASS_PATH_TRAVERSAL
  | ATTACK_CLASS_SSRF | ATTACK_CLASS_CMDI | ATTACK_CLASS_UNMAPPED | ATTACK_CLASS_other (n : Z).

Inductive Kind :=
  | KIND_UNSPECIFIED | KIND_RULE | KIND_PROFILE | KIND_PROCEDURE | KIND_SKILL
  | KIND_TOOL_DESCRIPTOR | KIND_BPF_OBJECT | KIND_SECCOMP_PROFILE | KIND_NFTABLES_RULES
  | KIND_POLICY | KIND_SHAPE | KIND_DETECTOR_MANIFEST | KIND_NORMALIZER_PROFILE
  | KIND_TAXONOMY_MAPPER | KIND_LISTEN_PLAN | KIND_EVIDENCE_POLICY | KIND_EVIDENCE_DIGEST
  | KIND_FORWARD_POLICY | KIND_TRAFFIC_REVIEW_POLICY | KIND_MODEL_PROFILE | KIND_other (n : Z).

#[global] Instance ReleaseMode_eq_dec : EqDecision ReleaseMode. Proof. solve_decision. Defined.
#[global] Instance ReleaseState_eq_dec : EqDecision ReleaseState. Proof. solve_decision. Defined.
#[global] Instance RetireReason_eq_dec : EqDecision RetireReason. Proof. solve_decision. Defined.
#[global] Instance IngressPosture_eq_dec : EqDecision IngressPosture. Proof. solve_decision. Defined.
#[global] Instance InspectionSurface_eq_dec : EqDecision InspectionSurface. Proof. solve_decision. Defined.
#[global] Instance CoverageStatus_eq_dec : EqDecision CoverageStatus. Proof. solve_decision. Defined.
#[global] Instance AttackClass_eq_dec : EqDecision AttackClass. Proof. solve_decision. Defined.
#[global] Instance Kind_eq_dec : EqDecision Kind. Proof. solve_decision. Defined.

(** ** Durations

    [durationpb.Duration] with [AsDuration] (which saturates) and [CheckValid]. *)

Record PbDuration := mkPbDuration { Seconds : Z; Nanos : Z }.

Definition AsDuration (x : PbDuration) : duration :=
  let d := i64 (Seconds x * Second) in
  let over := negb (go_div d Second =? Seconds x) in
  let d := i64 (d + Nanos x) in
  let over := over || ((Seconds x <? 0) && (Nanos x <? 0) && (0 <? d)) in
  let over := over || ((0 <? Seconds x) && (0 <? Nanos x) && (d <? 0)) in
  if over && (Seconds x <? 0) then min_duration
  else if over && (0 <? Seconds x) then max_duration
  else d.

(** [durationpb.New]: seconds and nanoseconds of the same sign. *)
Definition NewDuration (d : duration) : PbDuration :=
  mkPbDuration (go_div d Second) (go_rem d Second).

Definition duration_abs_secs : Z := 315576000000.
Definition CheckValid (x : PbDuration) : bool :=
  (- duration_abs_secs <=? Seconds x) && (Seconds x <=? duration_abs_secs)
  && (- Second <? Nanos x) && (Nanos x <? Second)
  && negb (((0 <? Seconds x) && (Nanos x <? 0)) || ((Seconds x <? 0) && (0 <? Nanos x))).

(** ** Artifacts *)

Record Scope := mkScope { scope_AssetIds : list string; scope_RouteSelector : string }.

Record ReplayReport := mkReplayReport {
  MaliciousTotal : Z; MaliciousBlocked : Z; BenignTotal : Z; BenignBlocked : Z;
  Passed : bool; CorpusRef : string; ManagementTotal : Z; ManagementBlocked : Z;
}.

Record Signature := mkSignature { sig_KeyId : string; Sig : string; SignedAt : option time }.

Record Artifact := mkArtifact {
  Id : string;
  ArtKind : Kind;
  Payload : string;
  PayloadSchema : string;
  ArtScope : option Scope;
  Ttl : option PbDuration;
  Supersedes : string;
  EvidenceRefs : list string;
  art_ReplayReport : option ReplayReport;
  art_Signature : option Signature;
  CreatedAt : option time;
  CreatedBy : string;
  ReviewAt : option time;
  HardExpiresAt : option time;
  ExpiryBehavior : Z;
  ScopeRisk : Z;
  EvidenceClass : Z;
}.

Record ReleaseItem := mkReleaseItem {
  ri_ReleaseId : string;
  ri_Artifact : option Artifact;
  ri_AssetId : string;
  ri_Mode : ReleaseMode;
  ri_CanaryPercent : Z;
  ri_Retired : bool;
  ri_RetireReason : RetireReason;
  ri_ChangedAt : option time;
  ri_GenerationSeq : Z;
}.

Record AssetGeneration := mkAssetGeneration {
  GenerationId : string;
  ParentGenerationId : string;
  GenerationSeq : Z;
  gen_AssetId : string;
  Members : list (option ReleaseItem);
  MinEdgeVersion : string;
  NotBefore : option time;
  RollbackOf : Z;
  EnvelopeSignature : option Signature;
}.

Record ModelIngressWindow := mkModelIngressWindow {
  MaxItems : Z; MaxRetainedBytes : Z; MaxQueueAge : option PbDuration;
}.

Record UnitListenPlan := mkUnitListenPlan {
  lp_UnitId : string;
  lp_Posture : IngressPosture;
  lp_TrafficKey : string;
  lp_FollowUnitId : string;
  lp_Version : Z;
  lp_ListenAddress : string;
  lp_UpstreamUrl : string;
  lp_Signature : option Signature;
  lp_TrustedProxyCidrs : list string;
  lp_ModelIngressWindow : option ModelIngressWindow;
}.

(** ** Policies, shapes, taxonomy

    [PolicyCandidate] also carries governance, lifecycle and rollout metadata that
    only the control plane reads; they are left out. *)

Record DetectionKey := mkDetectionKey {
  DetectorId : string; DetectorVersion : string; DetectorManifestDigest : string;
  key_RuleId : string; key_Phase : string; TargetLocation : InspectionSurface;
  TargetSelector : string; NormalizationProfileDigest : string;
}.

Record PolicyScope := mkPolicyScope {
  ps_AssetId : string; ps_Hosts : list string; ps_RouteTemplate : string;
  ps_PathPrefix : string; ps_Methods : list string; ps_ContentTypes : list string;
  ps_TargetSelectors : list string;
}.

Record PolicyPredicate := mkPolicyPredicate {
  DetectionKeys : list (option DetectionKey);
  MinAnomalyScore : f64;
  RequireMatchPresent : bool;
  CoverageRequirement : CoverageStatus;
}.

Record PolicyDependencies := mkPolicyDependencies {
  dep_DetectorManifestDigest : string; dep_NormalizerProfileDigest : string;
  dep_MinEdgeVersion : string;
}.

Record PolicyCandidate := mkPolicyCandidate {
  PolicyId : string;
  pc_Scope : option PolicyScope;
  pc_Predicate : option PolicyPredicate;
  pc_Action : string;
  pc_Dependencies : option PolicyDependencies;
}.

Record TaxonomyRule := mkTaxonomyRule {
  tr_RuleId : string; tr_AttackClass : AttackClass; tr_RulePrefix : string;
}.
Record TaxonomyMapper := mkTaxonomyMapper {
  TaxonomyVersion : string; tm_Rules : list (option TaxonomyRule);
}.

Record HttpInspectionProfile := mkHttpInspectionProfile {
  NormalizePath : bool;
  PercentDecodeRounds : Z;
  EncodedSlash : string;
  DuplicateQuery : string;
  DuplicateHeader : string;
  ClTeConflict : string;
  JsonDuplicateKey : string;
  MultipartMaxParts : Z;
  MultipartMaxPartBytes : Z;
  DecompressAlgorithms : list string;
  DecompressMaxBytes : Z;
  MaxHeaders : Z;
  MaxParams : Z;
  JsonMaxDepth : Z;
  prof_EngineBodyLimitBytes : Z;
}.

Record ShapeConstraint := mkShapeConstraint {
  sc_Selector : string; sc_MinLen : Z; sc_MaxLen : Z; sc_Charset : string;
}.
Record ShapeSource := mkShapeSource {
  ss_Methods : list string; ss_RouteTemplate : string; ss_PathPrefix : string;
  ss_Constraints : list (option ShapeConstraint);
}.

Record DetectorManifest := mkDetectorManifest {
  dm_DetectorId : string; dm_Version : string; dm_TarballSha256 : string;
  dm_GoModule : string; dm_Paranoia : Z; dm_IncludeFiles : list string;
}.

#[global] Instance PbDuration_eq_dec : EqDecision PbDuration. Proof. solve_decision. Defined.
#[global] Instance ModelIngressWindow_eq_dec : EqDecision ModelIngressWindow. Proof. solve_decision. Defined.
#[global] Instance Signature_eq_dec : EqDecision Signature. Proof. solve_decision. Defined.
#[global] Instance ReplayReport_eq_dec : EqDecision ReplayReport. Proof. solve_decision. Defined.
#[global] Instance Scope_eq_dec : EqDecision Scope. Proof. solve_decision. Defined.
#[global] Instance Artifact_eq_dec : EqDecision Artifact. Proof. solve_decision. Defined.
#[global] Instance ReleaseItem_eq_dec : EqDecision ReleaseItem. Proof. solve_decision. Defined.
#[global] Instance AssetGeneration_eq_dec : EqDecision AssetGeneration. Proof. solve_decision. Defined.
#[global] Instance UnitListenPlan_eq_dec : EqDecision UnitListenPlan. Proof. solve_decision. Defined.
#[global] Instance DetectionKey_eq_dec : EqDecision DetectionKey. Proof. solve_decision. Defined.

(** ** Payloads of generation members that the edge stores but only parts of which it reads *)

Inductive ForwardPolicyKind :=
  | FORWARD_POLICY_KIND_UNSPECIFIED | FORWARD_POLICY_KIND_NONE | FORWARD_POLICY_KIND_WORKER_SCORE
  | FORWARD_POLICY_KIND_MODELGW_SCORE | FORWARD_POLICY_KIND_AGENT_INVESTIGATE | FORWARD_POLICY_KIND_other (n : Z).
Record ForwardPolicy := mkForwardPolicy { fwd_Kind : ForwardPolicyKind }.

Record EvidenceDigest := mkEvidenceDigest { ed_Algorithm : Z; ed_MaxSpanBytes : Z; ed_Fields : list string }.
Definition EVIDENCE_DIGEST_ALGORITHM_SPAN_SHA256 : Z := 1.

(** [TrafficReviewMode] is compared with [<] and [>]: it is kept as its number. *)
Definition TRAFFIC_REVIEW_MODE_OFF : Z := 1.
Definition TRAFFIC_REVIEW_MODE_STATISTICS_ONLY : Z := 2.
Definition TRAFFIC_REVIEW_MODE_REDACTED_CASES : Z := 3.
Definition TRAFFIC_REVIEW_MODE_EVIDENCE_ON_APPROVAL : Z := 4.
Definition TRAFFIC_REVIEW_MODE_SHADOW_CANDIDATES : Z := 5.
Record TrafficReviewPolicy := mkTrafficReviewPolicy {
  trp_Mode : Z; trp_WindowSeconds : Z; trp_TopRouteCells : Z; trp_MaxCandidatesPerWindow : Z;
  trp_MaxEvidenceBytes : Z; trp_VaultMaxBytes : Z; trp_EvidenceTtlSeconds : Z;
}.

Definition MODEL_DEDUPE_RULE_METHOD_ROUTE_HIGHEST_SCORE : Z := 1.
Record ModelProfile := mkModelProfile {
  ProfileId : string; ModelGroup : string; ModelType : string; ModelVersion : string;
  AlertThreshold : f64; ReviewFloor : f64; ReviewWindowSeconds : Z; MaxReviewPerUnit : Z;
  MaxReviewPerRoute : Z; DedupeRule : Z; AllowedHeaders : list string; MaxBodyBytes : Z;
  ReviewNewRoutes : bool; ReviewInsufficientCoverage : bool;
}.

#[global] Instance ForwardPolicyKind_eq_dec : EqDecision ForwardPolicyKind. Proof. solve_decision. Defined.
#[global] Instance ModelProfile_eq_dec : EqDecision ModelProfile. Proof. solve_decision. Defined.
