(* ===== verification/Signing.v ===== *)
(** * Artifact identity, signing and verification (lib/kernel/artifact.go, generation.go,
    listen_plan.go, keyring.go)

    SHA-256, Ed25519 and the deterministic protobuf encoding are parameters
    ([Crypto]); what the code relies on of them is [CryptoLaws]: a signature made
    with a well-formed private key verifies under its public key, and keys and
    signatures have their documented lengths. *)

From S2P Require Import Prelude GoStrings Contracts.

Definition PublicKeySize : Z := 32.
Definition PrivateKeySize : Z := 64.

Class Crypto := {
  sha256 : string → string;
  ed25519_sign : string → string → string;
  ed25519_verify : string → string → string → bool;
  ed25519_public : string → string;
  marshal_artifact : Artifact → option string;
  marshal_generation : AssetGeneration → option string;
  marshal_listen_plan : UnitListenPlan → option string;
}.

Class CryptoLaws (C : Crypto) : Prop := {
  sign_verifies k m : str_len k = PrivateKeySize →
    ed25519_verify (ed25519_public k) m (ed25519_sign k m) = true;
  public_length k : str_len k = PrivateKeySize → str_len (ed25519_public k) = PublicKeySize;
  signature_length k m : str_len k = PrivateKeySize → str_len (ed25519_sign k m) = 64;
}.

(** The [Signer] interface; [typed] is the optional [SignTyped] method. *)
Record Signer := mkSigner {
  signer_KeyID : string;
  signer_Public : string;
  signer_Sign : string → result string;
  signer_SignTyped : option (string → string → result string);
}.
Definition SignOperationArtifact : string := "artifact".
Definition SignOperationAssetGeneration : string := "asset_generation".
Definition SignOperationListenPlan : string := "unit_listen_plan".
Definition SignOperationAuditCheckpoint : string := "audit_checkpoint".

Section signing.
Context {C : Crypto}.

Definition KeyID (pub : string) : string := hex_encode (sha256 pub).

Definition clear_identity (a : Artifact) : Artifact :=
  mkArtifact "" (ArtKind a) (Payload a) (PayloadSchema a) (ArtScope a) (Ttl a) (Supersedes a)
    (EvidenceRefs a) (art_ReplayReport a) None (CreatedAt a) (CreatedBy a) (ReviewAt a)
    (HardExpiresAt a) (ExpiryBehavior a) (ScopeRisk a) (EvidenceClass a).

Definition with_id (a : Artifact) (id : string) : Artifact :=
  mkArtifact id (ArtKind a) (Payload a) (PayloadSchema a) (ArtScope a) (Ttl a) (Supersedes a)
    (EvidenceRefs a) (art_ReplayReport a) (art_Signature a) (CreatedAt a) (CreatedBy a) (ReviewAt a)
    (HardExpiresAt a) (ExpiryBehavior a) (ScopeRisk a) (EvidenceClass a).

Definition with_signature (a : Artifact) (s : Signature) : Artifact :=
  mkArtifact (Id a) (ArtKind a) (Payload a) (PayloadSchema a) (ArtScope a) (Ttl a) (Supersedes a)
    (EvidenceRefs a) (art_ReplayReport a) (Some s) (CreatedAt a) (CreatedBy a) (ReviewAt a)
    (HardExpiresAt a) (ExpiryBehavior a) (ScopeRisk a) (EvidenceClass a).

Definition canonicalBytes (a : Artifact) : result string :=
  match marshal_artifact (clear_identity a) with
  | Some b => Ok b
  | None => Err "marshal"
  end.

Definition ArtifactID (a : option Artifact) : result string :=
  match a with
  | None => Err "artifact is nil"
  | Some a => let! canonical := canonicalBytes a in Ok ("sha256:" +:+ hex_encode (sha256 canonical))
  end.

(** [a.Signature != nil && len(a.Signature.Sig) > 0] *)
Definition has_signature (s : option Signature) : bool :=
  match s with Some s => 0 <? str_len (Sig s) | None => false end.

Definition VerifyArtifact (a : option Artifact) (pub : string) : result unit :=
  match a with
  | None => Err "artifact is nil"
  | Some art =>
      let! want := ArtifactID a in
      guard! bool_decide (Id art = want) else "artifact id does not match envelope hash" in
      match art_Signature art with
      | Some s =>
          guard! 0 <? str_len (Sig s) else "missing signature" in
          guard! str_len pub =? PublicKeySize else "invalid public key length" in
          let! canonical := canonicalBytes art in
          guard! ed25519_verify pub canonical (Sig s) else "signature verification failed" in
          Ok tt
      | None => Err "missing signature"
      end
  end.

(** The signing functions fill [a] in place: they return the artifact as it is
    after the call next to the error. *)
Definition SignArtifact (a : option Artifact) (key : string) (now : time) : option Artifact * result unit :=
  if negb (str_len key =? PrivateKeySize) then (a, Err "invalid private key length")
  else match a with
  | None => (a, Err "artifact is nil")
  | Some art =>
      if has_signature (art_Signature art) then (a, Err "already signed, refusing to re-sign")
      else match ArtifactID a with
      | Err e => (a, Err e)
      | Ok want =>
          if negb (bool_decide (Id art = "")) && negb (bool_decide (Id art = want))
          then (a, Err "artifact id does not match envelope hash, refusing to sign")
          else
            let art := if bool_decide (Id art = "") then with_id art want else art in
            match canonicalBytes art with
            | Err e => (Some art, Err e)
            | Ok canonical =>
                (Some (with_signature art
                   (mkSignature (KeyID (ed25519_public key)) (ed25519_sign key canonical) (Some now))), Ok tt)
            end
      end
  end.

Definition SignArtifactWithSigner (a : option Artifact) (s : option Signer) (now : time)
    : option Artifact * result unit :=
  match s with
  | None => (a, Err "signer is nil")
  | Some s =>
      match a with
      | None => (a, Err "artifact is nil")
      | Some art =>
          if has_signature (art_Signature art) then (a, Err "already signed, refusing to re-sign")
          else match ArtifactID a with
          | Err e => (a, Err e)
          | Ok want =>
              if negb (bool_decide (Id art = "")) && negb (bool_decide (Id art = want))
              then (a, Err "artifact id does not match envelope hash, refusing to sign")
              else
                let art := if bool_decide (Id art = "") then with_id art want else art in
                match canonicalBytes art with
                | Err e => (Some art, Err e)
                | Ok canonical =>
                    let sig := match signer_SignTyped s with
                               | Some typed =>
                                   match marshal_artifact art with
                                   | None => Err "marshal"
                                   | Some envelope => typed SignOperationArtifact envelope
                                   end
                               | None => signer_Sign s canonical
                               end in
                    match sig with
                    | Err e => (Some art, Err e)
                    | Ok sig => (Some (with_signature art (mkSignature (signer_KeyID s) sig (Some now))), Ok tt)
                    end
                end
          end
      end
  end.

(** ** Asset generations *)

Definition clear_envelope_signature (g : AssetGeneration) : AssetGeneration :=
  mkAssetGeneration (GenerationId g) (ParentGenerationId g) (GenerationSeq g) (gen_AssetId g)
    (Members g) (MinEdgeVersion g) (NotBefore g) (RollbackOf g) None.

Definition generationCanonical (g : AssetGeneration) : result string :=
  match marshal_generation (clear_envelope_signature g) with
  | Some b => Ok b
  | None => Err "marshal"
  end.

Definition with_envelope_signature (g : AssetGeneration) (s : Signature) : AssetGeneration :=
  mkAssetGeneration (GenerationId g) (ParentGenerationId g) (GenerationSeq g) (gen_AssetId g)
    (Members g) (MinEdgeVersion g) (NotBefore g) (RollbackOf g) (Some s).

Definition SignGeneration (g : option AssetGeneration) (key : string) (now : time)
    : option AssetGeneration * result unit :=
  match g with
  | None => (g, Err "generation is nil")
  | Some gen =>
      if negb (str_len key =? PrivateKeySize) then (g, Err "invalid private key length")
      else if has_signature (EnvelopeSignature gen) then (g, Err "generation already signed")
      else match generationCanonical gen with
      | Err e => (g, Err e)
      | Ok canon =>
          (Some (with_envelope_signature gen
             (mkSignature (KeyID (ed25519_public key)) (ed25519_sign key canon) (Some now))), Ok tt)
      end
  end.

Definition SignGenerationWithSigner (g : option AssetGeneration) (s : option Signer) (now : time)
    : option AssetGeneration * result unit :=
  match s, g with
  | None, _ => (g, Err "signer is nil")
  | Some _, None => (g, Err "generation is nil")
  | Some s, Some gen =>
      if has_signature (EnvelopeSignature gen) then (g, Err "generation already signed")
      else match generationCanonical gen with
      | Err e => (g, Err e)
      | Ok canon =>
          match match signer_SignTyped s with
                | Some typed =>
                    match marshal_generation gen with
                    | None => Err "marshal"
                    | Some envelope => typed SignOperationAssetGeneration envelope
                    end
                | None => signer_Sign s canon
                end with
          | Err e => (g, Err e)
          | Ok sig => (Some (with_envelope_signature gen (mkSignature (signer_KeyID s) sig (Some now))), Ok tt)
          end
      end
  end.

Definition VerifyGeneration (g : option AssetGeneration) (pub : string) : result unit :=
  match g with
  | None => Err "generation is nil"
  | Some gen =>
      match EnvelopeSignature gen with
      | Some s =>
          guard! 0 <? str_len (Sig s) else "generation envelope missing signature" in
          guard! str_len pub =? PublicKeySize else "invalid public key length" in
          let! canon := generationCanonical gen in
          guard! ed25519_verify pub canon (Sig s) else "generation envelope signature verification failed" in
          Ok tt
      | None => Err "generation envelope missing signature"
      end
  end.

(** ** Unit listen plans *)

Definition with_plan_signature (p : UnitListenPlan) (s : option Signature) : UnitListenPlan :=
  mkUnitListenPlan (lp_UnitId p) (lp_Posture p) (lp_TrafficKey p) (lp_FollowUnitId p) (lp_Version p)
    (lp_ListenAddress p) (lp_UpstreamUrl p) s (lp_TrustedProxyCidrs p) (lp_ModelIngressWindow p).

Definition unitListenPlanBytes (p : UnitListenPlan) : result string :=
  match marshal_listen_plan (with_plan_signature p None) with
  | Some b => Ok b
  | None => Err "marshal unit listen plan"
  end.

Definition SignUnitListenPlan (p : option UnitListenPlan) (key : string) (now : time)
    : option UnitListenPlan * result unit :=
  if negb (str_len key =? PrivateKeySize) then (p, Err "invalid private key length")
  else match p with
  | None => (p, Err "unit listen plan is nil")
  | Some plan =>
      if has_signature (lp_Signature plan) then (p, Err "unit listen plan is already signed")
      else match unitListenPlanBytes plan with
      | Err e => (p, Err e)
      | Ok raw =>
          (Some (with_plan_signature plan
             (Some (mkSignature (KeyID (ed25519_public key)) (ed25519_sign key raw) (Some now)))), Ok tt)
      end
  end.

Definition SignUnitListenPlanWithSigner (p : option UnitListenPlan) (s : option Signer) (now : time)
    : option UnitListenPlan * result unit :=
  match s, p with
  | None, _ => (p, Err "signer is nil")
  | Some _, None => (p, Err "unit listen plan is nil")
  | Some s, Some plan =>
      if has_signature (lp_Signature plan) then (p, Err "unit listen plan is already signed")
      else match unitListenPlanBytes plan with
      | Err e => (p, Err e)
      | Ok raw =>
          match match signer_SignTyped s with
                | Some typed =>
                    match marshal_listen_plan plan with
                    | None => Err "marshal"
                    | Some envelope => typed SignOperationListenPlan envelope
                    end
                | None => signer_Sign s raw
                end with
          | Err e => (p, Err e)
          | Ok sig => (Some (with_plan_signature plan (Some (mkSignature (signer_KeyID s) sig (Some now)))), Ok tt)
          end
      end
  end.

Definition VerifyUnitListenPlan (p : option UnitListenPlan) (pub : string) : result unit :=
  match p with
  | None => Err "unit listen plan is nil"
  | Some plan =>
      guard! str_len pub =? PublicKeySize else "invalid public key length" in
      match lp_Signature plan with
      | Some s =>
          guard! 0 <? str_len (Sig s) else "unit listen plan signature is missing" in
          guard! bool_decide (sig_KeyId s = KeyID pub) else "unit listen plan key id does not match public key" in
          let! raw := unitListenPlanBytes plan in
          guard! ed25519_verify pub raw (Sig s) else "unit listen plan signature verification failed" in
          Ok tt
      | None => Err "unit listen plan signature is missing"
      end
  end.

(** ** The verification ring of a rotated key *)

Definition NewVerifyRing (pubs : list string) : result (list string) :=
  let kept := filter (λ p, str_len p = PublicKeySize) pubs in
  if bool_decide (kept = []) then Err "verify ring is empty" else Ok kept.

Fixpoint ring_verify (pubs : list string) (a : option Artifact) (last : option string) : result unit :=
  match pubs with
  | [] => Err (default "artifact signature is invalid" last)
  | p :: pubs' =>
      match VerifyArtifact a p with
      | Ok _ => Ok tt
      | Err e => ring_verify pubs' a (Some e)
      end
  end.

Definition VerifyRing_Verify (r : option (list string)) (a : option Artifact) : result unit :=
  match r with
  | None => Err "verify ring is nil"
  | Some pubs => ring_verify pubs a None
  end.
End signing.

(** ** A concrete instance

    A toy signature scheme that satisfies [CryptoLaws]; witnesses run the model on it. *)

Fixpoint str_pad (n : nat) (s : string) : string :=
  match n, s with
  | O, _ => EmptyString
  | S n', EmptyString => String "0"%char (str_pad n' EmptyString)
  | S n', String c s' => String c (str_pad n' s')
  end.

Lemma str_pad_length n s : str_len (str_pad n s) = Z.of_nat n.
Proof.
  unfold str_len. f_equal. revert s. induction n as [|n IH]; intros [|c s]; simpl; try done; by rewrite IH.
Qed.

Definition toy_crypto : Crypto := {|
  sha256 s := str_pad 32 s;
  ed25519_public k := str_pad 32 k;
  ed25519_sign k m := str_pad 64 (str_pad 32 k +:+ m);
  ed25519_verify p m s := bool_decide (s = str_pad 64 (p +:+ m));
  marshal_artifact a := Some (Id a +:+ Payload a +:+ PayloadSchema a);
  marshal_generation g := Some (GenerationId g +:+ gen_AssetId g);
  marshal_listen_plan p := Some (lp_UnitId p +:+ lp_TrafficKey p);
|}.

Definition toy_key : string := str_pad 64 "k".

Lemma toy_crypto_laws : CryptoLaws toy_crypto.
Proof.
  split; intros.
  - by apply bool_decide_eq_true.
  - apply str_pad_length.
  - apply str_pad_length.
Defined.

(** ** Properties *)

Section signing_facts.
Context {C : Crypto}.

Lemma canonicalBytes_with_id a id : canonicalBytes (with_id a id) = canonicalBytes a.
Proof. done. Qed.

Lemma canonicalBytes_with_signature a s : canonicalBytes (with_signature a s) = canonicalBytes a.
Proof. done. Qed.

(** Whoever produced [sig], an artifact filled in by the common tail of the two
    signing functions verifies exactly when [sig] verifies on its canonical bytes. *)
Lemma verify_filled (art : Artifact) (sig : Signature) canonical pub :
  canonicalBytes art = Ok canonical →
  Id art = "sha256:" +:+ hex_encode (sha256 canonical) →
  0 < str_len (Sig sig) → str_len pub = PublicKeySize →
  ed25519_verify pub canonical (Sig sig) = true →
  VerifyArtifact (Some (with_signature art sig)) pub = Ok tt.
Proof.
  intros Hc Hid Hlen Hpub Hv. unfold VerifyArtifact, ArtifactID.
  rewrite canonicalBytes_with_signature, Hc. simpl. rewrite Hid.
  rewrite bool_decide_eq_true_2 by done.
  rewrite (proj2 (Z.ltb_lt _ _) Hlen), Hpub, Z.eqb_refl. by rewrite Hv.
Qed.

(** What [VerifyArtifact] accepts: a content address, and a signature on the same bytes. *)
Lemma VerifyArtifact_Ok a pub :
  VerifyArtifact (Some a) pub = Ok tt ↔
  ∃ canonical s, canonicalBytes a = Ok canonical ∧
    Id a = "sha256:" +:+ hex_encode (sha256 canonical) ∧
    art_Signature a = Some s ∧ 0 < str_len (Sig s) ∧ str_len pub = PublicKeySize ∧
    ed25519_verify pub canonical (Sig s) = true.
Proof.
  unfold VerifyArtifact, ArtifactID. destruct (canonicalBytes a) as [c|e]; simpl; [|naive_solver].
  case_bool_decide as Hid; [|naive_solver].
  destruct (art_Signature a) as [s|]; [|naive_solver].
  destruct (Z.ltb_spec 0 (str_len (Sig s))); [|split; [done|]; intros (?&?&?&?&?&?&?); simplify_eq; lia].
  destruct (Z.eqb_spec (str_len pub) PublicKeySize); [|naive_solver].
  destruct (ed25519_verify pub c (Sig s)) eqn:Hv; naive_solver congruence.
Qed.

Lemma ring_verify_Ok pubs a last :
  ring_verify pubs a last = Ok tt ↔ ∃ p, p ∈ pubs ∧ VerifyArtifact a p = Ok tt.
Proof.
  revert last. induction pubs as [|p pubs IH]; intros last; simpl.
  - split; [done|]. intros (p & Hp & _). set_solver.
  - destruct (VerifyArtifact a p) as [[]|e] eqn:Hv.
    + split; [|done]. intros _. exists p. set_solver.
    + rewrite IH. split; intros (q & Hq & Hok); exists q; [set_solver|].
      apply elem_of_cons in Hq as [->|Hq]; [congruence|done].
Qed.

Context {L : CryptoLaws C}.

Lemma SignArtifact_Ok a key now a' :
  SignArtifact a key now = (a', Ok tt) →
  ∃ art art0 canonical, a = Some art0 ∧ art = (if bool_decide (Id art0 = "") then with_id art0
      ("sha256:" +:+ hex_encode (sha256 canonical)) else art0) ∧
    str_len key = PrivateKeySize ∧
    canonicalBytes art0 = Ok canonical ∧ Id art = "sha256:" +:+ hex_encode (sha256 canonical) ∧
    a' = Some (with_signature art (mkSignature (KeyID (ed25519_public key)) (ed25519_sign key canonical) (Some now))).
Proof.
  unfold SignArtifact, ArtifactID.
  destruct (Z.eqb_spec (str_len key) PrivateKeySize) as [Hk|]; [|done]; simpl.
  destruct a as [art|]; [|done].
  destruct (has_signature _); [done|].
  destruct (canonicalBytes art) as [c|] eqn:Hc; simpl; [|done].
  case_bool_decide as Hid0; simpl.
  - rewrite canonicalBytes_with_id, Hc. intros [= <-].
    exists (with_id art ("sha256:" +:+ hex_encode (sha256 c))), art, c.
    split_and!; try done. by rewrite bool_decide_eq_true_2.
  - case_bool_decide as Hid; simpl; [|done]. rewrite Hc. intros [= <-].
    exists art, art, c. split_and!; try done. by rewrite bool_decide_eq_false_2.
Qed.
End signing_facts.

Lemma sign_then_verify_lemma {C : Crypto} {L : CryptoLaws C} a key now a' :
  SignArtifact a key now = (a', Ok tt) → VerifyArtifact a' (ed25519_public key) = Ok tt.
Proof.
  intros (art & art0 & c & -> & Hart & Hk & Hc & Hid & ->)%SignArtifact_Ok.
  eapply verify_filled; simpl; eauto.
  - rewrite <- Hc, Hart. by case_bool_decide.
  - rewrite signature_length by done. lia.
  - by apply public_length.
  - by apply sign_verifies.
Qed.

(** An artifact that [SignArtifact] signs without error passes
    [VerifyArtifact] under the signer's public key. *)
Theorem sign_then_verify {C : Crypto} {L : CryptoLaws C} a key now a' :
  SignArtifact a key now = (a', Ok tt) → VerifyArtifact a' (ed25519_public key) = Ok tt.
Proof. apply sign_then_verify_lemma. Qed.

Definition sample_artifact (id payload : string) (sig : option Signature) : Artifact :=
  mkArtifact id KIND_RULE payload "rules/v1" None None "" [] None sig None "" None None 0 0 0.

Lemma sign_then_verify_witness :
  ∃ a', VerifyArtifact (C := toy_crypto) a' (ed25519_public (Crypto := toy_crypto) toy_key) = Ok tt.
Proof.
  eexists. eapply (@sign_then_verify toy_crypto toy_crypto_laws (Some (sample_artifact "" "p" None)) toy_key 0).
  vm_compute. reflexivity.
Defined.

(** [VerifyArtifact] accepts exactly the artifacts whose identifier is
    the hash of their canonical bytes (all fields but id and signature) and whose
    signature is valid on those same bytes under a 32-byte public key. *)
Theorem verify_accepts_iff {C : Crypto} a pub :
  VerifyArtifact (Some a) pub = Ok tt ↔
  ∃ canonical s, canonicalBytes a = Ok canonical ∧
    Id a = "sha256:" +:+ hex_encode (sha256 canonical) ∧
    art_Signature a = Some s ∧ 0 < str_len (Sig s) ∧ str_len pub = PublicKeySize ∧
    ed25519_verify pub canonical (Sig s) = true.
Proof. apply VerifyArtifact_Ok. Qed.

(** After a key rotation the ring built from any list of keys accepts an
    artifact exactly when one of the well-formed keys verifies it. *)
Theorem verify_ring_any {C : Crypto} pubs ring a :
  NewVerifyRing pubs = Ok ring →
  VerifyRing_Verify (Some ring) a = Ok tt ↔
  ∃ p, p ∈ pubs ∧ str_len p = PublicKeySize ∧ VerifyArtifact a p = Ok tt.
Proof.
  unfold NewVerifyRing. case_bool_decide; [done|]. intros [= <-]. simpl.
  rewrite ring_verify_Ok. split; intros (p & Hp & ?).
  - apply list_elem_of_filter in Hp. naive_solver.
  - exists p. rewrite list_elem_of_filter. naive_solver.
Qed.

Lemma verify_ring_any_witness :
  VerifyRing_Verify (C := toy_crypto) (Some [ed25519_public (Crypto := toy_crypto) toy_key])
    (SignArtifact (C := toy_crypto) (Some (sample_artifact "" "p" None)) toy_key 0).1 = Ok tt.
Proof.
  apply (@verify_ring_any toy_crypto ["short"; ed25519_public (Crypto := toy_crypto) toy_key]).
  - vm_compute. reflexivity.
  - exists (ed25519_public (Crypto := toy_crypto) toy_key). split_and!; [set_solver|by vm_compute|by vm_compute].
Defined.
