(* ===== verification/SignerService.v ===== *)
(** * The typed signing service (lib/kernel/signer.go, checkpoint.go)

    Production code holds no private key: [SocketSigner] sends a typed envelope over a
    unix socket to a process that owns the key ([serve_conn] is one connection of
    [ServeMemorySignerForUID]), which re-parses the envelope, rebuilds the canonical
    bytes itself and signs those.  Protobuf and JSON decoding are parameters ([Wire])
    with their round-trip laws ([WireLaws]); the socket is the function from the bytes
    a client writes to the bytes the peer answers. *)

From S2P Require Import Prelude GoStrings Contracts Signing.

Definition signingProtocolVersion : string := "signer/v1".
Definition signingMessageLimit : Z := 2 ^ 20.
Definition SignatureSize : Z := 64.

Record signingRequest := mkSigningRequest { rq_Version : string; rq_Operation : string; rq_Envelope : string }.
Record signingResponse := mkSigningResponse { rs_Signature : string; rs_Error : string }.
Record MemorySigner := mkMemorySigner { ms_key : string; RollbackOnly : bool }.
Record SocketSigner := mkSocketSigner { ss_addr : string; ss_pub : string }.
Record AuditCheckpoint := mkAuditCheckpoint {
  Sequence : Z; Head : string; cp_CreatedAt : option time; cp_KeyID : string; cp_Signature : string;
}.

Class Wire := {
  unmarshal_artifact : string → option Artifact;
  unmarshal_generation : string → option AssetGeneration;
  unmarshal_listen_plan : string → option UnitListenPlan;
  json_request : signingRequest → string;
  json_parse_request : string → option signingRequest;
  json_response : signingResponse → string;
  json_parse_response : string → option signingResponse;
  json_checkpoint : AuditCheckpoint → option string;
  json_parse_checkpoint : string → option AuditCheckpoint;
}.

(** Decoding undoes encoding.  The JSON laws ask for ASCII texts, which is what the
    protocol's constants and error messages are (encoding/json replaces invalid UTF-8). *)
Class WireLaws (C : Crypto) (W : Wire) : Prop := {
  artifact_roundtrip a b : marshal_artifact a = Some b → unmarshal_artifact b = Some a;
  generation_roundtrip g b : marshal_generation g = Some b → unmarshal_generation b = Some g;
  listen_plan_roundtrip p b : marshal_listen_plan p = Some b → unmarshal_listen_plan b = Some p;
  request_roundtrip r : is_ascii (rq_Version r) = true → is_ascii (rq_Operation r) = true →
    json_parse_request (json_request r) = Some r;
  response_roundtrip r : is_ascii (rs_Error r) = true → json_parse_response (json_response r) = Some r;
}.

(** ** Frames: a big-endian [uint32] length and the payload *)

Definition be32 (n : Z) : string :=
  String (of_byte (n / 2 ^ 24 mod 256)) (String (of_byte (n / 2 ^ 16 mod 256))
    (String (of_byte (n / 2 ^ 8 mod 256)) (String (of_byte (n mod 256)) ""))).

(** [writeSigningFrame]: the bytes put on the writer, or the error. *)
Definition writeSigningFrame (raw : string) : result string :=
  if (str_len raw =? 0) || (signingMessageLimit <? str_len raw) then Err "signing frame exceeds limit"
  else Ok (be32 (u32 (str_len raw)) +:+ raw).

(** [io.ReadFull] of [n] bytes: the bytes and what is left, or [None] at an early end. *)
Fixpoint read_full (n : nat) (s : string) : option (string * string) :=
  match n, s with
  | O, _ => Some ("", s)
  | S _, "" => None
  | S n', String c s' =>
      match read_full n' s' with
      | Some (a, rest) => Some (String c a, rest)
      | None => None
      end
  end%string.

Definition be32_decode (h : string) : Z :=
  match h with
  | String a (String b (String c (String d _))) =>
      byte a * 2 ^ 24 + byte b * 2 ^ 16 + byte c * 2 ^ 8 + byte d
  | _ => 0
  end.

Definition readSigningFrame (input : string) : result (string * string) :=
  match read_full 4 input with
  | None => Err "unexpected EOF"
  | Some (header, rest) =>
      let size := be32_decode header in
      if (size <=? 0) || (signingMessageLimit <? size) then Err "signing frame exceeds limit"
      else match read_full (Z.to_nat size) rest with
      | None => Err "unexpected EOF"
      | Some (raw, rest) => Ok (raw, rest)
      end
  end.

Section service.
Context {C : Crypto} {W : Wire}.

(** ** Audit checkpoints *)

Definition auditCheckpointEnvelope (cp : AuditCheckpoint) : result string :=
  match json_checkpoint (mkAuditCheckpoint (Sequence cp) (Head cp) (cp_CreatedAt cp) "" "") with
  | Some raw => Ok raw
  | None => Err "json"
  end.

Definition canonicalAuditCheckpoint (raw : string) : result string :=
  match json_parse_checkpoint raw with
  | None => Err "audit checkpoint signing envelope is invalid"
  | Some cp =>
      if (Sequence cp <=? 0) || bool_decide (trim_space (Head cp) = "") || bool_decide (cp_CreatedAt cp = None)
         || negb (bool_decide (cp_KeyID cp = "")) || negb (str_len (cp_Signature cp) =? 0)
      then Err "audit checkpoint signing envelope is invalid"
      else match json_checkpoint cp with
           | Some b => Ok b
           | None => Err "json"
           end
  end.

(** ** What a signer agrees to sign *)

(** [member.GetArtifact() == nil || VerifyArtifact(member.GetArtifact(), public) != nil] *)
Definition member_unsigned (pub : string) (m : option ReleaseItem) : bool :=
  match m ≫= ri_Artifact with
  | None => true
  | Some a => negb (is_ok (VerifyArtifact (Some a) pub))
  end.

Definition canonicalTypedSigningRequest (rq : signingRequest) (public : string) : result string :=
  if negb (bool_decide (rq_Version rq = signingProtocolVersion)) || (str_len (rq_Envelope rq) =? 0)
     || (signingMessageLimit <? str_len (rq_Envelope rq))
  then Err "signing protocol version or envelope is invalid"
  else if bool_decide (rq_Operation rq = SignOperationArtifact) then
    match unmarshal_artifact (rq_Envelope rq) with
    | None => Err "artifact signing envelope is invalid"
    | Some a =>
        if bool_decide (Id a = "") || bool_decide (ArtKind a = KIND_UNSPECIFIED) || (str_len (Payload a) =? 0)
           || bool_decide (PayloadSchema a = "") || bool_decide (is_Some (art_Signature a))
        then Err "artifact signing envelope is invalid"
        else match ArtifactID (Some a) with
        | Err _ => Err "artifact signing identity is invalid"
        | Ok want =>
            if bool_decide (Id a = want) then canonicalBytes a
            else Err "artifact signing identity is invalid"
        end
    end
  else if bool_decide (rq_Operation rq = SignOperationAssetGeneration) then
    match unmarshal_generation (rq_Envelope rq) with
    | None => Err "asset generation signing envelope is invalid"
    | Some g =>
        if bool_decide (GenerationId g = "") || bool_decide (gen_AssetId g = "") || (GenerationSeq g <=? 0)
           || bool_decide (is_Some (EnvelopeSignature g))
        then Err "asset generation signing envelope is invalid"
        else if existsb (member_unsigned public) (Members g)
        then Err "asset generation contains an unsigned member"
        else generationCanonical g
    end
  else if bool_decide (rq_Operation rq = SignOperationListenPlan) then
    match unmarshal_listen_plan (rq_Envelope rq) with
    | None => Err "unit listen plan signing envelope is invalid"
    | Some p =>
        if bool_decide (lp_UnitId p = "") || (lp_Version p =? 0) || bool_decide (is_Some (lp_Signature p))
        then Err "unit listen plan signing envelope is invalid"
        else unitListenPlanBytes p
    end
  else if bool_decide (rq_Operation rq = SignOperationAuditCheckpoint) then
    canonicalAuditCheckpoint (rq_Envelope rq)
  else Err "signing operation is not allowed".

(** ** The key holder *)

Definition NewMemorySigner (key : string) : result MemorySigner :=
  if negb (str_len key =? PrivateKeySize) then Err "invalid private key length"
  else Ok (mkMemorySigner key false).

Definition MemorySigner_Sign (s : MemorySigner) (digest : string) : result string :=
  if RollbackOnly s then Err "rollback key cannot create policy"
  else if str_len digest =? 0 then Err "empty digest"
  else Ok (ed25519_sign (ms_key s) digest).

Definition MemorySigner_Public (s : MemorySigner) : string := ed25519_public (ms_key s).

(** A [MemorySigner] seen through the [Signer] interface: it has no [SignTyped]. *)
Definition memory_signer (s : MemorySigner) : Signer :=
  mkSigner (KeyID (MemorySigner_Public s)) (MemorySigner_Public s) (MemorySigner_Sign s) None.

(** [writeSigningResponse] with its error dropped, as the server does. *)
Definition respond (r : signingResponse) : string :=
  match writeSigningFrame (json_response r) with
  | Ok bytes => bytes
  | Err _ => ""
  end.

(** One connection of [ServeMemorySignerForUID]: the bytes written before the close. *)
Definition serve_conn (inner : MemorySigner) (peer_uid_ok : bool) (input : string) : string :=
  if negb peer_uid_ok then ""
  else match readSigningFrame input with
  | Err _ => ""
  | Ok (raw, _) =>
      match json_parse_request raw with
      | None => respond (mkSigningResponse "" "invalid typed signing request")
      | Some request =>
          match canonicalTypedSigningRequest request (MemorySigner_Public inner) with
          | Err e => respond (mkSigningResponse "" e)
          | Ok canonical =>
              match MemorySigner_Sign inner canonical with
              | Err e => respond (mkSigningResponse "" e)
              | Ok sig => respond (mkSigningResponse sig "")
              end
          end
      end
  end.

(** ** The client *)

Definition NewSocketSigner (addr pub : string) : result SocketSigner :=
  if bool_decide (addr = "") then Err "signer socket address is empty"
  else if negb (str_len pub =? PublicKeySize) then Err "invalid public key length"
  else Ok (mkSocketSigner addr pub).

(** [dial] is the unix socket: [None] when it cannot be opened, otherwise the bytes
    the peer sends in answer to what is written. *)
Definition SignTyped (dial : string → option (string → string)) (s : SocketSigner)
    (operation envelope : string) : result string :=
  if (str_len envelope =? 0) || (signingMessageLimit <? str_len envelope)
  then Err "typed signing envelope is empty or too large"
  else
    let request := mkSigningRequest signingProtocolVersion operation envelope in
    let! canonical := canonicalTypedSigningRequest request (ss_pub s) in
    match dial (ss_addr s) with
    | None => Err "dial"
    | Some peer =>
        let! frame := writeSigningFrame (json_request request) in
        let! (responseRaw, _) := readSigningFrame (peer frame) in
        match json_parse_response responseRaw with
        | None => Err "json"
        | Some response =>
            if negb (bool_decide (rs_Error response = "")) then Err (rs_Error response)
            else if negb (str_len (rs_Signature response) =? SignatureSize)
            then Err "signer returned an invalid signature"
            else if negb (ed25519_verify (ss_pub s) canonical (rs_Signature response))
            then Err "signer returned a signature that does not verify"
            else Ok (rs_Signature response)
        end
    end.

(** A [SocketSigner] seen through the [Signer] interface. *)
Definition socket_signer (dial : string → option (string → string)) (s : SocketSigner) : Signer :=
  mkSigner (KeyID (ss_pub s)) (ss_pub s) (λ _, Err "socket signer requires a typed signing operation")
    (Some (SignTyped dial s)).

(** ** Signed audit checkpoints *)

Definition sign_checkpoint_with (typed : option (string → string → result string))
    (sign : string → result string) (raw canonical : string) : result string :=
  match typed with
  | Some typed => typed SignOperationAuditCheckpoint raw
  | None => sign canonical
  end.

Definition SignAuditCheckpointWithSigner (cp : option AuditCheckpoint) (signer : option Signer) (now : time)
    : option AuditCheckpoint * result unit :=
  match cp, signer with
  | Some cp0, Some s =>
      let cp1 := mkAuditCheckpoint (Sequence cp0) (Head cp0) (Some (default now (cp_CreatedAt cp0)))
                   (cp_KeyID cp0) (cp_Signature cp0) in
      match
        let! raw := auditCheckpointEnvelope cp1 in
        let! canonical := canonicalAuditCheckpoint raw in
        sign_checkpoint_with (signer_SignTyped s) (signer_Sign s) raw canonical
      with
      | Err e => (Some cp1, Err e)
      | Ok sig =>
          (Some (mkAuditCheckpoint (Sequence cp1) (Head cp1) (cp_CreatedAt cp1) (signer_KeyID s) sig), Ok tt)
      end
  | _, _ => (cp, Err "checkpoint and signer are required")
  end.

Definition WriteSignedAuditCheckpoint (cp : option AuditCheckpoint) : result string :=
  match cp with
  | Some c =>
      if negb (str_len (cp_Signature c) =? SignatureSize) || bool_decide (cp_KeyID c = "")
      then Err "signed checkpoint is invalid"
      else match json_checkpoint c with
           | Some b => Ok (b +:+ String (of_byte 10) "")
           | None => Err "json"
           end
  | None => Err "signed checkpoint is invalid"
  end.

Definition VerifySignedAuditCheckpoint (cp : option AuditCheckpoint) (public : string)
    (sequence : Z) (head : string) : result unit :=
  if negb (str_len public =? PublicKeySize) then Err "signed checkpoint public key is invalid"
  else match cp with
  | None => Err "signed checkpoint does not match ledger head"
  | Some c =>
      if negb (Sequence c =? sequence) || negb (bool_decide (Head c = head))
         || negb (bool_decide (cp_KeyID c = KeyID public))
      then Err "signed checkpoint does not match ledger head"
      else
        let! raw := auditCheckpointEnvelope c in
        let! canonical := canonicalAuditCheckpoint raw in
        if ed25519_verify public canonical (cp_Signature c) then Ok tt
        else Err "signed checkpoint signature is invalid"
  end.
End service.

(** Start-up checks; [exists_] is [os.Stat] on the key file. *)
Definition ValidateSignerSource (exists_ : string → bool) (devInsecure : bool) (keyFile : string) : result unit :=
  if devInsecure then Ok tt
  else if negb (bool_decide (keyFile = "")) && exists_ keyFile
  then Err "production signer must not read a private key file"
  else Ok tt.

Definition ValidateProductionSigner (devInsecure : bool) (keyFile socket : string) : result unit :=
  if devInsecure then Ok tt
  else if negb (bool_decide (keyFile = "")) then Err "production signer must not read a private key file"
  else if bool_decide (socket = "") then Err "production signer requires a socket endpoint"
  else Ok tt.

(** ** What signing code may expect of a signer

    [SoundSigner s pub] is the promise the control plane relies on: signatures that [s]
    hands out verify under [pub], on the digest it was given or, for a typed signer, on
    the canonical bytes that the typed envelope stands for. *)

Class SoundSigner {C : Crypto} {W : Wire} (s : Signer) (pub : string) : Prop := {
  sound_keyid : signer_KeyID s = KeyID pub;
  sound_public : str_len pub = PublicKeySize;
  sound_sign d sig : signer_SignTyped s = None → signer_Sign s d = Ok sig →
    0 < str_len sig ∧ ed25519_verify pub d sig = true;
  sound_typed t op envelope sig : signer_SignTyped s = Some t → t op envelope = Ok sig →
    ∃ c, canonicalTypedSigningRequest (mkSigningRequest signingProtocolVersion op envelope) pub = Ok c ∧
      0 < str_len sig ∧ ed25519_verify pub c sig = true;
}.

Section sound.
Context {C : Crypto} {W : Wire}.

(** The key holder itself is sound (by the laws of Ed25519). *)
Lemma memory_signer_sound {L : CryptoLaws C} k m :
  NewMemorySigner k = Ok m → SoundSigner (memory_signer m) (ed25519_public k).
Proof.
  unfold NewMemorySigner. destruct (Z.eqb_spec (str_len k) PrivateKeySize) as [Hk|]; [|done].
  intros [= <-]. split; simpl; try done.
  - by apply public_length.
  - intros d sig _. unfold MemorySigner_Sign. simpl. case_match; [done|]. intros [= <-].
    split; [rewrite signature_length by done; lia|by apply sign_verifies].
Qed.

(** The socket client is sound whatever the peer answers: it checks before it returns. *)
Lemma socket_signer_sound dial addr pub s :
  NewSocketSigner addr pub = Ok s → SoundSigner (socket_signer dial s) pub.
Proof.
  unfold NewSocketSigner. case_bool_decide; [done|].
  destruct (Z.eqb_spec (str_len pub) PublicKeySize); [|done]. intros [= <-]. split; simpl; try done.
  intros t op envelope sig [= <-]. unfold SignTyped. simpl. case_match; [done|].
  destruct (canonicalTypedSigningRequest _ _) as [c|]; [|done]. simpl.
  destruct (dial addr) as [peer|]; [|done].
  destruct (writeSigningFrame _) as [f|]; [|done]. simpl.
  destruct (readSigningFrame _) as [[raw rest]|]; [|done]. simpl.
  destruct (json_parse_response raw) as [r|]; [|done].
  case_bool_decide; [|done]. simpl.
  destruct (Z.eqb_spec (str_len (rs_Signature r)) SignatureSize) as [Hlen|]; [|done]. simpl.
  destruct (ed25519_verify pub c (rs_Signature r)) eqn:Hv; [|done]. intros [= <-].
  exists c. split_and!; [done|rewrite Hlen; unfold SignatureSize; lia|done].
Qed.

(** One case of the typed request: an unsigned artifact stands for its canonical bytes. *)
Lemma typed_artifact_Ok `{!WireLaws C W} art b pub c :
  marshal_artifact art = Some b →
  canonicalTypedSigningRequest (mkSigningRequest signingProtocolVersion SignOperationArtifact b) pub = Ok c →
  canonicalBytes art = Ok c.
Proof.
  intros Hm. unfold canonicalTypedSigningRequest. simpl. rewrite (artifact_roundtrip _ _ Hm).
  case_match; [done|]. case_match; [done|].
  destruct (canonicalBytes art) as [c0|] eqn:Hc; simpl; [|done]. case_match; congruence.
Qed.

Lemma typed_generation_Ok `{!WireLaws C W} g b pub c :
  marshal_generation g = Some b →
  canonicalTypedSigningRequest (mkSigningRequest signingProtocolVersion SignOperationAssetGeneration b) pub = Ok c →
  generationCanonical g = Ok c ∧ 0 < GenerationSeq g ∧
  existsb (member_unsigned pub) (Members g) = false.
Proof.
  intros Hm. unfold canonicalTypedSigningRequest. simpl. rewrite (generation_roundtrip _ _ Hm).
  case_match; [done|]. case_match eqn:Hg; [done|]. case_match; [done|]. intros ->. breflect.
  split_and!; [done|lia|done].
Qed.

Lemma typed_checkpoint_Ok raw pub c :
  canonicalTypedSigningRequest (mkSigningRequest signingProtocolVersion SignOperationAuditCheckpoint raw) pub = Ok c →
  canonicalAuditCheckpoint raw = Ok c.
Proof. unfold canonicalTypedSigningRequest. simpl. by case_match. Qed.

Lemma member_signed_iff pub m :
  member_unsigned pub m = false ↔ ∃ it a, m = Some it ∧ ri_Artifact it = Some a ∧ VerifyArtifact (Some a) pub = Ok tt.
Proof.
  unfold member_unsigned. destruct m as [it|]; [|split; [done|by intros (? & ? & ? & _)]].
  change (Some it ≫= ri_Artifact) with (ri_Artifact it). destruct (ri_Artifact it) as [a|] eqn:Ha.
  - destruct (VerifyArtifact (Some a) pub) as [[]|] eqn:Hv; split; try done; [by exists it, a|].
    intros (? & ? & [= <-] & ? & ?). congruence.
  - split; [done|]. intros (? & ? & [= <-] & ? & ?). congruence.
Qed.
End sound.

(** ** Frames *)

Lemma read_full_app a rest : read_full (String.length a) (a +:+ rest) = Some (a, rest).
Proof. induction a as [|c a IH]; [done|]. rewrite str_app_cons. simpl. by rewrite IH. Qed.

Lemma read_full_Some n s a rest : read_full n s = Some (a, rest) → s = a +:+ rest ∧ String.length a = n.
Proof.
  revert s a rest. induction n as [|n IH]; intros s a rest; simpl; [by intros [= <- <-]|].
  destruct s as [|c s]; [done|]. destruct (read_full n s) as [[a' r']|] eqn:E; [|done].
  intros [= <- <-]. apply IH in E as [-> <-]. done.
Qed.

Lemma be32_roundtrip n : 0 ≤ n < 2 ^ 32 → be32_decode (be32 n) = n.
Proof.
  intros Hn. unfold be32, be32_decode. rewrite !byte_of_byte by (apply Z.mod_pos_bound; lia).
  change (2 ^ 32) with 4294967296 in Hn. change (2 ^ 24) with 16777216.
  change (2 ^ 16) with 65536. change (2 ^ 8) with 256. Z.div_mod_to_equations. lia.
Qed.

Lemma be32_of_header h : String.length h = 4%nat → be32 (be32_decode h) = h ∧ 0 ≤ be32_decode h < 2 ^ 32.
Proof.
  destruct h as [|a [|b [|c [|d [|? ?]]]]]; try done. intros _. unfold be32, be32_decode.
  pose proof (byte_range a); pose proof (byte_range b); pose proof (byte_range c); pose proof (byte_range d).
  change (2 ^ 24) with 16777216. change (2 ^ 16) with 65536. change (2 ^ 8) with 256. change (2 ^ 32) with 4294967296.
  split; [|lia].
  assert (∀ x y, x = byte y → of_byte x = y) as Hb by (intros x y ->; apply of_byte_byte).
  rewrite (Hb _ a), (Hb _ b), (Hb _ c), (Hb _ d) by (Z.div_mod_to_equations; lia). done.
Qed.

Lemma read_frame_iff input raw rest :
  readSigningFrame input = Ok (raw, rest) ↔ ∃ bytes, writeSigningFrame raw = Ok bytes ∧ input = bytes +:+ rest.
Proof.
  unfold readSigningFrame, writeSigningFrame. split.
  - destruct (read_full 4 input) as [[h r]|] eqn:Eh; [|done].
    apply read_full_Some in Eh as [-> Hh]. destruct (be32_of_header h Hh) as [Henc Hrng].
    destruct ((be32_decode h <=? 0) || _) eqn:Hs; [done|].
    destruct (read_full _ r) as [[a r']|] eqn:Er; [|done]. intros [= <- <-].
    apply read_full_Some in Er as [-> Hlen]. breflect.
    assert (str_len a = be32_decode h) as Ha by (unfold str_len; lia).
    rewrite Ha. destruct ((be32_decode h =? 0) || _) eqn:Hs2; [breflect; lia|].
    eexists. split; [done|]. rewrite wrap_u_id by done. rewrite Henc. by rewrite str_app_assoc.
  - intros (bytes & Hw & ->). destruct ((str_len raw =? 0) || _) eqn:Hs; [done|]. simplify_eq. breflect.
    assert (0 ≤ str_len raw) by (unfold str_len; lia).
    unfold signingMessageLimit in *. change (2 ^ 20) with 1048576 in *.
    assert (0 ≤ str_len raw < 2 ^ 32) by (change (2 ^ 32) with 4294967296; lia).
    rewrite wrap_u_id by done. rewrite <- str_app_assoc.
    change 4%nat with (String.length (be32 (str_len raw))). rewrite read_full_app, be32_roundtrip by done.
    destruct ((str_len raw <=? 0) || _) eqn:Hs2; [breflect; lia|].
    unfold str_len. rewrite Nat2Z.id. by rewrite read_full_app.
Qed.

(** ** A concrete wire

    Protobuf and JSON over a finite table of messages: a message has an encoding only
    if the table lists it, and decoding reads the table backwards. *)

Fixpoint table_encode {A} `{EqDecision A} (t : list (A * string)) (a : A) : option string :=
  match t with
  | [] => None
  | (x, b) :: t => if bool_decide (a = x) then Some b else table_encode t a
  end.

Fixpoint table_decode {A} (t : list (A * string)) (b : string) : option A :=
  match t with
  | [] => None
  | (x, c) :: t => if bool_decide (b = c) then Some x else table_decode t b
  end.

Lemma table_encode_elem {A} `{EqDecision A} (t : list (A * string)) a b :
  table_encode t a = Some b → b ∈ t.*2.
Proof.
  induction t as [|[x c] t IH]; simpl; [done|]. case_bool_decide; [intros [= ->]; left|].
  intros ?. right. by apply IH.
Qed.

Lemma table_roundtrip {A} `{EqDecision A} (t : list (A * string)) a b :
  NoDup t.*2 → table_encode t a = Some b → table_decode t b = Some a.
Proof.
  induction t as [|[x c] t IH]; simpl; [done|]. intros [Hc Hn]%NoDup_cons.
  case_bool_decide as Ha; [intros [= ->]; by rewrite bool_decide_eq_true_2; subst|]. intros H.
  rewrite bool_decide_eq_false_2; [by apply IH|]. intros ->. by apply Hc, (table_encode_elem _ a).
Qed.

Section signer_properties.
Context {C : Crypto} {W : Wire}.

Lemma SignArtifactWithSigner_Ok a s now a' :
  SignArtifactWithSigner a (Some s) now = (a', Ok tt) →
  ∃ art canonical sig, canonicalBytes art = Ok canonical ∧
    Id art = "sha256:" +:+ hex_encode (sha256 canonical) ∧
    a' = Some (with_signature art (mkSignature (signer_KeyID s) sig (Some now))) ∧
    match signer_SignTyped s with
    | Some typed => ∃ b, marshal_artifact art = Some b ∧ typed SignOperationArtifact b = Ok sig
    | None => signer_Sign s canonical = Ok sig
    end.
Proof.
  unfold SignArtifactWithSigner, ArtifactID. destruct a as [art0|]; [|done].
  case_match; [done|]. destruct (canonicalBytes art0) as [c|] eqn:Hc; cbn -[with_id]; [|done].
  case_match eqn:Hid; [done|]. set (art := if bool_decide _ then _ else _).
  assert (canonicalBytes art = Ok c) as Hc' by (unfold art; by case_match).
  rewrite Hc'. intros Hsig. exists art, c. breflect.
  assert (Id art = "sha256:" +:+ hex_encode (sha256 c)).
  { unfold art. destruct (bool_decide (Id art0 = "")) eqn:He; [done|].
    destruct Hid as [?|Hid]; [done|]. by apply bool_decide_eq_true in Hid. }
  clearbody art. destruct (signer_SignTyped s) as [typed|].
  - destruct (marshal_artifact art) as [b|]; [|done].
    destruct (typed _ b) as [sig|] eqn:Ht; simplify_eq. exists sig. split_and!; [done..|].
    by exists b.
  - destruct (signer_Sign s c) as [sig|] eqn:Ht; simplify_eq. by exists sig.
Qed.

Lemma SignGenerationWithSigner_Ok g s now g' :
  SignGenerationWithSigner (Some g) (Some s) now = (g', Ok tt) →
  ∃ canon sig, generationCanonical g = Ok canon ∧
    g' = Some (with_envelope_signature g (mkSignature (signer_KeyID s) sig (Some now))) ∧
    match signer_SignTyped s with
    | Some typed => ∃ b, marshal_generation g = Some b ∧ typed SignOperationAssetGeneration b = Ok sig
    | None => signer_Sign s canon = Ok sig
    end.
Proof.
  unfold SignGenerationWithSigner. case_match; [done|].
  destruct (generationCanonical g) as [c|] eqn:Hc; [|done].
  destruct (signer_SignTyped s) as [typed|].
  - destruct (marshal_generation g) as [b|]; [|done].
    destruct (typed _ b) as [sig|] eqn:Ht; intros [= <-]. exists c, sig. split_and!; [done..|].
    by exists b.
  - destruct (signer_Sign s c) as [sig|] eqn:Ht; intros [= <-]. by exists c, sig.
Qed.
End signer_properties.

(** The signing socket's frames round trip, and the length prefix is the
    only framing accepted: a reader gets payload [raw] and remainder [rest] exactly when
    the input is the frame that the writer produces for [raw] (1 byte to 1 MiB) followed
    by [rest]. *)
Theorem signing_frame_roundtrip input raw rest :
  readSigningFrame input = Ok (raw, rest) ↔
  ∃ bytes, writeSigningFrame raw = Ok bytes ∧ input = bytes +:+ rest.
Proof. apply read_frame_iff. Qed.

(** C1: an artifact signed through any sound signer, in particular the
    production [SocketSigner] whatever bytes its peer answers, verifies under that
    signer's public key. *)
Theorem signer_artifact_verifies {C : Crypto} {W : Wire} {WL : WireLaws C W} s pub a now a' :
  SoundSigner s pub → SignArtifactWithSigner a (Some s) now = (a', Ok tt) →
  VerifyArtifact a' pub = Ok tt.
Proof.
  intros Hs Hsign. apply SignArtifactWithSigner_Ok in Hsign as (art & c & sig & Hc & Hid & -> & Hsig).
  assert (0 < str_len sig ∧ ed25519_verify pub c sig = true) as [??].
  { destruct (signer_SignTyped s) as [t|] eqn:Ht; [|by apply sound_sign in Hsig].
    destruct Hsig as (b & Hm & Hok). destruct (sound_typed _ _ _ _ Ht Hok) as (c' & Hc' & ?).
    apply (typed_artifact_Ok _ _ _ _ Hm) in Hc'. rewrite Hc in Hc'. by simplify_eq. }
  eapply verify_filled; try done. apply sound_public.
Qed.

(** A generation that the production signer signs has a positive
    sequence number and only members that are present and verify under the same key. *)
Theorem signer_generation_members {C : Crypto} {W : Wire} {WL : WireLaws C W} dial addr pub s g now g' :
  NewSocketSigner addr pub = Ok s →
  SignGenerationWithSigner (Some g) (Some (socket_signer dial s)) now = (g', Ok tt) →
  VerifyGeneration g' pub = Ok tt ∧ 0 < GenerationSeq g ∧
  ∀ m, m ∈ Members g → ∃ it a, m = Some it ∧ ri_Artifact it = Some a ∧ VerifyArtifact (Some a) pub = Ok tt.
Proof.
  intros Hs. pose proof (socket_signer_sound dial _ _ _ Hs) as Hsound. intros Hsign.
  apply SignGenerationWithSigner_Ok in Hsign as (c & sig & Hc & -> & b & Hm & Hok).
  destruct (sound_typed (s := socket_signer dial s) _ _ _ _ eq_refl Hok) as (c' & Hreq & Hlen & Hv).
  apply (typed_generation_Ok _ _ _ _ Hm) in Hreq as (Hc' & Hseq & Hmem). simplify_eq.
  rewrite Hc in Hc'. simplify_eq. split_and!; [|done|].
  - assert (∀ sg, generationCanonical (with_envelope_signature g sg) = Ok c') as Hcanon by done.
    unfold VerifyGeneration. rewrite Hcanon. simpl. rewrite (proj2 (Z.ltb_lt _ _) Hlen), sound_public. simpl. by rewrite Hv.
  - intros m Hin. apply (member_signed_iff pub). destruct (member_unsigned pub m) eqn:E; [|done].
    exfalso. apply (eq_true_false_abs _ (proj2 (existsb_exists _ _) (ex_intro _ m (conj (proj1 (list_elem_of_In _ _) Hin) E))) Hmem).
Qed.

(** An audit checkpoint signed through any sound signer passes
    [VerifySignedAuditCheckpoint] for the same sequence and head. *)
Theorem checkpoint_sign_verify {C : Crypto} {W : Wire} s pub cp now cp' :
  SoundSigner s pub → SignAuditCheckpointWithSigner (Some cp) (Some s) now = (cp', Ok tt) →
  VerifySignedAuditCheckpoint cp' pub (Sequence cp) (Head cp) = Ok tt.
Proof.
  intros Hs. unfold SignAuditCheckpointWithSigner.
  set (cp1 := mkAuditCheckpoint _ _ _ _ _).
  destruct (auditCheckpointEnvelope cp1) as [raw|] eqn:Hraw; [|done]. simpl.
  destruct (canonicalAuditCheckpoint raw) as [c|] eqn:Hc; [|done]. simpl.
  destruct (sign_checkpoint_with _ _ raw c) as [sig|] eqn:Hsig; [|done]. intros [= <-].
  assert (ed25519_verify pub c sig = true) as Hv.
  { unfold sign_checkpoint_with in Hsig. destruct (signer_SignTyped s) as [t|] eqn:Ht.
    - destruct (sound_typed _ _ _ _ Ht Hsig) as (c' & Hreq & _ & ?).
      apply typed_checkpoint_Ok in Hreq. congruence.
    - by apply (sound_sign _ _ Ht). }
  unfold VerifySignedAuditCheckpoint. cbn -[auditCheckpointEnvelope]. rewrite (sound_public (pub:=pub)), (sound_keyid (pub:=pub)).
  rewrite !Z.eqb_refl, !bool_decide_eq_true_2 by done. cbn -[auditCheckpointEnvelope].
  unfold auditCheckpointEnvelope in *. cbn in *. rewrite Hraw. cbn. rewrite Hc. cbn. by rewrite Hv.
Qed.

(** Against an honest key holder that admits the caller, a typed request
    whose envelope the service accepts and whose messages fit a frame is answered with
    the Ed25519 signature of the canonical bytes. *)
Theorem honest_service_signs {C : Crypto} {L : CryptoLaws C} {W : Wire} {WL : WireLaws C W}
    key addr op envelope c dial :
  let rq := mkSigningRequest signingProtocolVersion op envelope in
  let sig := ed25519_sign key c in
  str_len key = PrivateKeySize →
  dial addr = Some (serve_conn (mkMemorySigner key false) true) →
  canonicalTypedSigningRequest rq (ed25519_public key) = Ok c → c ≠ "" → is_ascii op = true →
  0 < str_len (json_request rq) ≤ signingMessageLimit →
  0 < str_len (json_response (mkSigningResponse sig "")) ≤ signingMessageLimit →
  SignTyped dial (mkSocketSigner addr (ed25519_public key)) op envelope = Ok sig.
Proof.
  intros rq sig Hk Hdial Hc Hne Hop Hlq Hlr. unfold SignTyped. fold rq. cbn [ss_pub ss_addr].
  destruct ((str_len envelope =? 0) || _) eqn:He.
  { exfalso. revert Hc. unfold canonicalTypedSigningRequest. simpl. by rewrite He. }
  rewrite Hc. cbn [result_bind]. rewrite Hdial.
  assert (∀ raw, 0 < str_len raw ≤ signingMessageLimit → ∃ bytes, writeSigningFrame raw = Ok bytes) as Hwrite.
  { intros raw Hraw. unfold writeSigningFrame. case_match eqn:E; [breflect; lia|by eexists]. }
  destruct (Hwrite _ Hlq) as [fq Hfq], (Hwrite _ Hlr) as [fr Hfr]. rewrite Hfq. cbn [result_bind].
  assert (serve_conn (mkMemorySigner key false) true fq = fr) as ->.
  { unfold serve_conn. cbn. rewrite (proj2 (read_frame_iff fq (json_request rq) "")) by (exists fq; by rewrite str_app_nil_r).
    rewrite request_roundtrip by done. unfold MemorySigner_Public. cbn. rewrite Hc.
    unfold MemorySigner_Sign. cbn. destruct (Z.eqb_spec (str_len c) 0) as [E|]; [by apply str_len_0 in E|].
    unfold respond. fold sig. by rewrite Hfr. }
  rewrite (proj2 (read_frame_iff fr (json_response (mkSigningResponse sig "")) ""))
    by (exists fr; by rewrite str_app_nil_r).
  cbn. rewrite response_roundtrip by done. cbn. unfold sig. rewrite signature_length by done. cbn.
  by rewrite sign_verifies.
Qed.

(** ** A concrete signing session *)
Module Demo.

(** A self-delimiting encoding of strings, for the JSON messages. *)
Fixpoint esc (s : string) : string :=
  match s with
  | "" => "0"
  | String c s => String "1"%char (String c (esc s))
  end%string.

Fixpoint unesc (s : string) : option (string * string) :=
  match s with
  | String "0"%char rest => Some (EmptyString, rest)
  | String "1"%char (String c s) =>
      match unesc s with
      | Some (a, rest) => Some (String c a, rest)
      | None => None
      end
  | _ => None
  end.

Lemma unesc_esc s rest : unesc (esc s +:+ rest) = Some (s, rest).
Proof. induction s as [|c s IH]; [done|]. cbn [esc]. rewrite !str_app_cons. cbn [unesc]. by rewrite IH. Qed.

Definition art : Artifact := sample_artifact "" "p" None.
Definition art_id : string := "sha256:" +:+ hex_encode (str_pad 32 "A").
Definition artifacts : list (Artifact * string) := [(art, "A"); (with_id art art_id, "B")].
Definition pub : string := ed25519_public (Crypto := toy_crypto) toy_key.
Definition signed_art : Artifact :=
  with_signature (with_id art art_id)
    (mkSignature "" (ed25519_sign (Crypto := toy_crypto) toy_key "A") (Some 0)).
Definition gen : AssetGeneration :=
  mkAssetGeneration "g1" "" 1 "asset"
    [Some (mkReleaseItem "r" (Some signed_art) "asset" RELEASE_MODE_ENFORCE 0 false RETIRE_REASON_UNSPECIFIED None 1)]
    "" None 0 None.
Definition checkpoint : AuditCheckpoint := mkAuditCheckpoint 4 "head" (Some 9) "" "".

#[global] Instance AuditCheckpoint_eq_dec : EqDecision AuditCheckpoint.
Proof. solve_decision. Defined.

Definition crypto : Crypto := {|
  sha256 := sha256 (Crypto := toy_crypto);
  ed25519_public := ed25519_public (Crypto := toy_crypto);
  ed25519_sign := ed25519_sign (Crypto := toy_crypto);
  ed25519_verify := ed25519_verify (Crypto := toy_crypto);
  marshal_artifact := table_encode artifacts;
  marshal_generation := table_encode [(gen, "G")];
  marshal_listen_plan := table_encode [];
|}.

Definition wire : Wire := {|
  unmarshal_artifact := table_decode artifacts;
  unmarshal_generation := table_decode [(gen, "G")];
  unmarshal_listen_plan := table_decode [];
  json_request r := esc (rq_Version r) +:+ esc (rq_Operation r) +:+ esc (rq_Envelope r);
  json_parse_request s :=
    '(v, s) ← unesc s; '(o, s) ← unesc s; '(e, s) ← unesc s;
    if bool_decide (s = "") then Some (mkSigningRequest v o e) else None;
  json_response r := esc (rs_Signature r) +:+ esc (rs_Error r);
  json_parse_response s :=
    '(g, s) ← unesc s; '(e, s) ← unesc s;
    if bool_decide (s = "") then Some (mkSigningResponse g e) else None;
  json_checkpoint := table_encode [(checkpoint, "C")];
  json_parse_checkpoint := table_decode [(checkpoint, "C")];
|}.

Lemma crypto_laws : CryptoLaws crypto.
Proof. destruct toy_crypto_laws. by split. Defined.

Lemma wire_laws : WireLaws crypto wire.
Proof.
  split.
  - intros a b. apply table_roundtrip. apply (bool_decide_unpack _). by vm_compute.
  - intros a b. apply table_roundtrip. apply (bool_decide_unpack _). by vm_compute.
  - done.
  - intros [v o e] _ _. cbn. rewrite unesc_esc. cbn. rewrite unesc_esc. cbn.
    by rewrite <- (str_app_nil_r (esc e)), unesc_esc.
  - intros [g e] _. cbn. rewrite unesc_esc. cbn. by rewrite <- (str_app_nil_r (esc e)), unesc_esc.
Defined.

Definition dial (addr : string) : option (string → string) :=
  if bool_decide (addr = "sock") then Some (serve_conn (C := crypto) (W := wire) (mkMemorySigner toy_key false) true)
  else None.
Definition socket : SocketSigner := mkSocketSigner "sock" pub.
Definition signer : Signer := socket_signer (C := crypto) (W := wire) dial socket.

Lemma signer_sound : SoundSigner (C := crypto) (W := wire) signer pub.
Proof. by apply (socket_signer_sound (C := crypto) (W := wire) _ "sock"). Defined.
End Demo.

Lemma signer_artifact_verifies_witness :
  ∃ a', VerifyArtifact (C := Demo.crypto) a' Demo.pub = Ok tt.
Proof.
  eexists. eapply (@signer_artifact_verifies Demo.crypto Demo.wire Demo.wire_laws Demo.signer Demo.pub (Some Demo.art) 0).
  - apply Demo.signer_sound.
  - vm_compute. reflexivity.
Defined.

Lemma signer_generation_members_witness :
  VerifyArtifact (C := Demo.crypto) (Some Demo.signed_art) Demo.pub = Ok tt.
Proof.
  destruct (@signer_generation_members Demo.crypto Demo.wire Demo.wire_laws Demo.dial "sock" Demo.pub Demo.socket
    Demo.gen 0 (SignGenerationWithSigner (C := Demo.crypto) (Some Demo.gen) (Some Demo.signer) 0).1)
    as (_ & _ & Hm); [reflexivity|vm_compute; reflexivity|].
  destruct (Hm _ ltac:(left)) as (it & a & Hit & Ha & Hv). injection Hit as <-. injection Ha as <-. exact Hv.
Defined.

Lemma checkpoint_sign_verify_witness :
  VerifySignedAuditCheckpoint (C := Demo.crypto) (W := Demo.wire)
    (SignAuditCheckpointWithSigner (W := Demo.wire) (Some Demo.checkpoint) (Some Demo.signer) 0).1
    Demo.pub 4 "head" = Ok tt.
Proof.
  eapply (@checkpoint_sign_verify Demo.crypto Demo.wire Demo.signer Demo.pub Demo.checkpoint 0).
  - apply Demo.signer_sound.
  - vm_compute. reflexivity.
Defined.

Lemma honest_service_signs_witness :
  SignTyped (C := Demo.crypto) (W := Demo.wire) Demo.dial Demo.socket SignOperationArtifact "B"
  = Ok (ed25519_sign (Crypto := Demo.crypto) toy_key "A").
Proof.
  apply (@honest_service_signs Demo.crypto Demo.crypto_laws Demo.wire Demo.wire_laws toy_key "sock"
    SignOperationArtifact "B" "A" Demo.dial); [reflexivity..|done|reflexivity| |]; split; vm_compute; congruence.
Defined.
