(* ===== verification/ReleaseLifecycle.v ===== *)
(** * The release lifecycle (lib/kernel/release.go)

    draft → signed → shadow → canary → enforce → retired, with the edge shadow →
    enforce.  Each state of the source is a struct type with the methods that leave
    it; here each is a record and [Release] is their sum.  [lifecycle_step] collects
    the transitions the control plane can take ([retireRelease] of
    lib/brain/scheduler.go composes [ActiveOf] and [RetireActive]). *)

From S2P Require Import Prelude GoStrings Contracts Signing.

Definition CanaryPercentDefault : Z := 5.
Definition CanaryPercentMin : Z := 1.
Definition CanaryPercentMax : Z := 25.

Record Draft := mkDraft { draft_ID : string; draft_Envelope : Artifact; draft_CreatedBy : string }.
Record Signed := mkSigned { signed_ID : string; signed_Envelope : Artifact }.
Record Shadow := mkShadow { shadow_ID : string; shadow_Envelope : Artifact }.
Record Canary := mkCanary { canary_ID : string; canary_Envelope : Artifact; CanaryPercent : Z }.
Record Enforce := mkEnforce { enforce_ID : string; enforce_Envelope : Artifact }.
Record Retired := mkRetired { retired_ID : string; retired_Envelope : Artifact; Reason : RetireReason }.

Inductive Release :=
  | RDraft (d : Draft) | RSigned (s : Signed) | RShadow (s : Shadow)
  | RCanary (c : Canary) | REnforce (e : Enforce) | RRetired (r : Retired).

Definition ReleaseID (r : Release) : string :=
  match r with
  | RDraft d => draft_ID d | RSigned s => signed_ID s | RShadow s => shadow_ID s
  | RCanary c => canary_ID c | REnforce e => enforce_ID e | RRetired r => retired_ID r
  end.

Definition State (r : Release) : ReleaseState :=
  match r with
  | RDraft _ => RELEASE_STATE_DRAFT | RSigned _ => RELEASE_STATE_SIGNED
  | RShadow _ => RELEASE_STATE_SHADOW | RCanary _ => RELEASE_STATE_CANARY
  | REnforce _ => RELEASE_STATE_ENFORCE | RRetired _ => RELEASE_STATE_RETIRED
  end.

Definition release_Artifact (r : Release) : Artifact :=
  match r with
  | RDraft d => draft_Envelope d | RSigned s => signed_Envelope s | RShadow s => shadow_Envelope s
  | RCanary c => canary_Envelope c | REnforce e => enforce_Envelope e | RRetired r => retired_Envelope r
  end.

Definition NewDraft (releaseID : string) (a : option Artifact) (createdBy : string) : result Draft :=
  if bool_decide (releaseID = "") then Err "release id is empty" else
  match a with
  | None => Err "artifact is nil"
  | Some a =>
      if has_signature (art_Signature a) then Err "draft artifact must not be signed"
      else if negb (bool_decide (Id a = "")) then Err "draft artifact id must be empty before gate"
      else if bool_decide (is_Some (art_ReplayReport a)) then Err "draft artifact must not carry replay report"
      else Ok (mkDraft releaseID a createdBy)
  end.

Definition GatePassed (report : ReplayReport) : bool :=
  (0 <? MaliciousTotal report) && (MaliciousBlocked report =? MaliciousTotal report)
  && (BenignBlocked report =? 0) && (ManagementBlocked report =? 0).

Record GateResult := mkGateResult {
  gr_Passed : bool; gr_Draft : option Draft; gr_Signed : option Signed; gr_Report : option ReplayReport;
}.

Definition with_report (a : Artifact) (rep : ReplayReport) : Artifact :=
  mkArtifact (Id a) (ArtKind a) (Payload a) (PayloadSchema a) (ArtScope a) (Ttl a) (Supersedes a)
    (EvidenceRefs a) (Some rep) (art_Signature a) (CreatedAt a) (CreatedBy a) (ReviewAt a)
    (HardExpiresAt a) (ExpiryBehavior a) (ScopeRisk a) (EvidenceClass a).

Definition with_creation (a : Artifact) (by_ : string) (at_ : time) : Artifact :=
  mkArtifact (Id a) (ArtKind a) (Payload a) (PayloadSchema a) (ArtScope a) (Ttl a) (Supersedes a)
    (EvidenceRefs a) (art_ReplayReport a) (art_Signature a) (Some (default at_ (CreatedAt a))) by_ (ReviewAt a)
    (HardExpiresAt a) (ExpiryBehavior a) (ScopeRisk a) (EvidenceClass a).

Section gate.
Context {C : Crypto}.

(** The body that [Gate] and [GateWithSigner] share, with the signing call abstracted. *)
Definition gate_with (sign : option Artifact → option Artifact * result unit)
    (d : Draft) (report : option ReplayReport) (now : time) : GateResult * result unit :=
  match report with
  | None => (mkGateResult false None None None, Err "replay report is nil")
  | Some rep =>
      let res := mkGateResult false None None (Some rep) in
      if negb (Passed rep && GatePassed rep) then
        match NewDraft (draft_ID d) (Some (draft_Envelope d)) (draft_CreatedBy d) with
        | Err e => (res, Err e)
        | Ok draft =>
            (mkGateResult false
               (Some (mkDraft (draft_ID draft) (with_report (draft_Envelope draft) rep) (draft_CreatedBy draft)))
               None (Some rep), Ok tt)
        end
      else
        let envelope := with_creation (with_report (draft_Envelope d) rep) (draft_CreatedBy d) now in
        match sign (Some envelope) with
        | (Some envelope, Ok _) => (mkGateResult true None (Some (mkSigned (draft_ID d) envelope)) (Some rep), Ok tt)
        | (_, Err e) => (res, Err e)
        | (None, Ok _) => (res, Ok tt)
        end
  end.

Definition Gate (d : Draft) (report : option ReplayReport) (key : string) (now : time)
    : GateResult * result unit :=
  gate_with (λ a, SignArtifact a key now) d report now.

Definition GateWithSigner (d : Draft) (report : option ReplayReport) (s : option Signer) (now : time)
    : GateResult * result unit :=
  gate_with (λ a, SignArtifactWithSigner a s now) d report now.
End gate.

Definition StartShadow (s : Signed) : Shadow := mkShadow (signed_ID s) (signed_Envelope s).

Definition PromoteCanary (s : Shadow) (percent : Z) : result Canary :=
  if (percent <? CanaryPercentMin) || (CanaryPercentMax <? percent) then Err "canary percent out of range"
  else Ok (mkCanary (shadow_ID s) (shadow_Envelope s) percent).

Definition Shadow_PromoteEnforce (s : Shadow) : Enforce := mkEnforce (shadow_ID s) (shadow_Envelope s).
Definition Canary_PromoteEnforce (c : Canary) : Enforce := mkEnforce (canary_ID c) (canary_Envelope c).

Definition RetireActive (active : Release) (reason : RetireReason) : result Retired :=
  match reason with
  | RETIRE_REASON_ROLLBACK | RETIRE_REASON_MANUAL | RETIRE_REASON_TTL | RETIRE_REASON_SUPERSEDED =>
      Ok (mkRetired (ReleaseID active) (release_Artifact active) reason)
  | _ => Err "unknown retire reason"
  end.

Definition ActiveOf (r : Release) : result Release :=
  match State r with
  | RELEASE_STATE_SHADOW | RELEASE_STATE_CANARY | RELEASE_STATE_ENFORCE => Ok r
  | _ => Err "release is not active"
  end.

(** [retireRelease] without its database load and commit. *)
Definition retireRelease (rel : Release) (reason : RetireReason) : result Retired :=
  let! active := ActiveOf rel in RetireActive active reason.

(** [CanaryMinUnits] and [AutoCanaryAllowed]: the units a canary bucket needs; the
    additions are [int32]. *)
Definition CanaryMinUnits (percent : Z) : Z :=
  let percent := if percent <=? 0 then CanaryPercentDefault else percent in
  go_div (i32 (i32 (100 + percent) - 1)) percent.

Definition AutoCanaryAllowed (boundUnits percent : Z) : bool :=
  if percent <=? 0 then false
  else go_div (i32 (i32 (100 + percent) - 1)) percent <=? boundUnits.

(** ** The transition system *)

Section lifecycle.
Context {C : Crypto}.
Variable key : string.

Inductive lifecycle_step : Release → Release → Prop :=
  | step_gate_failed d rep now res d' :
      Gate d rep key now = (res, Ok tt) → gr_Draft res = Some d' →
      lifecycle_step (RDraft d) (RDraft d')
  | step_gate_passed d rep now res s :
      Gate d rep key now = (res, Ok tt) → gr_Signed res = Some s →
      lifecycle_step (RDraft d) (RSigned s)
  | step_start_shadow s : lifecycle_step (RSigned s) (RShadow (StartShadow s))
  | step_promote_canary s p c :
      PromoteCanary s p = Ok c → lifecycle_step (RShadow s) (RCanary c)
  | step_shadow_enforce s : lifecycle_step (RShadow s) (REnforce (Shadow_PromoteEnforce s))
  | step_canary_enforce c : lifecycle_step (RCanary c) (REnforce (Canary_PromoteEnforce c))
  | step_retire r reason r' :
      retireRelease r reason = Ok r' → lifecycle_step r (RRetired r').

(** Releases the control plane can hold: proposals and what follows from them. *)
Inductive reachable : Release → Prop :=
  | reach_draft id a by_ d : NewDraft id a by_ = Ok d → reachable (RDraft d)
  | reach_step r r' : reachable r → lifecycle_step r r' → reachable r'.

Definition rank (r : Release) : Z :=
  match r with
  | RDraft _ => 0 | RSigned _ => 1 | RShadow _ => 2 | RCanary _ => 3 | REnforce _ => 4 | RRetired _ => 5
  end.

(** Everything past the gate carries a passing replay report under a valid signature. *)
Definition gated (a : Artifact) : Prop :=
  VerifyArtifact (Some a) (ed25519_public key) = Ok tt ∧
  ∃ rep, art_ReplayReport a = Some rep ∧ Passed rep = true ∧ GatePassed rep = true.

Definition lifecycle_inv (r : Release) : Prop :=
  match r with
  | RDraft d => has_signature (art_Signature (draft_Envelope d)) = false ∧ Id (draft_Envelope d) = ""
  | RCanary c => gated (canary_Envelope c) ∧ CanaryPercentMin ≤ CanaryPercent c ≤ CanaryPercentMax
  | _ => gated (release_Artifact r)
  end.
End lifecycle.

Lemma NewDraft_Ok id a by_ d :
  NewDraft id a by_ = Ok d →
  ∃ art, a = Some art ∧ d = mkDraft id art by_ ∧ has_signature (art_Signature art) = false ∧
    Id art = "" ∧ art_ReplayReport art = None.
Proof.
  unfold NewDraft. intros H. branch_in H. simplify_eq. eexists. split_and!; [done..| |].
  - by apply negb_false_iff, bool_decide_eq_true in Heqb1.
  - by apply bool_decide_eq_false, eq_None_not_Some in Heqb2.
Qed.

Section lifecycle_facts.
Context {C : Crypto} {L : CryptoLaws C}.

Lemma Gate_failed d rep key now res d' :
  Gate d rep key now = (res, Ok tt) → gr_Draft res = Some d' →
  ∃ rp, rep = Some rp ∧ Passed rp && GatePassed rp = false ∧
    NewDraft (draft_ID d) (Some (draft_Envelope d)) (draft_CreatedBy d) = Ok d ∧
    d' = mkDraft (draft_ID d) (with_report (draft_Envelope d) rp) (draft_CreatedBy d).
Proof.
  unfold Gate, gate_with. destruct rep as [rp|]; [|done].
  destruct (Passed rp && GatePassed rp) eqn:Hp; simpl.
  - destruct (SignArtifact _ _ _) as [[?|] [[]|?]]; intros [= <-]; done.
  - destruct (NewDraft _ _ _) as [d0|] eqn:Hn; [|done]. intros [= <-]. simpl. intros [= <-].
    apply NewDraft_Ok in Hn as Hd. destruct Hd as (art & [= <-] & -> & _).
    exists rp. split_and!; try done. by destruct d.
Qed.

Lemma Gate_passed d rep key now res s :
  Gate d rep key now = (res, Ok tt) → gr_Signed res = Some s →
  ∃ rp, rep = Some rp ∧ Passed rp = true ∧ GatePassed rp = true ∧ signed_ID s = draft_ID d ∧
    SignArtifact (Some (with_creation (with_report (draft_Envelope d) rp) (draft_CreatedBy d) now)) key now
      = (Some (signed_Envelope s), Ok tt).
Proof.
  unfold Gate, gate_with. destruct rep as [rp|]; [|done].
  destruct (Passed rp && GatePassed rp) eqn:Hp; simpl.
  - apply andb_true_iff in Hp as [??].
    destruct (SignArtifact _ _ _) as [[?|] [[]|?]] eqn:Hs; intros [= <-]; try done.
    simpl. intros [= <-]. by exists rp.
  - destruct (NewDraft _ _ _); [|done]. by intros [= <-].
Qed.

Lemma signed_is_gated d rep key now res s :
  Gate d rep key now = (res, Ok tt) → gr_Signed res = Some s → gated key (signed_Envelope s).
Proof.
  intros Hg Hs. destruct (Gate_passed _ _ _ _ _ _ Hg Hs) as (rp & -> & Hp & Hgp & _ & Hsign).
  split.
  - by eapply sign_then_verify_lemma.
  - apply SignArtifact_Ok in Hsign as (art & art0 & c & [= <-] & -> & _ & _ & _ & [= ->]).
    exists rp. split_and!; try done. simpl. by case_bool_decide.
Qed.

Lemma lifecycle_step_inv key r r' :
  lifecycle_step key r r' → lifecycle_inv key r → lifecycle_inv key r'.
Proof.
  intros Hstep Hinv. destruct Hstep as [d rep now res d' Hg Hd|d rep now res s Hg Hs|s|s p c Hp|s|c|r reason r' Hr];
    simpl in *; try done.
  - apply (Gate_failed _ _ _ _ _ _ Hg) in Hd as (rp & _ & _ & _ & ->). done.
  - by eapply signed_is_gated.
  - unfold PromoteCanary in Hp. branch_in Hp. simplify_eq/=. breflect. split; [done|lia].
  - by destruct Hinv.
  - unfold retireRelease, ActiveOf, RetireActive in Hr.
    destruct r; simpl in *; try done; destruct reason; simplify_eq/=; try done; by destruct Hinv.
Qed.

Lemma reachable_inv key r : reachable key r → lifecycle_inv key r.
Proof.
  induction 1 as [id a by_ d Hd|r r' _ IH Hstep].
  - apply NewDraft_Ok in Hd as (art & -> & -> & ? & ? & ?). done.
  - by eapply lifecycle_step_inv.
Qed.
End lifecycle_facts.

(** ** A concrete run: a draft gated by a passing replay, shadowed, canaried, enforced. *)
Module Demo.
Definition good_report : ReplayReport := mkReplayReport 3 3 4 0 true "corpus" 2 0.
Definition bad_report : ReplayReport := mkReplayReport 3 2 4 0 false "corpus" 2 0.
Definition draft : Draft := mkDraft "rel-1" (sample_artifact "" "p" None) "alice".
#[local] Existing Instance toy_crypto.
Definition signed : Signed :=
  match gr_Signed (Gate draft (Some good_report) toy_key 7).1 with
  | Some s => s
  | None => mkSigned "" (sample_artifact "" "" None)
  end.
Definition canary : Canary := mkCanary (signed_ID signed) (signed_Envelope signed) 5.

Lemma canary_reachable : reachable toy_key (RCanary canary).
Proof.
  eapply (reach_step _ (RShadow (StartShadow signed))).
  - eapply (reach_step _ (RSigned signed)); [|apply step_start_shadow].
    eapply (reach_step _ (RDraft draft)).
    + by apply (reach_draft _ "rel-1" (Some (sample_artifact "" "p" None)) "alice").
    + by eapply (step_gate_passed _ _ (Some good_report) 7 _ signed); vm_compute.
  - by apply (step_promote_canary _ _ 5).
Defined.
End Demo.

(** C2: no release reaches canary or full enforcement without the gate: every
    reachable canary or enforced release carries an artifact that verifies under the
    signing key and contains a replay report that blocks every malicious sample and
    no benign or management sample, and a canary percentage lies in [1, 25]. *)
Theorem enforced_implies_gated {C : Crypto} {L : CryptoLaws C} key r :
  reachable key r → State r = RELEASE_STATE_CANARY ∨ State r = RELEASE_STATE_ENFORCE →
  VerifyArtifact (Some (release_Artifact r)) (ed25519_public key) = Ok tt ∧
  (∃ rep, art_ReplayReport (release_Artifact r) = Some rep ∧
     0 < MaliciousTotal rep ∧ MaliciousBlocked rep = MaliciousTotal rep ∧
     BenignBlocked rep = 0 ∧ ManagementBlocked rep = 0) ∧
  (∀ c, r = RCanary c → CanaryPercentMin ≤ CanaryPercent c ≤ CanaryPercentMax).
Proof.
  intros Hr Hst. apply reachable_inv in Hr.
  assert (gated key (release_Artifact r)) as [Hv (rep & Hrep & _ & Hg)].
  { destruct r; simpl in *; naive_solver. }
  unfold GatePassed in Hg. breflect. split_and!; [done| |].
  - exists rep. naive_solver.
  - intros c ->. by destruct Hr.
Qed.

Lemma enforced_implies_gated_witness :
  VerifyArtifact (C := toy_crypto) (Some (canary_Envelope Demo.canary))
    (ed25519_public (Crypto := toy_crypto) toy_key) = Ok tt.
Proof.
  apply (@enforced_implies_gated toy_crypto toy_crypto_laws toy_key (RCanary Demo.canary)).
  - apply Demo.canary_reachable.
  - by left.
Defined.

(** The lifecycle only moves forward: every transition raises the rank
    draft < signed < shadow < canary < enforce < retired, except a failed gate, which
    leaves a draft a draft and changes nothing but its replay report; a retired
    release has no transition. *)
Theorem lifecycle_forward {C : Crypto} key r r' :
  lifecycle_step key r r' →
  State r ≠ RELEASE_STATE_RETIRED ∧
  (rank r < rank r' ∨
   ∃ d rep, r = RDraft d ∧ r' = RDraft (mkDraft (draft_ID d) (with_report (draft_Envelope d) rep) (draft_CreatedBy d))).
Proof.
  intros Hstep. destruct Hstep as [d rep now res d' Hg Hd|d rep now res s Hg Hs|s|s p c Hp|s|c|r reason r' Hr];
    simpl; split; try done; try (left; lia).
  - apply (Gate_failed _ _ _ _ _ _ Hg) in Hd as (rp & _ & _ & _ & ->). right. by exists d, rp.
  - unfold retireRelease, ActiveOf in Hr. by destruct r.
  - left. unfold retireRelease, ActiveOf in Hr. destruct r; simpl in *; try done; lia.
Qed.

Lemma lifecycle_forward_witness :
  State (RSigned Demo.signed) ≠ RELEASE_STATE_RETIRED.
Proof.
  apply (@lifecycle_forward toy_crypto toy_key _ (RShadow (StartShadow Demo.signed))), step_start_shadow.
Defined.

(** A gate run on any draft signs exactly when the report is present, flagged
    passed and satisfies [GatePassed]; otherwise it returns no signed release, and an
    error or a draft that carries the report. *)
Theorem gate_signs_iff {C : Crypto} d rep key now res :
  Gate d rep key now = (res, Ok tt) →
  (gr_Passed res = true ↔ ∃ rp, rep = Some rp ∧ Passed rp = true ∧ GatePassed rp = true) ∧
  (gr_Passed res = true → is_Some (gr_Signed res) ∧ gr_Draft res = None) ∧
  (gr_Passed res = false → gr_Signed res = None ∧ is_Some (gr_Draft res)).
Proof.
  unfold Gate, gate_with. destruct rep as [rp|]; [|done].
  destruct (Passed rp && GatePassed rp) eqn:Hp; simpl.
  - apply andb_true_iff in Hp as [??].
    destruct (SignArtifact _ _ _) as [[?|] [[]|?]] eqn:Hs; intros [= <-]; simpl; try naive_solver.
    unfold SignArtifact in Hs. branches.
  - destruct (NewDraft _ _ _); [|done]. intros [= <-]. simpl. apply andb_false_iff in Hp.
    split_and!; [|done|naive_solver]. split; [done|]. intros (? & [= <-] & ? & ?). destruct Hp; congruence.
Qed.

Lemma gate_signs_iff_witness :
  is_Some (gr_Draft (Gate (C := toy_crypto) Demo.draft (Some Demo.bad_report) toy_key 7).1).
Proof.
  by apply (@gate_signs_iff toy_crypto Demo.draft (Some Demo.bad_report) toy_key 7).
Defined.

(** For a percentage of the canary range [1, 25] (and any up to 100)
    [CanaryMinUnits] is the ceiling of 100 / percent, and [AutoCanaryAllowed] holds
    exactly when that many units are bound: with fewer units one unit is more than
    [percent] of the fleet. *)
Theorem canary_units_ceil percent units :
  1 ≤ percent ≤ 100 →
  100 ≤ CanaryMinUnits percent * percent < 100 + percent ∧
  (AutoCanaryAllowed units percent = true ↔ 100 ≤ units * percent).
Proof.
  intros Hp. unfold AutoCanaryAllowed, CanaryMinUnits.
  destruct (Z.leb_spec percent 0); [lia|].
  rewrite !(wrap_s_id 32) by (unfold in_s; rewrite ?wrap_s_id; unfold in_s; simpl; lia).
  pose proof (Z.quot_rem' (100 + percent - 1) percent).
  pose proof (Z.rem_bound_pos (100 + percent - 1) percent ltac:(lia) ltac:(lia)).
  split; [nia|]. rewrite Z.leb_le. nia.
Qed.

Lemma canary_units_ceil_witness :
  CanaryMinUnits 15 = 7 ∧ AutoCanaryAllowed 7 15 = true ∧ AutoCanaryAllowed 6 15 = false.
Proof.
  destruct (canary_units_ceil 15 7) as [_ H]; [lia|].
  split_and!; [reflexivity| |reflexivity]. apply H. lia.
Defined.
