(* ===== verification/GenerationStore.v ===== *)
(** * The generation store (lib/edgecore/generation.go)

    The edge keeps the current and the previous verified asset generation.  [Load]
    checks members, envelope signature, validity time and the link to the current
    generation before it replaces it. *)

From S2P Require Import Prelude GoStrings Contracts Signing.

Definition ClockSkew : duration := 60 * Second.

Record GenerationStore := mkGenerationStore {
  gs_current : option AssetGeneration;
  gs_prev : option AssetGeneration;
  LoadErrors : Z;
  diskFull : bool;
  degraded : bool;
}.

Definition empty_store : GenerationStore := mkGenerationStore None None 0 false false.

Definition noteLoadError (s : GenerationStore) : GenerationStore :=
  mkGenerationStore (gs_current s) (gs_prev s) (i64 (LoadErrors s + 1)) (diskFull s) (degraded s).

Definition SetDiskFull (s : GenerationStore) (full : bool) : GenerationStore :=
  mkGenerationStore (gs_current s) (gs_prev s) (LoadErrors s) full (full || degraded s).

Definition Degraded (s : GenerationStore) : bool := degraded s.
Definition Current (s : GenerationStore) : option AssetGeneration := gs_current s.

Section load.
Context {C : Crypto}.

(** The loop over the members: the first offending member decides the error. *)
Fixpoint check_members (ms : list (option ReleaseItem)) (pub : string) : result unit :=
  match ms with
  | [] => Ok tt
  | None :: _ => Err "generation member missing release_id"
  | Some m :: ms' =>
      match ri_Artifact m with
      | None => Err "generation member missing release_id"
      | Some a =>
          if bool_decide (ri_ReleaseId m = "") then Err "generation member missing release_id"
          else if bool_decide (ArtKind a = KIND_LISTEN_PLAN)
          then Err "unit listen plan must not be included in asset generation"
          else match VerifyArtifact (Some a) pub with
               | Err e => Err e
               | Ok _ => check_members ms' pub
               end
      end
  end.

(** The checks against the current generation, under the lock. [Ok false] is the
    idempotent reload, which changes nothing. *)
Definition check_link (cur : option AssetGeneration) (next : AssetGeneration) : result bool :=
  match cur with
  | None => Ok true
  | Some cur =>
      let succ := i64 (GenerationSeq cur + 1) in
      if negb (bool_decide (gen_AssetId next = gen_AssetId cur)) then Err "generation asset must not change"
      else if GenerationSeq next =? GenerationSeq cur then
        if bool_decide (GenerationId next = GenerationId cur) then Ok false
        else Err "generation sequence already has a different envelope"
      else if (GenerationSeq next <? GenerationSeq cur) && negb (RollbackOf next =? GenerationSeq cur)
      then Err "older generation requires signed rollback"
      else if (GenerationSeq next <? GenerationSeq cur)
              && negb (bool_decide (ParentGenerationId next = GenerationId cur))
      then Err "rollback generation parent does not match current envelope"
      else if succ <? GenerationSeq next then Err "generation seq must not skip"
      else if (GenerationSeq next =? succ) && negb (bool_decide (ParentGenerationId next = GenerationId cur))
      then Err "generation parent does not match current envelope"
      else if negb (RollbackOf next =? 0) && negb (RollbackOf next =? GenerationSeq cur)
      then Err "rollback_of must identify current generation"
      else Ok true
  end.

Definition Load (s : GenerationStore) (next : option AssetGeneration) (pub : string) (now : time)
    : GenerationStore * result unit :=
  match next with
  | None => (noteLoadError s, Err "generation envelope is incomplete")
  | Some g =>
      if bool_decide (gen_AssetId g = "") || (GenerationSeq g <=? 0)
      then (noteLoadError s, Err "generation envelope is incomplete")
      else match check_members (Members g) pub with
      | Err e => (noteLoadError s, Err e)
      | Ok _ =>
          match VerifyGeneration next pub with
          | Err e => (noteLoadError s, Err e)
          | Ok _ =>
              if match NotBefore g with Some nb => ClockSkew <? time_sub nb now | None => false end
              then (s, Err "generation not_before not yet valid")
              else if diskFull s then
                (mkGenerationStore (gs_current s) (gs_prev s) (LoadErrors s) (diskFull s) true,
                 Err "disk full: refuse new generation")
              else match check_link (gs_current s) g with
              | Err e => (s, Err e)
              | Ok false => (s, Ok tt)
              | Ok true =>
                  (mkGenerationStore (Some g)
                     (match gs_current s with Some c => Some c | None => gs_prev s end)
                     (LoadErrors s) (diskFull s) (degraded s), Ok tt)
              end
          end
      end
  end.
End load.

(** ** Specification

    [linked cur next]: [next] is a child of [cur] that names it as its parent, and is
    either the next in sequence or an explicitly signed rollback of [cur]. *)
Definition linked (cur next : AssetGeneration) : Prop :=
  gen_AssetId next = gen_AssetId cur ∧ ParentGenerationId next = GenerationId cur ∧
  (GenerationSeq next = GenerationSeq cur + 1 ∧ (RollbackOf next = 0 ∨ RollbackOf next = GenerationSeq cur) ∨
   0 < GenerationSeq next < GenerationSeq cur ∧ RollbackOf next = GenerationSeq cur).

Section facts.
Context {C : Crypto}.

(** What the edge may trust about a generation in the store. *)
Definition trusted (pub : string) (g : AssetGeneration) : Prop :=
  VerifyGeneration (Some g) pub = Ok tt ∧ 0 < GenerationSeq g ∧
  ∀ m, m ∈ Members g → ∃ it a, m = Some it ∧ ri_Artifact it = Some a ∧
    ArtKind a ≠ KIND_LISTEN_PLAN ∧ VerifyArtifact (Some a) pub = Ok tt.

Lemma check_members_Ok ms pub u :
  check_members ms pub = Ok u →
  ∀ m, m ∈ ms → ∃ it a, m = Some it ∧ ri_Artifact it = Some a ∧
    ArtKind a ≠ KIND_LISTEN_PLAN ∧ VerifyArtifact (Some a) pub = Ok tt.
Proof.
  induction ms as [|[it|] ms IH]; cbn -[VerifyArtifact]; intros H m Hm; [set_solver| |done].
  destruct (ri_Artifact it) as [a|] eqn:Ha; [|done].
  do 2 (case_bool_decide; [done|]).
  destruct (VerifyArtifact (Some a) pub) as [[]|] eqn:Hv; [|done].
  apply elem_of_cons in Hm as [->|Hm]; [by exists it, a|by apply IH].
Qed.

Lemma check_link_Ok cur next :
  in_s 64 (GenerationSeq cur) → in_s 64 (GenerationSeq next) → 0 < GenerationSeq next →
  check_link (Some cur) next = Ok true → linked cur next.
Proof.
  intros Hc Hn Hpos H. unfold check_link in H.
  case_bool_decide; [|done]. cbn -[wrap_s] in H.
  destruct (Z.eqb_spec (GenerationSeq next) (GenerationSeq cur)); [by case_match|].
  destruct (Z_lt_le_dec (GenerationSeq cur) (2 ^ 63 - 1)) as [Hlt|Hge].
  - rewrite !wrap_s_id in H by (unfold in_s in *; lia).
    branch_in H. breflect. unfold linked. rewrite ?bool_decide_eq_true in *. intuition lia.
  - assert (wrap_s 64 (GenerationSeq cur + 1) = - 2 ^ 63) as E.
    { replace (GenerationSeq cur) with (2 ^ 63 - 1) by (unfold in_s in *; lia). done. }
    rewrite E in H. branch_in H. breflect. lia.
Qed.

(** The three ways a [Load] can end. *)
Lemma Load_cases s next pub now :
  let '(s', r) := Load s next pub now in
  gs_current s' = gs_current s ∧ gs_prev s' = gs_prev s ∧ diskFull s' = diskFull s ∧
    (r = Ok tt → ∃ g c, next = Some g ∧ gs_current s = Some c ∧
       GenerationSeq g = GenerationSeq c ∧ GenerationId g = GenerationId c) ∨
  r = Ok tt ∧ diskFull s = false ∧ ∃ g, next = Some g ∧ gs_current s' = Some g ∧ trusted pub g ∧
    check_link (gs_current s) g = Ok true ∧
    gs_prev s' = match gs_current s with Some c => Some c | None => gs_prev s end.
Proof.
  unfold Load. destruct next as [g|]; [|by left].
  destruct (_ || _) eqn:Hpre; [by left|].
  destruct (check_members _ _) as [u|] eqn:Hm; [|by left].
  destruct (VerifyGeneration _ _) as [[]|] eqn:Hv; [|by left].
  destruct (match NotBefore g with Some _ => _ | None => _ end); [by left|].
  destruct (diskFull s) eqn:Hd; [by left|].
  destruct (check_link _ _) as [[]|] eqn:Hl; [| |by left].
  - right. split_and!; [done..|]. exists g. breflect. split_and!; try done.
    split_and!; [done|lia|]. by eapply check_members_Ok.
  - left. split_and!; [done..|]. intros _. unfold check_link in Hl.
    destruct (gs_current s) as [c|]; [|done]. exists g, c. branch_in Hl.
    rewrite bool_decide_eq_true in *. breflect. done.
Qed.
End facts.

(** ** Histories of the store *)

Inductive store_event :=
  | EvLoad (next : option AssetGeneration) (now : time)
  | EvDisk (full : bool).

Definition event_typed (e : store_event) : Prop :=
  match e with EvLoad (Some g) _ => in_s 64 (GenerationSeq g) | _ => True end.

Definition store_step {C : Crypto} (pub : string) (s : GenerationStore) (e : store_event) : GenerationStore :=
  match e with
  | EvLoad next now => (Load s next pub now).1
  | EvDisk full => SetDiskFull s full
  end.

Lemma store_step_linked {C : Crypto} pub s e c :
  event_typed e → in_s 64 (GenerationSeq c) → gs_current s = Some c → trusted pub c →
  ∃ g, gs_current (store_step pub s e) = Some g ∧ trusted pub g ∧ in_s 64 (GenerationSeq g) ∧
    (g = c ∨ linked c g ∧ ∃ now, e = EvLoad (Some g) now).
Proof.
  intros He Hc Hs Ht. destruct e as [next now|full]; [|by exists c; auto].
  simpl. destruct (Load s next pub now) as [s' r] eqn:Hl. simpl.
  pose proof (Load_cases s next pub now) as H. rewrite Hl, Hs in H.
  destruct H as [[-> _]|(_ & _ & g & -> & ? & Htg & Hlink & _)]; [by exists c; auto|].
  exists g. split_and!; [done..|]. right. split; [|by exists now].
  destruct Htg as (? & ? & ?). by apply check_link_Ok.
Qed.

Lemma store_run_linked {C : Crypto} pub evs s c :
  Forall event_typed evs → in_s 64 (GenerationSeq c) → gs_current s = Some c → trusted pub c →
  ∃ g, gs_current (foldl (store_step pub) s evs) = Some g ∧ trusted pub g ∧ rtc linked c g ∧
    ((∀ n t, EvLoad (Some n) t ∈ evs → RollbackOf n = 0) → GenerationSeq c ≤ GenerationSeq g).
Proof.
  revert s c. induction evs as [|e evs IH]; intros s c Hevs Hc Hs Ht; simpl.
  { exists c. split_and!; [done..|reflexivity|lia]. }
  apply Forall_cons in Hevs as [He Hevs].
  destruct (store_step_linked pub s e c He Hc Hs Ht) as (g1 & Hg1 & Ht1 & Hr1 & Hcase).
  destruct (IH _ g1 Hevs Hr1 Hg1 Ht1) as (g & Hg & Htg & Hrtc & Hmono).
  exists g. split_and!; [done..| |].
  - destruct Hcase as [->|[Hl _]]; [done|]. by eapply rtc_l.
  - intros Hno. etrans; [|apply Hmono; set_solver].
    destruct Hcase as [->|[Hl [t ->]]]; [done|]. specialize (Hno g1 t ltac:(set_solver)).
    destruct Hl as (_ & _ & [[-> _]|[? ?]]); [lia|]. destruct Ht as (_ & ? & _). lia.
Qed.

(** C8: whatever sequence of loads (valid, corrupt, replayed, out of order) and
    disk-full signals the edge sees, its current generation is trusted and linked to
    the one it started from by signed parent references, each step either the next in
    sequence or a rollback signed for exactly the generation it replaces; without
    rollback envelopes the sequence number never decreases. *)
Theorem generation_chain {C : Crypto} pub evs s c :
  Forall event_typed evs → in_s 64 (GenerationSeq c) → gs_current s = Some c → trusted pub c →
  ∃ g, gs_current (foldl (store_step pub) s evs) = Some g ∧ trusted pub g ∧ rtc linked c g ∧
    ((∀ n t, EvLoad (Some n) t ∈ evs → RollbackOf n = 0) → GenerationSeq c ≤ GenerationSeq g).
Proof. apply store_run_linked. Qed.

(** A load that returns an error leaves the current and the previous
    generation untouched; a successful one either reloads the current generation
    unchanged or makes the envelope current and the old one previous, and never does so
    while the disk is full. *)
Theorem load_atomic {C : Crypto} s next pub now :
  let '(s', r) := Load s next pub now in
  (r ≠ Ok tt → gs_current s' = gs_current s ∧ gs_prev s' = gs_prev s) ∧
  (r = Ok tt → (gs_current s' = gs_current s ∧ gs_prev s' = gs_prev s) ∨
     (gs_current s' = next ∧ diskFull s = false ∧
      gs_prev s' = match gs_current s with Some c => Some c | None => gs_prev s end)).
Proof.
  pose proof (Load_cases s next pub now) as H. destruct (Load s next pub now) as [s' r].
  destruct H as [(? & ? & _)|(-> & ? & g & -> & ? & _ & _ & ?)]; [auto|].
  split; [done|]. intros _. by right.
Qed.

Module Demo.
Definition item : ReleaseItem :=
  mkReleaseItem "r" (SignArtifact (C := toy_crypto) (Some (sample_artifact "" "p" None)) toy_key 0).1
    "asset" RELEASE_MODE_ENFORCE 0 false RETIRE_REASON_UNSPECIFIED None 0.
Definition sign (g : AssetGeneration) : AssetGeneration :=
  default g (SignGeneration (C := toy_crypto) (Some g) toy_key 0).1.
Definition pub : string := ed25519_public (Crypto := toy_crypto) toy_key.
Definition g5 : AssetGeneration := sign (mkAssetGeneration "g5" "" 5 "asset" [Some item] "dev" None 0 None).
Definition g6 : AssetGeneration := sign (mkAssetGeneration "g6" "g5" 6 "asset" [Some item] "dev" None 0 None).
Definition g8 : AssetGeneration := sign (mkAssetGeneration "g8" "g6" 8 "asset" [Some item] "dev" None 0 None).
Definition back4 : AssetGeneration := sign (mkAssetGeneration "g4" "g6" 4 "asset" [Some item] "dev" None 6 None).

(** First load, successor, a skipped sequence (refused), a replay of an old envelope
    (refused), a signed rollback. *)
Example store_run :
  (foldl (store_step (C := toy_crypto) pub) empty_store
    [EvLoad (Some g5) 0; EvLoad (Some g6) 0; EvLoad (Some g8) 0; EvLoad (Some g5) 0; EvLoad (Some back4) 0]).(gs_current)
  = Some back4.
Proof. vm_compute. reflexivity. Qed.
End Demo.

Lemma generation_chain_witness :
  ∃ g, gs_current (foldl (store_step (C := toy_crypto) Demo.pub)
         (mkGenerationStore (Some Demo.g5) None 0 false false) [EvLoad (Some Demo.g6) 0]) = Some g ∧
       GenerationSeq Demo.g5 ≤ GenerationSeq g.
Proof.
  destruct (@generation_chain toy_crypto Demo.pub [EvLoad (Some Demo.g6) 0]
    (mkGenerationStore (Some Demo.g5) None 0 false false) Demo.g5) as (g & Hg & _ & _ & Hm).
  - repeat constructor; vm_compute; congruence.
  - split; vm_compute; congruence.
  - reflexivity.
  - split_and!; [by vm_compute..|]. intros m Hm. apply list_elem_of_singleton in Hm as ->.
    eexists _, _. split_and!; [reflexivity..| |]; by vm_compute.
  - exists g. split; [exact Hg|]. apply Hm. intros n t Hin. apply list_elem_of_singleton in Hin. by simplify_eq.
Defined.
