(* ===== verification/Canonical.v ===== *)
(** * The canonical request view (lib/edgecore/canonical.go, detector.go, inspector.go)

    [canonicalize] turns a raw request into the view that inspection, the gate and the
    replayer share.  The decoders the standard library provides (gzip, zlib, JSON, MIME,
    multipart) and the profile's protobuf encoding are the parameter class [HttpDecoders]:
    each field returns what the corresponding reader yields on an input.

    A Go map has no iteration order.  Headers are a [gmap], and [order n] is the order in
    which the [n]-th [range] statement over them runs, any permutation of the map. *)

From stdpp Require Import sorting.
From S2P Require Import Prelude GoStrings Contracts Signing.

Definition EngineBodyLimitBytes : Z := 64 * 1024.

(** ** Data *)

Abbreviation headers := (gmap string (list string)).
Abbreviation header_order := (list (string * list string)).

Record Coverage := mkCoverage {
  cov_Target : InspectionSurface; cov_Status : CoverageStatus; cov_Inspected : Z; cov_Total : Z;
}.

Record CanonicalView := mkCanonicalView {
  v_Method : string; v_Path : string; v_Query : option values; v_Headers : headers; v_Body : string;
  v_Host : string; v_Rejected : bool; v_Coverage : list Coverage; v_ProfileDigest : string;
}.

#[global] Instance Coverage_eq_dec : EqDecision Coverage. Proof. solve_decision. Defined.
#[global] Instance CanonicalView_eq_dec : EqDecision CanonicalView. Proof. solve_decision. Defined.

Inductive Action := ActionAllow | ActionObserve | ActionBlock.
#[global] Instance Action_eq_dec : EqDecision Action. Proof. solve_decision. Defined.

Record Request := mkRequest {
  req_AssetID : string; req_UnitID : string; req_Method : string; req_Path : string;
  req_Query : string; req_Headers : gmap string string; req_Body : string; req_ClientAddress : string;
}.

(** A decoded JSON value ([any] after [json.Unmarshal]); the keys of an object are
    distinct, as they are in the Go map. *)
Inductive json :=
  | JNull
  | JBool (b : bool)
  | JNumber (x : f64)
  | JString (s : string)
  | JArray (l : list json)
  | JObject (l : list (string * json)).

(** What a reader delivers: its bytes, the error that ends them ([None] is a clean end)
    and whether closing it fails. *)
Record stream := mkStream { st_data : string; st_err : option string; st_close_err : bool }.

(** The multipart reader: its parts, and whether it ends with [io.EOF] or another error. *)
Record multiparts := mkMultiparts { mp_parts : list stream; mp_eof : bool }.

(** One turn of the key loop of a JSON object: a token error, or a key and whether its
    value decodes. *)
Inductive json_step := JTokenErr | JKey (k : string) (value_ok : bool).

Class HttpDecoders := {
  marshal_profile : HttpInspectionProfile → option string;
  gzip_reader : string → option stream;
  zlib_reader : string → option stream;
  json_unmarshal : string → option json;
  json_object_steps : string → option (list json_step);
  media_boundary : string → option string;
  multipart_reader : string → string → multiparts;
  sprintf_f : f64 → string;  (* fmt.Sprintf of a float64 with the verb %f *)
}.

Definition DefaultInspectionProfile : HttpInspectionProfile := {|
  NormalizePath := true; PercentDecodeRounds := 2; EncodedSlash := "reject"; DuplicateQuery := "first";
  DuplicateHeader := "first"; ClTeConflict := "reject"; JsonDuplicateKey := "reject";
  MultipartMaxParts := 16; MultipartMaxPartBytes := EngineBodyLimitBytes; DecompressAlgorithms := [];
  DecompressMaxBytes := EngineBodyLimitBytes; MaxHeaders := 64; MaxParams := 128; JsonMaxDepth := 8;
  prof_EngineBodyLimitBytes := EngineBodyLimitBytes;
|}.

(** ** Paths *)

Fixpoint normalize_segments (parts out : list string) : list string :=
  match parts with
  | [] => out
  | part :: parts' =>
      if bool_decide (part = "") || bool_decide (part = ".") then normalize_segments parts' out
      else if bool_decide (part = "..") then normalize_segments parts' (take (length out - 1) out)
      else normalize_segments parts' (out ++ [part])
  end.

Definition normalizePath (p : string) : string :=
  if bool_decide (p = "") then "/"
  else "/" +:+ join "/" (normalize_segments (split_byte "/"%char p) []).

Section paths.
Context {U : Unicode}.

Definition hasEncodedSlash (path : string) : bool := contains (to_lower path) "%2f".

(** The percent-decoding rounds: the path and whether the request is rejected. *)
Fixpoint decode_rounds (fuel : nat) (encodedSlash path : string) (rejected : bool) : string * bool :=
  match fuel with
  | O => (path, rejected)
  | S fuel' =>
      let rejected := rejected || (hasEncodedSlash path && bool_decide (encodedSlash = "reject")) in
      match PathUnescape path with
      | None => (path, true)
      | Some decoded =>
          if bool_decide (decoded = path) then (path, rejected)
          else decode_rounds fuel' encodedSlash decoded rejected
      end
  end.
End paths.

(** ** Query *)

Fixpoint malformedQuery (raw : string) : bool :=
  match raw with
  | "" => false
  | String c rest =>
      (bool_decide (c = "%"%char) &&
       match rest with
       | String a (String b _) => negb (is_hex a) || negb (is_hex b)
       | _ => true
       end) || malformedQuery rest
  end%string.

Definition fold_query (mode : string) (q : values) : values :=
  if bool_decide (mode = "first") then omap (M := gmap string) (λ vs, match vs with v :: _ => Some [v] | [] => None end) q
  else if bool_decide (mode = "last")
  then omap (M := gmap string) (λ vs, match last vs with Some v => Some [v] | None => None end) q
  else q.

(** Rounds after the one [ParseQuery] has made. *)
Fixpoint query_rounds (fuel : nat) (cur : string) : string :=
  match fuel with
  | O => cur
  | S fuel' =>
      match QueryUnescape cur with
      | None => cur
      | Some dec => if bool_decide (dec = cur) then cur else query_rounds fuel' dec
      end
  end.

Definition decode_query (rounds : Z) (q : values) : values :=
  if 1 <? rounds then fmap (M := gmap string) (map (query_rounds (Z.to_nat (rounds - 1)))) q else q.

Definition param_count (q : values) : Z := sum_list_Z (λ '(_, vs), Z.of_nat (length vs)) (map_to_list q).

(** ** Headers *)

Section header_access.
Context {U : Unicode}.

Definition httpCanonical (k : string) : string := to_lower k.

Fixpoint find_header (want : string) (order : header_order) : list string :=
  match order with
  | [] => []
  | (k, vs) :: order' => if bool_decide (httpCanonical k = want) then vs else find_header want order'
  end.

Definition headerVals (h : headers) (order : header_order) (name : string) : list string :=
  match h !! name with
  | Some vs => vs
  | None => find_header (httpCanonical name) order
  end.

Definition headerVal (h : headers) (order : header_order) (name : string) : string :=
  match headerVals h order name with [] => "" | v :: _ => v end.
End header_access.

Definition pickDuplicate (vs : list string) (mode : string) : list string :=
  match vs with
  | [] => []
  | v :: _ =>
      if bool_decide (mode = "last") then match last vs with Some l => [l] | None => [] end
      else if bool_decide (mode = "combine") then vs
      else [v]
  end.

Definition build_headers {U : Unicode} (mode : string) (order : header_order) : headers :=
  foldl (λ m '(k, vs), <[httpCanonical k := pickDuplicate vs mode]> m) ∅ order.

(** ** Bodies *)

(** [io.ReadAll(io.LimitReader(r, n))]: the bytes read and the error. *)
Definition read_limited (r : stream) (n : Z) : string * option string :=
  if n <=? str_len (st_data r) then (str_take (Z.to_nat n) (st_data r), None)
  else (st_data r, st_err r).

Fixpoint jsonDepth (v : json) : Z :=
  let depths := fix depths (l : list json) (max : Z) : Z :=
    match l with
    | [] => max
    | c :: l' => let d := 1 + jsonDepth c in depths l' (if max <? d then d else max)
    end in
  let field_depths := fix field_depths (l : list (string * json)) (max : Z) : Z :=
    match l with
    | [] => max
    | (_, c) :: l' => let d := 1 + jsonDepth c in field_depths l' (if max <? d then d else max)
    end in
  match v with
  | JObject l => field_depths l 1
  | JArray l => depths l 1
  | _ => 0
  end.

Fixpoint dup_key_loop (steps : list json_step) (seen : gset string) : bool :=
  match steps with
  | [] => false
  | JTokenErr :: _ => false
  | JKey k ok :: steps' =>
      if bool_decide (k ∈ seen) then true
      else if ok then dup_key_loop steps' ({[k]} ∪ seen) else false
  end.

(** The part loop of [rejectMultipartLimits]; [n] counts the parts seen. *)
Fixpoint part_loop (parts : list stream) (eof : bool) (maxParts maxPart bodyLen n : Z) : bool :=
  match parts with
  | [] => negb eof
  | part :: parts' =>
      let n := n + 1 in
      let limit := if maxPart <=? 0 then bodyLen else maxPart in
      let '(raw, err) := read_limited part (limit + 1) in
      if bool_decide (is_Some err) || st_close_err part || ((0 <? maxPart) && (maxPart <? str_len raw)) then true
      else if (0 <? maxParts) && (maxParts <? n) then true
      else part_loop parts' eof maxParts maxPart bodyLen n
  end.

Section body.
Context {U : Unicode} {D : HttpDecoders} {C : Crypto}.

Definition inspectionProfileDigest (p : HttpInspectionProfile) : string :=
  match marshal_profile p with
  | Some raw => hex_encode (sha256 raw)
  | None => ""
  end.

Definition allowsDecompress (p : HttpInspectionProfile) (alg : string) : bool :=
  existsb (λ a, equal_fold (trim_space a) alg) (DecompressAlgorithms p).

Definition decompressionReader (algorithm body : string) : option stream :=
  let a := to_lower algorithm in
  if bool_decide (a = "gzip") then gzip_reader body
  else if bool_decide (a = "deflate") then zlib_reader body
  else None.

Definition jsonExceedsDepth (b : string) (max : Z) : bool :=
  if (str_len b =? 0) || (max <=? 0) then false
  else match json_unmarshal b with
       | None => false
       | Some v => max <? jsonDepth v
       end.

Definition hasDuplicateJSONKey (b : string) : bool :=
  match json_object_steps b with
  | None => false
  | Some steps => dup_key_loop steps ∅
  end.

Definition rejectMultipartLimits (body contentType : string) (p : HttpInspectionProfile) : bool :=
  let maxParts := MultipartMaxParts p in
  let maxPart := MultipartMaxPartBytes p in
  if (maxParts <=? 0) && (maxPart <=? 0) then false
  else match media_boundary contentType with
  | None => true
  | Some boundary =>
      if bool_decide (boundary = "") then true
      else let r := multipart_reader boundary body in
           part_loop (mp_parts r) (mp_eof r) maxParts maxPart (str_len body) 0
  end.

(** Content decoding: the body to inspect, whether it stays opaque, whether to reject. *)
Definition decode_body (enc body : string) (p : HttpInspectionProfile) (maxInflate : Z)
    : string * bool * bool :=
  if negb (bool_decide (enc = "")) && negb (bool_decide (enc = "identity")) && (0 <? str_len body) then
    let algorithm := trim_space (default "" (head (split_byte ","%char enc))) in
    if negb (allowsDecompress p algorithm) then ("", true, false)
    else match decompressionReader algorithm body with
    | None => ("", false, true)
    | Some r =>
        let '(raw, err) := read_limited r (maxInflate + 1) in
        let bad_err := match err with Some e => negb (contains e "EOF") | None => false end in
        (raw, false, bad_err || st_close_err r || (maxInflate <? str_len raw))
    end
  else (body, false, false).

(** The content-type checks: the body to inspect and whether to reject. *)
Definition check_content (ct body : string) (p : HttpInspectionProfile) : string * bool :=
  let json_bad := contains ct "application/json" &&
    ((bool_decide (JsonDuplicateKey p = "reject") && hasDuplicateJSONKey body)
     || ((0 <? JsonMaxDepth p) && jsonExceedsDepth body (JsonMaxDepth p))) in
  if contains ct "multipart/" then
    if negb (contains body "Content-Disposition") then ("", true)
    else (body, json_bad || rejectMultipartLimits body ct p)
  else (body, json_bad).

(** The inspected body and its coverage entry. *)
Definition body_coverage (opaque : bool) (body : string) (limit : Z) : string * Coverage :=
  let total := str_len body in
  let cover st n := mkCoverage INSPECTION_SURFACE_BODY st n total in
  if opaque then ("", cover COVERAGE_STATUS_ERROR 0)
  else if total =? 0 then ("", cover COVERAGE_STATUS_ABSENT 0)
  else if limit <? total then (str_take (Z.to_nat limit) body, cover COVERAGE_STATUS_PARTIAL limit)
  else (body, cover COVERAGE_STATUS_FULL total).

(** Everything [canonicalize] does with the headers map. *)
Record header_facts := mkHeaderFacts {
  hf_clte : bool; hf_dup : bool; hf_built : headers; hf_host : string; hf_enc : string; hf_ct : string;
}.

Definition read_headers (h : headers) (order : nat → header_order) (p : HttpInspectionProfile) : header_facts :=
  mkHeaderFacts
    (negb (bool_decide (headerVal h (order 0%nat) "Content-Length" = ""))
     && negb (bool_decide (headerVal h (order 1%nat) "Transfer-Encoding" = ""))
     && bool_decide (ClTeConflict p = "reject"))
    (negb (bool_decide (headerVal h (order 2%nat) "X-Duplicate-Content-Length" = ""))
     || (1 <? Z.of_nat (length (headerVals h (order 3%nat) "Content-Length"))))
    (build_headers (DuplicateHeader p) (order 4%nat))
    (headerVal h (order 5%nat) "Host")
    (to_lower (headerVal h (order 6%nat) "Content-Encoding"))
    (to_lower (headerVal h (order 7%nat) "Content-Type")).

Definition positive_or (n dflt : Z) : Z := if n <=? 0 then dflt else n.

Definition canonicalize (method rawPath rawQuery : string) (h : headers) (order : nat → header_order)
    (body : string) (profile : option HttpInspectionProfile) : CanonicalView :=
  let p := default DefaultInspectionProfile profile in
  let path0 := if bool_decide (rawPath = "") then "/" else rawPath in
  let '(path1, path_bad) := decode_rounds (Z.to_nat (PercentDecodeRounds p)) (EncodedSlash p) path0 false in
  let path := if NormalizePath p then normalizePath path1 else path1 in
  let '(q0, query_err) := ParseQuery rawQuery in
  let q1 := fold_query (DuplicateQuery p) (if query_err then ∅ else q0) in
  let q := decode_query (PercentDecodeRounds p) q1 in
  let params_bad := (0 <? MaxParams p) && (MaxParams p <? param_count q) in
  let hf := read_headers h order p in
  let headers_bad := (0 <? MaxHeaders p) && (MaxHeaders p <? Z.of_nat (size h)) in
  let limit := positive_or (prof_EngineBodyLimitBytes p) EngineBodyLimitBytes in
  let maxInflate := positive_or (DecompressMaxBytes p) EngineBodyLimitBytes in
  let '(body1, opaque, inflate_bad) := decode_body (hf_enc hf) body p maxInflate in
  let '(body2, content_bad) := check_content (hf_ct hf) body1 p in
  let '(vbody, body_cov) := body_coverage opaque body2 limit in
  mkCanonicalView (to_upper method) path (Some q) (hf_built hf) vbody (hf_host hf)
    (path_bad || malformedQuery rawQuery || query_err || params_bad || hf_clte hf || hf_dup hf
     || headers_bad || inflate_bad || content_bad)
    [mkCoverage INSPECTION_SURFACE_PATH COVERAGE_STATUS_FULL (str_len path) (str_len path);
     mkCoverage INSPECTION_SURFACE_QUERY COVERAGE_STATUS_FULL (str_len rawQuery) (str_len rawQuery);
     mkCoverage INSPECTION_SURFACE_HEADER COVERAGE_STATUS_FULL 0 0;
     body_cov]
    (inspectionProfileDigest p).

Definition CanonicalizeHTTP := canonicalize.

Definition Canonicalize (method rawPath rawQuery : string) (h : gmap string string)
    (order : nat → header_order) (body : string) (profile : option HttpInspectionProfile) : CanonicalView :=
  canonicalize method rawPath rawQuery (fmap (M := gmap string) (λ v, [v]) h) order body profile.
End body.

Fixpoint CoverageOf (cov : list Coverage) (surface : InspectionSurface) : CoverageStatus :=
  match cov with
  | [] => COVERAGE_STATUS_ABSENT
  | c :: cov' => if bool_decide (cov_Target c = surface) then cov_Status c else CoverageOf cov' surface
  end.

(** ** Path normalisation *)

(** A segment that a normalised path may contain. *)
Definition plain_segment (s : string) : Prop :=
  s ≠ "" ∧ s ≠ "." ∧ s ≠ ".." ∧ str_mem "/"%char s = false.

Lemma normalize_segments_plain parts out :
  Forall (λ s, str_mem "/"%char s = false) parts → Forall plain_segment out →
  Forall plain_segment (normalize_segments parts out).
Proof.
  intros Hp. revert out. induction Hp as [|part parts Hs Hp IH]; intros out Hout; simpl; [done|].
  destruct (bool_decide (part = "") || _) eqn:E; [by apply IH|].
  apply orb_false_iff in E as [?%bool_decide_eq_false ?%bool_decide_eq_false].
  case_bool_decide; [by apply IH, Forall_take|]. apply IH, Forall_app. split; [done|]. by repeat constructor.
Qed.

Lemma normalize_segments_id parts out :
  Forall plain_segment parts → normalize_segments parts out = out ++ parts.
Proof.
  intros Hp. revert out. induction Hp as [|part parts (? & ? & ? & ?) Hp IH]; intros out; simpl.
  - by rewrite app_nil_r.
  - rewrite !bool_decide_eq_false_2 by done. simpl. rewrite IH. by rewrite <- app_assoc.
Qed.

Lemma normalizePath_form p :
  ∃ segs, normalizePath p = "/" +:+ join "/" segs ∧ Forall plain_segment segs.
Proof.
  unfold normalizePath. case_bool_decide; [by exists []|]. eexists. split; [done|].
  apply normalize_segments_plain; [|done]. apply Forall_forall. intros x. apply split_byte_no_sep.
Qed.

Lemma normalizePath_fixed segs :
  Forall plain_segment segs → normalizePath ("/" +:+ join "/" segs) = "/" +:+ join "/" segs.
Proof.
  intros Hs. unfold normalizePath. rewrite bool_decide_eq_false_2 by done.
  change ("/" +:+ join "/" segs) with ("" +:+ String "/" (join "/" segs)).
  rewrite split_byte_app by done. simpl. destruct segs as [|x segs]; [done|].
  rewrite split_join; [|done|].
  - by rewrite normalize_segments_id.
  - eapply Forall_impl; [done|]. by intros y (? & ? & ? & ?).
Qed.

(** ** Header order *)

Lemma find_header_perm {U : Unicode} want l1 l2 :
  NoDup (httpCanonical <$> l1.*1) → l1 ≡ₚ l2 → find_header want l1 = find_header want l2.
Proof.
  intros Hn Hp. induction Hp as [|[k vs] l1 l2 Hp IH|[k vs] [k' vs'] l|l1 l2 l3 Hp1 IH1 Hp2 IH2]; simpl in *.
  - done.
  - apply NoDup_cons in Hn as [_ Hn]. by rewrite IH.
  - apply NoDup_cons in Hn as [Hk _]. do 2 case_bool_decide; try done. exfalso. apply Hk, elem_of_cons. left. congruence.
  - rewrite IH1 by done. apply IH2. by rewrite <- Hp1.
Qed.

Lemma build_headers_perm {U : Unicode} mode l1 l2 m :
  NoDup (httpCanonical <$> l1.*1) → l1 ≡ₚ l2 →
  foldl (λ m '(k, vs), <[httpCanonical k := pickDuplicate vs mode]> m) m l1 =
  foldl (λ m '(k, vs), <[httpCanonical k := pickDuplicate vs mode]> m) (m : headers) l2.
Proof.
  intros Hn Hp. revert m.
  induction Hp as [|[k vs] l1 l2 Hp IH|[k vs] [k' vs'] l|l1 l2 l3 Hp1 IH1 Hp2 IH2]; intros m; simpl in *.
  - done.
  - apply NoDup_cons in Hn as [_ Hn]. by rewrite IH.
  - apply NoDup_cons in Hn as [Hk _]. rewrite insert_insert_ne; [done|]. intros E. apply Hk, elem_of_cons. left. congruence.
  - rewrite IH1 by done. apply IH2. by rewrite <- Hp1.
Qed.

(** No two header names of the map differ only in case. *)
Definition header_names_distinct {U : Unicode} (h : headers) : Prop :=
  NoDup (httpCanonical <$> (map_to_list h).*1).

Lemma read_headers_perm {U : Unicode} h o1 o2 p :
  header_names_distinct h → (∀ i, o1 i ≡ₚ map_to_list h) → (∀ i, o2 i ≡ₚ map_to_list h) →
  read_headers h o1 p = read_headers h o2 p.
Proof.
  intros Hn H1 H2.
  assert (∀ i, NoDup (httpCanonical <$> (o1 i).*1)) as Hn1 by (intros i; by rewrite H1).
  assert (∀ i, o1 i ≡ₚ o2 i) as H12 by (intros i; by rewrite H1, H2).
  assert (∀ i name, headerVals h (o1 i) name = headerVals h (o2 i) name) as Hv.
  { intros i name. unfold headerVals. case_match; [done|]. by apply find_header_perm. }
  unfold read_headers, headerVal. rewrite !Hv. f_equal. by apply build_headers_perm.
Qed.

(** ** Properties *)

(** The canonical path is absolute, has no empty, [.] or [..] segment (so it
    names nothing above the root), and normalising it again changes nothing. *)
Theorem normalize_path_canonical p :
  (∃ segs, normalizePath p = "/" +:+ join "/" segs ∧ Forall plain_segment segs ∧
     split_byte "/"%char (normalizePath p) = "" :: (if decide (segs = []) then [""] else segs)) ∧
  normalizePath (normalizePath p) = normalizePath p.
Proof.
  destruct (normalizePath_form p) as (segs & -> & Hs). split; [|by apply normalizePath_fixed].
  exists segs. split_and!; [done..|].
  change ("/" +:+ join "/" segs) with ("" +:+ String "/" (join "/" segs)).
  rewrite split_byte_app by done. f_equal. case_decide as E; [by subst|]. apply split_join; [done|].
  eapply Forall_impl; [done|]. by intros y (? & ? & ? & ?).
Qed.

(** The canonical view does not depend on the order in which Go
    iterates the header map, provided no two header names differ only in case. *)
Theorem canonicalize_deterministic {U : Unicode} {D : HttpDecoders} {C : Crypto} method path query h o1 o2 body p :
  header_names_distinct h → (∀ i, o1 i ≡ₚ map_to_list h) → (∀ i, o2 i ≡ₚ map_to_list h) →
  canonicalize method path query h o1 body p = canonicalize method path query h o2 body p.
Proof. intros. unfold canonicalize. by rewrite (read_headers_perm h o1 o2). Qed.

Lemma body_coverage_exact_lemma opaque body limit vbody c :
  0 < limit → (opaque = true → body = "") → body_coverage opaque body limit = (vbody, c) →
  cov_Target c = INSPECTION_SURFACE_BODY ∧ cov_Inspected c = str_len vbody ∧ str_len vbody ≤ limit ∧
  cov_Total c = str_len body ∧ (∃ rest, body = vbody +:+ rest) ∧
  (cov_Status c = COVERAGE_STATUS_FULL ↔ 0 < cov_Total c ∧ cov_Inspected c = cov_Total c) ∧
  (cov_Status c = COVERAGE_STATUS_PARTIAL ↔ cov_Inspected c < cov_Total c) ∧
  (cov_Status c = COVERAGE_STATUS_ERROR ↔ opaque = true).
Proof.
  intros Hl Ho. unfold body_coverage. pose proof (str_len_nonneg body).
  destruct opaque; [|destruct (Z.eqb_spec (str_len body) 0) as [E|];
    [apply str_len_0 in E as ->|destruct (Z.ltb_spec limit (str_len body))]].
  - rewrite Ho by done. intros [= <- <-]. simpl. change (str_len "") with 0.
    split_and!; try done; [lia|by exists ""|..]; split; (done || lia).
  - intros [= <- <-]. simpl. change (str_len "") with 0.
    split_and!; try done; [lia|by exists ""|..]; split; (done || lia).
  - intros [= <- <-]. simpl.
    assert (str_len (str_take (Z.to_nat limit) body) = limit) as ->.
    { rewrite str_take_length. lia. }
    split_and!; try done; [apply str_take_prefix|..]; split; (done || lia).
  - intros [= <- <-]. simpl. split_and!; try done; [by exists ""; rewrite str_app_nil_r|..]; split; (done || lia).
Qed.

Lemma decode_body_opaque {U : Unicode} {D : HttpDecoders} enc body p m body1 bad :
  decode_body enc body p m = (body1, true, bad) → body1 = "".
Proof. unfold decode_body. branches. by intros [= <- _]. Qed.

Lemma check_content_empty {U : Unicode} {D : HttpDecoders} ct p : (check_content ct "" p).1 = "".
Proof. unfold check_content. by repeat case_match. Qed.

Lemma positive_or_pos n d : 0 < d → 0 < positive_or n d.
Proof. unfold positive_or. destruct (Z.leb_spec n 0); lia. Qed.

(** The coverage reported for the body is exact: the inspected count is
    the length of the bytes in the view, at most the engine limit; FULL is reported exactly
    when there is a body and all of it is in the view, PARTIAL exactly when some is not. *)
Theorem view_body_coverage {U : Unicode} {D : HttpDecoders} {C : Crypto} method path query h o body p :
  let v := canonicalize method path query h o body p in
  ∃ c, v_Coverage v !! 3%nat = Some c ∧
    CoverageOf (v_Coverage v) INSPECTION_SURFACE_BODY = cov_Status c ∧
    cov_Inspected c = str_len (v_Body v) ∧
    cov_Inspected c ≤ positive_or (prof_EngineBodyLimitBytes (default DefaultInspectionProfile p)) EngineBodyLimitBytes ∧
    (cov_Status c = COVERAGE_STATUS_FULL ↔ 0 < cov_Total c ∧ cov_Inspected c = cov_Total c) ∧
    (cov_Status c = COVERAGE_STATUS_PARTIAL ↔ cov_Inspected c < cov_Total c).
Proof.
  unfold canonicalize.
  destruct (decode_rounds _ _ _ _) as [path1 pb]. destruct (ParseQuery query) as [q0 qe].
  destruct (decode_body _ _ _ _) as [[body1 opaque] ib] eqn:Hd.
  destruct (check_content _ _ _) as [body2 cb] eqn:Hc.
  destruct (body_coverage _ _ _) as [vbody c] eqn:Hb. simpl. exists c. split; [done|].
  eapply body_coverage_exact_lemma in Hb as (Ht & Hi & Hl & _ & _ & Hf & Hp & _).
  - rewrite bool_decide_eq_true_2 by done. split_and!; try done. by rewrite Hi.
  - by apply positive_or_pos.
  - intros ->. apply decode_body_opaque in Hd as ->.
    by rewrite <- (check_content_empty (hf_ct (read_headers h o (default DefaultInspectionProfile p)))
                      (default DefaultInspectionProfile p)), Hc.
Qed.

(** ** The query survives replay *)

Definition RequestFromView (view : CanonicalView) : Request :=
  mkRequest "" "" (v_Method view) (v_Path view) (match v_Query view with Some q => Encode q | None => EmptyString end)
    (omap (M := gmap string) head (v_Headers view)) (v_Body view) "".

Definition nonempty_values (m : values) : Prop := ∀ k vs, m !! k = Some vs → vs ≠ [].

Lemma values_add_nonempty k v m : nonempty_values m → nonempty_values (values_add k v m).
Proof.
  intros Hm k' vs. unfold values_add. rewrite lookup_insert_Some.
  intros [[_ <-]|[_ H]]; [|by apply Hm in H]. by destruct (default [] (m !! k)).
Qed.

Lemma ParseQuery_nonempty q : nonempty_values (ParseQuery q).1.
Proof.
  unfold ParseQuery. case_match; [by intros ???|].
  assert (∀ l m e, nonempty_values m → nonempty_values
    (foldl (λ '(m, e) piece, let '(m', e') := query_piece m piece in (m', e || e')) (m, e) l).1) as Hl.
  { induction l as [|x l IH]; intros m e Hm; [done|]. cbn [foldl].
    destruct (query_piece m x) as [m' e'] eqn:E. apply IH. unfold query_piece in E.
    destruct (contains x ";"); [by simplify_eq|]. case_bool_decide; [by simplify_eq|].
    destruct (cut_byte _ x) as [[k v] ?]. destruct (QueryUnescape k), (QueryUnescape v); simplify_eq; try done.
    by apply values_add_nonempty. }
  apply Hl. by intros ???.
Qed.

Lemma fold_query_nonempty mode m : nonempty_values m → nonempty_values (fold_query mode m).
Proof.
  intros Hm k vs. unfold fold_query. case_bool_decide; [|case_bool_decide; [|apply Hm]];
    rewrite lookup_omap_Some; intros ([|v l] & Hf & _); [done| |done|]; [by simplify_eq|].
  case_match; by simplify_eq.
Qed.

Lemma decode_query_nonempty r m : nonempty_values m → nonempty_values (decode_query r m).
Proof.
  intros Hm k vs. unfold decode_query. case_match; [|apply Hm].
  rewrite lookup_fmap_Some. intros (l & <- & Hl%Hm). by destruct l.
Qed.

Lemma canonicalize_query_nonempty {U : Unicode} {D : HttpDecoders} {C : Crypto} method path query h o body p :
  nonempty_values (default ∅ (v_Query (canonicalize method path query h o body p))).
Proof.
  unfold canonicalize. pose proof (ParseQuery_nonempty query) as Hq.
  destruct (decode_rounds _ _ _ _) as [path1 pb]. destruct (ParseQuery query) as [q0 qe].
  destruct (decode_body _ _ _ _) as [[body1 opaque] ib]. destruct (check_content _ _ _) as [body2 cb].
  destruct (body_coverage _ _ _) as [vbody c]. simpl.
  apply decode_query_nonempty, fold_query_nonempty. destruct qe; [by intros ???|done].
Qed.

Lemma length_encode_pieces m : Z.of_nat (length (encode_pieces m)) = param_count m.
Proof.
  unfold encode_pieces, param_count, sort_strings.
  transitivity (sum_list_Z (λ k, Z.of_nat (length (default [] (m !! k)))) (merge_sort str_le (map_to_list m).*1)).
  { generalize (merge_sort str_le (map_to_list m).*1). intros l.
    induction l as [|k l IH]; simpl; [done|]. rewrite length_app, length_map. lia. }
  rewrite merge_sort_Permutation.
  assert (∀ l, (∀ kv, kv ∈ l → m !! kv.1 = Some kv.2) →
    sum_list_Z (λ k, Z.of_nat (length (default [] (m !! k)))) l.*1 =
    sum_list_Z (λ '(_, vs), Z.of_nat (length vs)) l) as Hl.
  { induction l as [|[k vs] l IH]; intros Hl; [done|].
    assert (m !! k = Some vs) as E by (apply (Hl (k, vs)); left).
    rewrite fmap_cons. unfold sum_list_Z at 1 2. cbn [foldr fst]. rewrite E.
    unfold sum_list_Z in IH. rewrite IH; [done|]. intros kv Hkv. apply Hl. by right. }
  apply Hl. intros [k vs]. apply elem_of_map_to_list.
Qed.

(** The request rebuilt from a canonical view for the detectors carries
    exactly the view's query: parsing its encoded query gives back the view's values,
    without error, up to Go's limit of 10000 parameters. *)
Theorem replay_query_roundtrip {U : Unicode} {D : HttpDecoders} {C : Crypto} method path query h o body p :
  let v := canonicalize method path query h o body p in
  param_count (default ∅ (v_Query v)) ≤ url_max_query_params →
  v_Query v = Some (default ∅ (v_Query v)) ∧
  ParseQuery (req_Query (RequestFromView v)) = (default ∅ (v_Query v), false).
Proof.
  intros v Hv. assert (v_Query v = Some (default ∅ (v_Query v))) as E.
  { unfold v, canonicalize. by repeat case_match. }
  split; [done|]. unfold RequestFromView. cbn [req_Query]. rewrite E. cbn [default].
  apply parse_encode; [apply canonicalize_query_nonempty|]. by rewrite length_encode_pieces.
Qed.

(** ** Concrete requests *)
Module Demo.
#[local] Existing Instance ascii_only_unicode.
#[local] Existing Instance toy_crypto.

(** Decoders for the examples: identity inflation, and multipart bodies in which each
    occurrence of the boundary starts a part of four bytes. *)
Fixpoint toy_parts (fuel : nat) (boundary body : string) : list stream :=
  match fuel, body with
  | S fuel', String _ rest =>
      if has_prefix body boundary then mkStream "part" None false :: toy_parts fuel' boundary rest
      else toy_parts fuel' boundary rest
  | _, _ => []
  end.

Definition decoders : HttpDecoders := {|
  marshal_profile _ := Some "profile";
  gzip_reader b := Some (mkStream b None false);
  zlib_reader b := Some (mkStream b None false);
  json_unmarshal _ := Some (JArray [JNull]);
  json_object_steps _ := None;
  media_boundary ct := Some ((cut_byte "="%char ct).1.2);
  multipart_reader boundary body := mkMultiparts (toy_parts (String.length body) boundary body) true;
  sprintf_f _ := "1.500000";
|}.
#[local] Existing Instance decoders.

Definition hdrs : headers := <["Host" := ["a.example"]]> (<["Content-Type" := ["text/plain"]]> ∅).
Definition order1 (_ : nat) : header_order := map_to_list hdrs.
Definition order2 (_ : nat) : header_order := reverse (map_to_list hdrs).

Example view_example :
  let v := Canonicalize "get" "/a/./%2e%2e/b" "x=1&x=2&y=%2541" (<["Host" := "a.example"]> ∅) order1 "body" None in
  v_Path v = "/b" ∧ v_Method v = "GET" ∧ v_Query v = Some (<["x" := ["1"]]> (<["y" := ["A"]]> ∅)) ∧
  v_Rejected v = false.
Proof. vm_compute. split_and!; reflexivity. Qed.

(** Two spellings of one header name in the map. *)
Definition clash : headers := <["HOST" := ["a.example"]]> (<["hOST" := ["b.example"]]> ∅).
Definition clash1 (_ : nat) : header_order := [("HOST", ["a.example"]); ("hOST", ["b.example"])].
Definition clash2 (_ : nat) : header_order := [("hOST", ["b.example"]); ("HOST", ["a.example"])].

(** A multipart upload with boundary [AB] and two parts, one more than the profile allows. *)
Definition one_part : HttpInspectionProfile := {|
  NormalizePath := true; PercentDecodeRounds := 2; EncodedSlash := "reject"; DuplicateQuery := "first";
  DuplicateHeader := "first"; ClTeConflict := "reject"; JsonDuplicateKey := "reject";
  MultipartMaxParts := 1; MultipartMaxPartBytes := 100; DecompressAlgorithms := [];
  DecompressMaxBytes := 100; MaxHeaders := 64; MaxParams := 128; JsonMaxDepth := 8;
  prof_EngineBodyLimitBytes := 100;
|}.
Definition upload (boundary : string) : CanonicalView :=
  Canonicalize "POST" "/" "" (<["Content-Type" := "multipart/form-data; boundary=" +:+ boundary]> ∅) order1
    ("Content-Disposition" +:+ boundary +:+ boundary) (Some one_part).
End Demo.

Lemma canonicalize_deterministic_witness :
  canonicalize (U := ascii_only_unicode) (D := Demo.decoders) (C := toy_crypto) "GET" "/" "" Demo.hdrs Demo.order1 "" None =
  canonicalize (U := ascii_only_unicode) (D := Demo.decoders) (C := toy_crypto) "GET" "/" "" Demo.hdrs Demo.order2 "" None.
Proof.
  apply (@canonicalize_deterministic ascii_only_unicode Demo.decoders toy_crypto).
  - apply (bool_decide_unpack _). vm_compute. exact I.
  - intros i. reflexivity.
  - intros i. unfold Demo.order2. apply reverse_Permutation.
Defined.

Lemma replay_query_roundtrip_witness :
  ParseQuery (req_Query (RequestFromView
    (canonicalize (U := ascii_only_unicode) (D := Demo.decoders) (C := toy_crypto) "GET" "/" "q=a%26b&r=+" Demo.hdrs Demo.order1 "" None)))
  = (<["q" := ["a&b"]]> (<["r" := [" "]]> ∅), false).
Proof.
  etrans; [eapply (@replay_query_roundtrip ascii_only_unicode Demo.decoders toy_crypto); vm_compute; congruence|].
  vm_compute. reflexivity.
Defined.

(** When a header map holds two spellings of one name, the canonical view
    depends on map iteration order: the same request gets two different hosts. *)
Theorem header_clash_order_dependent :
  (∀ i, Demo.clash1 i ≡ₚ map_to_list Demo.clash) ∧ (∀ i, Demo.clash2 i ≡ₚ map_to_list Demo.clash) ∧
  v_Host (canonicalize (U := ascii_only_unicode) (D := Demo.decoders) (C := toy_crypto) "GET" "/" "" Demo.clash Demo.clash1 "" None)
    = "a.example" ∧
  v_Host (canonicalize (U := ascii_only_unicode) (D := Demo.decoders) (C := toy_crypto) "GET" "/" "" Demo.clash Demo.clash2 "" None)
    = "b.example".
Proof.
  split_and!; [intros i; apply (bool_decide_unpack _); vm_compute; exact I..| |]; vm_compute; reflexivity.
Qed.

(** The multipart limits are evaluated with the lower-cased content
    type, so a boundary with upper-case letters finds no part and the limits are not
    enforced: the same two-part upload is rejected with boundary [ab] and accepted with
    boundary [AB]. *)
Theorem multipart_boundary_case :
  v_Rejected (Demo.upload "ab") = true ∧ v_Rejected (Demo.upload "AB") = false.
Proof. vm_compute. split; reflexivity. Qed.
