(* ===== verification/Shape.v ===== *)
(** * Positive request shapes (lib/edgecore/shape.go, scope.go)

    A shape names the methods of a route and, per selector, length bounds and a
    character set; a request inside the route that does not fit is a violation. *)

From S2P Require Import Prelude GoStrings Contracts Signing Canonical.

Definition shapeMaxSourceBytes : Z := 2048.
Definition shapeMaxSelectors : Z := 16.
Definition shapeMinPrefixSegs : Z := 2.

Record compiledShapeConstraint := mkCompiledShapeConstraint {
  csc_selector : string; csc_charset : string; csc_minLen : Z; csc_maxLen : Z;
}.
Record compiledShape := mkCompiledShape {
  cs_methods : gset string; cs_route : list string; cs_pathPrefix : string;
  cs_constraints : list compiledShapeConstraint;
}.

(** ** Paths and routes *)

Definition pathSegmentCount (p : string) : Z :=
  Z.of_nat (length (filter (λ part, part ≠ "") (split_byte "/"%char p))).

Definition splitPath (p : string) : list string := filter (λ part, part ≠ "") (split_byte "/"%char p).

(** [strings.HasPrefix(t, "{") && strings.HasSuffix(t, "}")] *)
Definition is_wildcard (t : string) : bool := has_prefix t "{" && has_suffix t "}".

Fixpoint segments_match (template parts : list string) : bool :=
  match template, parts with
  | [], [] => true
  | t :: template', p :: parts' =>
      if is_wildcard t then
        if bool_decide (p = "") then false else segments_match template' parts'
      else if bool_decide (t = p) then segments_match template' parts' else false
  | _, _ => false
  end.

Definition compiledRouteMatch (template : list string) (path : string) : bool :=
  let parts := splitPath path in
  if negb (bool_decide (length template = length parts)) then false else segments_match template parts.

Definition routeTemplateMatch (tmpl path : string) : bool :=
  let ts := splitPath tmpl in
  let ps := splitPath path in
  if negb (bool_decide (length ts = length ps)) then false else segments_match ts ps.

(** ** Scopes of artifacts *)

Definition ScopeCoversAsset (s : option Scope) (assetID : string) : bool :=
  match s with
  | None => true
  | Some s => bool_decide (scope_AssetIds s = []) || existsb (λ id, bool_decide (id = assetID)) (scope_AssetIds s)
  end.

Definition ScopePrefix (s : option Scope) : string :=
  match s with None => "" | Some s => scope_RouteSelector s end.

(** ** Character sets *)

Definition hex_rune (r : Z) : bool :=
  ((48 <=? r) && (r <=? 57)) || ((97 <=? r) && (r <=? 102)) || ((65 <=? r) && (r <=? 70)).

(** The pattern of [uuidCharset]: hexadecimal groups of 8, 4, 4, 4 and 12. *)
Definition uuid_match (val : string) : bool :=
  let groups := split_byte "-"%char val in
  bool_decide (length <$> (String.list_ascii_of_string <$> groups) = [8; 4; 4; 4; 12]%nat)
  && forallb (str_forallb is_hex) groups.

Section shapes.
Context {U : Unicode} {D : HttpDecoders}.

Definition stringInFold (l : list string) (want : string) : bool := existsb (λ s, equal_fold s want) l.

Definition charsetOK (kind val : string) : bool :=
  if bool_decide (kind = "") || bool_decide (kind = "ascii_print")
  then forallb (λ r, negb ((r <? 32) || (126 <? r))) (runes val)
  else if bool_decide (kind = "digit") then forallb is_digit (runes val)
  else if bool_decide (kind = "alpha") then forallb is_letter (runes val)
  else if bool_decide (kind = "hex") then forallb hex_rune (runes val)
  else if bool_decide (kind = "uuid") then uuid_match val
  else false.

(** ** Selectors *)

(** [strings.TrimRight(s, c)] for a one-byte cutset. *)
Fixpoint trim_right (c : ascii) (s : string) : string :=
  match s with
  | "" => ""
  | String a s' =>
      match trim_right c s' with
      | "" => if bool_decide (a = c) then "" else String a ""
      | t => String a t
      end
  end%string.

Fixpoint field_lookup (l : list (string * json)) (k : string) : option json :=
  match l with
  | [] => None
  | (k', v) :: l' => if bool_decide (k' = k) then Some v else field_lookup l' k
  end.

Fixpoint json_walk (cur : json) (parts : list string) : option json :=
  match parts with
  | [] => Some cur
  | part :: parts' =>
      match cur with
      | JObject m => match field_lookup m part with Some next => json_walk next parts' | None => None end
      | _ => None
      end
  end.

Definition jsonField (body path : string) : option string :=
  if str_len body =? 0 then None
  else match json_unmarshal body with
  | None => None
  | Some root =>
      match json_walk root (split_byte "."%char path) with
      | Some (JString s) => Some s
      | Some (JNumber x) => Some (trim_right "."%char (trim_right "0"%char (sprintf_f x)))
      | Some (JBool b) => Some (if b then "true" else "false")
      | _ => None
      end
  end.

Definition values_get (q : values) (name : string) : string :=
  match q !! name with Some (v :: _) => v | _ => "" end.
Definition values_has (q : values) (name : string) : bool := bool_decide (is_Some (q !! name)).

Definition selectorValue (sel : string) (req : Request) (view : CanonicalView) : option string :=
  let '(kind, name, ok) := cut_byte "."%char sel in
  if negb ok || bool_decide (name = "") then None
  else
    let kind := to_lower kind in
    if bool_decide (kind = "query") then
      match v_Query view with
      | Some q => if values_has q name then Some (values_get q name) else None
      | None =>
          let '(q, err) := ParseQuery (req_Query req) in
          if err || negb (values_has q name) then None else Some (values_get q name)
      end
    else if bool_decide (kind = "header") then
      match v_Headers view !! httpCanonical name with
      | Some (v :: _) => Some v
      | _ =>
          match req_Headers req !! name with
          | Some v => Some v
          | None => req_Headers req !! httpCanonical name
          end
      end
    else if bool_decide (kind = "json") then jsonField (v_Body view) name
    else None.

(** ** Validation and compilation *)

Definition charset_status (c : string) : result unit :=
  if existsb (λ k, bool_decide (c = k)) [""; "ascii_print"; "digit"; "alpha"; "hex"; "uuid"] then Ok tt
  else if bool_decide (c = "any") then Err "shape charset any forbidden"
  else Err "shape charset unknown".

Definition check_constraint (c : option ShapeConstraint) : result unit :=
  match c with
  | None => Err "shape constraint selector required"
  | Some c =>
      if bool_decide (sc_Selector c = "") then Err "shape constraint selector required"
      else if sc_MaxLen c <=? 0 then Err "shape constraint missing max_len"
      else if (sc_MinLen c <? 0) || (sc_MaxLen c <? sc_MinLen c)
      then Err "shape constraint invalid length bounds"
      else charset_status (sc_Charset c)
  end.

Fixpoint check_constraints (l : list (option ShapeConstraint)) : result unit :=
  match l with
  | [] => Ok tt
  | c :: l' => let! _ := check_constraint c in check_constraints l'
  end.

Definition ValidateShapeSource (src : option ShapeSource) : result unit :=
  match src with
  | None => Err "shape_source is required"
  | Some src =>
      if bool_decide (ss_Methods src = []) then Err "shape methods required"
      else if bool_decide (ss_RouteTemplate src = "") && bool_decide (ss_PathPrefix src = "")
      then Err "shape requires route_template or path_prefix"
      else if negb (bool_decide (ss_PathPrefix src = ""))
              && (bool_decide (ss_PathPrefix src = "/") || (pathSegmentCount (ss_PathPrefix src) <? shapeMinPrefixSegs))
      then Err "shape path_prefix too wide"
      else if shapeMaxSelectors <? Z.of_nat (length (ss_Constraints src)) then Err "shape selectors exceed limit"
      else check_constraints (ss_Constraints src)
  end.

(** [GetSelector] and the other getters return zero values on a nil constraint. *)
Definition compile_constraint (c : option ShapeConstraint) : compiledShapeConstraint :=
  match c with
  | None => mkCompiledShapeConstraint "" "" 0 0
  | Some c => mkCompiledShapeConstraint (sc_Selector c) (sc_Charset c) (sc_MinLen c) (sc_MaxLen c)
  end.

Definition compileShape (src : option ShapeSource) : result compiledShape :=
  let! _ := ValidateShapeSource src in
  match src with
  | None => Err "shape_source is required"
  | Some s =>
      Ok (mkCompiledShape (list_to_set (to_upper <$> ss_Methods s))
            (if bool_decide (ss_RouteTemplate s = "") then [] else splitPath (ss_RouteTemplate s))
            (ss_PathPrefix s) (compile_constraint <$> ss_Constraints s))
  end.

(** ** Violations *)

Definition in_shape_scope (s : compiledShape) (path : string) : bool :=
  if bool_decide (cs_route s = []) then has_prefix path (cs_pathPrefix s)
  else compiledRouteMatch (cs_route s) path.

Definition constraint_broken (c : compiledShapeConstraint) (req : Request) (view : CanonicalView) : bool :=
  match selectorValue (csc_selector c) req view with
  | None => true
  | Some value =>
      (i32 (str_len value) <? csc_minLen c) || (csc_maxLen c <? i32 (str_len value))
      || negb (charsetOK (csc_charset c) value)
  end.

(** [if view.X == "" { x = req.X }] *)
Definition view_path (req : Request) (view : CanonicalView) : string :=
  if bool_decide (v_Path view = "") then req_Path req else v_Path view.
Definition view_method (req : Request) (view : CanonicalView) : string :=
  if bool_decide (v_Method view = "") then to_upper (req_Method req) else v_Method view.

Definition Violates (s : option compiledShape) (req : Request) (view : CanonicalView) : bool :=
  match s with
  | None => false
  | Some s =>
      if negb (in_shape_scope s (view_path req view)) then false
      else if negb (bool_decide (to_upper (view_method req view) ∈ cs_methods s)) then true
      else existsb (λ c, constraint_broken c req view) (cs_constraints s)
  end.

Definition ShapeViolates (src : option ShapeSource) (req : Request) (view : CanonicalView) : bool :=
  match compileShape src with
  | Err _ => false
  | Ok s => Violates (Some s) req view
  end.

Definition shapeSourcePresent (src : option ShapeSource) : bool :=
  match src with
  | None => false
  | Some s =>
      negb (bool_decide (ss_Methods s = [])) || negb (bool_decide (ss_RouteTemplate s = ""))
      || negb (bool_decide (ss_PathPrefix s = "")) || negb (bool_decide (ss_Constraints s = []))
  end.

Definition EvaluateShapeViolation {C : Crypto} (order : nat → header_order) (src : option ShapeSource) (req : Request)
    : result bool :=
  let! compiled := compileShape src in
  let view := Canonicalize (req_Method req) (req_Path req) (req_Query req) (req_Headers req) order (req_Body req)
                (Some DefaultInspectionProfile) in
  Ok (Violates (Some compiled) req view).
End shapes.

(** ** Payload parsing

    [protojson_shape] is protojson on a [ShapeSource]; [json_raw_field f] is
    [json.Unmarshal] into a struct with one raw field [f]: [None] on a syntax error, the
    empty string when the field is absent. *)
Class ShapeWire := {
  protojson_shape : string → option ShapeSource;
  json_raw_field : string → string → option string;
}.

Definition parseShapeSource {W : ShapeWire} (payload : string) : result ShapeSource :=
  if str_len payload =? 0 then Err "empty shape payload"
  else if shapeMaxSourceBytes <? str_len payload then Err "shape source exceeds limit"
  else if shapeSourcePresent (protojson_shape payload) then
    match protojson_shape payload with Some src => Ok src | None => Err "unreachable" end
  else match json_raw_field "shapeSource" payload with
  | None => Err "parse shape"
  | Some raw =>
      let! raw := if str_len raw =? 0 then
                    match json_raw_field "shape_source" payload with
                    | None => Err "parse shape"
                    | Some raw => Ok raw
                    end
                  else Ok raw in
      if str_len raw =? 0 then Err "shape payload missing shape_source"
      else match protojson_shape raw with
           | None => Err "parse shape_source"
           | Some src => Ok src
           end
  end.

(** ** Facts *)

Lemma check_constraints_Ok l : check_constraints l = Ok tt ↔ Forall (λ c, check_constraint c = Ok tt) l.
Proof.
  induction l as [|c l IH]; simpl; [by split; [constructor|]|].
  rewrite Forall_cons, <- IH, result_bind_Ok. split.
  - by intros ([] & ? & ?).
  - intros [? ?]. by exists tt.
Qed.

Lemma check_constraint_Ok c :
  check_constraint c = Ok tt → ∃ c', c = Some c' ∧ sc_Selector c' ≠ "" ∧ 0 ≤ sc_MinLen c' ≤ sc_MaxLen c' ∧
    0 < sc_MaxLen c' ∧ charset_status (sc_Charset c') = Ok tt.
Proof.
  destruct c as [c|]; [|done]. intros H. unfold check_constraint in H. branch_in H. exists c.
  rewrite bool_decide_eq_false in *. breflect. split_and!; (done || lia).
Qed.

Lemma ValidateShapeSource_Ok s :
  ValidateShapeSource (Some s) = Ok tt →
  ss_Methods s ≠ [] ∧ (ss_RouteTemplate s ≠ "" ∨ ss_PathPrefix s ≠ "") ∧
  (ss_PathPrefix s = "" ∨ shapeMinPrefixSegs ≤ pathSegmentCount (ss_PathPrefix s)) ∧
  Z.of_nat (length (ss_Constraints s)) ≤ shapeMaxSelectors ∧
  Forall (λ c, check_constraint c = Ok tt) (ss_Constraints s).
Proof.
  intros H. unfold ValidateShapeSource in H.
  destruct (bool_decide (ss_Methods s = [])) eqn:E1; [done|].
  destruct (bool_decide (ss_RouteTemplate s = "") && _) eqn:E2; [done|].
  destruct (negb (bool_decide (ss_PathPrefix s = "")) && _) eqn:E3; [done|].
  destruct (shapeMaxSelectors <? _) eqn:E4; [done|]. apply check_constraints_Ok in H.
  apply bool_decide_eq_false in E1. apply Z.ltb_ge in E4. split_and!; [done| | |done..].
  - apply andb_false_iff in E2 as [E2|E2]; apply bool_decide_eq_false in E2; tauto.
  - apply andb_false_iff in E3 as [E3|E3]; [left; by apply negb_false_iff, bool_decide_eq_true in E3|right].
    by apply orb_false_iff in E3 as [_ ?%Z.ltb_ge].
Qed.

(** Which requests a shape speaks about: those of its route template, or, when the
    template has no segment, those under its path prefix. *)
Definition shape_applies (s : ShapeSource) (path : string) : bool :=
  if bool_decide (splitPath (ss_RouteTemplate s) = []) then has_prefix path (ss_PathPrefix s)
  else routeTemplateMatch (ss_RouteTemplate s) path.

(** What one constraint asks of a request. *)
Definition constraint_holds {U : Unicode} {D : HttpDecoders} (c : ShapeConstraint) (req : Request) (view : CanonicalView) : Prop :=
  ∃ value, selectorValue (sc_Selector c) req view = Some value ∧
    sc_MinLen c ≤ str_len value ≤ sc_MaxLen c ∧ charsetOK (sc_Charset c) value = true.

Section facts.
Context {U : Unicode} {D : HttpDecoders}.

Lemma constraint_broken_iff c req view :
  (∀ value, selectorValue (sc_Selector c) req view = Some value → str_len value < 2 ^ 31) →
  constraint_broken (compile_constraint (Some c)) req view = true ↔ ¬ constraint_holds c req view.
Proof.
  intros Hlen. unfold constraint_broken, constraint_holds. simpl.
  destruct (selectorValue (sc_Selector c) req view) as [v|]; [|naive_solver].
  specialize (Hlen v eq_refl). pose proof (str_len_nonneg v).
  rewrite wrap_s_id by (unfold in_s; lia).
  destruct (charsetOK (sc_Charset c) v) eqn:Hc; breflect; split.
  - intros [?|?] (v' & [= <-] & ? & _); [lia|done].
  - intros Hn. destruct (Z_lt_le_dec (str_len v) (sc_MinLen c)); [lia|].
    destruct (Z_lt_le_dec (sc_MaxLen c) (str_len v)); [lia|]. exfalso. apply Hn. by exists v.
  - intros _ (v' & [= <-] & _ & ?). congruence.
  - by right.
Qed.

Lemma in_shape_scope_iff s path :
  in_shape_scope (mkCompiledShape (list_to_set (to_upper <$> ss_Methods s))
    (if bool_decide (ss_RouteTemplate s = "") then [] else splitPath (ss_RouteTemplate s))
    (ss_PathPrefix s) (compile_constraint <$> ss_Constraints s)) path = shape_applies s path.
Proof.
  unfold in_shape_scope, shape_applies. simpl.
  destruct (decide (ss_RouteTemplate s = "")) as [->|Hr]; [done|].
  by rewrite (bool_decide_eq_false_2 (ss_RouteTemplate s = "")).
Qed.
End facts.

(** A valid shape is violated exactly by the requests it applies to whose
    method is not listed or which break one of its constraints (selected values shorter
    than 2 GiB, where Go's [int32] length is exact). *)
Theorem shape_violates_iff {U : Unicode} {D : HttpDecoders} s req view :
  ValidateShapeSource (Some s) = Ok tt →
  (∀ sel value, selectorValue sel req view = Some value → str_len value < 2 ^ 31) →
  ShapeViolates (Some s) req view = true ↔
  shape_applies s (view_path req view) = true ∧
  (to_upper (view_method req view) ∉ (to_upper <$> ss_Methods s) ∨
   ∃ c, Some c ∈ ss_Constraints s ∧ ¬ constraint_holds c req view).
Proof.
  intros Hok Hlen. unfold ShapeViolates, compileShape. rewrite Hok. cbn [result_bind]. unfold Violates.
  rewrite in_shape_scope_iff. destruct (shape_applies s (view_path req view)); simpl; [|naive_solver].
  apply ValidateShapeSource_Ok in Hok as (_ & _ & _ & _ & Hcs). rewrite Forall_forall in Hcs.
  assert (existsb (λ c, constraint_broken c req view) (compile_constraint <$> ss_Constraints s) = true ↔
    ∃ c, Some c ∈ ss_Constraints s ∧ ¬ constraint_holds c req view) as Hex.
  { rewrite existsb_exists. split.
    - intros (cc & Hin%list_elem_of_In & Hb). apply list_elem_of_fmap in Hin as (oc & -> & Hoc).
      destruct (check_constraint_Ok _ (Hcs oc Hoc)) as (c & -> & _). exists c. split; [done|].
      apply constraint_broken_iff; eauto.
    - intros (c & Hin & Hb). exists (compile_constraint (Some c)). rewrite <- list_elem_of_In. split.
      + by apply list_elem_of_fmap_2.
      + apply constraint_broken_iff; eauto. }
  case_bool_decide as Hm; simpl; rewrite elem_of_list_to_set in Hm; [|tauto]. rewrite Hex. tauto.
Qed.

(** Validation rejects wide path prefixes, but a route template without
    segments (such as [/]) with an empty prefix passes it, and the compiled shape then
    applies to every path. *)
Theorem root_template_shape_is_global {U : Unicode} {D : HttpDecoders} m ms cs :
  Forall (λ c, check_constraint c = Ok tt) cs → (length cs ≤ 16)%nat →
  let s := mkShapeSource (m :: ms) "/" "" cs in
  ValidateShapeSource (Some s) = Ok tt ∧ ∀ path, shape_applies s path = true.
Proof.
  intros Hcs Hlen s. split; [|done]. unfold ValidateShapeSource. simpl.
  destruct (Z.ltb_spec shapeMaxSelectors (Z.of_nat (length cs))); [unfold shapeMaxSelectors in *; lia|].
  by apply check_constraints_Ok.
Qed.

Module Demo.
#[local] Existing Instance ascii_only_unicode.
#[local] Existing Instance Canonical.Demo.decoders.
#[local] Existing Instance toy_crypto.
Definition shape : ShapeSource :=
  mkShapeSource ["get"] "/api/{id}" "" [Some (mkShapeConstraint "query.q" 1 3 "digit")].
Definition request (q : string) : Request := mkRequest "" "" "GET" "/api/7" q ∅ "" "".
Definition view (q : string) : CanonicalView := Canonicalize "GET" "/api/7" q ∅ (λ _, []) "" None.
Example shape_example :
  ShapeViolates (Some shape) (request "q=12") (view "q=12") = false ∧
  ShapeViolates (Some shape) (request "q=1234") (view "q=1234") = true ∧
  ShapeViolates (Some shape) (request "q=ab") (view "q=ab") = true.
Proof. vm_compute. split_and!; reflexivity. Qed.
(** Every selector of the request with query [q=ab] yields a short value. *)
Lemma short_values sel value :
  selectorValue sel (request "q=ab") (view "q=ab") = Some value → str_len value < 2 ^ 31.
Proof.
  unfold selectorValue. destruct (cut_byte _ sel) as [[kind name] ok].
  destruct (negb ok || _); [done|]. change (v_Query (view "q=ab")) with (Some (<["q" := ["ab"]]> ∅ : values)).
  change (v_Headers (view "q=ab")) with (∅ : headers). change (v_Body (view "q=ab")) with "".
  change (req_Headers (request "q=ab")) with (∅ : gmap string string). rewrite !lookup_empty.
  case_bool_decide; [|by repeat case_bool_decide]. unfold values_has, values_get. case_bool_decide as Hs; [|done].
  destruct Hs as [vs Hvs]. rewrite Hvs. apply lookup_insert_Some in Hvs as [[_ <-]|[_ Hvs]].
  - intros [= <-]. by vm_compute.
  - by rewrite lookup_empty in Hvs.
Qed.
End Demo.

Lemma shape_violates_iff_witness :
  ¬ constraint_holds (U := ascii_only_unicode) (D := Canonical.Demo.decoders) (mkShapeConstraint "query.q" 1 3 "digit")
      (Demo.request "q=ab") (Demo.view "q=ab").
Proof.
  destruct (@shape_violates_iff ascii_only_unicode Canonical.Demo.decoders Demo.shape (Demo.request "q=ab") (Demo.view "q=ab"))
    as [H _].
  - reflexivity.
  - apply Demo.short_values.
  - destruct (H ltac:(vm_compute; reflexivity)) as [_ [Hm|(c & Hc & Hn)]].
    + exfalso. apply Hm. vm_compute. left.
    + apply list_elem_of_singleton in Hc. injection Hc as ->. exact Hn.
Defined.

Lemma root_template_shape_is_global_witness :
  shape_applies (mkShapeSource ["GET"] "/" "" []) "/admin/anything" = true.
Proof.
  apply (@root_template_shape_is_global ascii_only_unicode Canonical.Demo.decoders "GET" [] []); [constructor|simpl; lia].
Defined.
