(* ===== verification/Policy.v ===== *)
(** * Detection-key policies and the attack taxonomy (lib/edgecore/evaluate.go,
    taxonomy.go, inspector.go)

    Inspectors only report detections and coverage; a signed policy decides, from its
    scope, its detection keys and the coverage of the surfaces they name, whether a
    request is to be blocked. *)

From S2P Require Import Prelude GoStrings Contracts Signing Canonical Shape.

Record Detection := mkDetection {
  InspectorID : string; RuleID : string; Class_ : AttackClass; Score : f64;
  Location : InspectionSurface; det_Selector : string; det_Phase : string; Version_ : string;
  ManifestDigest : string; ProfileDigest : string;
}.
#[global] Instance Detection_eq_dec : EqDecision Detection. Proof. solve_decision. Defined.

Record Inspection := mkInspection {
  insp_Detections : list Detection; insp_Coverage : list Coverage; insp_Rejected : bool;
}.

Definition EvaluateView (view : CanonicalView) (ds : list Detection) : Inspection :=
  mkInspection ds (v_Coverage view) (v_Rejected view).

Definition CoverageError (surface : InspectionSurface) : Coverage :=
  mkCoverage surface COVERAGE_STATUS_ERROR 0 0.

Definition is_error (c : Coverage) : bool := bool_decide (cov_Status c = COVERAGE_STATUS_ERROR).

Definition IsNoDetection (cov : list Coverage) (found : list Detection) : bool :=
  if existsb is_error cov then false else bool_decide (found = []).

Definition ShouldSkipBodyPolicy (view : CanonicalView) : bool :=
  negb (bool_decide (CoverageOf (v_Coverage view) INSPECTION_SURFACE_BODY = COVERAGE_STATUS_FULL)).

(** [MergeInspections] appends, part by part, the detections and the ERROR entries. *)
Definition merge_part (out : Inspection) (p : Inspection) : Inspection :=
  mkInspection (insp_Detections out ++ insp_Detections p)
    (insp_Coverage out ++ filter (λ c, is_error c = true) (insp_Coverage p))
    (if insp_Rejected p then true else insp_Rejected out).

Definition MergeInspections (view : CanonicalView) (parts : list Inspection) : Inspection :=
  foldl merge_part (mkInspection [] (v_Coverage view) (v_Rejected view)) parts.

Definition GateOrder (policyBlock ruleBlock shapeBlock : bool) : Action :=
  if policyBlock then ActionBlock else if ruleBlock then ActionBlock
  else if shapeBlock then ActionBlock else ActionAllow.

Fixpoint max_score (found : list Detection) (max : f64) : f64 :=
  match found with
  | [] => max
  | d :: found' => max_score found' (if f64_ltb max (Score d) then Score d else max)
  end.
Definition maxDetectionScore (found : list Detection) : f64 := max_score found f64_zero.

(** [a != "" && b != a]: a field of the key that is set and differs. *)
Definition differs (key field : string) : bool := negb (bool_decide (key = "")) && negb (bool_decide (field = key)).

Definition detectionMatchesKey (d : Detection) (key : DetectionKey) : bool :=
  if differs (key_RuleId key) (RuleID d) then false
  else if differs (DetectorId key) (InspectorID d) then false
  else if differs (DetectorVersion key) (Version_ d) then false
  else if differs (DetectorManifestDigest key) (ManifestDigest d) then false
  else if differs (key_Phase key) (det_Phase d) then false
  else if negb (bool_decide (TargetLocation key = INSPECTION_SURFACE_UNSPECIFIED))
          && negb (bool_decide (Location d = TargetLocation key)) then false
  else if differs (TargetSelector key) (det_Selector d) then false
  else if differs (NormalizationProfileDigest key) (ProfileDigest d) then false
  else negb (bool_decide (key_RuleId key = "")) || negb (bool_decide (DetectorId key = "")).

Definition PolicyMatchesDetectionKey (found : list Detection) (key : option DetectionKey) (requireFull : bool)
    (cov : list Coverage) : bool :=
  match key with
  | None => false
  | Some key =>
      let loc := TargetLocation key in
      let st := CoverageOf cov loc in
      if negb (bool_decide (loc = INSPECTION_SURFACE_UNSPECIFIED))
         && ((requireFull && negb (bool_decide (st = COVERAGE_STATUS_FULL)))
             || (bool_decide (loc = INSPECTION_SURFACE_BODY) && bool_decide (st = COVERAGE_STATUS_ABSENT)))
      then false
      else existsb (λ d, detectionMatchesKey d key) found
  end.

Definition PolicyMatchesKey (found : list Detection) (wantRule : string) (loc : InspectionSurface) (requireFull : bool)
    (cov : list Coverage) : bool :=
  PolicyMatchesDetectionKey found (Some (mkDetectionKey "" "" "" wantRule "" loc "" "")) requireFull cov.

Section policies.
Context {U : Unicode} {D : HttpDecoders}.

Definition headerFirst (view : CanonicalView) (req : Request) (name : string) : string :=
  match v_Headers view !! httpCanonical name with
  | Some (v :: _) => v
  | _ =>
      let v := default "" (req_Headers req !! name) in
      if negb (bool_decide (v = "")) then v
      else let v := default "" (req_Headers req !! httpCanonical name) in
           if negb (bool_decide (v = "")) then v else ""
  end.

Definition scope_host (req : Request) (view : CanonicalView) : string :=
  let host := v_Host view in
  let host :=
    if bool_decide (host = "") then
      let h := default "" (req_Headers req !! "host") in
      if bool_decide (h = "") then default "" (req_Headers req !! "Host") else h
    else host in
  before_byte ":"%char host.

Definition scope_content_type (req : Request) (view : CanonicalView) : string :=
  let ct := headerFirst view req "content-type" in
  if str_mem ";"%char ct then trim_space (before_byte ";"%char ct) else ct.

Definition PolicyScopeMatches (scope : option PolicyScope) (req : Request) (view : CanonicalView) : bool :=
  match scope with
  | None => true
  | Some s =>
      if negb (bool_decide (ps_AssetId s = "")) && negb (bool_decide (req_AssetID req = ""))
         && negb (bool_decide (ps_AssetId s = req_AssetID req)) then false
      else if negb (bool_decide (ps_Hosts s = [])) && negb (stringInFold (ps_Hosts s) (scope_host req view)) then false
      else if negb (bool_decide (ps_RouteTemplate s = ""))
              && negb (routeTemplateMatch (ps_RouteTemplate s) (view_path req view)) then false
      else if negb (bool_decide (ps_PathPrefix s = ""))
              && negb (has_prefix (view_path req view) (ps_PathPrefix s)) then false
      else if negb (bool_decide (ps_Methods s = []))
              && negb (stringInFold (ps_Methods s) (view_method req view)) then false
      else if negb (bool_decide (ps_ContentTypes s = []))
              && negb (stringInFold (ps_ContentTypes s) (scope_content_type req view)) then false
      else forallb (λ sel, bool_decide (is_Some (selectorValue sel req view))) (ps_TargetSelectors s)
  end.

Definition PolicyCandidateBlocksOn (cand : option PolicyCandidate) (found : list Detection) (view : CanonicalView)
    (req : Request) : bool :=
  match cand with
  | None => false
  | Some cand =>
      match pc_Predicate cand with
      | None => false
      | Some pred =>
          if bool_decide (pc_Action cand = "log") then false
          else if negb (PolicyScopeMatches (pc_Scope cand) req view) then false
          else if f64_ltb f64_zero (MinAnomalyScore pred)
                  && f64_ltb (maxDetectionScore found) (MinAnomalyScore pred) then false
          else
            let requireFull := bool_decide (CoverageRequirement pred = COVERAGE_STATUS_FULL) in
            let hit := existsb (λ key, PolicyMatchesDetectionKey found key requireFull (v_Coverage view))
                               (DetectionKeys pred) in
            if RequireMatchPresent pred || negb (bool_decide (DetectionKeys pred = [])) then
              if negb (RequireMatchPresent pred) && requireFull then negb hit else hit
            else false
      end
  end.

Definition PolicyCandidateBlocks (cand : option PolicyCandidate) (found : list Detection) (view : CanonicalView) : bool :=
  PolicyCandidateBlocksOn cand found view (mkRequest "" "" "" "" "" ∅ "" "").

Definition PolicyCandidateApplies (cand : option PolicyCandidate) (req : Request) (view : CanonicalView) : bool :=
  match cand with None => false | Some c => PolicyScopeMatches (pc_Scope c) req view end.
End policies.

(** ** Taxonomy *)

Definition DefaultTaxonomyMapper : TaxonomyMapper :=
  mkTaxonomyMapper "tax/v1"
    ((λ '(p, c), Some (mkTaxonomyRule "" c p)) <$>
     [("942", ATTACK_CLASS_SQLI); ("941", ATTACK_CLASS_XSS); ("930", ATTACK_CLASS_PATH_TRAVERSAL);
      ("931", ATTACK_CLASS_PATH_TRAVERSAL); ("932", ATTACK_CLASS_CMDI); ("933", ATTACK_CLASS_CMDI);
      ("943", ATTACK_CLASS_SSRF); ("934", ATTACK_CLASS_CMDI); ("944", ATTACK_CLASS_CMDI)]).

Fixpoint exact_rule (rules : list (option TaxonomyRule)) (id : string) : option AttackClass :=
  match rules with
  | [] => None
  | Some r :: rules' =>
      if negb (bool_decide (tr_RuleId r = "")) && bool_decide (tr_RuleId r = id) then Some (tr_AttackClass r)
      else exact_rule rules' id
  | None :: rules' => exact_rule rules' id
  end.

Fixpoint best_prefix (rules : list (option TaxonomyRule)) (id : string) (best : option TaxonomyRule) : option TaxonomyRule :=
  match rules with
  | [] => best
  | Some r :: rules' =>
      if bool_decide (tr_RulePrefix r = "") then best_prefix rules' id best
      else if has_prefix id (tr_RulePrefix r)
              && match best with None => true | Some b => str_len (tr_RulePrefix b) <? str_len (tr_RulePrefix r) end
      then best_prefix rules' id (Some r)
      else best_prefix rules' id best
  | None :: rules' => best_prefix rules' id best
  end.

Definition MapAttackClass (mapper : option TaxonomyMapper) (ruleID : string) : AttackClass :=
  match mapper with
  | None => ATTACK_CLASS_UNMAPPED
  | Some m =>
      let id := trim_space ruleID in
      if bool_decide (id = "") then ATTACK_CLASS_UNMAPPED
      else match exact_rule (tm_Rules m) id with
      | Some c => c
      | None =>
          match best_prefix (tm_Rules m) id None with
          | None => ATTACK_CLASS_UNMAPPED
          | Some r => tr_AttackClass r
          end
      end
  end.

Definition AutoGovernable (key : option DetectionKey) (mapper : option TaxonomyMapper) : bool :=
  match key, mapper with
  | Some k, Some _ =>
      match MapAttackClass mapper (key_RuleId k) with
      | ATTACK_CLASS_SQLI | ATTACK_CLASS_XSS | ATTACK_CLASS_PATH_TRAVERSAL | ATTACK_CLASS_SSRF | ATTACK_CLASS_CMDI => true
      | _ => false
      end
  | _, _ => false
  end.

Definition with_class (d : Detection) (c : AttackClass) : Detection :=
  mkDetection (InspectorID d) (RuleID d) c (Score d) (Location d) (det_Selector d) (det_Phase d) (Version_ d)
    (ManifestDigest d) (ProfileDigest d).

Definition ApplyTaxonomy (found : list Detection) (mapper : option TaxonomyMapper) : list Detection :=
  match mapper with
  | None => found
  | Some _ => (λ d, with_class d (MapAttackClass mapper (RuleID d))) <$> found
  end.

(** ** Facts *)

Lemma differs_false key field : differs key field = false ↔ key = "" ∨ field = key.
Proof. unfold differs. repeat case_bool_decide; simpl; naive_solver. Qed.

(** The fields of a key are wildcards when empty; a key needs a rule or a detector. *)
Definition key_matches (d : Detection) (k : DetectionKey) : Prop :=
  (key_RuleId k = "" ∨ RuleID d = key_RuleId k) ∧ (DetectorId k = "" ∨ InspectorID d = DetectorId k) ∧
  (DetectorVersion k = "" ∨ Version_ d = DetectorVersion k) ∧
  (DetectorManifestDigest k = "" ∨ ManifestDigest d = DetectorManifestDigest k) ∧
  (key_Phase k = "" ∨ det_Phase d = key_Phase k) ∧
  (TargetLocation k = INSPECTION_SURFACE_UNSPECIFIED ∨ Location d = TargetLocation k) ∧
  (TargetSelector k = "" ∨ det_Selector d = TargetSelector k) ∧
  (NormalizationProfileDigest k = "" ∨ ProfileDigest d = NormalizationProfileDigest k) ∧
  (key_RuleId k ≠ "" ∨ DetectorId k ≠ "").

Lemma if_false_and (b c : bool) : (if b then false else c) = true ↔ b = false ∧ c = true.
Proof. by destruct b, c; naive_solver. Qed.

Lemma detectionMatchesKey_iff d k : detectionMatchesKey d k = true ↔ key_matches d k.
Proof.
  unfold detectionMatchesKey, key_matches. rewrite !if_false_and, !differs_false.
  rewrite andb_false_iff, orb_true_iff, !negb_false_iff, !negb_true_iff, !bool_decide_eq_true, !bool_decide_eq_false.
  tauto.
Qed.

(** What the code asks of the coverage of the surface a key names: nothing when the key names
    none; FULL when the policy requires FULL; and of a body, that it is not ABSENT. *)
Definition surface_ok (k : DetectionKey) (requireFull : bool) (cov : list Coverage) : Prop :=
  TargetLocation k = INSPECTION_SURFACE_UNSPECIFIED ∨
  (requireFull = true → CoverageOf cov (TargetLocation k) = COVERAGE_STATUS_FULL) ∧
  (TargetLocation k = INSPECTION_SURFACE_BODY → CoverageOf cov (TargetLocation k) ≠ COVERAGE_STATUS_ABSENT).

Lemma PolicyMatchesDetectionKey_iff found key full cov :
  PolicyMatchesDetectionKey found key full cov = true ↔
  ∃ k d, key = Some k ∧ d ∈ found ∧ key_matches d k ∧ surface_ok k full cov.
Proof.
  destruct key as [k|]; simpl; [|naive_solver].
  rewrite if_false_and, existsb_exists. unfold surface_ok.
  rewrite andb_false_iff, negb_false_iff, orb_false_iff, !andb_false_iff, negb_false_iff, !bool_decide_eq_true,
    !bool_decide_eq_false.
  split.
  - intros [Hs (d & Hd%list_elem_of_In & Hm%detectionMatchesKey_iff)]. exists k, d. split_and!; try done.
    destruct Hs as [?|[[?|?] [?|?]]]; [by left|right; naive_solver..].
  - intros (k' & d & [= <-] & Hd & Hm & Hs). split.
    + destruct Hs as [?|[Hf Hb]]; [by left|right]. split; [destruct full; naive_solver|].
      destruct (decide (TargetLocation k = INSPECTION_SURFACE_BODY)); naive_solver.
    + exists d. split; [by apply list_elem_of_In|by apply detectionMatchesKey_iff].
Qed.

(** The guards before the detection keys are looked at. *)
Definition policy_active {U : Unicode} {D : HttpDecoders} (cand : PolicyCandidate) (pred : PolicyPredicate)
    (found : list Detection) (view : CanonicalView) (req : Request) : Prop :=
  pc_Action cand ≠ "log" ∧ PolicyScopeMatches (pc_Scope cand) req view = true ∧
  ¬ (f64_ltb f64_zero (MinAnomalyScore pred) = true ∧ f64_ltb (maxDetectionScore found) (MinAnomalyScore pred) = true).

Lemma PolicyCandidateBlocksOn_unfold {U : Unicode} {D : HttpDecoders} cand pred found view req :
  pc_Predicate cand = Some pred →
  PolicyCandidateBlocksOn (Some cand) found view req = true ↔
  policy_active cand pred found view req ∧
  let full := bool_decide (CoverageRequirement pred = COVERAGE_STATUS_FULL) in
  let hit := existsb (λ key, PolicyMatchesDetectionKey found key full (v_Coverage view)) (DetectionKeys pred) in
  if RequireMatchPresent pred then hit = true
  else DetectionKeys pred ≠ [] ∧ (if full then hit = false else hit = true).
Proof.
  intros Hp. unfold PolicyCandidateBlocksOn, policy_active. rewrite Hp.
  rewrite !if_false_and, bool_decide_eq_false, negb_false_iff, andb_false_iff.
  set (hit := existsb _ _). set (full := bool_decide (CoverageRequirement pred = _)).
  assert (f64_ltb f64_zero (MinAnomalyScore pred) = false ∨
          f64_ltb (maxDetectionScore found) (MinAnomalyScore pred) = false ↔
          ¬ (f64_ltb f64_zero (MinAnomalyScore pred) = true ∧
             f64_ltb (maxDetectionScore found) (MinAnomalyScore pred) = true)) as ->.
  { destruct (f64_ltb f64_zero _), (f64_ltb (maxDetectionScore found) _); naive_solver. }
  assert ((if RequireMatchPresent pred || negb (bool_decide (DetectionKeys pred = []))
           then if negb (RequireMatchPresent pred) && full then negb hit else hit else false) = true ↔
          if RequireMatchPresent pred then hit = true
          else DetectionKeys pred ≠ [] ∧ (if full then hit = false else hit = true)) as ->.
  { clearbody hit full. destruct (RequireMatchPresent pred); simpl; [done|].
    case_bool_decide; simpl; [naive_solver|]. destruct full, hit; naive_solver. }
  tauto.
Qed.

(** The coverage requirement does not bind where docs/api.md says it does: a detection that
    matches a key without a location counts under FULL whatever was inspected, and with any
    other requirement one on a surface other than the body counts also when that surface is
    ABSENT, UNSUPPORTED or in ERROR (of the body, unless it is ABSENT). *)
Theorem coverage_requirement_gaps found k d cov :
  d ∈ found → key_matches d k →
  (TargetLocation k = INSPECTION_SURFACE_UNSPECIFIED → PolicyMatchesDetectionKey found (Some k) true cov = true) ∧
  (TargetLocation k ≠ INSPECTION_SURFACE_BODY ∨ CoverageOf cov INSPECTION_SURFACE_BODY ≠ COVERAGE_STATUS_ABSENT →
   PolicyMatchesDetectionKey found (Some k) false cov = true).
Proof.
  intros Hd Hm. split; intros Hl; apply PolicyMatchesDetectionKey_iff; exists k, d; split_and!; try done; [by left|].
  right. split; [done|]. intros Hb. rewrite Hb. by destruct Hl.
Qed.

(** C37: a policy that requires a match (or no full coverage) blocks a
    request exactly when it is not log-only, its scope covers the request, the anomaly
    threshold is reached, and some detection matches one of its keys whose location, if it
    names one, is fully inspected where the policy requires FULL and, for the body, not
    absent.  The code asks no more of the coverage ([coverage_requirement_gaps]). *)
Theorem policy_blocks_iff {U : Unicode} {D : HttpDecoders} cand pred found view req :
  pc_Predicate cand = Some pred →
  RequireMatchPresent pred = true ∨ CoverageRequirement pred ≠ COVERAGE_STATUS_FULL →
  PolicyCandidateBlocksOn (Some cand) found view req = true ↔
  policy_active cand pred found view req ∧
  ∃ k d, Some k ∈ DetectionKeys pred ∧ d ∈ found ∧ key_matches d k ∧
    surface_ok k (bool_decide (CoverageRequirement pred = COVERAGE_STATUS_FULL)) (v_Coverage view).
Proof.
  intros Hp Hpos. rewrite (PolicyCandidateBlocksOn_unfold _ _ _ _ _ Hp).
  set (full := bool_decide _). simpl.
  assert (existsb (λ key, PolicyMatchesDetectionKey found key full (v_Coverage view)) (DetectionKeys pred) = true ↔
    ∃ k d, Some k ∈ DetectionKeys pred ∧ d ∈ found ∧ key_matches d k ∧ surface_ok k full (v_Coverage view)) as Hex.
  { rewrite existsb_exists. split.
    - intros (key & Hin%list_elem_of_In & (k & d & -> & ?)%PolicyMatchesDetectionKey_iff). by exists k, d.
    - intros (k & d & Hin & ?). exists (Some k). split; [by apply list_elem_of_In|].
      apply PolicyMatchesDetectionKey_iff. by exists k, d. }
  rewrite <- Hex. destruct (RequireMatchPresent pred); [done|].
  destruct Hpos as [?|Hpos]; [done|]. unfold full. rewrite (bool_decide_eq_false_2 _ Hpos).
  split; [tauto|]. intros [? Hh]. split_and!; try done. by intros E; rewrite E in Hh.
Qed.

(** A policy that blocks on the absence of a match under full coverage
    also blocks when the surfaces its keys name were not fully inspected, whatever the
    inspectors found; the code does not leave such a request out. *)
Theorem negative_policy_blocks_uncovered {U : Unicode} {D : HttpDecoders} cand pred found view req :
  pc_Predicate cand = Some pred → RequireMatchPresent pred = false →
  CoverageRequirement pred = COVERAGE_STATUS_FULL → DetectionKeys pred ≠ [] →
  policy_active cand pred found view req →
  (∀ k, Some k ∈ DetectionKeys pred → TargetLocation k ≠ INSPECTION_SURFACE_UNSPECIFIED ∧
     CoverageOf (v_Coverage view) (TargetLocation k) ≠ COVERAGE_STATUS_FULL) →
  PolicyCandidateBlocksOn (Some cand) found view req = true.
Proof.
  intros Hp Hr Hf Hk Hact Hcov. rewrite (PolicyCandidateBlocksOn_unfold _ _ _ _ _ Hp). split; [done|].
  simpl. rewrite Hr. rewrite (bool_decide_eq_true_2 _ Hf). split; [done|].
  apply not_true_iff_false. rewrite existsb_exists.
  intros (key & Hin%list_elem_of_In & (k & d & -> & _ & _ & Hs)%PolicyMatchesDetectionKey_iff).
  destruct (Hcov k Hin) as [Hu Hn]. destruct Hs as [?|[Hs _]]; [done|]. by apply Hn, Hs.
Qed.

(** ** Merging *)

Lemma merge_fold parts out :
  insp_Detections (foldl merge_part out parts) = insp_Detections out ++ concat (insp_Detections <$> parts) ∧
  existsb is_error (insp_Coverage (foldl merge_part out parts)) =
    existsb is_error (insp_Coverage out) || existsb (λ p, existsb is_error (insp_Coverage p)) parts ∧
  insp_Rejected (foldl merge_part out parts) = insp_Rejected out || existsb insp_Rejected parts ∧
  (∃ extra, insp_Coverage (foldl merge_part out parts) = insp_Coverage out ++ extra ∧ Forall (λ c, is_error c = true) extra).
Proof.
  revert out. induction parts as [|p parts IH]; intros out.
  { simpl. rewrite app_nil_r, !orb_false_r. split_and!; try done. exists []. by rewrite app_nil_r. }
  cbn [foldl]. destruct (IH (merge_part out p)) as (H1 & H2 & H3 & extra & H4 & H5). rewrite H1, H2, H3. split_and!.
  - simpl. by rewrite <- app_assoc.
  - simpl. rewrite existsb_app_or, <- orb_assoc. f_equal. f_equal.
    induction (insp_Coverage p) as [|c l IHl]; [done|]. rewrite filter_cons. case_decide as Hc; simpl; [by rewrite Hc|].
    rewrite IHl. by apply not_true_is_false in Hc as ->.
  - simpl. by destruct (insp_Rejected p), (insp_Rejected out).
  - exists (filter (λ c, is_error c = true) (insp_Coverage p) ++ extra). rewrite H4. simpl. rewrite <- app_assoc.
    split; [done|]. apply Forall_app. split; [|done]. apply Forall_forall. intros c Hc.
    by apply list_elem_of_filter in Hc as [? _].
Qed.

(** Merging the inspectors' reports loses nothing: all detections in order, a
    rejection if the view or any inspector rejects, the view's coverage unchanged at the
    front, and an ERROR entry exactly when the view or an inspector has one, so that an
    inspector failure is never counted as "no detection". *)
Theorem merge_inspections_complete view parts :
  let out := MergeInspections view parts in
  insp_Detections out = concat (insp_Detections <$> parts) ∧
  insp_Rejected out = v_Rejected view || existsb insp_Rejected parts ∧
  (∃ extra, insp_Coverage out = v_Coverage view ++ extra ∧ Forall (λ c, is_error c = true) extra) ∧
  (IsNoDetection (insp_Coverage out) (insp_Detections out) = true ↔
   existsb is_error (v_Coverage view) = false ∧ (∀ p, p ∈ parts → existsb is_error (insp_Coverage p) = false) ∧
   ∀ p, p ∈ parts → insp_Detections p = []).
Proof.
  destruct (merge_fold parts (mkInspection [] (v_Coverage view) (v_Rejected view))) as (H1 & H2 & H3 & H4).
  simpl in *. fold (MergeInspections view parts) in *. split_and!; try done.
  unfold IsNoDetection. rewrite H2, if_false_and, orb_false_iff, bool_decide_eq_true, H1.
  assert (existsb (λ p, existsb is_error (insp_Coverage p)) parts = false ↔
          ∀ p, p ∈ parts → existsb is_error (insp_Coverage p) = false) as ->.
  { rewrite <- not_true_iff_false, existsb_exists. setoid_rewrite <- list_elem_of_In. split.
    - intros Hn p Hp. apply not_true_iff_false. intros E. apply Hn. by exists p.
    - intros Hall (p & Hp & E). apply Hall in Hp. congruence. }
  assert (concat (insp_Detections <$> parts) = [] ↔ ∀ p, p ∈ parts → insp_Detections p = []) as ->.
  { clear. induction parts as [|p parts IH]; simpl; [set_solver|]. rewrite app_nil, IH. set_solver. }
  tauto.
Qed.

(** ** Taxonomy *)

(** A prefix rule that applies to the identifier. *)
Definition prefix_rule (rules : list (option TaxonomyRule)) (id : string) (r : TaxonomyRule) : Prop :=
  Some r ∈ rules ∧ tr_RulePrefix r ≠ "" ∧ has_prefix id (tr_RulePrefix r) = true.

Lemma best_prefix_spec rules id best :
  match best_prefix rules id best with
  | None => best = None ∧ ∀ r, ¬ prefix_rule rules id r
  | Some r =>
      (best = Some r ∨ prefix_rule rules id r) ∧
      (∀ b, best = Some b → str_len (tr_RulePrefix b) ≤ str_len (tr_RulePrefix r)) ∧
      ∀ r', prefix_rule rules id r' → str_len (tr_RulePrefix r') ≤ str_len (tr_RulePrefix r)
  end.
Proof.
  revert best. induction rules as [|[r|] rules IH]; intros best.
  - destruct best as [b|]; simpl; [split_and!; [by left|naive_solver|]|split; [done|]];
      intros r (? & _); set_solver.
  - simpl. assert (∀ x, prefix_rule (Some r :: rules) id x ↔
      (x = r ∧ tr_RulePrefix r ≠ "" ∧ has_prefix id (tr_RulePrefix r) = true) ∨ prefix_rule rules id x) as Hx.
    { intros x. unfold prefix_rule. rewrite elem_of_cons. naive_solver. }
    destruct (decide (tr_RulePrefix r = "")) as [E|E]; [rewrite bool_decide_eq_true_2 by done|rewrite bool_decide_eq_false_2 by done].
    { specialize (IH best). destruct (best_prefix rules id best); setoid_rewrite Hx; naive_solver. }
    destruct (has_prefix id (tr_RulePrefix r)) eqn:Hh; simpl.
    2:{ specialize (IH best). destruct (best_prefix rules id best); setoid_rewrite Hx; naive_solver. }
    assert (∀ b0, str_len (tr_RulePrefix r) ≤ str_len (tr_RulePrefix b0) →
      (best = Some b0 ∨ b0 = r) → (∀ b, best = Some b → str_len (tr_RulePrefix b) ≤ str_len (tr_RulePrefix b0)) →
      match best_prefix rules id (Some b0) with
      | None => best = None ∧ ∀ r0, ¬ prefix_rule (Some r :: rules) id r0
      | Some x => (best = Some x ∨ prefix_rule (Some r :: rules) id x) ∧
          (∀ b, best = Some b → str_len (tr_RulePrefix b) ≤ str_len (tr_RulePrefix x)) ∧
          ∀ r', prefix_rule (Some r :: rules) id r' → str_len (tr_RulePrefix r') ≤ str_len (tr_RulePrefix x)
      end) as Hstep.
    { intros b0 Hr Hb0 Hle. specialize (IH (Some b0)). destruct (best_prefix rules id (Some b0)) as [x|]; [|naive_solver].
      setoid_rewrite Hx. destruct IH as (H1 & H2 & H3). specialize (H2 b0 eq_refl). split_and!.
      - naive_solver.
      - intros b Hb. specialize (Hle b Hb). lia.
      - intros r' [[-> _]|?]; [lia|auto]. }
    destruct best as [b|]; [destruct (Z.ltb_spec (str_len (tr_RulePrefix b)) (str_len (tr_RulePrefix r)))|];
      apply Hstep; auto; naive_solver lia.
  - simpl. specialize (IH best).
    assert (∀ x, prefix_rule (None :: rules) id x ↔ prefix_rule rules id x) as Hx.
    { intros x. unfold prefix_rule. rewrite elem_of_cons. naive_solver. }
    destruct (best_prefix rules id best); by setoid_rewrite Hx.
Qed.

(** The attack class of a rule without an exact mapping is that of a rule
    with the longest applicable prefix, and UNMAPPED exactly when no prefix applies (the
    table itself never maps to UNMAPPED). *)
Theorem taxonomy_longest_prefix m ruleID :
  let id := trim_space ruleID in
  id ≠ "" → exact_rule (tm_Rules m) id = None →
  (∃ r, prefix_rule (tm_Rules m) id r ∧ MapAttackClass (Some m) ruleID = tr_AttackClass r ∧
        ∀ r', prefix_rule (tm_Rules m) id r' → str_len (tr_RulePrefix r') ≤ str_len (tr_RulePrefix r)) ∨
  (MapAttackClass (Some m) ruleID = ATTACK_CLASS_UNMAPPED ∧ ∀ r, ¬ prefix_rule (tm_Rules m) id r).
Proof.
  intros id Hid Hex. unfold MapAttackClass. fold id. rewrite bool_decide_eq_false_2, Hex by done.
  pose proof (best_prefix_spec (tm_Rules m) id None) as H.
  destruct (best_prefix (tm_Rules m) id None) as [r|].
  - destruct H as ([?|?] & _ & ?); [done|]. left. by exists r.
  - destruct H as [_ ?]. by right.
Qed.

Module Demo.
Definition key : DetectionKey := mkDetectionKey "crs" "" "" "942100" "" INSPECTION_SURFACE_BODY "" "".
Definition hit : Detection :=
  mkDetection "crs" "942100" ATTACK_CLASS_SQLI (f64_of_Z 5) INSPECTION_SURFACE_BODY "" "" "" "" "".
Definition predicate (present : bool) : PolicyPredicate :=
  mkPolicyPredicate [Some key] f64_zero present COVERAGE_STATUS_FULL.
Definition policy (present : bool) : PolicyCandidate := mkPolicyCandidate "p" None (Some (predicate present)) "block" None.
Definition view (st : CoverageStatus) : CanonicalView :=
  mkCanonicalView "POST" "/login" (Some ∅) ∅ "x" "" false [mkCoverage INSPECTION_SURFACE_BODY st 1 2] "".
Definition req : Request := mkRequest "" "" "POST" "/login" "" ∅ "x" "".

Lemma active present st found :
  policy_active (U := ascii_only_unicode) (D := Canonical.Demo.decoders) (policy present) (predicate present) found (view st) req.
Proof. split_and!; [done|done|]. by intros [? _]. Defined.
End Demo.

Lemma policy_blocks_iff_witness :
  PolicyCandidateBlocksOn (U := ascii_only_unicode) (D := Canonical.Demo.decoders) (Some (Demo.policy true)) [Demo.hit]
    (Demo.view COVERAGE_STATUS_FULL) Demo.req = true.
Proof.
  apply (@policy_blocks_iff ascii_only_unicode Canonical.Demo.decoders (Demo.policy true) (Demo.predicate true)).
  - reflexivity.
  - by left.
  - split; [apply Demo.active|]. exists Demo.key, Demo.hit. split_and!; [left|left| |].
    + apply detectionMatchesKey_iff. vm_compute. reflexivity.
    + right. by split.
Defined.

Lemma negative_policy_blocks_uncovered_witness :
  PolicyCandidateBlocksOn (U := ascii_only_unicode) (D := Canonical.Demo.decoders) (Some (Demo.policy false)) []
    (Demo.view COVERAGE_STATUS_PARTIAL) Demo.req = true.
Proof.
  apply (@negative_policy_blocks_uncovered ascii_only_unicode Canonical.Demo.decoders (Demo.policy false) (Demo.predicate false)).
  - reflexivity.
  - reflexivity.
  - reflexivity.
  - discriminate.
  - apply Demo.active.
  - intros k Hk. apply list_elem_of_singleton in Hk. injection Hk as ->. split; discriminate.
Defined.

Lemma taxonomy_longest_prefix_witness :
  MapAttackClass (Some DefaultTaxonomyMapper) "942100" = ATTACK_CLASS_SQLI ∧
  ∃ r, prefix_rule (tm_Rules DefaultTaxonomyMapper) "942100" r.
Proof.
  split; [reflexivity|].
  destruct (taxonomy_longest_prefix DefaultTaxonomyMapper "942100") as [(r & Hr & _)|[H _]];
    [discriminate|reflexivity|by exists r|discriminate H].
Defined.
