(* ===== verification/Rules.v ===== *)
(** * Demonstration rules and the minimal engine (lib/edgecore/rule.go, engine.go, scope.go,
    detector.go)

    Regular expressions are a parameter ([Regexp]): [re_compile] is [regexp.Compile]
    followed by [MatchString]. *)

From S2P Require Import Prelude GoStrings Contracts Signing Canonical Shape Policy.

Class Regexp := { re_compile : string → option (string → bool) }.

Definition RulePayloadSchema : string := "rules/v1".
Definition PolicyPayloadSchema : string := "policy/v1".

Record Rule := mkRule { rule_ID : string; Pattern : string; Target : string }.
Record compiledRule := mkCompiledRule { cr_rule : Rule; cr_re : string → bool }.
Record RuleDetector := mkRuleDetector { rd_id : string; rd_rules : list compiledRule }.

Record Verdict := mkVerdict {
  vd_DetectorID : string; vd_Action : Action; vd_RuleID : string; vd_Confidence : f64; vd_Message : string;
}.
Definition zero_verdict : Verdict := mkVerdict "" ActionAllow "" f64_zero "".
Definition with_detector (v : Verdict) (id : string) : Verdict :=
  mkVerdict id (vd_Action v) (vd_RuleID v) (vd_Confidence v) (vd_Message v).

Inductive CostTier := CostSyncMicros | CostAsyncMillis.

(** The [Detector] interface; [det_Match] is the optional [Match] method.  [Evaluate]
    returns a verdict next to an error. *)
Record Detector := mkDetector {
  det_ID : string; det_Tier : CostTier;
  det_Match : option (Request → string * bool);
  det_Evaluate : Request → Verdict * option string;
}.

(** ** Rule detectors *)

Definition decodedQuery (q : string) : string := default q (QueryUnescape q).

Definition targetString (target : string) (req : Request) : string :=
  if bool_decide (target = "path") then req_Path req
  else if bool_decide (target = "query") then decodedQuery (req_Query req)
  else if bool_decide (target = "body") then req_Body req
  else req_Path req +:+ " " +:+ decodedQuery (req_Query req) +:+ " " +:+ req_Body req.

Definition known_target (t : string) : bool :=
  bool_decide (t = "") || bool_decide (t = "path") || bool_decide (t = "query") || bool_decide (t = "body").

Fixpoint compile_rules {R : Regexp} (rules : list Rule) (seen : gset string) : result (list compiledRule) :=
  match rules with
  | [] => Ok []
  | r :: rules' =>
      if bool_decide (rule_ID r = "") then Err "rule with empty id"
      else if bool_decide (rule_ID r ∈ seen) then Err "duplicate rule id"
      else if bool_decide (Pattern r = "") then Err "empty pattern matches everything"
      else if negb (known_target (Target r)) then Err "unknown target"
      else match re_compile (Pattern r) with
      | None => Err "regexp"
      | Some re =>
          let! cs := compile_rules rules' ({[rule_ID r]} ∪ seen) in
          Ok (mkCompiledRule r re :: cs)
      end
  end.

Definition NewRuleDetector {R : Regexp} (id : string) (rules : list Rule) : result RuleDetector :=
  if bool_decide (length rules = 0%nat) then Err "empty rule set"
  else let! cs := compile_rules rules ∅ in Ok (mkRuleDetector id cs).

Fixpoint match_rules (cs : list compiledRule) (req : Request) : string * bool :=
  match cs with
  | [] => ("", false)
  | c :: cs' =>
      if cr_re c (targetString (Target (cr_rule c)) req) then (rule_ID (cr_rule c), true) else match_rules cs' req
  end.

Definition RuleDetector_Match (d : option RuleDetector) (req : Request) : string * bool :=
  match d with None => ("", false) | Some d => match_rules (rd_rules d) req end.

Definition f64_one : f64 := f64_of_Z 1.

Definition ruleDetection (inspectorID ruleID : string) (req : Request) : Detection :=
  let loc := if negb (bool_decide (req_Query req = "")) then INSPECTION_SURFACE_QUERY else INSPECTION_SURFACE_PATH in
  let loc := if (0 <? str_len (req_Body req)) && bool_decide (req_Query req = "") then INSPECTION_SURFACE_BODY else loc in
  mkDetection inspectorID ruleID ATTACK_CLASS_UNSPECIFIED f64_one loc "" "" "" "" "".

Definition RuleDetector_Inspect (d : RuleDetector) (view : CanonicalView) : Inspection :=
  let '(id, ok) := RuleDetector_Match (Some d) (RequestFromView view) in
  mkInspection (if ok then [ruleDetection (rd_id d) id (RequestFromView view)] else [])
    (v_Coverage view) (v_Rejected view).

Definition RuleDetector_Evaluate (d : RuleDetector) (req : Request) : Verdict * option string :=
  match RuleDetector_Match (Some d) req with
  | (id, true) => (mkVerdict "" ActionBlock id f64_one ("matched rule " +:+ id), None)
  | (_, false) => (zero_verdict, None)
  end.

(** A [*RuleDetector] seen through the interface. *)
Definition rule_detector (d : RuleDetector) : Detector :=
  mkDetector (rd_id d) CostSyncMicros (Some (RuleDetector_Match (Some d))) (RuleDetector_Evaluate d).

(** ** Scoped detectors *)

Definition Scoped_Match (inner : Detector) (prefix : string) (req : Request) : string * bool :=
  if negb (has_prefix (req_Path req) prefix) then ("", false)
  else match det_Match inner with
  | Some m => m req
  | None => let '(v, _) := det_Evaluate inner req in (vd_RuleID v, bool_decide (vd_Action v = ActionBlock))
  end.

Definition Scoped_Evaluate (inner : Detector) (prefix : string) (req : Request) : Verdict * option string :=
  if negb (has_prefix (req_Path req) prefix) then (zero_verdict, None) else det_Evaluate inner req.

Definition NewScoped (inner : Detector) (prefix : string) : Detector :=
  if bool_decide (prefix = "") then inner
  else mkDetector (det_ID inner) (det_Tier inner) (Some (Scoped_Match inner prefix)) (Scoped_Evaluate inner prefix).

(** ** The engine *)

Record Engine := mkEngine { detectors : list Detector }.

Fixpoint match_detectors (ds : list Detector) (req : Request) : Verdict * bool :=
  match ds with
  | [] => (zero_verdict, false)
  | d :: ds' =>
      match det_Match d with
      | Some m =>
          match m req with
          | (id, true) => (mkVerdict (det_ID d) ActionBlock id f64_one ("matched rule " +:+ id), true)
          | (_, false) => match_detectors ds' req
          end
      | None =>
          match det_Evaluate d req with
          | (_, Some _) => match_detectors ds' req
          | (v, None) =>
              if bool_decide (vd_Action v = ActionBlock) then (with_detector v (det_ID d), true)
              else match_detectors ds' req
          end
      end
  end.

Definition MatchRules (e : option Engine) (req : Request) : Verdict * bool :=
  match e with None => (zero_verdict, false) | Some e => match_detectors (detectors e) req end.

Definition Engine_Check (e : Engine) (req : Request) : list Verdict :=
  (λ d, match det_Evaluate d req with
        | (v, None) => with_detector v (det_ID d)
        | (_, Some err) => with_detector (mkVerdict "" ActionObserve "" f64_zero ("detector error: " +:+ err)) (det_ID d)
        end) <$> detectors e.

Definition Decide (mode : ReleaseMode) (verdicts : list Verdict) : Action :=
  if existsb (λ v, bool_decide (vd_Action v = ActionBlock)) verdicts then
    match mode with
    | RELEASE_MODE_ENFORCE | RELEASE_MODE_CANARY => ActionBlock
    | _ => ActionObserve
    end
  else ActionAllow.

(** ** Properties *)

(** What a rule set must satisfy to be loaded, given the identifiers already seen. *)
Definition rule_ok {R : Regexp} (r : Rule) : Prop :=
  rule_ID r ≠ "" ∧ Pattern r ≠ "" ∧ known_target (Target r) = true ∧ is_Some (re_compile (Pattern r)).

Lemma compile_rules_Ok {R : Regexp} rules seen cs :
  compile_rules rules seen = Ok cs →
  cr_rule <$> cs = rules ∧ Forall (λ c, re_compile (Pattern (cr_rule c)) = Some (cr_re c)) cs ∧
  Forall rule_ok rules ∧ NoDup (rule_ID <$> rules) ∧ Forall (λ r, rule_ID r ∉ seen) rules.
Proof.
  revert seen cs. induction rules as [|r rules IH]; intros seen cs; simpl.
  { intros [= <-]. split_and!; constructor. }
  do 3 (case_bool_decide; [done|]). destruct (known_target (Target r)) eqn:Ht; [|done]. simpl.
  destruct (re_compile (Pattern r)) as [re|] eqn:Hre; [|done].
  intros (cs' & Hc & [= <-])%result_bind_Ok. apply IH in Hc as (<- & Hcs & Hok & Hn & Hseen).
  split_and!.
  - done.
  - by constructor.
  - constructor; [|done]. split_and!; (done || by eexists).
  - constructor; [|done]. intros (r' & E & Hr')%list_elem_of_fmap. rewrite Forall_forall in Hseen.
    apply (Hseen r' Hr'). set_solver.
  - constructor; [done|]. eapply Forall_impl; [done|]. set_solver.
Qed.

Lemma compile_rules_complete {R : Regexp} rules seen :
  Forall rule_ok rules → NoDup (rule_ID <$> rules) → Forall (λ r, rule_ID r ∉ seen) rules →
  is_ok (compile_rules rules seen) = true.
Proof.
  intros Hok. revert seen. induction Hok as [|r rules (H1 & H2 & H3 & re & H4) Hok IH]; intros seen Hn Hs; [done|].
  simpl in *. apply NoDup_cons in Hn as [Hnr Hn]. apply Forall_cons in Hs as [Hr Hs].
  rewrite !bool_decide_eq_false_2 by done. rewrite H3. simpl. rewrite H4.
  specialize (IH ({[rule_ID r]} ∪ seen) Hn). destruct (compile_rules rules ({[rule_ID r]} ∪ seen)) eqn:E; [done|].
  apply IH. rewrite Forall_forall in *. intros x Hx. rewrite not_elem_of_union, not_elem_of_singleton. split; [|by apply Hs].
  intros Heq. apply Hnr. rewrite <- Heq. by apply list_elem_of_fmap_2.
Qed.

(** A rule set loads exactly when it is not empty, every rule has an
    identifier, a non-empty pattern that compiles and a known target, and identifiers are
    distinct; the loaded detector holds the same rules in the same order. *)
Theorem rule_detector_loads_iff {R : Regexp} id rules :
  (is_ok (NewRuleDetector id rules) = true ↔
   rules ≠ [] ∧ Forall rule_ok rules ∧ NoDup (rule_ID <$> rules)) ∧
  ∀ d, NewRuleDetector id rules = Ok d → cr_rule <$> rd_rules d = rules.
Proof.
  unfold NewRuleDetector. case_bool_decide as Hl.
  { destruct rules; [|done]. split; [naive_solver|done]. }
  split.
  - split.
    + destruct (compile_rules rules ∅) as [cs|] eqn:Hc; [|done]. intros _.
      apply compile_rules_Ok in Hc as (_ & _ & ? & ? & _). split_and!; [by intros ->|done..].
    + intros (_ & Hok & Hn). pose proof (compile_rules_complete rules ∅ Hok Hn) as H.
      destruct (compile_rules rules ∅); [done|]. apply H. apply Forall_forall. set_solver.
  - intros d (cs & Hc & [= <-])%result_bind_Ok. by apply compile_rules_Ok in Hc as (? & _).
Qed.

Lemma match_rules_none cs req :
  (match_rules cs req).2 = false ↔ Forall (λ c, cr_re c (targetString (Target (cr_rule c)) req) = false) cs.
Proof.
  induction cs as [|c cs IH]; simpl; [by split; [constructor|]|].
  rewrite Forall_cons, <- IH. destruct (cr_re c _); naive_solver.
Qed.

(** A loaded rule set scoped to a path prefix blocks, in the single-mode
    engine, exactly when the mode is ENFORCE or CANARY, the path has the prefix and some
    rule matches its target; shadow and unknown modes never block. *)
Theorem engine_decides {R : Regexp} id rules d prefix mode req :
  NewRuleDetector id rules = Ok d →
  Decide mode (Engine_Check (mkEngine [NewScoped (rule_detector d) prefix]) req) = ActionBlock ↔
  (mode = RELEASE_MODE_ENFORCE ∨ mode = RELEASE_MODE_CANARY) ∧ has_prefix (req_Path req) prefix = true ∧
  ∃ r re, r ∈ rules ∧ re_compile (Pattern r) = Some re ∧ re (targetString (Target r) req) = true.
Proof.
  intros Hd. assert (cr_rule <$> rd_rules d = rules ∧
    Forall (λ c, re_compile (Pattern (cr_rule c)) = Some (cr_re c)) (rd_rules d)) as [<- Hre].
  { unfold NewRuleDetector in Hd. case_bool_decide; [done|].
    apply result_bind_Ok in Hd as (cs & Hc & [= <-]). by apply compile_rules_Ok in Hc as (? & ? & _). }
  assert ((match_rules (rd_rules d) req).2 = true ↔
    ∃ r re, r ∈ cr_rule <$> rd_rules d ∧ re_compile (Pattern r) = Some re ∧ re (targetString (Target r) req) = true) as Hm.
  { rewrite Forall_forall in Hre. rewrite <- not_false_iff_true, match_rules_none. split.
    - intros Hn. apply not_Forall_Exists in Hn; [|intros c; apply _].
      apply Exists_exists in Hn as (c & Hc & Hb%not_false_is_true). exists (cr_rule c), (cr_re c).
      split_and!; [by apply list_elem_of_fmap_2|by apply Hre|done].
    - intros (r & re & (c & -> & Hc)%list_elem_of_fmap & Hr & Hb) Hall. rewrite Forall_forall in Hall.
      rewrite (Hre c Hc) in Hr. simplify_eq. rewrite (Hall c Hc) in Hb. done. }
  assert (∀ e, det_Evaluate e req = (if has_prefix (req_Path req) prefix then RuleDetector_Evaluate d req else (zero_verdict, None)) →
    existsb (λ v, bool_decide (vd_Action v = ActionBlock)) (Engine_Check (mkEngine [e]) req)
    = has_prefix (req_Path req) prefix && (match_rules (rd_rules d) req).2) as He.
  { intros e E. unfold Engine_Check. simpl. rewrite E. unfold RuleDetector_Evaluate, RuleDetector_Match.
    destruct (has_prefix _ _), (match_rules (rd_rules d) req) as [? []]; done. }
  rewrite <- Hm. unfold Decide. rewrite He.
  - destruct (has_prefix _ _), (match_rules (rd_rules d) req) as [? []]; simpl; destruct mode; naive_solver.
  - unfold NewScoped. case_bool_decide as Hp; [subst; done|]. simpl. unfold Scoped_Evaluate. by destruct (has_prefix _ _).
Qed.

(** ** A concrete rule set: substring patterns *)
Definition substring_regexp : Regexp := {| re_compile p := Some (λ s, contains s p) |}.

Module Demo.
Definition rules : list Rule := [mkRule "sqli" "UNION SELECT" "query"; mkRule "any" "etc/passwd" ""].
Definition req : Request := mkRequest "" "" "GET" "/api/x" "q=1+UNION+SELECT" ∅ "" "".
Definition det : RuleDetector :=
  mkRuleDetector "r" ((λ r, mkCompiledRule r (λ s, contains s (Pattern r))) <$> rules).
End Demo.

Lemma engine_decides_witness :
  Decide RELEASE_MODE_ENFORCE (Engine_Check (mkEngine [NewScoped (rule_detector Demo.det) "/api/"]) Demo.req) = ActionBlock.
Proof.
  apply (@engine_decides substring_regexp "r" Demo.rules Demo.det "/api/" RELEASE_MODE_ENFORCE Demo.req).
  - reflexivity.
  - split_and!; [by left|reflexivity|]. exists (mkRule "sqli" "UNION SELECT" "query"), (λ s, contains s "UNION SELECT").
    split_and!; [left|reflexivity|vm_compute; reflexivity].
Defined.
