(* ===== verification/Gate.v ===== *)
(** * The gate (gateWith and its helpers in lib/edgecore/release_set.go; status.go, canary.go)

    The gate is the only owner of the block action: it runs every release that has not
    expired over one request and combines their actions by mode, canary bucket and
    ingress posture.  Counters are atomic 64-bit values updated per release. *)

From S2P Require Import Prelude GoStrings Contracts Signing Canonical Shape Policy Rules.

(** ** Postures and status codes *)

Definition Intercepts (p : IngressPosture) : bool :=
  match p with INGRESS_POSTURE_REVERSE_PROXY | INGRESS_POSTURE_EXT_AUTHZ => true | _ => false end.

Definition Observes (p : IngressPosture) : bool :=
  match p with INGRESS_POSTURE_TAP_ALERT | INGRESS_POSTURE_MIRROR_OBSERVE => true | _ => false end.

Definition ResolvePosture (p : IngressPosture) : IngressPosture :=
  if bool_decide (p = INGRESS_POSTURE_UNSPECIFIED) then INGRESS_POSTURE_REVERSE_PROXY else p.

Definition coverageHasError (cov : list Coverage) : bool := existsb is_error cov.

Record StatusInput := mkStatusInput {
  si_Posture : IngressPosture; GateAction : Action; si_View : CanonicalView; Oversize : bool;
  BodyPresent : bool; EngineCrash : bool; MissingRequestID : bool; InFlightExceeded : bool;
  ExtAuthzTimeout : bool;
}.

(** The code of the oversize and malformed branches; [None] falls through. *)
Definition oversize_status (posture : IngressPosture) (bodyPresent : bool) : option Z :=
  match posture with
  | INGRESS_POSTURE_REVERSE_PROXY => Some 413
  | INGRESS_POSTURE_EXT_AUTHZ => Some (if bodyPresent then 403 else 200)
  | _ => None
  end.
Definition malformed_status (posture : IngressPosture) : option Z :=
  match posture with
  | INGRESS_POSTURE_REVERSE_PROXY => Some 400
  | INGRESS_POSTURE_EXT_AUTHZ => Some 403
  | _ => None
  end.

Definition gate_status (a : Action) : Z * bool :=
  if bool_decide (a = ActionBlock) then (403, true) else (200, bool_decide (a = ActionBlock)).

Definition HTTPStatus (i : StatusInput) : Z * bool :=
  let posture := ResolvePosture (si_Posture i) in
  let would := bool_decide (GateAction i = ActionBlock) in
  let ext := bool_decide (posture = INGRESS_POSTURE_EXT_AUTHZ) in
  if Observes posture then (200, would)
  else if InFlightExceeded i then (503, false)
  else if MissingRequestID i || EngineCrash i then (if ext then 200 else 503, false)
  else if ext && ExtAuthzTimeout i then (200, false)
  else match (if Oversize i then oversize_status posture (BodyPresent i) else None) with
  | Some code => (code, false)
  | None =>
      match (if v_Rejected (si_View i) || coverageHasError (v_Coverage (si_View i))
             then malformed_status posture else None) with
      | Some code => (code, false)
      | None => gate_status (GateAction i)
      end
  end.

Fixpoint mark_partial (cov : list Coverage) (inspected total : Z) : list Coverage :=
  match cov with
  | [] => [mkCoverage INSPECTION_SURFACE_BODY COVERAGE_STATUS_PARTIAL inspected total]
  | c :: cov' =>
      if bool_decide (cov_Target c = INSPECTION_SURFACE_BODY)
      then mkCoverage (cov_Target c) COVERAGE_STATUS_PARTIAL inspected total :: cov'
      else c :: mark_partial cov' inspected total
  end.

Definition MarkBodyPartial (view : option CanonicalView) (inspected total : Z) : option CanonicalView :=
  (λ v, mkCanonicalView (v_Method v) (v_Path v) (v_Query v) (v_Headers v) (v_Body v) (v_Host v) (v_Rejected v)
          (mark_partial (v_Coverage v) inspected total) (v_ProfileDigest v)) <$> view.

(** ** Canary buckets *)

(** [binary.BigEndian.Uint64] of the first eight bytes. *)
Fixpoint be_prefix (n : nat) (s : string) (acc : Z) : Z :=
  match n, s with
  | S n', String c s' => be_prefix n' s' (acc * 256 + byte c)
  | _, _ => acc
  end.

Section canary.
Context {C : Crypto}.

Definition canaryBucket (key : string) (percent : Z) : bool :=
  if percent <=? 0 then false
  else if 100 <=? percent then true
  else be_prefix 8 (sha256 key) 0 mod 10000 <? u64 (percent * 100).

Definition CanarySelected (requestID : string) (percent : Z) : bool := canaryBucket requestID percent.

Definition CanarySelectedUnit (unitID releaseID : string) (percent : Z) : bool :=
  canaryBucket (unitID +:+ NUL +:+ releaseID) percent.
End canary.

(** ** Releases and counters *)

Record managedRelease := mkManagedRelease {
  mr_releaseID : string; mr_artifactID : string; mr_detector : option RuleDetector; mr_prefix : string;
  mr_policy : option PolicyCandidate; mr_shape : option compiledShape; mr_mode : ReleaseMode;
  mr_canaryPercent : Z; mr_expiresAt : time;
}.

Record counter := mkCounter { requests : Z; blocks : Z; observe : Z; canarySel : Z; latencies : list Z }.
Definition new_counter : counter := mkCounter 0 0 0 0 [].

Definition ruleMatch (r : managedRelease) (req : Request) : string * bool :=
  match mr_detector r with
  | None => ("", false)
  | Some d =>
      if negb (bool_decide (mr_prefix r = "")) && negb (has_prefix (req_Path req) (mr_prefix r)) then ("", false)
      else RuleDetector_Match (Some d) req
  end.

Definition actionForMode (mode : ReleaseMode) (matched selected : bool) : Action :=
  if negb matched then ActionAllow
  else match mode with
  | RELEASE_MODE_ENFORCE => ActionBlock
  | RELEASE_MODE_CANARY => if selected then ActionBlock else ActionObserve
  | _ => ActionObserve
  end.

Definition worseAction (a b : Action) : Action :=
  if bool_decide (a = ActionBlock) || bool_decide (b = ActionBlock) then ActionBlock
  else if bool_decide (a = ActionObserve) || bool_decide (b = ActionObserve) then ActionObserve
  else ActionAllow.

Definition account (action : Action) (selected : bool) (c : counter) : counter :=
  mkCounter (u64 (requests c + 1))
    (if bool_decide (action = ActionBlock) then u64 (blocks c + 1) else blocks c)
    (if bool_decide (action = ActionObserve) then u64 (observe c + 1) else observe c)
    (if selected then u64 (canarySel c + 1) else canarySel c) (latencies c).

(** [accountRelease(counters[id], ...)]: an absent counter is nil and is skipped. *)
Definition accountRelease (counters : gmap string counter) (id : string) (action : Action) (selected : bool)
    : gmap string counter := alter (account action selected) id counters.

(** ** The decision *)

Record ReleaseObservation := mkReleaseObservation {
  ro_ReleaseID : string; ro_ArtifactID : string; ro_Mode : ReleaseMode; ro_CanaryPercent : Z;
  ro_CanarySelected : bool; ro_Matched : bool;
}.

Record Decision := mkDecision {
  dec_Action : Action; WouldHaveBlocked : bool; Verdicts : list Verdict;
  Observations : list ReleaseObservation; Detections : list Detection; dec_Inspection : Inspection;
  dec_Posture : IngressPosture; dec_GenerationID : string; dec_GenerationSeq : Z;
}.

Record gate_state := mkGateState {
  g_policyBlock : bool; g_ruleBlock : bool; g_shapeBlock : bool; g_combined : Action;
  g_verdicts : list Verdict; g_observations : list ReleaseObservation; g_counters : gmap string counter;
}.

Section gate.
Context {U : Unicode} {D : HttpDecoders} {C : Crypto}.

(** The [switch]: whether the release matches and its verdict; [None] is [continue]. *)
Definition release_match (r : managedRelease) (req : Request) (insp : Inspection) (view : CanonicalView)
    : option (bool * Verdict) :=
  if bool_decide (is_Some (mr_policy r)) then
    Some (PolicyCandidateBlocksOn (mr_policy r) (insp_Detections insp) view req, zero_verdict)
  else if bool_decide (is_Some (mr_detector r)) then
    let '(ruleID, matched) := ruleMatch r req in
    Some (matched, if matched then mkVerdict (mr_artifactID r) ActionObserve ruleID f64_one ("matched rule " +:+ ruleID)
                   else zero_verdict)
  else if bool_decide (is_Some (mr_shape r)) then
    let matched := Violates (mr_shape r) req view in
    Some (matched, if matched then mkVerdict (mr_artifactID r) ActionObserve "shape" f64_one "request shape violated"
                   else zero_verdict)
  else None.

Definition canary_selected (r : managedRelease) (req : Request) : bool :=
  bool_decide (mr_mode r = RELEASE_MODE_CANARY) && negb (bool_decide (req_UnitID req = ""))
  && CanarySelectedUnit (req_UnitID req) (mr_releaseID r) (mr_canaryPercent r).

Definition gate_step (countBlock : bool) (req : Request) (insp : Inspection) (view : CanonicalView)
    (st : gate_state) (r : managedRelease) : gate_state :=
  match release_match r req insp view with
  | None => st
  | Some (matched, v) =>
      let selected := canary_selected r req in
      let action := actionForMode (mr_mode r) matched selected in
      let is_block := bool_decide (action = ActionBlock) in
      let accounted := if negb countBlock && is_block then ActionObserve else action in
      mkGateState
        (if bool_decide (is_Some (mr_policy r)) && is_block then true else g_policyBlock st)
        (if bool_decide (is_Some (mr_detector r)) && is_block then true else g_ruleBlock st)
        (if bool_decide (is_Some (mr_shape r)) && is_block then true else g_shapeBlock st)
        (worseAction (g_combined st) action)
        (g_verdicts st ++ (if (matched || negb (bool_decide (action = ActionAllow)))
                              && negb (bool_decide (vd_RuleID v = "")) then [v] else []))
        (g_observations st ++ [mkReleaseObservation (mr_releaseID r) (mr_artifactID r) (mr_mode r)
                                 (mr_canaryPercent r) selected matched])
        (accountRelease (g_counters st) (mr_releaseID r) accounted selected)
  end.

Definition gate_loop (countBlock : bool) (req : Request) (insp : Inspection) (view : CanonicalView)
    (releases : list managedRelease) (counters : gmap string counter) : gate_state :=
  foldl (gate_step countBlock req insp view) (mkGateState false false false ActionAllow [] [] counters) releases.

Definition gateWith (releases : list managedRelease) (posture : IngressPosture) (req : Request)
    (insp : Inspection) (view : CanonicalView) (counters : gmap string counter) : Decision * gmap string counter :=
  let st := gate_loop (Intercepts posture) req insp view releases counters in
  let blocked := GateOrder (g_policyBlock st) (g_ruleBlock st) (g_shapeBlock st) in
  let action := if bool_decide (blocked = ActionBlock) then ActionBlock else g_combined st in
  let would := bool_decide (action = ActionBlock) in
  (mkDecision (if Observes posture then ActionAllow else action) would (g_verdicts st) (g_observations st)
     (insp_Detections insp) insp posture "" 0, g_counters st).
End gate.

(** ** Facts about the loop *)

Section facts.
Context {U : Unicode} {D : HttpDecoders} {C : Crypto}.
Implicit Types (releases : list managedRelease) (st : gate_state).

(** The action one release asks for. *)
Definition release_action (req : Request) (insp : Inspection) (view : CanonicalView) (r : managedRelease) : Action :=
  match release_match r req insp view with
  | None => ActionAllow
  | Some (matched, _) => actionForMode (mr_mode r) matched (canary_selected r req)
  end.

(** Reference: a release blocks when it matches and is enforced, or is a canary whose
    bucket holds the unit. *)
Definition release_blocks (req : Request) (insp : Inspection) (view : CanonicalView) (r : managedRelease) : Prop :=
  (∃ v, release_match r req insp view = Some (true, v)) ∧
  (mr_mode r = RELEASE_MODE_ENFORCE ∨
   mr_mode r = RELEASE_MODE_CANARY ∧ req_UnitID req ≠ "" ∧
   CanarySelectedUnit (req_UnitID req) (mr_releaseID r) (mr_canaryPercent r) = true).

Lemma worse_block a b : worseAction a b = ActionBlock ↔ a = ActionBlock ∨ b = ActionBlock.
Proof. destruct a, b; naive_solver. Qed.

Lemma worse_observe a b :
  worseAction a b = ActionObserve ↔ (a = ActionObserve ∨ b = ActionObserve) ∧ a ≠ ActionBlock ∧ b ≠ ActionBlock.
Proof. destruct a, b; naive_solver. Qed.

Lemma worse_allow_r a : worseAction a ActionAllow = a.
Proof. by destruct a. Qed.

Lemma release_action_block req insp view r :
  release_action req insp view r = ActionBlock ↔ release_blocks req insp view r.
Proof.
  unfold release_action, release_blocks, canary_selected.
  destruct (release_match r req insp view) as [[[] v]|]; simpl; [|naive_solver..].
  unfold actionForMode. simpl.
  destruct (mr_mode r); simpl; try naive_solver.
  case_bool_decide; simpl; [naive_solver|]. destruct (CanarySelectedUnit _ _ _); naive_solver.
Qed.

Lemma release_match_kind req insp view r mv :
  release_match r req insp view = Some mv → is_Some (mr_policy r) ∨ is_Some (mr_detector r) ∨ is_Some (mr_shape r).
Proof. unfold release_match. repeat case_bool_decide; naive_solver. Qed.

(** The block flags together record exactly whether the combined action is block. *)
Lemma gate_loop_spec cb req insp view releases st :
  let st' := foldl (gate_step cb req insp view) st releases in
  g_combined st' = foldl worseAction (g_combined st) (release_action req insp view <$> releases) ∧
  (g_policyBlock st' || g_ruleBlock st' || g_shapeBlock st' = true ↔
   g_policyBlock st || g_ruleBlock st || g_shapeBlock st = true ∨
   ∃ r, r ∈ releases ∧ release_action req insp view r = ActionBlock).
Proof.
  revert st. induction releases as [|r releases IH]; intros st; simpl; [split; [done|set_solver]|].
  destruct (IH (gate_step cb req insp view st r)) as [-> ->].
  assert (g_combined (gate_step cb req insp view st r) = worseAction (g_combined st) (release_action req insp view r)) as ->.
  { unfold gate_step, release_action. destruct (release_match r req insp view) as [[]|]; [done|]. by rewrite worse_allow_r. }
  split; [done|].
  assert (g_policyBlock (gate_step cb req insp view st r) || g_ruleBlock (gate_step cb req insp view st r)
          || g_shapeBlock (gate_step cb req insp view st r) = true ↔
          g_policyBlock st || g_ruleBlock st || g_shapeBlock st = true ∨ release_action req insp view r = ActionBlock) as ->.
  { unfold gate_step, release_action. destruct (release_match r req insp view) as [[m v]|] eqn:Hm; [|naive_solver].
    apply release_match_kind in Hm. simpl. destruct (actionForMode _ m _); simpl; rewrite ?andb_false_r; [naive_solver..|].
    rewrite !andb_true_r. split; [by right|]. intros _.
    destruct Hm as [?|[?|?]]; [rewrite (bool_decide_eq_true_2 (is_Some (mr_policy r))) by done
      |rewrite (bool_decide_eq_true_2 (is_Some (mr_detector r))) by done
      |rewrite (bool_decide_eq_true_2 (is_Some (mr_shape r))) by done]; by rewrite ?orb_true_r. }
  setoid_rewrite elem_of_cons. naive_solver.
Qed.

Lemma foldl_worse_block a l : foldl worseAction a l = ActionBlock ↔ a = ActionBlock ∨ ActionBlock ∈ l.
Proof.
  revert a. induction l as [|b l IH]; intros a; simpl; [set_solver|].
  rewrite IH, worse_block, elem_of_cons. naive_solver.
Qed.

#[global] Instance foldl_worse_perm a : Proper ((≡ₚ) ==> (=)) (foldl worseAction a).
Proof. intros l1 l2. apply foldl_perm_comm. by intros [] [] []. Qed.

(** The gate's verdict before the posture is applied is the worst action of any release. *)
Lemma gateWith_action releases posture req insp view counters :
  let '(dec, _) := gateWith releases posture req insp view counters in
  let worst := foldl worseAction ActionAllow (release_action req insp view <$> releases) in
  dec_Action dec = (if Observes posture then ActionAllow else worst) ∧
  WouldHaveBlocked dec = bool_decide (worst = ActionBlock).
Proof.
  unfold gateWith, gate_loop.
  destruct (gate_loop_spec (Intercepts posture) req insp view releases
    (mkGateState false false false ActionAllow [] [] counters)) as [Hc Hb].
  set (st := foldl _ _ releases) in *. simpl in *. rewrite Hc.
  set (worst := foldl worseAction ActionAllow _).
  assert ((if bool_decide (GateOrder (g_policyBlock st) (g_ruleBlock st) (g_shapeBlock st) = ActionBlock)
           then ActionBlock else worst) = worst) as ->; [|done].
  case_bool_decide as Hg; [|done]. symmetry. unfold worst. apply foldl_worse_block. right.
  apply list_elem_of_fmap. destruct Hb as [Hb _].
  destruct Hb as [?|(r & Hr & Ha)]; [|done|by exists r].
  unfold GateOrder in Hg. by destruct (g_policyBlock st), (g_ruleBlock st), (g_shapeBlock st).
Qed.

(** *** Counters *)

Definition accounted_action (cb : bool) (a : Action) : Action :=
  if negb cb && bool_decide (a = ActionBlock) then ActionObserve else a.

Lemma gate_step_counters cb req insp view st r id :
  g_counters (gate_step cb req insp view st r) !! id =
  if decide (id = mr_releaseID r ∧ is_Some (release_match r req insp view))
  then account (accounted_action cb (release_action req insp view r)) (canary_selected r req) <$> g_counters st !! id
  else g_counters st !! id.
Proof.
  unfold gate_step, release_action. destruct (release_match r req insp view) as [[m v]|] eqn:Hm; simpl.
  - unfold accountRelease. case_decide as Hd.
    + destruct Hd as [-> _]. by rewrite lookup_alter_eq.
    + rewrite lookup_alter_ne; [done|]. intros E. apply Hd. split; [done|by eexists].
  - case_decide as Hd; [|done]. destruct Hd as [_ [? ?]]. done.
Qed.

Lemma gate_loop_counters cb req insp view releases st id :
  NoDup (mr_releaseID <$> releases) →
  g_counters (foldl (gate_step cb req insp view) st releases) !! id =
  match list_find (λ r, mr_releaseID r = id ∧ is_Some (release_match r req insp view)) releases with
  | Some (_, r) => account (accounted_action cb (release_action req insp view r)) (canary_selected r req) <$> g_counters st !! id
  | None => g_counters st !! id
  end.
Proof.
  revert st. induction releases as [|r releases IH]; intros st Hn; [done|].
  cbn [foldl fmap list_fmap] in *. apply NoDup_cons in Hn as [Hr Hn]. rewrite IH by done. rewrite gate_step_counters.
  simpl. destruct (decide (mr_releaseID r = id ∧ is_Some (release_match r req insp view))) as [[<- Hs]|Hd].
  - rewrite decide_True by done. destruct (list_find _ releases) as [[i x]|] eqn:Hf; [|done]. exfalso.
    apply list_find_Some in Hf as (Hi & [Hx _] & _). apply Hr. rewrite <- Hx. apply list_elem_of_fmap_2.
    by eapply list_elem_of_lookup_2.
  - rewrite decide_False by naive_solver. by destruct (list_find _ releases) as [[i x]|].
Qed.
End facts.

Section more_facts.
Context {U : Unicode} {D : HttpDecoders} {C : Crypto}.

Definition release_observation (req : Request) (insp : Inspection) (view : CanonicalView) (r : managedRelease)
    : option ReleaseObservation :=
  (λ '(matched, _), mkReleaseObservation (mr_releaseID r) (mr_artifactID r) (mr_mode r) (mr_canaryPercent r)
                      (canary_selected r req) matched) <$> release_match r req insp view.

Lemma gate_loop_observations cb req insp view releases st :
  g_observations (foldl (gate_step cb req insp view) st releases) =
  g_observations st ++ omap (release_observation req insp view) releases.
Proof.
  revert st. induction releases as [|r releases IH]; intros st; simpl; [by rewrite app_nil_r|].
  rewrite IH. unfold gate_step, release_observation.
  destruct (release_match r req insp view) as [[]|]; simpl; [|done]. by rewrite <- app_assoc.
Qed.
End more_facts.

(** C6: the gate blocks a request exactly when the posture is not an observing
    one and some release matches it in ENFORCE mode, or in CANARY mode with the unit in its
    bucket; an observing posture always allows and only flags what would have been
    blocked. *)
Theorem gate_blocks_iff {U : Unicode} {D : HttpDecoders} {C : Crypto} releases posture req insp view counters :
  let dec := (gateWith releases posture req insp view counters).1 in
  (dec_Action dec = ActionBlock ↔
   Observes posture = false ∧ ∃ r, r ∈ releases ∧ release_blocks req insp view r) ∧
  (WouldHaveBlocked dec = true ↔ ∃ r, r ∈ releases ∧ release_blocks req insp view r) ∧
  (Observes posture = true → dec_Action dec = ActionAllow).
Proof.
  pose proof (gateWith_action releases posture req insp view counters) as H.
  destruct (gateWith releases posture req insp view counters) as [dec cs]. simpl in *. destruct H as [-> ->].
  set (worst := foldl worseAction ActionAllow _).
  assert (worst = ActionBlock ↔ ∃ r, r ∈ releases ∧ release_blocks req insp view r) as Hw.
  { unfold worst. rewrite foldl_worse_block, list_elem_of_fmap. setoid_rewrite <- release_action_block. naive_solver. }
  rewrite bool_decide_eq_true, Hw. destruct (Observes posture); naive_solver.
Qed.

(** The decision does not depend on the order in which Go iterates the
    release map: action, would-have-blocked flag and counters are equal, and the
    observations are a permutation. *)
Theorem gate_order_independent {U : Unicode} {D : HttpDecoders} {C : Crypto} rs1 rs2 posture req insp view counters :
  rs1 ≡ₚ rs2 → NoDup (mr_releaseID <$> rs1) →
  let '(d1, c1) := gateWith rs1 posture req insp view counters in
  let '(d2, c2) := gateWith rs2 posture req insp view counters in
  dec_Action d1 = dec_Action d2 ∧ WouldHaveBlocked d1 = WouldHaveBlocked d2 ∧ c1 = c2 ∧
  Observations d1 ≡ₚ Observations d2.
Proof.
  intros Hp Hn. pose proof (gateWith_action rs1 posture req insp view counters) as H1.
  pose proof (gateWith_action rs2 posture req insp view counters) as H2.
  unfold gateWith, gate_loop in *. simpl in *. destruct H1 as [-> ->], H2 as [-> ->].
  assert (foldl worseAction ActionAllow (release_action req insp view <$> rs1) =
          foldl worseAction ActionAllow (release_action req insp view <$> rs2)) as -> by (by rewrite Hp).
  rewrite !gate_loop_observations. simpl. split_and!; [done|done| |by rewrite Hp].
  apply map_eq. intros id. rewrite !gate_loop_counters by (by rewrite <- ?Hp).
  pose proof (list_find_perm (λ r, mr_releaseID r = id ∧ is_Some (release_match r req insp view)) rs1 rs2) as Hf.
  assert (snd <$> list_find (λ r, mr_releaseID r = id ∧ is_Some (release_match r req insp view)) rs1 =
          snd <$> list_find (λ r, mr_releaseID r = id ∧ is_Some (release_match r req insp view)) rs2) as E.
  { apply Hf; [|done]. intros x y Hx Hy [? _] [? _]. apply (NoDup_fmap_inj mr_releaseID rs1); [done..|congruence]. }
  by destruct (list_find _ rs1) as [[i x]|], (list_find _ rs2) as [[j y]|]; simplify_eq/=.
Qed.

(** Per request, the counter of each evaluated release is advanced once,
    as a block only in an intercepting posture; every other counter is untouched. *)
Theorem gate_counters_exact {U : Unicode} {D : HttpDecoders} {C : Crypto} releases posture req insp view counters :
  NoDup (mr_releaseID <$> releases) →
  let counters' := (gateWith releases posture req insp view counters).2 in
  (∀ r, r ∈ releases → is_Some (release_match r req insp view) →
     counters' !! mr_releaseID r =
     account (accounted_action (Intercepts posture) (release_action req insp view r)) (canary_selected r req)
       <$> counters !! mr_releaseID r) ∧
  (∀ id, (∀ r, r ∈ releases → mr_releaseID r = id → release_match r req insp view = None) →
     counters' !! id = counters !! id).
Proof.
  intros Hn. unfold gateWith, gate_loop. simpl. split.
  - intros r Hr Hs. rewrite gate_loop_counters by done.
    destruct (list_find _ releases) as [[i x]|] eqn:Hf.
    + apply list_find_Some in Hf as (Hi & [Hx _] & _). by rewrite
        (NoDup_fmap_inj mr_releaseID releases x r Hn (list_elem_of_lookup_2 _ _ _ Hi) Hr Hx).
    + apply list_find_None in Hf. rewrite Forall_forall in Hf. exfalso. by apply (Hf r Hr).
  - intros id Hid. rewrite gate_loop_counters by done.
    destruct (list_find _ releases) as [[i x]|] eqn:Hf; [|done].
    apply list_find_Some in Hf as (Hi & [Hx [mv Hs]] & _).
    rewrite (Hid x (list_elem_of_lookup_2 _ _ _ Hi) Hx) in Hs. done.
Qed.

(** Raising a canary percentage never takes a unit out of the canary, 0 selects
    none, and 100 selects every unit. *)
Theorem canary_monotone {C : Crypto} unit_ release p p' :
  in_s 32 p → in_s 32 p' → p ≤ p' →
  (CanarySelectedUnit unit_ release p = true → CanarySelectedUnit unit_ release p' = true) ∧
  CanarySelectedUnit unit_ release 0 = false ∧ CanarySelectedUnit unit_ release 100 = true.
Proof.
  intros Hp Hp' Hle. split_and!; [|done|done]. unfold CanarySelectedUnit, canaryBucket, in_s in *.
  destruct (Z.leb_spec p 0); [done|]. destruct (Z.leb_spec p' 0); [lia|].
  destruct (Z.leb_spec 100 p), (Z.leb_spec 100 p'); try done; [lia|].
  rewrite !wrap_u_id by (unfold in_u; lia). rewrite !Z.ltb_lt. lia.
Qed.

(** The status code is fail-closed behind a reverse proxy and never
    intercepts in an observing posture: an observer always answers 200; a reverse proxy
    answers 200 only to a request that was fully checked (no overload, crash, missing id,
    oversize body, malformed view or coverage error) and not blocked; and
    would-have-blocked is reported only for a gate block. *)
Theorem http_status_safe i :
  let '(code, would) := HTTPStatus i in
  let posture := ResolvePosture (si_Posture i) in
  (Observes posture = true → code = 200) ∧
  (posture = INGRESS_POSTURE_REVERSE_PROXY → code = 200 →
     InFlightExceeded i = false ∧ MissingRequestID i = false ∧ EngineCrash i = false ∧ Oversize i = false ∧
     v_Rejected (si_View i) = false ∧ coverageHasError (v_Coverage (si_View i)) = false ∧
     GateAction i ≠ ActionBlock) ∧
  (would = true → GateAction i = ActionBlock ∧ (code = 403 ∨ Observes posture = true)).
Proof.
  destruct i as [p a v ov bp ec mr inf et]. unfold HTTPStatus. simpl.
  destruct (ResolvePosture p); simpl;
    repeat (case_match; simplify_eq/=; try done); unfold gate_status in *;
    repeat case_bool_decide; simplify_eq/=; breflect; naive_solver.
Qed.

Module Demo.
#[local] Existing Instance ascii_only_unicode.
#[local] Existing Instance Canonical.Demo.decoders.
#[local] Existing Instance toy_crypto.
Definition rel (id : string) (mode : ReleaseMode) : managedRelease :=
  mkManagedRelease id "art" (Some Rules.Demo.det) "/api/" None None mode 5 100.
Definition rels : list managedRelease := [rel "a" RELEASE_MODE_ENFORCE; rel "b" RELEASE_MODE_SHADOW].
Definition counters : gmap string counter := <["a" := new_counter]> (<["b" := new_counter]> ∅).
Definition insp : Inspection := mkInspection [] [] false.
Definition view : CanonicalView := mkCanonicalView "GET" "/api/x" (Some ∅) ∅ "" "" false [] "".
Example gate_example :
  let '(dec, cs) := gateWith rels INGRESS_POSTURE_REVERSE_PROXY Rules.Demo.req insp view counters in
  dec_Action dec = ActionBlock ∧ cs !! "a" = Some (mkCounter 1 1 0 0 []) ∧ cs !! "b" = Some (mkCounter 1 0 1 0 []).
Proof. vm_compute. split_and!; reflexivity. Qed.
End Demo.

Lemma gate_order_independent_witness :
  dec_Action (gateWith (U := ascii_only_unicode) (D := Canonical.Demo.decoders) (C := toy_crypto)
    (reverse Demo.rels) INGRESS_POSTURE_TAP_ALERT Rules.Demo.req Demo.insp Demo.view Demo.counters).1 =
  dec_Action (gateWith (U := ascii_only_unicode) (D := Canonical.Demo.decoders) (C := toy_crypto)
    Demo.rels INGRESS_POSTURE_TAP_ALERT Rules.Demo.req Demo.insp Demo.view Demo.counters).1.
Proof.
  apply (@gate_order_independent ascii_only_unicode Canonical.Demo.decoders toy_crypto (reverse Demo.rels) Demo.rels
    INGRESS_POSTURE_TAP_ALERT Rules.Demo.req Demo.insp Demo.view Demo.counters).
  - apply reverse_Permutation.
  - apply (bool_decide_unpack _). vm_compute. exact I.
Defined.

Lemma gate_counters_exact_witness :
  (gateWith (U := ascii_only_unicode) (D := Canonical.Demo.decoders) (C := toy_crypto)
    Demo.rels INGRESS_POSTURE_REVERSE_PROXY Rules.Demo.req Demo.insp Demo.view Demo.counters).2 !! "zzz" = None.
Proof.
  rewrite (proj2 (@gate_counters_exact ascii_only_unicode Canonical.Demo.decoders toy_crypto Demo.rels
    INGRESS_POSTURE_REVERSE_PROXY Rules.Demo.req Demo.insp Demo.view Demo.counters
    ltac:(apply (bool_decide_unpack _); vm_compute; exact I)) "zzz").
  - vm_compute. reflexivity.
  - intros r Hr E. exfalso. revert E. apply elem_of_cons in Hr as [->|Hr]; [discriminate|].
    apply list_elem_of_singleton in Hr as ->. discriminate.
Defined.

Lemma canary_monotone_witness :
  CanarySelectedUnit (C := toy_crypto) "u" "r" 100 = true.
Proof. apply (@canary_monotone toy_crypto "u" "r" 5 25); [split; vm_compute; congruence..|lia]. Defined.
