(* ===== verification/ModelContracts.v ===== *)
(** * Signed model contracts (lib/kernel/model_profile.go, model_ingress_window.go)

    The edge takes thresholds, windows, limits and field lists of the model path only
    from signed documents; these functions validate and normalise them. *)

From stdpp Require Import sorting.
From S2P Require Import Prelude GoStrings Contracts Canonical.

Definition ModelIngressDefaultItems : Z := 4096.
Definition ModelIngressDefaultBytes : Z := 128 * 2 ^ 20.
Definition ModelIngressDefaultAge : duration := 2 * Second.
Definition ModelIngressLocalMaxItems : Z := 16384.
Definition ModelIngressLocalMaxBytes : Z := 256 * 2 ^ 20.
Definition ModelIngressLocalMaxAge : duration := 5 * Minute.
Definition ModelIngressAbsoluteMaxItems : Z := 65536.
Definition ModelIngressAbsoluteMinBytes : Z := 2 ^ 20.
Definition ModelIngressAbsoluteMaxBytes : Z := 256 * 2 ^ 20.
Definition ModelIngressAbsoluteMinAge : duration := 10 * Millisecond.
Definition ModelIngressAbsoluteMaxAge : duration := 5 * Minute.

(** ** Ingress windows *)

Definition DefaultModelIngressWindow : ModelIngressWindow :=
  mkModelIngressWindow ModelIngressDefaultItems ModelIngressDefaultBytes (Some (NewDuration ModelIngressDefaultAge)).

Definition DefaultModelIngressHardLimit : ModelIngressWindow :=
  mkModelIngressWindow ModelIngressLocalMaxItems ModelIngressLocalMaxBytes (Some (NewDuration ModelIngressLocalMaxAge)).

Definition NormalizeModelIngressWindow (w : option ModelIngressWindow) : result ModelIngressWindow :=
  match w with
  | None => Err "model ingress window is required"
  | Some w =>
      if (MaxItems w =? 0) || (ModelIngressAbsoluteMaxItems <? MaxItems w)
      then Err "model ingress max_items is outside allowed range"
      else if (MaxRetainedBytes w <? ModelIngressAbsoluteMinBytes) || (ModelIngressAbsoluteMaxBytes <? MaxRetainedBytes w)
      then Err "model ingress max_retained_bytes is outside allowed range"
      else match MaxQueueAge w with
      | None => Err "model ingress max_queue_age is invalid"
      | Some age =>
          if negb (CheckValid age) then Err "model ingress max_queue_age is invalid"
          else
            let d := AsDuration age in
            if (d <? ModelIngressAbsoluteMinAge) || (ModelIngressAbsoluteMaxAge <? d)
            then Err "model ingress max_queue_age is outside allowed range"
            else Ok (mkModelIngressWindow (MaxItems w) (MaxRetainedBytes w) (Some (NewDuration d)))
      end
  end.

Definition ModelIngressWindowOrDefault (w : option ModelIngressWindow) : result ModelIngressWindow :=
  NormalizeModelIngressWindow (Some (default DefaultModelIngressWindow w)).

Definition EqualModelIngressWindow (a b : option ModelIngressWindow) : bool := bool_decide (a = b).

(** ** Model profiles *)

(** [0 <= x && x <= 1] is false for NaN and the infinities. *)
Definition f64_one : f64 := f64_of_Z 1.
Definition f64_is_finite (x : f64) : bool :=
  match x with SpecFloat.S754_zero _ | SpecFloat.S754_finite _ _ _ => true | _ => false end.
Definition finiteUnitInterval (x : f64) : bool := f64_is_finite x && f64_leb f64_zero x && f64_leb x f64_one.

Definition token_byte (c : ascii) : bool :=
  ((48 <=? byte c) && (byte c <=? 57)) || ((65 <=? byte c) && (byte c <=? 90)) || ((97 <=? byte c) && (byte c <=? 122))
  || str_mem c "!#$%&'*+-.^_`|~".

Definition validHeaderName (name : string) : bool := negb (bool_decide (name = "")) && str_forallb token_byte name.

Definition sensitiveModelHeader (name : string) : bool :=
  existsb (λ h, bool_decide (name = h))
    ["authorization"; "cookie"; "proxy-authorization"; "proxy-authenticate"; "set-cookie"; "x-api-key"].

Section profile.
Context {U : Unicode}.

Fixpoint collect_headers (raws : list string) (acc : gset string) : result (gset string) :=
  match raws with
  | [] => Ok acc
  | raw :: raws' =>
      let name := to_lower (trim_space raw) in
      if negb (validHeaderName name) || sensitiveModelHeader name then Err "model profile allowed header is invalid"
      else collect_headers raws' ({[name]} ∪ acc)
  end.

Definition NormalizeModelProfile (p : option ModelProfile) : result ModelProfile :=
  match p with
  | None => Err "model profile is required"
  | Some p =>
      let id := trim_space (ProfileId p) in
      let group := trim_space (ModelGroup p) in
      let typ := trim_space (ModelType p) in
      let version := trim_space (ModelVersion p) in
      if bool_decide (id = "") || bool_decide (group = "") || bool_decide (typ = "") || bool_decide (version = "")
      then Err "model profile coordinates are required"
      else if negb (finiteUnitInterval (AlertThreshold p)) || negb (finiteUnitInterval (ReviewFloor p))
              || f64_leb (AlertThreshold p) (ReviewFloor p)
      then Err "model profile thresholds are invalid"
      else if (ReviewWindowSeconds p <=? 0) || (MaxReviewPerUnit p <=? 0) || (MaxReviewPerRoute p <=? 0)
      then Err "model profile sampling limits must be positive"
      else if MaxReviewPerUnit p <? MaxReviewPerRoute p then Err "model route review limit exceeds unit limit"
      else if negb (DedupeRule p =? MODEL_DEDUPE_RULE_METHOD_ROUTE_HIGHEST_SCORE)
      then Err "model profile dedupe rule is unsupported"
      else if negb (MaxReviewPerRoute p =? 1)
      then Err "highest-score dedupe requires one review representative per route"
      else if (MaxBodyBytes p <=? 0) || (EngineBodyLimitBytes <? MaxBodyBytes p)
      then Err "model profile body limit is invalid"
      else
        let! headers := collect_headers (AllowedHeaders p) ∅ in
        Ok (mkModelProfile id group typ version (AlertThreshold p) (ReviewFloor p) (ReviewWindowSeconds p)
              (MaxReviewPerUnit p) (MaxReviewPerRoute p) (DedupeRule p) (sort_strings (elements headers))
              (MaxBodyBytes p) (ReviewNewRoutes p) (ReviewInsufficientCoverage p))
  end.
End profile.

(** The baseline profile; 0.9 and 0.5 are the nearest [float64]s. *)
Definition ModelAlertThresholdDefault : f64 := f64_div (f64_of_Z 9) (f64_of_Z 10).
Definition ModelReviewFloorDefault : f64 := f64_div (f64_of_Z 1) (f64_of_Z 2).
Definition DefaultModelProfile : ModelProfile :=
  mkModelProfile "http-threat-model/default" "http-threat" "PVM" "v1" ModelAlertThresholdDefault
    ModelReviewFloorDefault 300 4 1 MODEL_DEDUPE_RULE_METHOD_ROUTE_HIGHEST_SCORE
    ["accept"; "content-type"; "user-agent"] EngineBodyLimitBytes true true.

(** ** Properties *)

Lemma AsDuration_New d : 0 ≤ d ≤ ModelIngressAbsoluteMaxAge → AsDuration (NewDuration d) = d ∧ CheckValid (NewDuration d) = true.
Proof.
  unfold ModelIngressAbsoluteMaxAge, Minute, Second. intros Hd.
  pose proof (Z.quot_rem' d Second) as Hqr. pose proof (Z.rem_bound_pos d Second ltac:(lia) ltac:(unfold Second; lia)) as Hr.
  unfold AsDuration, NewDuration, CheckValid, duration_abs_secs, Second in *. simpl Seconds in *. simpl Nanos in *.
  set (q := Z.quot d 1000000000) in *. set (r := Z.rem d 1000000000) in *.
  assert (0 ≤ q ≤ 300) by lia.
  rewrite !(wrap_s_id 64) by (unfold in_s; change (2 ^ (64 - 1)) with 9223372036854775808; rewrite ?wrap_s_id;
    unfold in_s; change (2 ^ (64 - 1)) with 9223372036854775808; lia).
  rewrite Z.quot_mul by lia. rewrite Z.eqb_refl.
  split; [|breflect; lia].
  destruct (Z.ltb_spec q 0); [lia|]. destruct (Z.ltb_spec (q * 1000000000 + r) 0); [lia|].
  rewrite !andb_false_r. simpl. lia.
Qed.

Definition window_bounded (w : ModelIngressWindow) : Prop :=
  0 < MaxItems w ≤ ModelIngressAbsoluteMaxItems ∧
  ModelIngressAbsoluteMinBytes ≤ MaxRetainedBytes w ≤ ModelIngressAbsoluteMaxBytes ∧
  ∃ d, MaxQueueAge w = Some (NewDuration d) ∧ ModelIngressAbsoluteMinAge ≤ d ≤ ModelIngressAbsoluteMaxAge.

Lemma normalized_bounded w w' :
  NormalizeModelIngressWindow w = Ok w' → (∀ x, w = Some x → in_u 32 (MaxItems x)) → window_bounded w'.
Proof.
  intros H Hu. unfold NormalizeModelIngressWindow in H. destruct w as [w|]; [|done].
  specialize (Hu w eq_refl). destruct ((MaxItems w =? 0) || _) eqn:E1; [done|].
  destruct ((MaxRetainedBytes w <? _) || _) eqn:E2; [done|].
  destruct (MaxQueueAge w) as [age|]; [|done]. destruct (CheckValid age); [|done]. cbn [negb] in H.
  destruct ((AsDuration age <? _) || _) eqn:E3; [done|]. injection H as <-.
  breflect. unfold in_u in Hu. split_and!; simpl; try lia. eexists; split; [done|lia].
Qed.

(** A normalised ingress window lies within the platform bounds, and
    normalising it again gives the same window (stable signed bytes). *)
Theorem ingress_window_normal w w' :
  NormalizeModelIngressWindow w = Ok w' → (∀ x, w = Some x → in_u 32 (MaxItems x)) →
  NormalizeModelIngressWindow (Some w') = Ok w' ∧
  0 < MaxItems w' ≤ ModelIngressAbsoluteMaxItems ∧
  ModelIngressAbsoluteMinBytes ≤ MaxRetainedBytes w' ≤ ModelIngressAbsoluteMaxBytes ∧
  ∃ d, MaxQueueAge w' = Some (NewDuration d) ∧ ModelIngressAbsoluteMinAge ≤ d ≤ ModelIngressAbsoluteMaxAge.
Proof.
  intros H Hu. pose proof (normalized_bounded w w' H Hu) as (Hi & Hb & d & Ha & Hd).
  split_and!; try lia; [|by exists d].
  assert (0 ≤ d ≤ ModelIngressAbsoluteMaxAge) as Hd' by (unfold ModelIngressAbsoluteMinAge, Millisecond in *; lia).
  destruct (AsDuration_New _ Hd') as [E Hc]. unfold NormalizeModelIngressWindow. rewrite Ha.
  replace ((MaxItems w' =? 0) || (ModelIngressAbsoluteMaxItems <? MaxItems w')) with false by (symmetry; breflect; lia).
  replace ((MaxRetainedBytes w' <? ModelIngressAbsoluteMinBytes) || (ModelIngressAbsoluteMaxBytes <? MaxRetainedBytes w'))
    with false by (symmetry; breflect; lia).
  rewrite Hc, E. cbn [negb].
  replace ((d <? ModelIngressAbsoluteMinAge) || (ModelIngressAbsoluteMaxAge <? d)) with false by (symmetry; breflect; lia).
  rewrite <-Ha. by destruct w'.
Qed.

Lemma ingress_window_normal_witness :
  NormalizeModelIngressWindow (Some DefaultModelIngressWindow) = Ok DefaultModelIngressWindow.
Proof.
  refine (proj1 (ingress_window_normal (Some DefaultModelIngressWindow) DefaultModelIngressWindow _ _)).
  - vm_compute. reflexivity.
  - intros x [= <-]. split; vm_compute; congruence.
Defined.

Lemma collect_headers_Ok {U : Unicode} raws acc hs :
  collect_headers raws acc = Ok hs →
  (∀ h, h ∈ hs ↔ h ∈ acc ∨ ∃ raw, raw ∈ raws ∧ h = to_lower (trim_space raw)) ∧
  ∀ raw, raw ∈ raws → validHeaderName (to_lower (trim_space raw)) = true ∧
    sensitiveModelHeader (to_lower (trim_space raw)) = false.
Proof.
  revert acc. induction raws as [|raw raws IH]; intros acc; simpl.
  { intros [= <-]. split; [set_solver|]. set_solver. }
  destruct (negb _ || _) eqn:E; [done|]. intros [H1 H2]%IH. breflect. split; [|set_solver].
  intros h. rewrite H1. set_solver.
Qed.

(** An accepted model profile is safe to run with: thresholds in [0,1]
    with the alert threshold above the review floor, one representative per route, a
    bounded body, and a sorted header list that holds the lower-cased requested names,
    each a valid token and none of them a credential header. *)
Theorem model_profile_bounded {U : Unicode} p q :
  NormalizeModelProfile (Some p) = Ok q →
  finiteUnitInterval (AlertThreshold q) = true ∧ finiteUnitInterval (ReviewFloor q) = true ∧
  f64_leb (AlertThreshold q) (ReviewFloor q) = false ∧
  0 < ReviewWindowSeconds q ∧ 0 < MaxReviewPerUnit q ∧ MaxReviewPerRoute q = 1 ∧
  0 < MaxBodyBytes q ≤ EngineBodyLimitBytes ∧
  Sorted str_le (AllowedHeaders q) ∧
  (∀ h, h ∈ AllowedHeaders q ↔ ∃ raw, raw ∈ AllowedHeaders p ∧ h = to_lower (trim_space raw)) ∧
  (∀ h, h ∈ AllowedHeaders q → validHeaderName h = true ∧ sensitiveModelHeader h = false).
Proof.
  intros H. unfold NormalizeModelProfile in H.
  destruct (bool_decide _ || _ || _ || _); [done|].
  destruct (negb (finiteUnitInterval (AlertThreshold p)) || _ || _) eqn:E1; [done|].
  destruct ((ReviewWindowSeconds p <=? 0) || _ || _) eqn:E2; [done|].
  destruct (MaxReviewPerUnit p <? _); [done|]. destruct (negb (DedupeRule p =? _)); [done|].
  destruct (MaxReviewPerRoute p =? 1) eqn:E3; [|done]. cbn [negb] in H.
  destruct ((MaxBodyBytes p <=? 0) || _) eqn:E4; [done|].
  apply result_bind_Ok in H as (hs & Hh & [= <-]). apply collect_headers_Ok in Hh as [Hh1 Hh2].
  simpl. breflect.
  assert (∀ h, h ∈ sort_strings (elements hs) ↔ ∃ raw, raw ∈ AllowedHeaders p ∧ h = to_lower (trim_space raw)) as Hel.
  { intros h. rewrite sort_strings_elem, elem_of_elements, Hh1. set_solver. }
  split_and!; try (tauto || lia); [apply sort_strings_sorted|].
  intros h (raw & Hr & ->)%Hel. by apply Hh2.
Qed.

Lemma model_profile_bounded_witness :
  ∃ q, NormalizeModelProfile (U := ascii_only_unicode) (Some DefaultModelProfile) = Ok q ∧ MaxReviewPerRoute q = 1.
Proof.
  exists DefaultModelProfile. assert (NormalizeModelProfile (U := ascii_only_unicode) (Some DefaultModelProfile) = Ok DefaultModelProfile) as H
    by (vm_compute; reflexivity).
  split; [exact H|]. apply (@model_profile_bounded ascii_only_unicode DefaultModelProfile DefaultModelProfile H).
Defined.
