(* ===== verification/ListenPlan.v ===== *)
(** * Unit listen plans and the data-plane contract (lib/edgecore/listen.go,
    lib/kernel/dataplane_contract.go)

    One unit has one posture, and a traffic key at most one intercepting unit.  Address,
    URL and prefix parsing of package net are the parameter class [NetParse]. *)

From stdpp Require Import sorting.
From S2P Require Import Prelude GoStrings Contracts Signing Canonical Gate ModelContracts.

Record parsed_url := mkParsedUrl {
  u_IsAbs : bool; u_Hostname : string; u_Scheme : string; u_HasUser : bool; u_Fragment : string;
}.

Class NetParse := {
  split_host_port : string → option (string * string);
  parse_ip : string → bool;
  url_parse : string → option parsed_url;
  parse_prefix : string → option (string * string);  (* the zone and the masked prefix, printed *)
}.

(** A printed prefix parses to itself: it is masked, has no zone and no surrounding space. *)
Class NetParseLaws (N : NetParse) : Prop := {
  prefix_printed raw zone m : parse_prefix raw = Some (zone, m) →
    parse_prefix m = Some ("", m) ∧ trim_space m = m ∧ m ≠ "";
}.

Definition TrustedProxyCIDRLimit : Z := 64.

Section contract.
Context {N : NetParse}.

(** ** Trusted proxy prefixes *)

Definition cleanTrustedProxyCIDRs (vs : list string) : list string :=
  sort_strings (elements (list_to_set (filter (λ v, v ≠ "") (trim_space <$> vs)) : gset string)).

Fixpoint mask_prefixes (vs : list string) (acc : gset string) : result (gset string) :=
  match vs with
  | [] => Ok acc
  | raw :: vs' =>
      match parse_prefix raw with
      | Some (zone, masked) =>
          if bool_decide (zone = "") then mask_prefixes vs' ({[masked]} ∪ acc)
          else Err "trusted_proxy_cidrs contains invalid cidr"
      | None => Err "trusted_proxy_cidrs contains invalid cidr"
      end
  end.

Definition NormalizeTrustedProxyCIDRs (vs : list string) : result (list string) :=
  let cleaned := cleanTrustedProxyCIDRs vs in
  if TrustedProxyCIDRLimit <? Z.of_nat (length cleaned) then Err "trusted_proxy_cidrs exceed limit"
  else let! set := mask_prefixes cleaned ∅ in Ok (sort_strings (elements set)).

(** ** Addresses *)

Definition validate_port (port : string) : bool :=
  match Atoi port with Some n => (1 <=? n) && (n <=? 65535) | None => false end.

Definition validateListenAddress (raw : string) : result unit :=
  match split_host_port (trim_space raw) with
  | None => Err "listen plan listen_address is invalid"
  | Some (host, port) =>
      if negb (validate_port port) then Err "listen plan port is invalid"
      else if negb (bool_decide (host = "")) && negb (parse_ip host)
      then Err "listen plan host must be an ip address"
      else Ok tt
  end.

Definition validateUpstreamURL (raw : string) : result unit :=
  if bool_decide (raw = "") || bool_decide (raw = "builtin") then Err "listen plan upstream_url is required"
  else match url_parse raw with
  | None => Err "listen plan upstream_url must be absolute"
  | Some u =>
      if negb (u_IsAbs u) || bool_decide (u_Hostname u = "") then Err "listen plan upstream_url must be absolute"
      else if negb (bool_decide (u_Scheme u = "http")) && negb (bool_decide (u_Scheme u = "https"))
      then Err "listen plan upstream_url scheme must be http or https"
      else if u_HasUser u || negb (bool_decide (u_Fragment u = ""))
      then Err "listen plan upstream_url must not contain user info or fragment"
      else Ok tt
  end.

(** ** Listen plans *)

(** [posture < REVERSE_PROXY || posture > MIRROR_OBSERVE] is false. *)
Definition posture_in_range (p : IngressPosture) : bool :=
  match p with
  | INGRESS_POSTURE_REVERSE_PROXY | INGRESS_POSTURE_EXT_AUTHZ | INGRESS_POSTURE_TAP_ALERT
  | INGRESS_POSTURE_MIRROR_OBSERVE => true
  | _ => false
  end.

Definition ValidateUnitListenPlan (plan : option UnitListenPlan) : result unit :=
  match plan with
  | None => Err "listen plan is incomplete"
  | Some p =>
      if bool_decide (trim_space (lp_UnitId p) = "") then Err "listen plan is incomplete"
      else if lp_Version p =? 0 then Err "listen plan version is required"
      else if bool_decide (trim_space (lp_TrafficKey p) = "") then Err "listen plan traffic_key is required"
      else if negb (posture_in_range (lp_Posture p)) then Err "listen plan posture is invalid"
      else
        let! _ := validateListenAddress (lp_ListenAddress p) in
        let upstream := trim_space (lp_UpstreamUrl p) in
        let! _ := if bool_decide (lp_Posture p = INGRESS_POSTURE_REVERSE_PROXY) then validateUpstreamURL upstream
                  else if negb (bool_decide (upstream = "")) then Err "listen plan upstream_url is only valid for reverse proxy"
                  else Ok tt in
        if Intercepts (lp_Posture p) && negb (bool_decide (trim_space (lp_FollowUnitId p) = ""))
        then Err "intercept listen plan must not follow another unit"
        else
          let! normalized := NormalizeTrustedProxyCIDRs (lp_TrustedProxyCidrs p) in
          if negb (bool_decide (lp_TrustedProxyCidrs p = normalized)) then Err "listen plan client_source must be normalized"
          else let! _ := NormalizeModelIngressWindow (lp_ModelIngressWindow p) in Ok tt
  end.

(** The loop of [ValidateListenPlans] over its two maps. *)
Fixpoint check_plans (plans : list (option UnitListenPlan)) (units : gmap string IngressPosture)
    (interceptKey : gmap string string) : result unit :=
  match plans with
  | [] => Ok tt
  | None :: _ => Err "listen plan is incomplete"
  | Some p :: plans' =>
      if bool_decide (trim_space (lp_UnitId p) = "") then Err "listen plan is incomplete"
      else
        let posture := ResolvePosture (lp_Posture p) in
        if match units !! lp_UnitId p with Some prev => negb (bool_decide (prev = posture)) | None => false end
        then Err "unit must have exactly one posture"
        else
          let units := <[lp_UnitId p := posture]> units in
          if negb (Intercepts posture) then check_plans plans' units interceptKey
          else if match interceptKey !! lp_TrafficKey p with
                  | Some other => negb (bool_decide (other = lp_UnitId p)) | None => false end
          then Err "traffic key already has intercept unit"
          else check_plans plans' units (<[lp_TrafficKey p := lp_UnitId p]> interceptKey)
  end.

Definition ValidateListenPlans (plans : list (option UnitListenPlan)) : result unit := check_plans plans ∅ ∅.
End contract.

(** ** Tap health *)

Inductive UnitHealth := UNIT_HEALTH_HEALTHY | UNIT_HEALTH_TAP_SILENT | UNIT_HEALTH_TAP_SKEW.
#[global] Instance UnitHealth_eq_dec : EqDecision UnitHealth. Proof. solve_decision. Defined.

Record TapWindow := mkTapWindow {
  tw_UnitID : string; tw_Posture : IngressPosture; tw_TrafficKey : string; tw_FollowUnitID : string;
  tw_WindowReqs : Z; tw_PrevWindowReqs : Z; tw_Routes : list string; tw_TotalRequests : Z;
}.

Definition jaccard_inter (a b : list string) : Z := Z.of_nat (length (filter (λ x, x ∈ a) b)).
Definition jaccard_union (a b : list string) : Z := Z.of_nat (size (list_to_set (a ++ b) : gset string)).

Definition jaccard (a b : list string) : f64 :=
  if bool_decide (a = []) && bool_decide (b = []) then f64_of_Z 1
  else if jaccard_union a b =? 0 then f64_of_Z 1
  else f64_div (f64_of_Z (jaccard_inter a b)) (f64_of_Z (jaccard_union a b)).

Definition f64_half : f64 := f64_div (f64_of_Z 1) (f64_of_Z 2).

Definition window_health (windows : list TapWindow) (byUnit : gmap string TapWindow) (w : TapWindow) : UnitHealth :=
  let alive := existsb (λ v, Intercepts (ResolvePosture (tw_Posture v)) && (0 <? tw_WindowReqs v)
                             && bool_decide (tw_TrafficKey v = tw_TrafficKey w)) windows in
  if Observes (ResolvePosture (tw_Posture w)) && alive && (tw_WindowReqs w =? 0) && (tw_PrevWindowReqs w =? 0)
  then UNIT_HEALTH_TAP_SILENT
  else if bool_decide (tw_FollowUnitID w = "") then UNIT_HEALTH_HEALTHY
  else match byUnit !! tw_FollowUnitID w with
  | None => UNIT_HEALTH_HEALTHY
  | Some peer =>
      if (tw_TotalRequests w <? 100) || (tw_TotalRequests peer <? 100) then UNIT_HEALTH_HEALTHY
      else if f64_ltb (jaccard (tw_Routes w) (tw_Routes peer)) f64_half then UNIT_HEALTH_TAP_SKEW
      else UNIT_HEALTH_HEALTHY
  end.

Definition EvaluateTapHealth (windows : list TapWindow) : gmap string UnitHealth :=
  let byUnit := foldl (λ m w, <[tw_UnitID w := w]> m) ∅ windows in
  foldl (λ out w, <[tw_UnitID w := window_health windows byUnit w]> out) ∅ windows.

(** ** The desired spec of a data-plane unit *)

Record DataplaneDesiredSpec := mkDesiredSpec {
  ds_Posture : string; ds_TrafficKey : string; ds_ListenAddress : string; ds_UpstreamURL : string;
  ds_TrustedProxyCIDRs : list string; ds_Digest : string;
}.
Definition DataplanePostureReverseProxy : string := "INGRESS_POSTURE_REVERSE_PROXY".
Definition DataplanePostureExtAuthz : string := "INGRESS_POSTURE_EXT_AUTHZ".

Definition Normalize (s : DataplaneDesiredSpec) : DataplaneDesiredSpec :=
  mkDesiredSpec (trim_space (ds_Posture s)) (trim_space (ds_TrafficKey s)) (trim_space (ds_ListenAddress s))
    (trim_space (ds_UpstreamURL s)) (cleanTrustedProxyCIDRs (ds_TrustedProxyCIDRs s)) (trim_space (ds_Digest s)).

(** [json.Marshal] of the canonical struct: the unit, posture, key, address, upstream and
    prefixes. *)
Class SpecJSON := { json_spec : string → string → string → string → string → list string → string }.

Section spec.
Context {N : NetParse} {J : SpecJSON} {C : Crypto}.

Definition CalculateDigest (s : DataplaneDesiredSpec) (unitID : string) : result string :=
  let n := Normalize s in
  let! cidrs := NormalizeTrustedProxyCIDRs (ds_TrustedProxyCIDRs n) in
  Ok ("sha256:" +:+ hex_encode (sha256 (json_spec (trim_space unitID) (ds_Posture n) (ds_TrafficKey n)
                                          (ds_ListenAddress n) (ds_UpstreamURL n) cidrs))).

Definition validateDataplaneListenAddress (raw : string) : result unit :=
  match split_host_port raw with
  | None => Err "listen_address is invalid"
  | Some (host, port) =>
      if negb (validate_port port) then Err "listen_address port is invalid"
      else if negb (bool_decide (host = "")) && negb (parse_ip host)
      then Err "listen_address host must be an ip address"
      else Ok tt
  end.

Definition validateDataplaneUpstream (raw : string) : result unit :=
  if bool_decide (raw = "") || bool_decide (raw = "builtin") then Err "upstream_url is required"
  else match url_parse raw with
  | None => Err "upstream_url must be absolute"
  | Some u =>
      if negb (u_IsAbs u) || bool_decide (u_Hostname u = "") then Err "upstream_url must be absolute"
      else if negb (bool_decide (u_Scheme u = "http")) && negb (bool_decide (u_Scheme u = "https"))
      then Err "upstream_url scheme must be http or https"
      else if u_HasUser u || negb (bool_decide (u_Fragment u = ""))
      then Err "upstream_url must not contain user info or fragment"
      else Ok tt
  end.

Definition Validate (s : DataplaneDesiredSpec) (unitID : string) : result unit :=
  let n := Normalize s in
  if bool_decide (trim_space unitID = "") || (64 <? str_len (trim_space unitID)) then Err "unit_id must be 1-64 characters"
  else if bool_decide (ds_TrafficKey n = "") || (256 <? str_len (ds_TrafficKey n))
  then Err "traffic_key must be 1-256 characters"
  else
    let! _ := validateDataplaneListenAddress (ds_ListenAddress n) in
    let! normalized := NormalizeTrustedProxyCIDRs (ds_TrustedProxyCIDRs n) in
    if negb (bool_decide (normalized = ds_TrustedProxyCIDRs n)) then Err "trusted_proxy_cidrs must be normalized"
    else
      let! _ := if bool_decide (ds_Posture n = DataplanePostureReverseProxy) then validateDataplaneUpstream (ds_UpstreamURL n)
                else if bool_decide (ds_Posture n = DataplanePostureExtAuthz) then
                  (if negb (bool_decide (ds_UpstreamURL n = "")) then Err "ext_authz spec must not contain upstream_url"
                   else Ok tt)
                else Err "posture is unsupported" in
      let! want := CalculateDigest n unitID in
      if bool_decide (ds_Digest n = "") || negb (bool_decide (ds_Digest n = want))
      then Err "spec digest does not match desired spec"
      else Ok tt.
End spec.

(** ** Facts *)

Section plan_facts.
Context {N : NetParse}.

Definition plan_posture (p : UnitListenPlan) : IngressPosture := ResolvePosture (lp_Posture p).

(** What the maps built so far, and the plans still to come, must agree on. *)
Definition plans_agree (plans : list (option UnitListenPlan)) (units : gmap string IngressPosture)
    (keys : gmap string string) : Prop :=
  (∀ o, o ∈ plans → ∃ p, o = Some p ∧ trim_space (lp_UnitId p) ≠ "") ∧
  (∀ p prev, Some p ∈ plans → units !! lp_UnitId p = Some prev → prev = plan_posture p) ∧
  (∀ p u, Some p ∈ plans → Intercepts (plan_posture p) = true → keys !! lp_TrafficKey p = Some u → u = lp_UnitId p) ∧
  (∀ p q, Some p ∈ plans → Some q ∈ plans → lp_UnitId p = lp_UnitId q → plan_posture p = plan_posture q) ∧
  (∀ p q, Some p ∈ plans → Some q ∈ plans → Intercepts (plan_posture p) = true → Intercepts (plan_posture q) = true →
     lp_TrafficKey p = lp_TrafficKey q → lp_UnitId p = lp_UnitId q).

Lemma check_plans_cons p plans units keys :
  check_plans (Some p :: plans) units keys = Ok tt ↔
  trim_space (lp_UnitId p) ≠ "" ∧
  (∀ prev, units !! lp_UnitId p = Some prev → prev = plan_posture p) ∧
  (Intercepts (plan_posture p) = true → ∀ u, keys !! lp_TrafficKey p = Some u → u = lp_UnitId p) ∧
  check_plans plans (<[lp_UnitId p := plan_posture p]> units)
    (if Intercepts (plan_posture p) then <[lp_TrafficKey p := lp_UnitId p]> keys else keys) = Ok tt.
Proof.
  cbn [check_plans]. fold (plan_posture p). case_bool_decide as Ht; [naive_solver|].
  destruct (units !! lp_UnitId p) as [prev|] eqn:Hu.
  - case_bool_decide as Hp; simpl; [|naive_solver].
    destruct (Intercepts (plan_posture p)); simpl; [|naive_solver].
    destruct (keys !! lp_TrafficKey p) as [u|]; [|naive_solver]. case_bool_decide; simpl; naive_solver.
  - destruct (Intercepts (plan_posture p)); simpl; [|naive_solver].
    destruct (keys !! lp_TrafficKey p) as [u|]; [|naive_solver]. case_bool_decide; simpl; naive_solver.
Qed.

Lemma check_plans_iff plans units keys : check_plans plans units keys = Ok tt ↔ plans_agree plans units keys.
Proof.
  revert units keys. induction plans as [|[p|] plans IH]; intros units keys.
  - split; [|done]. intros _. unfold plans_agree. set_solver.
  - rewrite check_plans_cons, IH. clear IH. unfold plans_agree. split.
    + intros (H1 & H2 & H3 & H4 & H5 & H6 & H7 & H8).
      assert (∀ q, Some q ∈ plans → lp_UnitId p = lp_UnitId q → plan_posture p = plan_posture q) as Hpq.
      { intros q Hq E. apply H5; [done|]. by rewrite <- E, lookup_insert_eq. }
      assert (∀ q, Some q ∈ plans → Intercepts (plan_posture p) = true → Intercepts (plan_posture q) = true →
        lp_TrafficKey p = lp_TrafficKey q → lp_UnitId p = lp_UnitId q) as Hkq.
      { intros q Hq Hip Hiq E. apply (H6 q); [done..|]. by rewrite Hip, <- E, lookup_insert_eq. }
      split_and!.
      * intros o [->|Ho]%elem_of_cons; [by exists p|by apply H4].
      * intros q prev [[= ->]|Hq]%elem_of_cons Hl; [by apply H2|].
        destruct (decide (lp_UnitId p = lp_UnitId q)) as [E|E].
        -- rewrite <- (Hpq q Hq E). apply H2. by rewrite E.
        -- apply H5; [done|]. by rewrite lookup_insert_ne.
      * intros q u [[= ->]|Hq]%elem_of_cons Hi Hl; [by apply H3|].
        destruct (decide (Intercepts (plan_posture p) = true ∧ lp_TrafficKey p = lp_TrafficKey q)) as [[Hip E]|E].
        -- rewrite <- (Hkq q Hq Hip Hi E). apply H3; [done|]. by rewrite E.
        -- apply (H6 q); [done..|]. destruct (Intercepts (plan_posture p)); [|done]. rewrite lookup_insert_ne; naive_solver.
      * intros q1 q2 [[= ->]|Hq1]%elem_of_cons [[= ->]|Hq2]%elem_of_cons E; [done|by apply Hpq| |by apply H7].
        symmetry. by apply Hpq.
      * intros q1 q2 [[= ->]|Hq1]%elem_of_cons [[= ->]|Hq2]%elem_of_cons Hi1 Hi2 E;
          [done|by apply Hkq|symmetry; by apply Hkq|by apply H8].
    + intros (H1 & H2 & H3 & H4 & H5).
      assert (Some p ∈ Some p :: plans) as Hp by left.
      split_and!.
      * destruct (H1 (Some p) Hp) as (p' & [= <-] & ?). done.
      * intros prev Hl. by apply H2.
      * intros Hi u Hl. by apply H3.
      * intros o Ho. apply H1. by right.
      * intros q prev Hq. rewrite lookup_insert_Some. intros [[E <-]|[_ Hl]].
        -- apply H4; [done|by right|done].
        -- apply H2; [by right|done].
      * intros q u Hq Hi. destruct (Intercepts (plan_posture p)) eqn:Hip.
        -- rewrite lookup_insert_Some. intros [[E <-]|[_ Hl]].
           ++ apply H5; [done|by right|done..].
           ++ apply H3; [by right|done..].
        -- intros Hl. apply H3; [by right|done..].
      * intros q1 q2 Hq1 Hq2. apply H4; by right.
      * intros q1 q2 Hq1 Hq2. apply H5; by right.
  - split; [done|]. intros (H1 & _). destruct (H1 None ltac:(left)) as (? & ? & _). done.
Qed.

(** *** Prefix lists *)

Lemma mask_prefixes_Ok vs acc s :
  mask_prefixes vs acc = Ok s →
  (∀ m, m ∈ s ↔ m ∈ acc ∨ ∃ raw, raw ∈ vs ∧ parse_prefix raw = Some ("", m)) ∧
  (size s ≤ size acc + length vs)%nat.
Proof.
  revert acc. induction vs as [|raw vs IH]; intros acc; simpl.
  { intros [= <-]. split; [set_solver|lia]. }
  destruct (parse_prefix raw) as [[zone m]|] eqn:Hp; [|done]. case_bool_decide; [|done]. subst.
  intros [H1 H2]%IH. split.
  - intros x. rewrite H1. set_solver.
  - pose proof (size_union_alt {[m]} acc). pose proof (subseteq_size (acc ∖ {[m]}) acc ltac:(set_solver)).
    rewrite size_union_alt, size_singleton in H2. pose proof (subseteq_size (acc ∖ {[m]}) acc ltac:(set_solver)). lia.
Qed.

Lemma mask_prefixes_fixed vs acc :
  (∀ v, v ∈ vs → parse_prefix v = Some ("", v)) → mask_prefixes vs acc = Ok (list_to_set vs ∪ acc).
Proof.
  revert acc. induction vs as [|v vs IH]; intros acc Hv; simpl; [f_equal; set_solver|].
  rewrite (Hv v) by left. rewrite bool_decide_eq_true_2 by done. rewrite IH by set_solver. f_equal. set_solver.
Qed.

Lemma clean_fixed (s : gset string) :
  (∀ m, m ∈ s → trim_space m = m ∧ m ≠ "") →
  cleanTrustedProxyCIDRs (sort_strings (elements s)) = sort_strings (elements s).
Proof.
  intros Hs. unfold cleanTrustedProxyCIDRs. f_equal. f_equal. apply set_eq. intros x.
  rewrite elem_of_list_to_set, list_elem_of_filter, list_elem_of_fmap.
  setoid_rewrite sort_strings_elem. setoid_rewrite elem_of_elements. split.
  - intros (Hne & y & -> & Hy). by rewrite (proj1 (Hs y Hy)).
  - intros Hx. destruct (Hs x Hx) as [E ?]. split; [done|]. exists x. by rewrite E.
Qed.
End plan_facts.

(** A set of listen plans is accepted exactly when every plan names a
    unit, each unit has a single posture, and no traffic key has two intercepting units. *)
Theorem listen_plans_accepted_iff plans :
  ValidateListenPlans plans = Ok tt ↔
  (∀ o, o ∈ plans → ∃ p, o = Some p ∧ trim_space (lp_UnitId p) ≠ "") ∧
  (∀ p q, Some p ∈ plans → Some q ∈ plans → lp_UnitId p = lp_UnitId q →
     ResolvePosture (lp_Posture p) = ResolvePosture (lp_Posture q)) ∧
  (∀ p q, Some p ∈ plans → Some q ∈ plans → Intercepts (ResolvePosture (lp_Posture p)) = true →
     Intercepts (ResolvePosture (lp_Posture q)) = true →
     lp_TrafficKey p = lp_TrafficKey q → lp_UnitId p = lp_UnitId q).
Proof.
  unfold ValidateListenPlans. rewrite check_plans_iff. unfold plans_agree, plan_posture. split.
  - intros (H1 & _ & _ & H4 & H5). done.
  - intros (H1 & H4 & H5). split_and!; done.
Qed.

(** Normalised trusted-proxy lists are sorted, free of duplicates and at most 64
    long, and normalising them again changes nothing, which is what lets a listen plan
    demand that its list already be normal. *)
Theorem cidrs_normal {N : NetParse} {L : NetParseLaws N} vs out :
  NormalizeTrustedProxyCIDRs vs = Ok out →
  NormalizeTrustedProxyCIDRs out = Ok out ∧ Sorted str_le out ∧ NoDup out ∧
  Z.of_nat (length out) ≤ TrustedProxyCIDRLimit.
Proof.
  unfold NormalizeTrustedProxyCIDRs at 1. destruct (Z.ltb_spec TrustedProxyCIDRLimit (Z.of_nat (length (cleanTrustedProxyCIDRs vs)))); [done|].
  intros (s & Hs & [= <-])%result_bind_Ok. apply mask_prefixes_Ok in Hs as [Hel Hsize].
  assert (∀ m, m ∈ s → parse_prefix m = Some ("", m) ∧ trim_space m = m ∧ m ≠ "") as Hm.
  { intros m [?|(raw & _ & Hp)]%Hel; [set_solver|]. by apply prefix_printed in Hp. }
  assert (length (sort_strings (elements s)) = size s) as Hlen.
  { unfold sort_strings. by rewrite merge_sort_Permutation. }
  assert (Z.of_nat (length (sort_strings (elements s))) ≤ TrustedProxyCIDRLimit) as Hle.
  { rewrite Hlen. rewrite size_empty in Hsize. lia. }
  split_and!; [|apply sort_strings_sorted| |done].
  - unfold NormalizeTrustedProxyCIDRs. rewrite clean_fixed by (intros m Hi; by apply Hm).
    destruct (Z.ltb_spec TrustedProxyCIDRLimit (Z.of_nat (length (sort_strings (elements s))))); [lia|].
    rewrite mask_prefixes_fixed.
    + simpl. f_equal. f_equal. f_equal. apply set_eq. intros x.
      rewrite elem_of_union, elem_of_list_to_set, sort_strings_elem, elem_of_elements. set_solver.
    + intros v Hv. apply sort_strings_elem, elem_of_elements in Hv. by apply Hm.
  - unfold sort_strings. rewrite merge_sort_Permutation. apply NoDup_elements.
Qed.

Module Demo.
(** Prefixes that are already printed in masked form, plus one that is not. *)
Definition net : NetParse := {|
  split_host_port s := let '(h, p, ok) := cut_byte ":"%char s in if ok then Some (h, p) else None;
  parse_ip _ := true;
  url_parse _ := Some (mkParsedUrl true "up.example" "http" false "");
  parse_prefix s :=
    if bool_decide (s = "10.1.2.3/8") || bool_decide (s = "10.0.0.0/8") then Some ("", "10.0.0.0/8")
    else if bool_decide (s = "192.168.0.0/16") then Some ("", s) else None;
|}.
Lemma net_laws : NetParseLaws net.
Proof.
  split. intros raw zone m H. cbn in H. destruct (_ || _); [injection H as <- <-; by vm_compute|].
  case_bool_decide; [|done]. injection H as <- <-. subst. by vm_compute.
Defined.
Definition w (unit_ key follow : string) (p : IngressPosture) (routes : list string) : TapWindow :=
  mkTapWindow unit_ p key follow 10 10 routes 100.

(** Routes listed twice by the followed unit are counted twice: two units that share one
    route of nine are reported healthy. *)
Example skew_hidden_by_duplicates :
  jaccard_inter ["a"; "b"; "c"; "d"; "e"] ["a"; "a"; "a"; "a"; "a"; "x"; "y"; "z"; "t"] = 5 ∧
  EvaluateTapHealth
    [w "u" "k" "" INGRESS_POSTURE_REVERSE_PROXY ["a"; "a"; "a"; "a"; "a"; "x"; "y"; "z"; "t"];
     w "v" "k" "u" INGRESS_POSTURE_TAP_ALERT ["a"; "b"; "c"; "d"; "e"]] !! "v" = Some UNIT_HEALTH_HEALTHY ∧
  EvaluateTapHealth
    [w "u" "k" "" INGRESS_POSTURE_REVERSE_PROXY ["a"; "x"; "y"; "z"; "t"];
     w "v" "k" "u" INGRESS_POSTURE_TAP_ALERT ["a"; "b"; "c"; "d"; "e"]] !! "v" = Some UNIT_HEALTH_TAP_SKEW.
Proof. vm_compute. split_and!; reflexivity. Qed.
End Demo.

Lemma cidrs_normal_witness :
  NormalizeTrustedProxyCIDRs (N := Demo.net) ["10.0.0.0/8"; "192.168.0.0/16"] = Ok ["10.0.0.0/8"; "192.168.0.0/16"].
Proof.
  apply (@cidrs_normal Demo.net Demo.net_laws [" 192.168.0.0/16"; "10.1.2.3/8"; "10.0.0.0/8"]).
  vm_compute. reflexivity.
Defined.
