(* ===== verification/ReleaseSet.v ===== *)
(** * The release set of an edge (lib/edgecore/release_set.go, registry.go)

    The set holds the releases, the inspectors chosen by signed manifests and the other
    members of the active generation.  Single items, snapshots and generations are applied
    to it; snapshots and generations build a fresh set and swap it in, keeping counters.
    Locks make each call one step.  Payload decoding is the parameter class [Payloads];
    [Inspector]s come from a compiler ([InspectorCompiler]), which registry.go implements. *)

From stdpp Require Import sorting.
From S2P Require Import Prelude GoStrings Contracts Signing GenerationStore Canonical Shape Policy Rules Gate.
From S2P Require Import ModelContracts ListenPlan.

Definition defaultReleaseTTL : duration := 24 * Hour.
Definition MinimumEdgeVersion : string := "dev".
Definition DetectorManifestSchema : string := "detector-manifest/v1".
Definition TaxonomyMapperSchema : string := "taxonomy/v1".
Definition TrafficReviewPolicySchema : string := "traffic-review-policy/v1".
Definition latencySampleCap : nat := 256.

Record InspectionInput := mkInspectionInput { in_View : CanonicalView; in_ClientAddress : string }.
Record Inspector := mkInspector { ins_ID : string; ins_Inspect : InspectionInput → Inspection * option string }.
Record EvidencePolicy := mkEvidencePolicy { evp_Tier : Z }.

Class Payloads := {
  parse_rules : string → option (list Rule);
  parse_policy : string → option PolicyCandidate;
  parse_manifest : string → option DetectorManifest;
  parse_mapper : string → option TaxonomyMapper;
  parse_normalizer : string → option HttpInspectionProfile;
  parse_evidence_policy : string → option EvidencePolicy;
  parse_evidence_digest : string → option EvidenceDigest;
  parse_forward : string → option ForwardPolicy;
  parse_review : string → option TrafficReviewPolicy;
  parse_model : string → option ModelProfile;
}.

Class InspectorCompiler := { compile_inspector : DetectorManifest → result Inspector }.

(** ** Product limits of a traffic-review policy *)

Definition ValidateTrafficReviewPolicy (p : option TrafficReviewPolicy) : result unit :=
  match p with
  | None => Err "policy is required"
  | Some p =>
      if (trp_Mode p <? TRAFFIC_REVIEW_MODE_OFF) || (TRAFFIC_REVIEW_MODE_SHADOW_CANDIDATES <? trp_Mode p)
      then Err "traffic review mode is invalid"
      else if trp_Mode p =? TRAFFIC_REVIEW_MODE_OFF then Ok tt
      else if negb (trp_WindowSeconds p =? 300) then Err "window_seconds must be 300"
      else if (trp_TopRouteCells p <? 1) || (32 <? trp_TopRouteCells p) then Err "top_route_cells is out of range"
      else if (trp_MaxCandidatesPerWindow p <? 1) || (4 <? trp_MaxCandidatesPerWindow p)
      then Err "max_candidates_per_window is out of range"
      else if (trp_MaxEvidenceBytes p <? 1) || (8192 <? trp_MaxEvidenceBytes p)
      then Err "max_evidence_bytes is out of range"
      else if (trp_VaultMaxBytes p <? trp_MaxEvidenceBytes p) || (256 * 2 ^ 20 <? trp_VaultMaxBytes p)
      then Err "vault_max_bytes is out of range"
      else if (trp_EvidenceTtlSeconds p <? 3600) || (86400 <? trp_EvidenceTtlSeconds p)
      then Err "evidence_ttl_seconds is out of range"
      else Ok tt
  end.

(** ** State *)

Record ReleaseSet := mkReleaseSet {
  releases : gmap string managedRelease;
  counters : gmap string counter;
  inspectors : list Inspector;
  inspectorByRel : gmap string string;
  mapper : option TaxonomyMapper;
  profile : option HttpInspectionProfile;
  digest : option EvidenceDigest;
  evidencePol : option EvidencePolicy;
  forward : option ForwardPolicy;
  reviewPolicy : option TrafficReviewPolicy;
  reviewDigest : string;
  modelProfile : option ModelProfile;
  modelDigest : string;
  posture : IngressPosture;
  listen : option UnitListenPlan;
  activeGen : option AssetGeneration;
  edgeVersion : string;
}.

Definition NewReleaseSet (version : string) : ReleaseSet :=
  mkReleaseSet ∅ ∅ [] ∅ None None None None None None "" None "" INGRESS_POSTURE_REVERSE_PROXY None None
    (if bool_decide (trim_space version = "") then MinimumEdgeVersion else trim_space version).

(** The members of a generation other than releases and inspectors. *)
Definition set_releases (s : ReleaseSet) (rs : gmap string managedRelease) (cs : gmap string counter) : ReleaseSet :=
  mkReleaseSet rs cs (inspectors s) (inspectorByRel s) (mapper s) (profile s) (digest s) (evidencePol s) (forward s)
    (reviewPolicy s) (reviewDigest s) (modelProfile s) (modelDigest s) (posture s) (listen s) (activeGen s) (edgeVersion s).
Definition set_inspectors (s : ReleaseSet) (is_ : list Inspector) (by_ : gmap string string) : ReleaseSet :=
  mkReleaseSet (releases s) (counters s) is_ by_ (mapper s) (profile s) (digest s) (evidencePol s) (forward s)
    (reviewPolicy s) (reviewDigest s) (modelProfile s) (modelDigest s) (posture s) (listen s) (activeGen s) (edgeVersion s).
Definition set_mapper (s : ReleaseSet) (m : TaxonomyMapper) : ReleaseSet :=
  mkReleaseSet (releases s) (counters s) (inspectors s) (inspectorByRel s) (Some m) (profile s) (digest s) (evidencePol s)
    (forward s) (reviewPolicy s) (reviewDigest s) (modelProfile s) (modelDigest s) (posture s) (listen s) (activeGen s) (edgeVersion s).
Definition set_profile (s : ReleaseSet) (p : HttpInspectionProfile) : ReleaseSet :=
  mkReleaseSet (releases s) (counters s) (inspectors s) (inspectorByRel s) (mapper s) (Some p) (digest s) (evidencePol s)
    (forward s) (reviewPolicy s) (reviewDigest s) (modelProfile s) (modelDigest s) (posture s) (listen s) (activeGen s) (edgeVersion s).
Definition set_evidence (s : ReleaseSet) (p : EvidencePolicy) : ReleaseSet :=
  mkReleaseSet (releases s) (counters s) (inspectors s) (inspectorByRel s) (mapper s) (profile s) (digest s) (Some p)
    (forward s) (reviewPolicy s) (reviewDigest s) (modelProfile s) (modelDigest s) (posture s) (listen s) (activeGen s) (edgeVersion s).
Definition set_digest (s : ReleaseSet) (d : EvidenceDigest) : ReleaseSet :=
  mkReleaseSet (releases s) (counters s) (inspectors s) (inspectorByRel s) (mapper s) (profile s) (Some d) (evidencePol s)
    (forward s) (reviewPolicy s) (reviewDigest s) (modelProfile s) (modelDigest s) (posture s) (listen s) (activeGen s) (edgeVersion s).
Definition set_forward (s : ReleaseSet) (f : ForwardPolicy) : ReleaseSet :=
  mkReleaseSet (releases s) (counters s) (inspectors s) (inspectorByRel s) (mapper s) (profile s) (digest s) (evidencePol s)
    (Some f) (reviewPolicy s) (reviewDigest s) (modelProfile s) (modelDigest s) (posture s) (listen s) (activeGen s) (edgeVersion s).
Definition set_review (s : ReleaseSet) (p : TrafficReviewPolicy) (d : string) : ReleaseSet :=
  mkReleaseSet (releases s) (counters s) (inspectors s) (inspectorByRel s) (mapper s) (profile s) (digest s) (evidencePol s)
    (forward s) (Some p) d (modelProfile s) (modelDigest s) (posture s) (listen s) (activeGen s) (edgeVersion s).
Definition set_model (s : ReleaseSet) (p : ModelProfile) (d : string) : ReleaseSet :=
  mkReleaseSet (releases s) (counters s) (inspectors s) (inspectorByRel s) (mapper s) (profile s) (digest s) (evidencePol s)
    (forward s) (reviewPolicy s) (reviewDigest s) (Some p) d (posture s) (listen s) (activeGen s) (edgeVersion s).
Definition set_listen (s : ReleaseSet) (p : IngressPosture) (l : option UnitListenPlan) : ReleaseSet :=
  mkReleaseSet (releases s) (counters s) (inspectors s) (inspectorByRel s) (mapper s) (profile s) (digest s) (evidencePol s)
    (forward s) (reviewPolicy s) (reviewDigest s) (modelProfile s) (modelDigest s) p l (activeGen s) (edgeVersion s).

Definition SetPosture (s : ReleaseSet) (p : IngressPosture) : ReleaseSet := set_listen s (ResolvePosture p) (listen s).
Definition Posture (s : ReleaseSet) : IngressPosture := ResolvePosture (posture s).

(** ** Applying one item *)

Fixpoint removeInspector (id : string) (l : list Inspector) : list Inspector :=
  match l with
  | [] => []
  | i :: l' => if bool_decide (ins_ID i = id) then l' else i :: removeInspector id l'
  end.

Section apply.
Context {U : Unicode} {C : Crypto} {R : Regexp} {P : Payloads} {SW : ShapeWire} {IC : InspectorCompiler}.

Definition installManifest (s : ReleaseSet) (releaseID : string) (a : Artifact) : ReleaseSet * result unit :=
  match parse_manifest (Payload a) with
  | None => (s, Err "detector manifest")
  | Some man =>
      match compile_inspector man with
      | Err e => (s, Err e)
      | Ok ins =>
          let kept := match inspectorByRel s !! releaseID with
                      | Some prev => removeInspector prev (inspectors s)
                      | None => inspectors s
                      end in
          (set_inspectors s (kept ++ [ins]) (<[releaseID := ins_ID ins]> (inspectorByRel s)), Ok tt)
      end
  end.

(** What a gate-side artifact compiles to. *)
Inductive gate_part := PartRule (d : RuleDetector) | PartPolicy (c : PolicyCandidate) | PartShape (s : compiledShape).

(** The tail of [applyMember]: canary range, expiry, and the new entry with its counter. *)
Definition install_release (s : ReleaseSet) (item : ReleaseItem) (a : Artifact) (part : gate_part) (now : time)
    : ReleaseSet * result unit :=
  if bool_decide (ri_Mode item = RELEASE_MODE_CANARY)
     && ((ri_CanaryPercent item <? 1) || (25 <? ri_CanaryPercent item))
  then (s, Err "canary percent out of range")
  else
    let expires := match CreatedAt a, Ttl a with
                   | Some created, Some ttl => created + AsDuration ttl
                   | _, _ => now + defaultReleaseTTL
                   end in
    if negb (time_after expires now) then (s, Err "release is expired")
    else
      let id := ri_ReleaseId item in
      let r := mkManagedRelease id (Id a)
                 (match part with PartRule d => Some d | _ => None end) (ScopePrefix (ArtScope a))
                 (match part with PartPolicy c => Some c | _ => None end)
                 (match part with PartShape sh => Some sh | _ => None end)
                 (ri_Mode item) (ri_CanaryPercent item) expires in
      (set_releases s (<[id := r]> (releases s))
         (match counters s !! id with Some _ => counters s | None => <[id := new_counter]> (counters s) end), Ok tt).

(** Store a decoded member, or report the decoding error. *)
Definition store_member {A} (s : ReleaseSet) (decoded : option A) (err : string) (put : A → ReleaseSet * result unit)
    : ReleaseSet * result unit :=
  match decoded with None => (s, Err err) | Some x => put x end.

Definition applyMember (s : ReleaseSet) (item : ReleaseItem) (a : Artifact) (now : time) : ReleaseSet * result unit :=
  let schema x := bool_decide (PayloadSchema a = x) in
  match ArtKind a with
  | KIND_RULE =>
      if negb (schema RulePayloadSchema) then (s, Err "unsupported kind")
      else store_member s (parse_rules (Payload a)) "parse rules" (λ rules,
        match NewRuleDetector (Id a) rules with
        | Err e => (s, Err e)
        | Ok d => install_release s item a (PartRule d) now
        end)
  | KIND_POLICY =>
      if negb (schema PolicyPayloadSchema) then (s, Err "unsupported kind")
      else store_member s (parse_policy (Payload a)) "policy payload" (λ cand,
        if bool_decide (default [] (DetectionKeys <$> pc_Predicate cand) = [])
        then (s, Err "policy predicate detection_keys required")
        else install_release s item a (PartPolicy cand) now)
  | KIND_DETECTOR_MANIFEST =>
      if schema DetectorManifestSchema || schema "" then installManifest s (ri_ReleaseId item) a
      else (s, Err "unsupported kind")
  | KIND_TAXONOMY_MAPPER =>
      if schema TaxonomyMapperSchema || schema "taxonomy/v1"
      then store_member s (parse_mapper (Payload a)) "taxonomy payload" (λ m, (set_mapper s m, Ok tt))
      else (s, Err "unsupported kind")
  | KIND_NORMALIZER_PROFILE =>
      store_member s (parse_normalizer (Payload a)) "normalizer payload" (λ p, (set_profile s p, Ok tt))
  | KIND_EVIDENCE_POLICY =>
      store_member s (parse_evidence_policy (Payload a)) "evidence policy" (λ p, (set_evidence s p, Ok tt))
  | KIND_EVIDENCE_DIGEST =>
      store_member s (parse_evidence_digest (Payload a)) "evidence digest" (λ d, (set_digest s d, Ok tt))
  | KIND_FORWARD_POLICY =>
      store_member s (parse_forward (Payload a)) "forward policy" (λ f, (set_forward s f, Ok tt))
  | KIND_TRAFFIC_REVIEW_POLICY =>
      if negb (schema TrafficReviewPolicySchema) then (s, Err "unsupported kind")
      else store_member s (parse_review (Payload a)) "traffic review policy" (λ p,
        match ValidateTrafficReviewPolicy (Some p) with
        | Err e => (s, Err e)
        | Ok _ => (set_review s p (Id a), Ok tt)
        end)
  | KIND_MODEL_PROFILE =>
      if negb (schema "model-profile/v1") then (s, Err "unsupported kind")
      else store_member s (parse_model (Payload a)) "model profile" (λ p,
        match NormalizeModelProfile (Some p) with
        | Err e => (s, Err e)
        | Ok normalized => (set_model s normalized (Id a), Ok tt)
        end)
  | KIND_LISTEN_PLAN => (s, Err "unit listen plan requires independent unit-scoped activation")
  | KIND_SHAPE =>
      match parseShapeSource (Payload a) with
      | Err e => (s, Err e)
      | Ok src =>
          match compileShape (Some src) with
          | Err e => (s, Err e)
          | Ok sh => install_release s item a (PartShape sh) now
          end
      end
  | _ => (s, Err "unsupported kind")
  end.

Definition Apply (s : ReleaseSet) (item : option ReleaseItem) (pub : string) (now : time) : ReleaseSet * result unit :=
  match item with
  | None => (s, Err "release item is empty")
  | Some it =>
      match ri_Artifact it with
      | None => (s, Err "release item is empty")
      | Some a =>
          if ri_Retired it then
            let s1 := match inspectorByRel s !! ri_ReleaseId it with
                      | Some id => set_inspectors s (removeInspector id (inspectors s))
                                     (delete (ri_ReleaseId it) (inspectorByRel s))
                      | None => s
                      end in
            (set_releases s1 (delete (ri_ReleaseId it) (releases s1)) (delete (ri_ReleaseId it) (counters s1)), Ok tt)
          else match VerifyArtifact (Some a) pub with
          | Err e => (s, Err e)
          | Ok _ => applyMember s it a now
          end
      end
  end.

(** ** Swapping in a whole set *)

Definition swapFrom (s next : ReleaseSet) (active : option AssetGeneration) : ReleaseSet :=
  mkReleaseSet (releases next)
    (map_imap (λ id _, Some (default new_counter (counters s !! id))) (releases next))
    (inspectors next) (inspectorByRel next) (mapper next) (profile next) (digest next) (evidencePol next)
    (forward next) (reviewPolicy next) (reviewDigest next) (modelProfile next) (modelDigest next)
    (posture s) (listen s)
    (match active with Some g => Some g | None => activeGen s end) (edgeVersion s).

(** The loop over items, skipping nil ones, that stops at the first error. *)
Fixpoint apply_all (s : ReleaseSet) (items : list (option ReleaseItem)) (pub : string) (now : time)
    : ReleaseSet * result unit :=
  match items with
  | [] => (s, Ok tt)
  | None :: items' => apply_all s items' pub now
  | Some it :: items' =>
      match Apply s (Some it) pub now with
      | (_, Err e) => (s, Err e)
      | (s', Ok _) => apply_all s' items' pub now
      end
  end.

Definition fresh_set (s : ReleaseSet) : ReleaseSet := set_listen (NewReleaseSet (edgeVersion s)) (posture s) (listen s).

Definition ApplySnapshot (s : ReleaseSet) (items : list (option ReleaseItem)) (pub : string) (now : time)
    : ReleaseSet * result unit :=
  match apply_all (fresh_set s) items pub now with
  | (_, Err e) => (s, Err e)
  | (next, Ok _) => (swapFrom s next None, Ok tt)
  end.
End apply.

(** ** Versions *)

(** [strings.FieldsFunc] on '-' and '+': the non-empty pieces. *)
Fixpoint version_fields (s cur : string) : list string :=
  match s with
  | EmptyString => if bool_decide (cur = "") then [] else [cur]
  | String c s' =>
      if bool_decide (c = "-"%char) || bool_decide (c = "+"%char)
      then (if bool_decide (cur = "") then [] else [cur]) ++ version_fields s' ""
      else version_fields s' (cur +:+ String c "")
  end.

Definition parse_part (p : string) : option Z :=
  match Atoi p with Some v => if v <? 0 then None else Some v | None => None end.

Definition parse_version (raw : string) : option (Z * Z * Z) :=
  match version_fields raw "" with
  | [] => None
  | core :: _ =>
      match split_byte "."%char core with
      | [a; b; c] => x ← parse_part a; y ← parse_part b; z ← parse_part c; Some (x, y, z)
      | _ => None
      end
  end.

Definition edgeVersionCompatible (actual required : string) : bool :=
  let actual := trim_prefix (trim_space actual) "v" in
  let required := trim_prefix (trim_space required) "v" in
  if bool_decide (required = "dev") then true
  else match parse_version actual, parse_version required with
  | Some (a1, a2, a3), Some (r1, r2, r3) =>
      if negb (a1 =? r1) then r1 <? a1
      else if negb (a2 =? r2) then r2 <? a2
      else if negb (a3 =? r3) then r3 <? a3
      else true
  | _, _ => bool_decide (actual = required)
  end.

(** ** Generations *)

Section generations.
Context {U : Unicode} {D : HttpDecoders} {C : Crypto} {R : Regexp} {P : Payloads} {SW : ShapeWire} {IC : InspectorCompiler}.

(** The first loop of [validateGenerationDependencies]: manifest digests and whether a
    normaliser profile is present. *)
Fixpoint scan_members (ms : list (option ReleaseItem)) (digests : gset string) (present : bool) : result (gset string * bool) :=
  match ms with
  | [] => Ok (digests, present)
  | m :: ms' =>
      match m ≫= ri_Artifact with
      | None => scan_members ms' digests present
      | Some a =>
          match ArtKind a with
          | KIND_DETECTOR_MANIFEST =>
              match parse_manifest (Payload a) with
              | None => Err "manifest"
              | Some man =>
                  scan_members ms' (if bool_decide (dm_TarballSha256 man = "") then digests else {[dm_TarballSha256 man]} ∪ digests)
                    present
              end
          | KIND_NORMALIZER_PROFILE => scan_members ms' digests true
          | _ => scan_members ms' digests present
          end
      end
  end.

(** What one policy release may depend on. *)
Definition check_policy (gen : AssetGeneration) (digests : gset string) (profileDigest : string) (cand : PolicyCandidate)
    : result unit :=
  match pc_Dependencies cand with
  | None => Err "policy dependencies are incomplete"
  | Some d =>
      if bool_decide (dep_DetectorManifestDigest d = "") || bool_decide (dep_NormalizerProfileDigest d = "")
         || bool_decide (dep_MinEdgeVersion d = "")
      then Err "policy dependencies are incomplete"
      else if negb (bool_decide (dep_DetectorManifestDigest d ∈ digests)) then Err "detector manifest dependency mismatch"
      else if bool_decide (profileDigest = "") || negb (bool_decide (dep_NormalizerProfileDigest d = profileDigest))
      then Err "normalizer profile dependency mismatch"
      else if negb (bool_decide (dep_MinEdgeVersion d = MinEdgeVersion gen))
      then Err "minimum edge version dependency mismatch"
      else Ok tt
  end.

Fixpoint check_releases (gen : AssetGeneration) (digests : gset string) (profileDigest : string) (rs : list managedRelease)
    : result unit :=
  match rs with
  | [] => Ok tt
  | r :: rs' =>
      match mr_policy r with
      | None => check_releases gen digests profileDigest rs'
      | Some cand =>
          let! _ := check_policy gen digests profileDigest cand in check_releases gen digests profileDigest rs'
      end
  end.

(** [inspectionProfileDigest] of a nil profile is the digest of the empty message. *)
Definition profile_digest (p : option HttpInspectionProfile) : string :=
  match p with Some p => inspectionProfileDigest p | None => hex_encode (sha256 "") end.

Definition validateGenerationDependencies (gen : AssetGeneration) (next : ReleaseSet) : result unit :=
  if bool_decide (MinEdgeVersion gen = "") then Err "generation min_edge_version is required"
  else if negb (edgeVersionCompatible (edgeVersion next) (MinEdgeVersion gen))
  then Err "edge version does not satisfy minimum"
  else
    let! (digests, present) := scan_members (Members gen) ∅ false in
    let profileDigest := if present : bool then profile_digest (profile next) else "" in
    check_releases gen digests profileDigest (map_to_list (releases next)).*2.

(** [persist] stands for writing current and new generation to disk. *)
Definition ApplyGeneration (s : ReleaseSet) (gen : option AssetGeneration) (pub : string)
    (persist : option (option AssetGeneration → AssetGeneration → result unit)) (now : time) : ReleaseSet * result unit :=
  let store := mkGenerationStore (activeGen s) None 0 false false in
  match Load store gen pub now with
  | (_, Err e) => (s, Err e)
  | (store', Ok _) =>
      match gen with
      | None => (s, Err "unreachable")
      | Some g =>
          match apply_all (fresh_set s) (Members g) pub now with
          | (_, Err e) => (s, Err e)
          | (next, Ok _) =>
              match validateGenerationDependencies g next with
              | Err e => (s, Err e)
              | Ok _ =>
                  match (match persist with Some f => f (activeGen s) g | None => Ok tt end) with
                  | Err e => (s, Err "persist generation before activation")
                  | Ok _ => (swapFrom s next (Current store'), Ok tt)
                  end
              end
          end
      end
  end.

Definition CurrentGenerationSeq (s : ReleaseSet) : Z :=
  match activeGen s with None => 0 | Some g => GenerationSeq g end.
Definition CurrentGeneration (s : ReleaseSet) : option AssetGeneration := activeGen s.

(** ** Listen plans *)

Definition ApplyListenPlan {N : NetParse} (s : ReleaseSet) (plan : option UnitListenPlan) (pub unitID : string)
    (persist : option (option UnitListenPlan → UnitListenPlan → result unit)) : ReleaseSet * result unit :=
  match VerifyUnitListenPlan plan pub with
  | Err e => (s, Err e)
  | Ok _ =>
      match ValidateUnitListenPlan plan with
      | Err e => (s, Err e)
      | Ok _ =>
          match plan with
          | None => (s, Err "unreachable")
          | Some p =>
              if bool_decide (trim_space unitID = "") || negb (bool_decide (lp_UnitId p = unitID))
              then (s, Err "unit listen plan target does not match this unit")
              else
                let activate :=
                  match (match persist with Some f => f (listen s) p | None => Ok tt end) with
                  | Err e => (s, Err "persist unit listen plan before activation")
                  | Ok _ => (set_listen s (lp_Posture p) (Some p), Ok tt)
                  end in
                match listen s with
                | None => activate
                | Some cur =>
                    if (lp_Version p =? lp_Version cur) && bool_decide (p = cur) then (s, Ok tt)
                    else if lp_Version p <=? lp_Version cur then (s, Err "unit listen plan version must increase")
                    else if negb (lp_Version p =? u64 (lp_Version cur + 1))
                    then (s, Err "unit listen plan version must not skip")
                    else activate
                end
          end
      end
  end.
Definition CurrentListenPlan (s : ReleaseSet) : option UnitListenPlan := listen s.

(** ** Inspection and decision *)

Definition inspect_one (view : CanonicalView) (input : InspectionInput) (ins : Inspector) : Inspection :=
  match ins_Inspect ins input with
  | (p, None) => p
  | (p, Some _) =>
      mkInspection (insp_Detections p) (v_Coverage view ++ [CoverageError INSPECTION_SURFACE_QUERY]) (insp_Rejected p)
  end.

Definition inspectWith (is_ : list Inspector) (m : option TaxonomyMapper) (input : InspectionInput) : Inspection :=
  let out := MergeInspections (in_View input) (inspect_one (in_View input) input <$> is_) in
  mkInspection (ApplyTaxonomy (insp_Detections out) m) (insp_Coverage out) (insp_Rejected out).

Definition Inspect (s : ReleaseSet) (view : CanonicalView) : Inspection :=
  inspectWith (inspectors s) (mapper s) (mkInspectionInput view "").

(** The releases of the snapshot that have not expired, in the order of the map. *)
Definition live (now : time) (order : list (string * managedRelease)) : list managedRelease :=
  filter (λ r, time_after (mr_expiresAt r) now = true) order.*2.

Definition InspectThenGate (s : ReleaseSet) (order : list (string * managedRelease)) (req : Request) (view : CanonicalView)
    (now : time) : Decision * ReleaseSet :=
  let insp := inspectWith (inspectors s) (mapper s) (mkInspectionInput view (req_ClientAddress req)) in
  let '(dec, cs) := gateWith (live now order) (ResolvePosture (posture s)) req insp view (counters s) in
  (match activeGen s with
   | Some g => mkDecision (dec_Action dec) (WouldHaveBlocked dec) (Verdicts dec) (Observations dec) (Detections dec)
                 (dec_Inspection dec) (dec_Posture dec) (GenerationId g) (GenerationSeq g)
   | None => dec
   end, set_releases s (releases s) cs).

Definition profileOrDefault (s : ReleaseSet) : HttpInspectionProfile := default DefaultInspectionProfile (profile s).

Definition Check (s : ReleaseSet) (order : list (string * managedRelease)) (horder : nat → header_order) (req : Request)
    (now : time) : Decision * ReleaseSet :=
  InspectThenGate s order req
    (Canonicalize (req_Method req) (req_Path req) (req_Query req) (req_Headers req) horder (req_Body req)
       (Some (profileOrDefault s))) now.

Definition Replay (s : ReleaseSet) (order : list (string * managedRelease)) (view : CanonicalView) (now : time)
    : Inspection * Action * ReleaseSet :=
  let '(dec, s') := InspectThenGate s order (RequestFromView view) view now in
  (dec_Inspection dec, dec_Action dec, s').

Definition ReleaseSet_Gate (s : ReleaseSet) (order : list (string * managedRelease)) (req : Request) (found : list Detection)
    (view : CanonicalView) (now : time) : Decision * ReleaseSet :=
  let insp := mkInspection found (v_Coverage view) (v_Rejected view) in
  let '(dec, cs) := gateWith (live now order) (ResolvePosture (posture s)) req insp view (counters s) in
  (dec, set_releases s (releases s) cs).
Definition CheckWithDetections := ReleaseSet_Gate.
End generations.

(** ** Counters and latencies *)

Record ReleaseCounter := mkReleaseCounter {
  rc_ReleaseID : string; rc_ArtifactID : string; rc_Mode : ReleaseMode; RequestsTotal : Z; BlocksTotal : Z;
  ObserveTotal : Z; CanarySelectedTotal : Z; P99Micros : Z;
}.

(** [sort.Slice] by [<] on the samples, then the sample at index n*99/100. *)
Definition p99 (c : counter) : Z :=
  let n := length (latencies c) in
  if bool_decide (n = 0%nat) then 0
  else
    let cp := merge_sort (≤) (latencies c) in
    let idx := (n * 99 / 100)%nat in
    let idx := if bool_decide (n ≤ idx)%nat then (n - 1)%nat else idx in
    default 0 (cp !! idx).

Definition Counters (s : ReleaseSet) (order : list (string * managedRelease)) : list ReleaseCounter :=
  omap (λ '(id, r),
    (λ c, mkReleaseCounter id (mr_artifactID r) (mr_mode r) (requests c) (blocks c) (observe c) (canarySel c) (p99 c))
      <$> counters s !! id) order.

Definition record_latency (micros : Z) (c : counter) : counter :=
  let kept := if bool_decide (latencySampleCap ≤ length (latencies c))%nat then drop 1 (latencies c) else latencies c in
  mkCounter (requests c) (blocks c) (observe c) (canarySel c) (kept ++ [micros]).

Definition RecordLatency (s : ReleaseSet) (releaseID : string) (micros : Z) : ReleaseSet :=
  set_releases s (releases s) (alter (record_latency micros) releaseID (counters s)).

(** ** Other members *)

Definition DefaultForwardKind (k : ForwardPolicyKind) : ForwardPolicyKind :=
  if bool_decide (k = FORWARD_POLICY_KIND_UNSPECIFIED) then FORWARD_POLICY_KIND_WORKER_SCORE else k.
Definition ForwardKind (s : ReleaseSet) : ForwardPolicyKind :=
  match forward s with
  | None => DefaultForwardKind FORWARD_POLICY_KIND_UNSPECIFIED
  | Some f => DefaultForwardKind (fwd_Kind f)
  end.
Definition DefaultEvidenceDigest : EvidenceDigest :=
  mkEvidenceDigest EVIDENCE_DIGEST_ALGORITHM_SPAN_SHA256 256
    ["method"; "route_template"; "selector"; "span_hash"; "charset_class"].
Definition Digest (s : ReleaseSet) : EvidenceDigest := default DefaultEvidenceDigest (digest s).
Definition ReleaseSet_ModelProfile (s : ReleaseSet) : option ModelProfile * string :=
  match modelProfile s with None => (None, "") | Some p => (Some p, modelDigest s) end.

(** ** The invariant of a release set *)

(** A managed release: filed under its own id, canaries within the kernel's range, and
    compiled from exactly one of the three gate-side kinds. *)
Definition release_ok (id : string) (r : managedRelease) : Prop :=
  mr_releaseID r = id ∧
  (mr_mode r = RELEASE_MODE_CANARY → 1 ≤ mr_canaryPercent r ≤ 25) ∧
  (is_Some (mr_detector r) ∧ mr_policy r = None ∧ mr_shape r = None ∨
   mr_detector r = None ∧ is_Some (mr_policy r) ∧ mr_shape r = None ∨
   mr_detector r = None ∧ mr_policy r = None ∧ is_Some (mr_shape r)).

(** [inv_inspectors]: the installed inspectors are those the manifest releases account for. *)
Record set_inv {U : Unicode} {N : NetParse} (s : ReleaseSet) : Prop := {
  inv_releases : map_Forall release_ok (releases s);
  inv_counters : dom (counters s) = dom (releases s);
  inv_samples : map_Forall (λ _ c, length (latencies c) ≤ latencySampleCap)%nat (counters s);
  inv_inspectors : ins_ID <$> inspectors s ≡ₚ (map_to_list (inspectorByRel s)).*2;
  inv_review : ∀ p, reviewPolicy s = Some p → ValidateTrafficReviewPolicy (Some p) = Ok tt;
  inv_model : ∀ q, modelProfile s = Some q → ∃ p, NormalizeModelProfile (Some p) = Ok q;
  inv_listen : ∀ p, listen s = Some p → ValidateUnitListenPlan (Some p) = Ok tt;
}.

Lemma removeInspector_perm id l :
  id ∈ ins_ID <$> l → ins_ID <$> l ≡ₚ id :: (ins_ID <$> removeInspector id l).
Proof.
  induction l as [|i l IH]; simpl; [set_solver|]. case_bool_decide as E; [by rewrite E|].
  intros [?|Hin]%elem_of_cons; [done|]. simpl. rewrite (IH Hin) at 1. apply Permutation_swap.
Qed.

Lemma remove_by_release (m : gmap string string) rid id l :
  ins_ID <$> l ≡ₚ (map_to_list m).*2 → m !! rid = Some id →
  ins_ID <$> removeInspector id l ≡ₚ (map_to_list (delete rid m)).*2.
Proof.
  intros Hp Hm. apply (Permutation_cons_inv (a := id)).
  rewrite <-removeInspector_perm, Hp.
  - rewrite <-(insert_delete_id m rid id Hm) at 1. rewrite map_to_list_insert; [done|apply lookup_delete_eq].
  - rewrite Hp. apply list_elem_of_fmap. exists (rid, id). split; [done|]. by apply elem_of_map_to_list.
Qed.

Section invariant.
Context {U : Unicode} {N : NetParse} {D : HttpDecoders} {C : Crypto} {R : Regexp} {P : Payloads} {SW : ShapeWire} {IC : InspectorCompiler}.

Lemma new_set_inv v : set_inv (NewReleaseSet v).
Proof. by split. Qed.

Lemma set_listen_inv s p l :
  set_inv s → (∀ q, l = Some q → ValidateUnitListenPlan (Some q) = Ok tt) → set_inv (set_listen s p l).
Proof. by intros []; split. Qed.

(** Replacing the counters by others with the same keys and bounded samples. *)
Lemma set_counters_inv s cs :
  set_inv s → dom cs = dom (counters s) →
  map_Forall (λ _ c, length (latencies c) ≤ latencySampleCap)%nat cs → set_inv (set_releases s (releases s) cs).
Proof. intros [] Hd Hs. split; simpl; try done. congruence. Qed.

Lemma install_manifest_inv s rid a : set_inv s → set_inv (installManifest s rid a).1.
Proof.
  intros H. unfold installManifest. destruct (parse_manifest _) as [man|]; [|done].
  destruct (compile_inspector man) as [ins|]; [|done]. destruct H as [H1 H2 H3 H4 H5 H6 H7]. split; simpl; try done.
  rewrite fmap_app. simpl. destruct (inspectorByRel s !! rid) as [prev|] eqn:Hp.
  - rewrite (remove_by_release _ _ _ _ H4 Hp), <-insert_delete_eq, map_to_list_insert by apply lookup_delete_eq.
    simpl. by rewrite Permutation_app_comm.
  - rewrite H4, map_to_list_insert by done. simpl. by rewrite Permutation_app_comm.
Qed.

Lemma install_release_inv s it a part now : set_inv s → set_inv (install_release s it a part now).1.
Proof.
  intros H. unfold install_release. destruct (_ && _) eqn:Hc; [done|]. destruct (negb _); [done|].
  destruct H as [H1 H2 H3 H4 H5 H6 H7]. split; simpl; try done.
  - apply map_Forall_insert_2; [|done]. split_and!; simpl; [done| |destruct part; naive_solver].
    intros Hm. rewrite (bool_decide_eq_true_2 _ Hm) in Hc. simpl in Hc. breflect. lia.
  - destruct (counters s !! _) eqn:E; rewrite ?dom_insert_L, <-H2; [|done].
    apply elem_of_dom_2 in E. set_solver.
  - destruct (counters s !! _); [done|]. apply map_Forall_insert_2; [simpl; lia|done].
Qed.

Lemma applyMember_inv s it a now : set_inv s → set_inv (applyMember s it a now).1.
Proof.
  intros H. unfold applyMember.
  destruct (ArtKind a); try done.
  all: repeat case_match; try done; try by apply install_release_inv.
  all: try (apply install_manifest_inv; done).
  all: unfold store_member; repeat case_match; try done; try by apply install_release_inv.
  all: destruct H as [H1' H2' H3' H4' H5' H6' H7']; split; simpl; try done.
  - intros ? [= <-]. by match goal with u : () |- _ => destruct u end.
  - intros ? [= <-]. by eexists.
Qed.

Lemma Apply_inv s item pub now : set_inv s → set_inv (Apply s item pub now).1.
Proof.
  intros H. unfold Apply. destruct item as [it|]; [|done]. destruct (ri_Artifact it) as [a|]; [|done].
  destruct (ri_Retired it).
  - destruct H as [H1 H2 H3 H4 H5 H6 H7]. destruct (inspectorByRel s !! _) as [id|] eqn:Hi; split; simpl; try done.
    all: try (apply map_Forall_delete; done). all: try (rewrite !dom_delete_L; congruence).
    by apply remove_by_release.
  - destruct (VerifyArtifact _ _); [|done]. by apply applyMember_inv.
Qed.

Lemma apply_all_inv items s pub now : set_inv s → set_inv (apply_all s items pub now).1.
Proof.
  revert s. induction items as [|[it|] items IH]; intros s H; cbn -[Apply]; [done| |by apply IH].
  pose proof (Apply_inv s (Some it) pub now H) as Ha.
  destruct (Apply s (Some it) pub now) as [s' [|]]; [by apply IH|done].
Qed.

Lemma fresh_set_inv s : set_inv s → set_inv (fresh_set s).
Proof. intros H. apply set_listen_inv; [apply new_set_inv|apply H]. Qed.

Lemma swapFrom_inv s next active : set_inv s → set_inv next → set_inv (swapFrom s next active).
Proof.
  intros Hs [H1 H2 H3 H4 H5 H6 H7]. split; simpl; try done; [| |apply Hs].
  - apply set_eq. intros id. rewrite !elem_of_dom, map_lookup_imap. destruct (releases next !! id); simpl; [done|].
    by split; intros [].
  - intros id c. rewrite map_lookup_imap, bind_Some. intros (r & _ & [= <-]).
    destruct (counters s !! id) eqn:E; simpl; [by eapply (inv_samples s Hs)|lia].
Qed.

Lemma ApplySnapshot_inv s items pub now : set_inv s → set_inv (ApplySnapshot s items pub now).1.
Proof.
  intros H. unfold ApplySnapshot. pose proof (apply_all_inv items (fresh_set s) pub now (fresh_set_inv s H)) as Ha.
  destruct (apply_all _ _ _ _) as [next [|]]; [by apply swapFrom_inv|done].
Qed.

Lemma ApplyGeneration_inv s gen pub persist now : set_inv s → set_inv (ApplyGeneration s gen pub persist now).1.
Proof.
  intros H. unfold ApplyGeneration. destruct (Load _ _ _ _) as [store' [|]]; [|done]. destruct gen as [g|]; [|done].
  pose proof (apply_all_inv (Members g) (fresh_set s) pub now (fresh_set_inv s H)) as Ha.
  destruct (apply_all _ _ _ _) as [next [|]]; [|done]. repeat case_match; try done; by apply swapFrom_inv.
Qed.

Lemma ApplyListenPlan_inv s plan pub unit_ persist : set_inv s → set_inv (ApplyListenPlan s plan pub unit_ persist).1.
Proof.
  intros H. unfold ApplyListenPlan. destruct (VerifyUnitListenPlan _ _); [|done].
  destruct (ValidateUnitListenPlan plan) as [[]|] eqn:Hv; [|done].
  destruct plan as [p|]; [|done]. repeat case_match; try done; apply set_listen_inv; naive_solver.
Qed.

Lemma record_latency_samples m c : (length (latencies (record_latency m c)) ≤ latencySampleCap)%nat ∨
  (latencySampleCap < length (latencies c))%nat.
Proof.
  unfold record_latency, latencySampleCap. simpl. rewrite length_app. simpl.
  case_bool_decide; rewrite ?length_drop; lia.
Qed.

Lemma RecordLatency_inv s id m : set_inv s → set_inv (RecordLatency s id m).
Proof.
  intros H. apply set_counters_inv; [done|apply dom_alter_L|]. intros j c.
  rewrite lookup_alter. case_decide; [|by apply (inv_samples s H)].
  rewrite fmap_Some. intros (c0 & Hc & ->). pose proof (inv_samples s H _ _ Hc) as Hl.
  simpl in Hl. destruct (record_latency_samples m c0); lia.
Qed.

(** The gate touches only the numbers of existing counters. *)
Lemma gateWith_counters_lookup rs po req insp view cs id :
  match cs !! id, (gateWith rs po req insp view cs).2 !! id with
  | Some c, Some c' => latencies c' = latencies c
  | None, None => True
  | _, _ => False
  end.
Proof.
  unfold gateWith, gate_loop. simpl.
  change cs with (g_counters (mkGateState false false false ActionAllow [] [] cs)) at 1.
  generalize (mkGateState false false false ActionAllow [] [] cs). clear.
  induction rs as [|r rs IH]; intros st; simpl; [by destruct (_ !! id)|].
  specialize (IH (gate_step (Intercepts po) req insp view st r)). rewrite gate_step_counters in IH.
  case_decide; [|done]. by destruct (g_counters st !! id), (g_counters _ !! id); simpl in *.
Qed.

Lemma gate_inv s rs po req insp view :
  set_inv s → set_inv (set_releases s (releases s) (gateWith rs po req insp view (counters s)).2).
Proof.
  intros H. apply set_counters_inv; [done| |].
  - apply set_eq. intros id. pose proof (gateWith_counters_lookup rs po req insp view (counters s) id) as G.
    rewrite !elem_of_dom. by destruct (counters s !! id), (_ !! id).
  - intros id c Hc. pose proof (gateWith_counters_lookup rs po req insp view (counters s) id) as G. rewrite Hc in G.
    destruct (counters s !! id) eqn:E; [|done]. rewrite G. by apply (inv_samples s H _ _ E).
Qed.

(** The calls an edge process makes on its release set, in any interleaving. *)
Inductive edge_step : ReleaseSet → ReleaseSet → Prop :=
  | step_posture s p : edge_step s (SetPosture s p)
  | step_apply s item pub now : edge_step s (Apply s item pub now).1
  | step_snapshot s items pub now : edge_step s (ApplySnapshot s items pub now).1
  | step_generation s gen pub persist now : edge_step s (ApplyGeneration s gen pub persist now).1
  | step_listen s plan pub unit_ persist : edge_step s (ApplyListenPlan s plan pub unit_ persist).1
  | step_check s order horder req now :
      order ≡ₚ map_to_list (releases s) → edge_step s (Check s order horder req now).2
  | step_gate s order req found view now :
      order ≡ₚ map_to_list (releases s) → edge_step s (ReleaseSet_Gate s order req found view now).2
  | step_latency s id micros : edge_step s (RecordLatency s id micros).

Lemma edge_step_inv s s' : edge_step s s' → set_inv s → set_inv s'.
Proof.
  intros Hstep H. destruct Hstep.
  - apply set_listen_inv; [done|apply H].
  - by apply Apply_inv.
  - by apply ApplySnapshot_inv.
  - by apply ApplyGeneration_inv.
  - by apply ApplyListenPlan_inv.
  - unfold Check, InspectThenGate. destruct (gateWith _ _ _ _ _ _) eqn:E. simpl.
    replace g with (d, g).2 by done. rewrite <-E. by apply gate_inv.
  - unfold ReleaseSet_Gate. destruct (gateWith _ _ _ _ _ _) eqn:E. simpl.
    replace g with (d, g).2 by done. rewrite <-E. by apply gate_inv.
  - by apply RecordLatency_inv.
Qed.
End invariant.

(** ** Facts about activation *)

Section activation.
Context {U : Unicode} {N : NetParse} {D : HttpDecoders} {C : Crypto} {R : Regexp} {P : Payloads} {SW : ShapeWire}
  {IC : InspectorCompiler}.

Lemma applyMember_error s it a now e : (applyMember s it a now).2 = Err e → (applyMember s it a now).1 = s.
Proof.
  unfold applyMember, store_member, installManifest, install_release. repeat case_match; done.
Qed.

Lemma swapFrom_counters s next active id r :
  releases (swapFrom s next active) !! id = Some r →
  counters (swapFrom s next active) !! id = Some (default new_counter (counters s !! id)).
Proof. simpl. intros H. by rewrite map_lookup_imap, H. Qed.

Definition has_normalizer (ms : list (option ReleaseItem)) : Prop :=
  ∃ it a, Some it ∈ ms ∧ ri_Artifact it = Some a ∧ ArtKind a = KIND_NORMALIZER_PROFILE.
Definition has_manifest (ms : list (option ReleaseItem)) (d : string) : Prop :=
  ∃ it a man, Some it ∈ ms ∧ ri_Artifact it = Some a ∧ ArtKind a = KIND_DETECTOR_MANIFEST ∧
    parse_manifest (Payload a) = Some man ∧ dm_TarballSha256 man = d.

(** A release of a policy finds what it depends on in its generation. *)
Definition dependencies_met (g : AssetGeneration) (prof : option HttpInspectionProfile) (cand : PolicyCandidate) : Prop :=
  ∃ d, pc_Dependencies cand = Some d ∧ dep_MinEdgeVersion d = MinEdgeVersion g ∧
    dep_NormalizerProfileDigest d = profile_digest prof ∧ has_normalizer (Members g) ∧
    has_manifest (Members g) (dep_DetectorManifestDigest d).

Lemma has_normalizer_cons m ms : has_normalizer ms → has_normalizer (m :: ms).
Proof. intros (it & a & ? & ?). exists it, a. set_solver. Qed.
Lemma has_manifest_cons m ms d : has_manifest ms d → has_manifest (m :: ms) d.
Proof. intros (it & a & man & ? & ?). exists it, a, man. set_solver. Qed.

Lemma scan_members_Ok ms ds b ds' b' :
  scan_members ms ds b = Ok (ds', b') →
  (b' = true → b = true ∨ has_normalizer ms) ∧ (∀ d, d ∈ ds' → d ∈ ds ∨ has_manifest ms d).
Proof.
  revert ds b. induction ms as [|m ms IH]; intros ds b H; simpl in H; [naive_solver|].
  assert (∀ ds1 b1, scan_members ms ds1 b1 = Ok (ds', b') → (b1 = true → b = true ∨ has_normalizer (m :: ms)) →
    (∀ d, d ∈ ds1 → d ∈ ds ∨ has_manifest (m :: ms) d) →
    (b' = true → b = true ∨ has_normalizer (m :: ms)) ∧ (∀ d, d ∈ ds' → d ∈ ds ∨ has_manifest (m :: ms) d)) as K.
  { intros ds1 b1 [I1 I2]%IH Hb Hd. split.
    - intros [?|?]%I1; [by apply Hb|right; by apply has_normalizer_cons].
    - intros d [?|?]%I2; [by apply Hd|right; by apply has_manifest_cons]. }
  destruct m as [it|]; [|by apply (K ds b H); auto]. simpl in H.
  destruct (ri_Artifact it) as [a|] eqn:Ha; [|by apply (K ds b H); auto].
  destruct (ArtKind a) eqn:Hk; try (apply (K ds b H); by auto).
  - destruct (parse_manifest _) as [man|] eqn:Hp; [|done]. eapply K; [exact H|by auto|]. intros d Hd.
    case_bool_decide; [by left|]. apply elem_of_union in Hd as [->%elem_of_singleton|]; [right|by left].
    exists it, a, man. set_solver.
  - eapply K; [exact H| |by auto]. intros _. right. exists it, a. set_solver.
Qed.

Lemma check_releases_Ok g ds pd rs u :
  check_releases g ds pd rs = Ok u →
  ∀ r cand, r ∈ rs → mr_policy r = Some cand → check_policy g ds pd cand = Ok tt.
Proof.
  induction rs as [|r0 rs IH]; simpl; intros H r cand Hr Hp; [set_solver|].
  apply elem_of_cons in Hr as [->|Hr].
  - rewrite Hp in H. by destruct (check_policy _ _ _ _) as [[]|].
  - destruct (mr_policy r0); [|by eapply IH]. destruct (check_policy _ _ _ _); [|done]. by eapply IH.
Qed.

Lemma dependencies_Ok g next u id r cand :
  validateGenerationDependencies g next = Ok u → releases next !! id = Some r → mr_policy r = Some cand →
  dependencies_met g (profile next) cand.
Proof.
  unfold validateGenerationDependencies. intros H Hr Hp.
  case_bool_decide; [done|]. destruct (negb _); [done|].
  destruct (scan_members _ _ _) as [[ds b]|] eqn:Hs; [|done]. simpl in H.
  apply scan_members_Ok in Hs as [Hb Hd].
  eapply check_releases_Ok in H; [|apply list_elem_of_fmap; exists (id, r); by rewrite elem_of_map_to_list|done].
  unfold check_policy in H. destruct (pc_Dependencies cand) as [d|] eqn:Hdep; [|done].
  destruct (_ || _) in H; [done|]. destruct (negb _) eqn:Hm in H; [done|].
  destruct (_ || _) eqn:Hpr in H; [done|]. destruct (negb _) eqn:Hv in H; [done|].
  rewrite orb_false_iff in Hpr. destruct Hpr as [Hne Heq].
  rewrite negb_false_iff, bool_decide_eq_true in Hm, Heq, Hv. rewrite bool_decide_eq_false in Hne.
  destruct b; [|done]. exists d. split_and!; try done.
  - destruct (Hb eq_refl); done.
  - destruct (Hd _ Hm); set_solver.
Qed.

(** What a successful [ApplyGeneration] went through. *)
Lemma ApplyGeneration_cases s gen pub persist now :
  let '(s', r) := ApplyGeneration s gen pub persist now in
  (∃ e, r = Err e) ∧ s' = s ∨
  r = Ok tt ∧ ∃ g next g', gen = Some g ∧ apply_all (fresh_set s) (Members g) pub now = (next, Ok tt) ∧
    validateGenerationDependencies g next = Ok tt ∧
    (∀ f, persist = Some f → f (activeGen s) g = Ok tt) ∧ s' = swapFrom s next (Some g') ∧
    (activeGen s = Some g' ∧ GenerationSeq g = GenerationSeq g' ∧ GenerationId g = GenerationId g' ∨
     g' = g ∧ trusted pub g ∧ check_link (activeGen s) g = Ok true).
Proof.
  unfold ApplyGeneration. pose proof (Load_cases (mkGenerationStore (activeGen s) None 0 false false) gen pub now) as H.
  destruct (Load _ _ _ _) as [st [[]|]]; [|left; naive_solver].
  destruct gen as [g|]; [|left; naive_solver].
  destruct (apply_all _ _ _ _) as [next [[]|]] eqn:Ha; [|left; naive_solver].
  destruct (validateGenerationDependencies _ _) as [[]|] eqn:Hv; [|left; naive_solver].
  destruct (match persist with Some _ => _ | None => _ end) as [[]|] eqn:Hp; [|left; naive_solver].
  right. split; [done|]. exists g, next. simpl in H. unfold Current.
  destruct H as [(Hc & _ & _ & H)|(_ & _ & g1 & [= <-] & Hc & Ht & Hl & _)].
  - destruct (H eq_refl) as (g0 & c & [= <-] & Hcur & Hs & Hi). exists c. rewrite Hc, Hcur. split_and!; try done; [|by left].
    intros f ->. by rewrite <-Hcur.
  - exists g. rewrite Hc. split_and!; try done; [|by right]. by intros f ->.
Qed.
End activation.

(** C35: in every state an edge can reach from a fresh set, through any interleaving
    of single items, snapshots, generations, listen plans, posture changes, requests and
    latency samples (failing calls included), each managed release is filed under its own
    id, is compiled from exactly one kind and has a canary percentage in range; counters
    exist exactly for the managed releases and keep at most 256 samples; the installed
    inspectors are exactly those of the manifest releases; and the review policy, model
    profile and listen plan in force have passed their validation. *)
Theorem reachable_set_inv {U : Unicode} {N : NetParse} {D : HttpDecoders} {C : Crypto} {R : Regexp} {P : Payloads}
    {SW : ShapeWire} {IC : InspectorCompiler} version s :
  rtc edge_step (NewReleaseSet version) s → set_inv s.
Proof.
  intros H. assert (set_inv (NewReleaseSet version)) as H0 by apply new_set_inv.
  induction H as [|s1 s2 s3 Hstep _ IH]; [done|]. apply IH. by eapply edge_step_inv.
Qed.

(** C7: a generation that fails any check, or that cannot be persisted,
    leaves the set untouched.  One that is accepted is in force afterwards (its sequence
    number and id are the active ones) and was persisted first; a reload keeps the active
    envelope, a new one is signed and linked to the envelope it replaces.  Posture, listen
    plan and edge version stay, and every surviving release keeps its counters. *)
Theorem apply_generation_atomic {U : Unicode} {D : HttpDecoders} {C : Crypto} {R : Regexp} {P : Payloads}
    {SW : ShapeWire} {IC : InspectorCompiler} s gen pub persist now :
  (∀ g, activeGen s = Some g ∨ gen = Some g → in_s 64 (GenerationSeq g)) →
  let '(s', r) := ApplyGeneration s gen pub persist now in
  ((∃ e, r = Err e) → s' = s) ∧
  (r = Ok tt → ∃ g g', gen = Some g ∧ activeGen s' = Some g' ∧
     GenerationSeq g' = GenerationSeq g ∧ GenerationId g' = GenerationId g ∧
     (∀ f, persist = Some f → f (activeGen s) g = Ok tt) ∧
     (activeGen s = Some g' ∨ g' = g ∧ trusted pub g ∧ ∀ c, activeGen s = Some c → linked c g) ∧
     posture s' = posture s ∧ listen s' = listen s ∧ edgeVersion s' = edgeVersion s ∧
     ∀ id rel c, releases s' !! id = Some rel → counters s !! id = Some c → counters s' !! id = Some c).
Proof.
  intros Hty. pose proof (ApplyGeneration_cases s gen pub persist now) as H.
  destruct (ApplyGeneration _ _ _ _ _) as [s' r].
  destruct H as [[[e ->] ->]|(-> & g & next & g' & -> & _ & _ & Hp & -> & Hcase)]; [naive_solver|].
  split; [by intros [e ?]|]. intros _. exists g, g'. split_and!; try done.
  - by destruct Hcase as [(_ & -> & _)|(-> & _)].
  - by destruct Hcase as [(_ & _ & ->)|(-> & _)].
  - destruct Hcase as [(? & _)|(-> & Ht & Hl)]; [by left|right]. split_and!; try done. intros c Hc.
    rewrite Hc in Hl. apply check_link_Ok; [by apply Hty; left|by apply Hty; right|by destruct Ht as (_ & ? & _)|done].
  - intros id rel c Hr Hc. erewrite swapFrom_counters by done. by rewrite Hc.
Qed.

(** After a successful [ApplyGeneration], every policy in force names as
    dependencies the digest of a detector manifest of that generation, the digest of the
    normaliser profile in force, and the generation's own minimum edge version. *)
Theorem generation_dependencies {U : Unicode} {D : HttpDecoders} {C : Crypto} {R : Regexp} {P : Payloads}
    {SW : ShapeWire} {IC : InspectorCompiler} s g pub persist now s' id rel cand :
  ApplyGeneration s (Some g) pub persist now = (s', Ok tt) →
  releases s' !! id = Some rel → mr_policy rel = Some cand →
  dependencies_met g (profile s') cand.
Proof.
  intros H Hr Hp. pose proof (ApplyGeneration_cases s (Some g) pub persist now) as Hc. rewrite H in Hc.
  destruct Hc as [[[e ?] _]|(_ & g0 & next & g' & [= <-] & _ & Hv & _ & -> & _)]; [done|].
  exact (dependencies_Ok g next tt id rel cand Hv Hr Hp).
Qed.

(** A listen plan that is refused leaves the set untouched; one that is
    accepted is signed, valid, addressed to this unit and in force afterwards, and unless it
    is the plan already in force it carries exactly the next version and sets the posture. *)
Theorem apply_listen_plan_monotone {N : NetParse} {C : Crypto} s plan pub unit_ persist :
  (∀ cur, listen s = Some cur → in_u 64 (lp_Version cur)) →
  let '(s', r) := ApplyListenPlan s plan pub unit_ persist in
  ((∃ e, r = Err e) → s' = s) ∧
  (r = Ok tt → ∃ p, plan = Some p ∧ listen s' = Some p ∧ lp_UnitId p = unit_ ∧
     VerifyUnitListenPlan (Some p) pub = Ok tt ∧ ValidateUnitListenPlan (Some p) = Ok tt ∧
     (s' = s ∨ posture s' = lp_Posture p ∧ ∀ cur, listen s = Some cur → lp_Version p = lp_Version cur + 1)).
Proof.
  intros Hty. unfold ApplyListenPlan. destruct (VerifyUnitListenPlan plan pub) as [[]|] eqn:Hs; [|naive_solver].
  destruct (ValidateUnitListenPlan plan) as [[]|] eqn:Hv; [|naive_solver].
  destruct plan as [p|]; [|naive_solver]. destruct (_ || _) eqn:Hu; [naive_solver|].
  apply orb_false_iff in Hu as [_ Hu]. rewrite negb_false_iff, bool_decide_eq_true in Hu.
  destruct (listen s) as [cur|] eqn:Hl.
  - destruct (_ && _) eqn:He; [|destruct (_ <=? _) eqn:Hle; [naive_solver|destruct (negb _) eqn:Hn; [naive_solver|]]].
    + breflect. destruct He as [_ He]. rewrite bool_decide_eq_true in He. subst cur. split; [by intros []|]. intros _. exists p. naive_solver.
    + assert (lp_Version p = lp_Version cur + 1).
      { breflect. pose proof (Hty cur eq_refl) as [? ?]. unfold wrap_u in *.
        destruct (decide (lp_Version cur + 1 = 2 ^ 64)) as [E|]; [rewrite E, Z_mod_same_full in *; lia|].
        rewrite Z.mod_small in * by lia. lia. }
      destruct (match persist with Some _ => _ | None => _ end) as [[]|]; [|naive_solver].
      split; [by intros []|]. intros _. exists p. simpl. split_and!; try done. right. split; [done|]. by intros ? [= <-].
  - destruct (match persist with Some _ => _ | None => _ end) as [[]|]; [|naive_solver].
    split; [by intros []|]. intros _. exists p. simpl. split_and!; try done. by right.
Qed.

(** ** Versions *)

Definition version_le (r a : Z * Z * Z) : Prop :=
  let '(r1, r2, r3) := r in let '(a1, a2, a3) := a in
  r1 < a1 ∨ r1 = a1 ∧ (r2 < a2 ∨ r2 = a2 ∧ r3 ≤ a3).

Lemma version_le_trans a b c : version_le a b → version_le b c → version_le a c.
Proof. destruct a as [[? ?] ?], b as [[? ?] ?], c as [[? ?] ?]. simpl. lia. Qed.

(** [strings.TrimPrefix(strings.TrimSpace(v), "v")] *)
Definition version_text {U : Unicode} (v : string) : string := trim_prefix (trim_space v) "v".

Lemma edge_version_cases {U : Unicode} actual required :
  edgeVersionCompatible actual required = true ↔
  version_text required = "dev" ∨ version_text actual = version_text required ∨
  ∃ a r, parse_version (version_text actual) = Some a ∧ parse_version (version_text required) = Some r ∧ version_le r a.
Proof.
  unfold edgeVersionCompatible. fold (version_text actual) (version_text required).
  case_bool_decide as Hdev; [naive_solver|].
  destruct (parse_version (version_text actual)) as [[[a1 a2] a3]|] eqn:Ha;
    [destruct (parse_version (version_text required)) as [[[r1 r2] r3]|] eqn:Hr|].
  - assert (version_text actual = version_text required → (r1, r2, r3) = (a1, a2, a3)) as Heq by congruence.
    transitivity (version_le (r1, r2, r3) (a1, a2, a3)).
    + simpl. destruct (Z.eqb_spec a1 r1); simpl; [|rewrite Z.ltb_lt; lia].
      destruct (Z.eqb_spec a2 r2); simpl; [|rewrite Z.ltb_lt; lia].
      destruct (Z.eqb_spec a3 r3); simpl; [|rewrite Z.ltb_lt; lia]. split; [lia|done].
    + split; [intros Hle; right; right; naive_solver|]. intros [?|[E|(a & r & [= <-] & [= <-] & ?)]]; [done| |done].
      apply Heq in E. simplify_eq. simpl. lia.
  - rewrite bool_decide_eq_true. naive_solver.
  - rewrite bool_decide_eq_true. naive_solver.
Qed.

(** "edge version [a] satisfies minimum [r]" is a preorder, so an edge that
    accepts a generation accepts it after every compatible upgrade; between release
    versions it is the lexicographic order on (major, minor, patch) and ignores
    pre-release and build suffixes. *)
Theorem edge_version_preorder {U : Unicode} :
  PreOrder (λ a r, edgeVersionCompatible a r = true) ∧
  ∀ actual required a r, parse_version (version_text actual) = Some a → parse_version (version_text required) = Some r →
    edgeVersionCompatible actual required = true ↔ version_le r a.
Proof.
  split; [split|].
  - intros a. apply edge_version_cases. auto.
  - intros a b c. rewrite !edge_version_cases.
    intros [Hb|[Hb|(x & y & Ha & Hb & Hle)]]; [|rewrite Hb; tauto|];
      (intros [Hc|[Hc|(x' & y' & Hb' & Hc & Hle')]]; [by left|rewrite <-Hc; naive_solver|]).
    + rewrite Hb in Hb'. vm_compute in Hb'. done.
    + right. right. exists x, y'. split_and!; [done..|]. rewrite Hb in Hb'. simplify_eq. by eapply version_le_trans.
  - intros actual required a r Ha Hr. rewrite edge_version_cases. split; [|naive_solver].
    intros [Hd|[E|(? & ? & ? & ? & ?)]]; [rewrite Hd in Hr; vm_compute in Hr; done| |by simplify_eq].
    rewrite E in Ha. simplify_eq. destruct a as [[? ?] ?]. simpl. lia.
Qed.

(** ** Latency percentile *)

(** The reported latency of a release with samples is one of its samples, and fewer
    than one in a hundred of its samples exceed it; the index is never out of range. *)
Theorem p99_is_percentile c :
  latencies c ≠ [] →
  p99 c ∈ latencies c ∧
  (99 * length (latencies c) < 100 * length (filter (λ x, (x ≤ p99 c)%Z) (latencies c)))%nat.
Proof.
  intros Hne. unfold p99. rewrite bool_decide_false by (by destruct (latencies c)).
  set (l := latencies c) in *. set (cp := merge_sort (≤) l).
  assert (cp ≡ₚ l) as Hp by apply merge_sort_Permutation.
  assert (StronglySorted (≤) cp) as Hs by (apply StronglySorted_merge_sort; apply _).
  pose proof (Permutation_length Hp) as Hlen.
  assert (0 < length l)%nat as Hpos by (destruct l; simpl; [done|lia]).
  set (idx := (length l * 99 / 100)%nat).
  assert (idx < length l)%nat as Hidx by (apply Nat.Div0.div_lt_upper_bound; lia).
  rewrite bool_decide_false by lia.
  destruct (lookup_lt_is_Some_2 cp idx) as [x Hx]; [lia|]. rewrite Hx. simpl.
  split; [rewrite <-Hp; by eapply list_elem_of_lookup_2|].
  assert (length (filter (λ y, y ≤ x) l) = length (filter (λ y, y ≤ x) cp)) as -> by by rewrite Hp.
  assert (Forall (λ y, y ≤ x) (take (S idx) cp)) as Hall.
  { apply Forall_forall. intros y (i & Hi)%list_elem_of_lookup_1.
    apply lookup_take_Some in Hi as [Hi Hlt]. destruct (decide (i = idx)) as [->|]; [by simplify_eq|].
    eapply (StronglySorted_app_1_elem_of (≤) (take idx cp) (drop idx cp)); [by rewrite take_drop|..].
    - eapply list_elem_of_lookup_2. rewrite lookup_take_lt; [done|lia].
    - apply (list_elem_of_lookup_2 _ 0). rewrite lookup_drop. by rewrite Nat.add_0_r. }
  assert (S idx ≤ length (filter (λ y, (y ≤ x)%Z) cp))%nat.
  { rewrite <-(take_drop (S idx) cp), filter_app, length_app.
    rewrite (filter_Forall _ (take _ _)) by done. rewrite length_take. lia. }
  pose proof (Nat.div_mod (length l * 99) 100 ltac:(lia)).
  pose proof (Nat.mod_upper_bound (length l * 99) 100 ltac:(lia)). unfold idx in *. lia.
Qed.

(** ** Replay *)

(** Two sets that decide alike: they differ at most in counters and in members the
    decision does not read (listen plan, generation envelope, evidence and model settings). *)
Definition decide_alike (s1 s2 : ReleaseSet) : Prop :=
  inspectors s1 = inspectors s2 ∧ mapper s1 = mapper s2 ∧ releases s1 = releases s2 ∧
  ResolvePosture (posture s1) = ResolvePosture (posture s2).

#[global] Instance decide_alike_equiv : Equivalence decide_alike.
Proof. unfold decide_alike. split; [done|intros ??; intuition congruence|intros ???; intuition congruence]. Qed.

#[global] Instance live_perm now : Proper ((≡ₚ) ==> (≡ₚ)) (live now).
Proof. intros o1 o2 Ho. unfold live. by rewrite Ho. Qed.

Lemma live_ext now1 now2 order :
  (∀ id r, (id, r) ∈ order → time_after (mr_expiresAt r) now1 = time_after (mr_expiresAt r) now2) →
  live now1 order = live now2 order.
Proof.
  unfold live. induction order as [|[id r] order IH]; intros H; [done|]. rewrite !fmap_cons, !filter_cons. simpl.
  rewrite (H id r) by set_solver. rewrite IH by set_solver. done.
Qed.

(** Replay is a function of the view and of what decides: for two sets that decide
    alike, any two map iteration orders and any two moments between which no release
    expires, the replayed inspection and action are the same; replaying leaves the set
    deciding alike. *)
Theorem replay_deterministic {U : Unicode} {D : HttpDecoders} {C : Crypto} s1 s2 o1 o2 view now1 now2 :
  decide_alike s1 s2 → o1 ≡ₚ map_to_list (releases s1) → o2 ≡ₚ map_to_list (releases s2) →
  (∀ id r, releases s1 !! id = Some r → time_after (mr_expiresAt r) now1 = time_after (mr_expiresAt r) now2) →
  (Replay s1 o1 view now1).1 = (Replay s2 o2 view now2).1 ∧ decide_alike s1 (Replay s1 o1 view now1).2.
Proof.
  intros (Hi & Hm & Hr & Hp) Ho1 Ho2 Hexp. unfold Replay, InspectThenGate.
  rewrite Hi, Hm, Hp. rewrite <-Hr, <-Ho1 in Ho2.
  set (insp := inspectWith _ _ _). set (req := RequestFromView view).
  pose proof (gateWith_action (live now1 o1) (ResolvePosture (posture s2)) req insp view (counters s1)) as H1.
  pose proof (gateWith_action (live now2 o2) (ResolvePosture (posture s2)) req insp view (counters s2)) as H2.
  assert (live now1 o1 ≡ₚ live now2 o2) as HL.
  { rewrite Ho2. erewrite live_ext; [done|]. intros id r Hin. apply (Hexp id). apply elem_of_map_to_list. by rewrite <-Ho1. }
  assert (∀ rs cs, dec_Inspection (gateWith rs (ResolvePosture (posture s2)) req insp view cs).1 = insp) as HI by done.
  pose proof (HI (live now1 o1) (counters s1)) as I1. pose proof (HI (live now2 o2) (counters s2)) as I2.
  destruct (gateWith (live now1 o1) _ _ _ _ _) as [d1 c1], (gateWith (live now2 o2) _ _ _ _ _) as [d2 c2].
  simpl in *. destruct H1 as [E1 _], H2 as [E2 _]. rewrite HL in E1. split; [|unfold decide_alike; naive_solver].
  destruct (activeGen s1), (activeGen s2); simpl; by rewrite I1, I2, E1, E2.
Qed.

(** ** A concrete edge *)

Lemma pair_of_snd {A B} (x : A * B) b : x.2 = b → x = (x.1, b).
Proof. by intros <-; destruct x. Qed.

Module Demo.
#[local] Existing Instance ascii_only_unicode.
#[local] Existing Instance Canonical.Demo.decoders.
#[local] Existing Instance toy_crypto.
#[local] Existing Instance substring_regexp.
#[local] Existing Instance ListenPlan.Demo.net.
Definition wire : ShapeWire := {| protojson_shape _ := None; json_raw_field _ _ := None |}.
#[local] Existing Instance wire.
Definition deps : PolicyDependencies :=
  mkPolicyDependencies "sha-coraza" (profile_digest (Some DefaultInspectionProfile)) "1.2.0".
Definition cand : PolicyCandidate :=
  mkPolicyCandidate "p" None (Some (mkPolicyPredicate
    [Some (mkDetectionKey "coraza" "v4" "sha-coraza" "sqli" "" INSPECTION_SURFACE_QUERY "" "")] f64_zero true COVERAGE_STATUS_FULL))
    "block" (Some deps).
Definition payloads : Payloads := {|
  parse_rules _ := Some Rules.Demo.rules;
  parse_policy _ := Some cand;
  parse_manifest _ := Some (mkDetectorManifest "coraza" "v4" "sha-coraza" "" 1 []);
  parse_mapper _ := None;
  parse_normalizer _ := Some DefaultInspectionProfile;
  parse_evidence_policy _ := None; parse_evidence_digest _ := None; parse_forward _ := None;
  parse_review _ := None; parse_model _ := None |}.
#[local] Existing Instance payloads.
Definition inspector : Inspector := mkInspector "coraza@v4" (λ _, (mkInspection [] [] false, None)).
Definition compiler : InspectorCompiler := {| compile_inspector _ := Ok inspector |}.
#[local] Existing Instance compiler.

Definition artifact (k : Kind) (schema payload : string) : Artifact :=
  let a := mkArtifact "" k payload schema None None "" [] None None None "" None None 0 0 0 in
  default a (SignArtifact (Some a) toy_key 0).1.
Definition item (id : string) (a : Artifact) (retired : bool) : option ReleaseItem :=
  Some (mkReleaseItem id (Some a) "asset" RELEASE_MODE_ENFORCE 0 retired RETIRE_REASON_UNSPECIFIED None 0).
Definition manifest (retired : bool) := item "m" (artifact KIND_DETECTOR_MANIFEST DetectorManifestSchema "man") retired.
Definition normalizer := item "n" (artifact KIND_NORMALIZER_PROFILE "" "norm") false.
Definition policy := item "p" (artifact KIND_POLICY PolicyPayloadSchema "pol") false.
Definition rule := item "r" (artifact KIND_RULE RulePayloadSchema "rules") false.
Definition gen (id parent : string) (seq : Z) (ms : list (option ReleaseItem)) : AssetGeneration :=
  GenerationStore.Demo.sign (mkAssetGeneration id parent seq "asset" ms "1.2.0" None 0 None).
Definition g1 : AssetGeneration := gen "g1" "" 1 [manifest false; normalizer; policy; rule].
Definition g2 : AssetGeneration := gen "g2" "g1" 2 [manifest false; normalizer; policy].
Definition pub : string := GenerationStore.Demo.pub.
Definition s0 : ReleaseSet := NewReleaseSet "v1.3.1-rc1".
Definition s1 : ReleaseSet := (ApplyGeneration s0 (Some g1) pub None 0).1.
Definition s2 : ReleaseSet := RecordLatency s1 "p" 7.
Definition s3 : ReleaseSet := (ApplyGeneration s2 (Some g2) pub None 0).1.

Example g1_accepted : (ApplyGeneration s0 (Some g1) pub None 0).2 = Ok tt.
Proof. vm_compute. reflexivity. Qed.

(** The second generation drops the rule, keeps the policy's samples. *)
Example two_generations :
  ((ApplyGeneration s0 (Some g1) pub None 0).2, (ApplyGeneration s2 (Some g2) pub None 0).2,
   (map_to_list (releases s1)).*1, (map_to_list (releases s3)).*1, latencies <$> counters s3 !! "p",
   CurrentGenerationSeq s3, ins_ID <$> inspectors s3)
  = (Ok tt, Ok tt, ["r"; "p"], ["p"], Some [7], 2, ["coraza@v4"]).
Proof. vm_compute. reflexivity. Qed.

(** Replaying the first envelope over the second is refused. *)
Example old_generation_refused :
  (ApplyGeneration s3 (Some g1) pub None 0).2 = Err "older generation requires signed rollback".
Proof. vm_compute. reflexivity. Qed.

(** A retired manifest member still satisfies a policy's detector dependency, although no
    inspector is installed: the scan for manifest digests does not look at [Retired]. *)
Definition g_retired : AssetGeneration := gen "g1" "" 1 [manifest true; normalizer; policy].
Example retired_manifest_satisfies_dependency :
  let '(s, r) := ApplyGeneration s0 (Some g_retired) pub None 0 in
  (r, inspectors s, (map_to_list (releases s)).*1) = (Ok tt, [], ["p"]).
Proof. vm_compute. reflexivity. Qed.

Definition plan (v : Z) : UnitListenPlan :=
  let p := mkUnitListenPlan "unit-1" INGRESS_POSTURE_REVERSE_PROXY "key" "" v "0.0.0.0:8080" "http://up.example" None []
             (Some DefaultModelIngressWindow) in
  default p (SignUnitListenPlan (Some p) toy_key 0).1.
Definition s_listen : ReleaseSet := (ApplyListenPlan s0 (Some (plan 4)) pub "unit-1" None).1.
Example listen_versions :
  ((ApplyListenPlan s_listen (Some (plan 5)) pub "unit-1" None).2,
   (ApplyListenPlan s_listen (Some (plan 6)) pub "unit-1" None).2,
   (ApplyListenPlan s_listen (Some (plan 4)) pub "unit-1" None).2)
  = (Ok tt, Err "unit listen plan version must not skip", Ok tt).
Proof. vm_compute. reflexivity. Qed.

Example s2_sequence : GenerationSeq <$> activeGen s2 = Some 1.
Proof. vm_compute. reflexivity. Qed.

Lemma reachable_s2 : rtc edge_step s0 s2.
Proof.
  apply rtc_l with s1; [apply step_generation|]. apply rtc_once. apply step_latency.
Qed.
End Demo.

Lemma reachable_set_inv_witness :
  dom (counters Demo.s2) = dom (releases Demo.s2).
Proof.
  refine (inv_counters (N := ListenPlan.Demo.net) _ (@reachable_set_inv ascii_only_unicode ListenPlan.Demo.net
    Canonical.Demo.decoders toy_crypto substring_regexp Demo.payloads Demo.wire Demo.compiler "v1.3.1-rc1" Demo.s2 _)).
  exact Demo.reachable_s2.
Defined.

Lemma apply_generation_atomic_witness :
  ∃ g', activeGen Demo.s3 = Some g' ∧ GenerationSeq g' = 2.
Proof.
  assert (∀ g, activeGen Demo.s2 = Some g ∨ Some Demo.g2 = Some g → in_s 64 (GenerationSeq g)) as Hty.
  { intros g [E|[= <-]]; [|split; vm_compute; congruence].
    pose proof Demo.s2_sequence as Hq. rewrite E in Hq. injection Hq as ->. split; vm_compute; congruence. }
  pose proof (@apply_generation_atomic ascii_only_unicode Canonical.Demo.decoders toy_crypto substring_regexp Demo.payloads
    Demo.wire Demo.compiler Demo.s2 (Some Demo.g2) Demo.pub None 0 Hty) as H.
  unfold Demo.s3.
  destruct (ApplyGeneration _ _ _ _ _) as [s' r] eqn:E. destruct H as [_ H].
  assert (r = Ok tt) as Hr by (transitivity (s', r).2; [done|]; rewrite <-E; vm_compute; reflexivity).
  destruct (H Hr) as (g & g' & Hg & Ha & Hs & _). exists g'. split; [done|]. injection Hg as <-. exact Hs.
Defined.

Lemma generation_dependencies_witness :
  dependencies_met (P := Demo.payloads) (D := Canonical.Demo.decoders) (C := toy_crypto) Demo.g1 (profile Demo.s1) Demo.cand.
Proof.
  assert (∃ rel, releases Demo.s1 !! "p" = Some rel ∧ mr_policy rel = Some Demo.cand) as (rel & Hr & Hp).
  { eexists. split; vm_compute; reflexivity. }
  refine (@generation_dependencies ascii_only_unicode Canonical.Demo.decoders toy_crypto substring_regexp Demo.payloads
    Demo.wire Demo.compiler Demo.s0 Demo.g1 Demo.pub None 0 Demo.s1 "p" rel Demo.cand _ Hr Hp).
  exact (pair_of_snd _ _ Demo.g1_accepted).
Defined.

Lemma apply_listen_plan_monotone_witness :
  ∃ p, listen (ApplyListenPlan (N := ListenPlan.Demo.net) (C := toy_crypto)
         Demo.s_listen (Some (Demo.plan 5)) Demo.pub "unit-1" None).1 = Some p ∧ lp_UnitId p = "unit-1".
Proof.
  assert (∀ cur, listen Demo.s_listen = Some cur → in_u 64 (lp_Version cur)) as Hty.
  { intros cur E. vm_compute in E. injection E as <-. split; vm_compute; congruence. }
  pose proof (@apply_listen_plan_monotone ListenPlan.Demo.net toy_crypto Demo.s_listen
    (Some (Demo.plan 5)) Demo.pub "unit-1" None Hty) as H.
  destruct (ApplyListenPlan _ _ _ _ _) as [s' r] eqn:E. destruct H as [_ H].
  assert (r = Ok tt) as Hr by (transitivity (s', r).2; [done|]; rewrite <-E; vm_compute; reflexivity).
  destruct (H Hr) as (p & _ & Hl & Hu & _). by exists p.
Defined.

Lemma p99_is_percentile_witness : p99 (mkCounter 0 0 0 0 [30; 10; 20]) ∈ [30; 10; 20].
Proof. refine (proj1 (p99_is_percentile (mkCounter 0 0 0 0 [30; 10; 20]) _)). discriminate. Defined.

Lemma replay_deterministic_witness :
  (Replay (U := ascii_only_unicode) (D := Canonical.Demo.decoders) (C := toy_crypto) Demo.s1
     (map_to_list (releases Demo.s1)) (Shape.Demo.view "") 0).1 =
  (Replay (U := ascii_only_unicode) (D := Canonical.Demo.decoders) (C := toy_crypto) Demo.s2
     (reverse (map_to_list (releases Demo.s2))) (Shape.Demo.view "") 1).1.
Proof.
  refine (proj1 (@replay_deterministic ascii_only_unicode Canonical.Demo.decoders toy_crypto Demo.s1 Demo.s2 _ _ _ _ _ _ _ _ _)).
  - split_and!; reflexivity.
  - reflexivity.
  - apply reverse_Permutation.
  - assert (map_Forall (λ _ r, mr_expiresAt r = defaultReleaseTTL) (releases Demo.s1)) as H.
    { apply (bool_decide_unpack _). vm_compute. done. }
    intros id r Hr. rewrite (H id r Hr). reflexivity.
Defined.
