(* ===== verification/ModelIngress.v ===== *)
(** * The model ingress queue (lib/edgecore/model_bypass.go)

    A window of request copies waiting for the neighbouring model process, bounded in
    items, retained bytes and age.  It is a ring buffer with byte accounting that is shared
    between queued and leased (in-flight) items, one reference count per model profile, and
    a drop counter per cause.  Operations run under one mutex, so each is a function on the
    state; a run-time panic (nil item or nil reference) is [None].  The waiting loop of
    [TakeBatch] is split into its critical section, [take_once]. *)

From stdpp Require Import sorting.
From S2P Require Import Prelude GoStrings Contracts Canonical ModelContracts.

(** ** Data *)

(** A Go slice: contents and capacity. *)
Record slice (A : Type) := mkSlice { elems : list A; cap : Z }.
Arguments mkSlice {A}. Arguments elems {A}. Arguments cap {A}.

Record StringValues := mkStringValues { sv_Name : string; sv_Values : slice string }.
Record InspectionCoverage := mkInspectionCoverage {
  ic_Target : InspectionSurface; ic_Status : CoverageStatus; ic_InspectedBytes : Z; ic_TotalBytesKnown : Z;
  ic_ParserProfileDigest : string;
}.
Record NormalizedTraffic := mkNormalizedTraffic {
  nt_SchemaVersion : string; nt_RequestId : string; nt_UnitId : string; nt_AssetId : string;
  nt_GenerationId : string; nt_GenerationSeq : Z; nt_ModelProfileId : string; nt_ModelProfileDigest : string;
  nt_Method : string; nt_Route : string; nt_Headers : slice StringValues; nt_QueryParameters : slice StringValues;
  nt_Body : slice ascii; nt_ContentType : string; nt_BodyLength : Z; nt_BodyTruncated : bool;
  nt_Coverage : slice InspectionCoverage; nt_OccurredAt : time;
}.

(** A model profile as the queue holds it: with the capacity of its header slice. *)
Record held_profile := mkHeldProfile { hp_profile : ModelProfile; hp_headers_cap : Z }.

Record ModelIngressItem := mkModelIngressItem {
  mi_Profile : option held_profile; mi_Traffic : option NormalizedTraffic;
  entryBytes : Z; item_profileBytes : Z; enqueuedAt : time;
}.
Record modelIngressProfileRef := mkRef { ref_queued : Z; ref_inFlight : Z; ref_bytes : Z }.
Record ModelIngressBatch := mkBatch {
  b_Profile : option held_profile; b_ProfileDigest : string; b_items : list ModelIngressItem; b_completed : bool;
}.

Inductive drop_kind :=
  | EvictedOldest | Expired | ItemTooLarge | InFlightCapacity | TransportFailed | ModelsideRejected | AdmissionBudget.
#[global] Instance drop_kind_eq_dec : EqDecision drop_kind. Proof. solve_decision. Defined.
Record ModelIngressDropCounters := mkDrops {
  d_EvictedOldest : Z; d_Expired : Z; d_ItemTooLarge : Z; d_InFlightCapacity : Z; d_TransportFailed : Z;
  d_ModelsideRejected : Z; d_AdmissionBudget : Z;
}.
Definition no_drops : ModelIngressDropCounters := mkDrops 0 0 0 0 0 0 0.

Inductive ModelIngressDegradationReason := REASON_MAX_ITEMS | REASON_MAX_RETAINED_BYTES | REASON_MAX_QUEUE_AGE.
Inductive ModelIngressWindowState := STATE_APPLIED | STATE_DEGRADED | STATE_CONVERGING | STATE_DISABLED.

Definition modelIngressRequestPathEvictionLimit : Z := 32.
Definition ModelIngressBatchMaxBytes : Z := 4 * 2 ^ 20.

(** The ring buffer, the accounting, the configuration and the drop counters of
    [ModelIngressQueue]; [q_notify] tells whether the channel of capacity one is full. *)
Record ring := mkRing { entries : list (option ModelIngressItem); head : nat; count : nat }.
Record account := mkAccount {
  queuedBytes : Z; inFlightItems : Z; inFlightBytes : Z; profileBytes : Z;
  profiles : gmap string modelIngressProfileRef;
}.
Record config := mkConfig {
  desired : ModelIngressWindow; effective : ModelIngressWindow; hardLimit : ModelIngressWindow;
  reasons : list ModelIngressDegradationReason;
}.
Record ModelIngressQueue := mkQueue {
  q_ring : ring; q_acct : account; q_cfg : config; q_drops : ModelIngressDropCounters; q_dropped : Z; q_notify : bool;
}.

(** ** Retained bytes *)

Definition sum_u64 (l : list Z) : Z := foldl (λ a b, u64 (a + b)) 0 l.

Definition modelIngressStringBytes (vs : list string) : Z := sum_u64 (str_len <$> vs).

Definition modelIngressStringValuesRetainedBytes (v : StringValues) : Z :=
  foldl (λ a s, u64 (a + str_len s)) (u64 (48 + str_len (sv_Name v) + cap (sv_Values v) * 16)) (elems (sv_Values v)).

Definition modelIngressTrafficRetainedBytes (t : option NormalizedTraffic) : Z :=
  match t with
  | None => 0
  | Some t =>
      let b := u64 (256 + cap (nt_Body t)) in
      let b := u64 (b + modelIngressStringBytes
        [nt_SchemaVersion t; nt_RequestId t; nt_UnitId t; nt_AssetId t; nt_GenerationId t; nt_ModelProfileId t;
         nt_ModelProfileDigest t; nt_Method t; nt_Route t; nt_ContentType t]) in
      let b := u64 (b + u64 (cap (nt_Headers t) + cap (nt_QueryParameters t) + cap (nt_Coverage t)) * 8) in
      let b := foldl (λ a v, u64 (a + modelIngressStringValuesRetainedBytes v)) b (elems (nt_Headers t)) in
      let b := foldl (λ a v, u64 (a + modelIngressStringValuesRetainedBytes v)) b (elems (nt_QueryParameters t)) in
      foldl (λ a c, u64 (a + u64 (64 + str_len (ic_ParserProfileDigest c)))) b (elems (nt_Coverage t))
  end.

Definition modelIngressProfileRetainedBytes (p : option held_profile) : Z :=
  match p with
  | None => 0
  | Some hp =>
      let p := hp_profile hp in
      let b := u64 (192 + modelIngressStringBytes [ProfileId p; ModelGroup p; ModelType p; ModelVersion p]) in
      let b := u64 (b + u64 (hp_headers_cap hp * 16)) in
      foldl (λ a h, u64 (a + str_len h)) b (AllowedHeaders p)
  end.

Definition item_digest (it : ModelIngressItem) : string := default "" (nt_ModelProfileDigest <$> mi_Traffic it).

(** ** Helpers under the lock *)

Definition set_ring (q : ModelIngressQueue) (r : ring) : ModelIngressQueue :=
  mkQueue r (q_acct q) (q_cfg q) (q_drops q) (q_dropped q) (q_notify q).
Definition set_acct (q : ModelIngressQueue) (a : account) : ModelIngressQueue :=
  mkQueue (q_ring q) a (q_cfg q) (q_drops q) (q_dropped q) (q_notify q).
Definition signalLocked (q : ModelIngressQueue) : ModelIngressQueue :=
  mkQueue (q_ring q) (q_acct q) (q_cfg q) (q_drops q) (q_dropped q) true.

Definition add_drop (k : drop_kind) (n : Z) (d : ModelIngressDropCounters) : ModelIngressDropCounters :=
  let bump k' x := if bool_decide (k = k') then u64 (x + n) else x in
  mkDrops (bump EvictedOldest (d_EvictedOldest d)) (bump Expired (d_Expired d)) (bump ItemTooLarge (d_ItemTooLarge d))
    (bump InFlightCapacity (d_InFlightCapacity d)) (bump TransportFailed (d_TransportFailed d))
    (bump ModelsideRejected (d_ModelsideRejected d)) (bump AdmissionBudget (d_AdmissionBudget d)).

Definition recordDropLocked (q : ModelIngressQueue) (k : drop_kind) (n : Z) : ModelIngressQueue :=
  mkQueue (q_ring q) (q_acct q) (q_cfg q) (add_drop k n (q_drops q)) (u64 (q_dropped q + n)) (q_notify q).

Definition snapshot_dropped (d : ModelIngressDropCounters) : Z :=
  sum_u64 [d_EvictedOldest d; d_Expired d; d_ItemTooLarge d; d_InFlightCapacity d; d_TransportFailed d;
           d_ModelsideRejected d; d_AdmissionBudget d].

Definition totalBytesLocked (a : account) : Z := u64 (u64 (queuedBytes a + inFlightBytes a) + profileBytes a).

Definition removeProfileIfUnusedLocked (a : account) (digest : string) (ref : modelIngressProfileRef) : account :=
  if (ref_queued ref =? 0) && (ref_inFlight ref =? 0)
  then mkAccount (queuedBytes a) (inFlightItems a) (inFlightBytes a) (u64 (profileBytes a - ref_bytes ref))
         (delete digest (profiles a))
  else mkAccount (queuedBytes a) (inFlightItems a) (inFlightBytes a) (profileBytes a) (<[digest := ref]> (profiles a)).

Definition ring_first (r : ring) : option ModelIngressItem := entries r !! head r ≫= id.
Definition ring_pop (r : ring) : ring :=
  mkRing (<[head r := None]> (entries r)) ((head r + 1) mod length (entries r)) (count r - 1).

(** The oldest queued item's account is released. *)
Definition release_queued (a : account) (it : ModelIngressItem) : account :=
  let a := mkAccount (u64 (queuedBytes a - entryBytes it)) (inFlightItems a) (inFlightBytes a) (profileBytes a) (profiles a) in
  match profiles a !! item_digest it with
  | None => a
  | Some ref => removeProfileIfUnusedLocked a (item_digest it) (mkRef (u64 (ref_queued ref - 1)) (ref_inFlight ref) (ref_bytes ref))
  end.

Definition evictOldestLocked (q : ModelIngressQueue) (k : drop_kind) : option ModelIngressQueue :=
  it ← ring_first (q_ring q);
  Some (recordDropLocked (set_acct (set_ring q (ring_pop (q_ring q))) (release_queued (q_acct q) it)) k 1).

Definition fitsWindowLocked (q : ModelIngressQueue) (it : ModelIngressItem) (digest : string) (w : ModelIngressWindow) : bool :=
  let a := q_acct q in
  if MaxItems w <? u64 (u64 (Z.of_nat (count (q_ring q)) + inFlightItems a) + 1) then false
  else
    let b := u64 (totalBytesLocked a + entryBytes it) in
    let b := if bool_decide (profiles a !! digest = None) then u64 (b + item_profileBytes it) else b in
    b <=? MaxRetainedBytes w.
Definition fitsLocked (q : ModelIngressQueue) (it : ModelIngressItem) (digest : string) : bool :=
  fitsWindowLocked q it digest (effective (q_cfg q)).

Definition exceedsEffectiveLocked (q : ModelIngressQueue) : bool :=
  (MaxItems (effective (q_cfg q)) <? u64 (Z.of_nat (count (q_ring q)) + inFlightItems (q_acct q)))
  || (MaxRetainedBytes (effective (q_cfg q)) <? totalBytesLocked (q_acct q)).

(** [GetMaxQueueAge().AsDuration()] of a window. *)
Definition queue_age (w : ModelIngressWindow) : duration := default 0 (AsDuration <$> MaxQueueAge w).

Definition headExpiredLocked (q : ModelIngressQueue) (now : time) : option bool :=
  if bool_decide (count (q_ring q) = 0%nat) then Some false
  else it ← ring_first (q_ring q); Some (queue_age (effective (q_cfg q)) <? time_sub now (enqueuedAt it)).

(** The loop of [evictExpiredLocked]; every round lowers [count], which is its fuel. *)
Fixpoint evict_expired (fuel : nat) (q : ModelIngressQueue) (now : time) (limit evicted : Z) : option (ModelIngressQueue * Z) :=
  match fuel with
  | O => Some (q, evicted)
  | S fuel' =>
      if (0 <? limit) && (limit <=? evicted) then Some (q, evicted)
      else
        it ← ring_first (q_ring q);
        if time_sub now (enqueuedAt it) <=? queue_age (effective (q_cfg q)) then Some (q, evicted)
        else q' ← evictOldestLocked q Expired; evict_expired fuel' q' now limit (evicted + 1)
  end.
Definition evictExpiredLocked (q : ModelIngressQueue) (now : time) (limit : Z) : option (ModelIngressQueue * Z) :=
  evict_expired (count (q_ring q)) q now limit 0.

(** The loop of [cleanupExpired], a critical section per round. *)
Fixpoint cleanup_loop (fuel : nat) (q : ModelIngressQueue) (now : time) : option ModelIngressQueue :=
  match fuel with
  | O => Some q
  | S fuel' =>
      '(q', _) ← evictExpiredLocked q now modelIngressRequestPathEvictionLimit;
      more ← headExpiredLocked q' now;
      if more : bool then cleanup_loop fuel' q' now else Some q'
  end.
Definition cleanupExpired (q : ModelIngressQueue) (now : time) : option ModelIngressQueue :=
  cleanup_loop (S (count (q_ring q))) q now.

(** ** Configuration *)

Definition Configure (q : ModelIngressQueue) (w : option ModelIngressWindow) : ModelIngressQueue * result unit :=
  match NormalizeModelIngressWindow w with
  | Err e => (q, Err e)
  | Ok n =>
      let hard := hardLimit (q_cfg q) in
      let age := if queue_age hard <? queue_age n then MaxQueueAge hard else MaxQueueAge n in
      let eff := mkModelIngressWindow (Z.min (MaxItems n) (MaxItems hard))
                   (Z.min (MaxRetainedBytes n) (MaxRetainedBytes hard)) age in
      let rs := (if MaxItems hard <? MaxItems n then [REASON_MAX_ITEMS] else []) ++
                (if MaxRetainedBytes hard <? MaxRetainedBytes n then [REASON_MAX_RETAINED_BYTES] else []) ++
                (if queue_age hard <? queue_age n then [REASON_MAX_QUEUE_AGE] else []) in
      (signalLocked (mkQueue (q_ring q) (q_acct q) (mkConfig n eff hard rs) (q_drops q) (q_dropped q) (q_notify q)), Ok tt)
  end.

Definition NewModelIngressQueueWithHardLimit (w : option ModelIngressWindow) : result ModelIngressQueue :=
  let! hard := NormalizeModelIngressWindow w in
  let q := mkQueue (mkRing (replicate (Z.to_nat (MaxItems hard)) None) 0 0) (mkAccount 0 0 0 0 ∅)
             (mkConfig hard hard hard []) no_drops 0 false in
  match Configure q (Some DefaultModelIngressWindow) with
  | (_, Err e) => Err e
  | (q', Ok _) => Ok q'
  end.

(** ** Producer *)

(** The loop of [Offer] that evicts the oldest items until the new one fits. *)
Fixpoint make_room (fuel : nat) (q : ModelIngressQueue) (it : ModelIngressItem) (digest : string) (evicted : Z)
    : option ModelIngressQueue :=
  match fuel with
  | O => Some q
  | S fuel' =>
      if negb (fitsLocked q it digest) && (evicted <? modelIngressRequestPathEvictionLimit)
      then q' ← evictOldestLocked q EvictedOldest; make_room fuel' q' it digest (evicted + 1)
      else Some q
  end.

Definition enqueue (q : ModelIngressQueue) (it : ModelIngressItem) (digest : string) : option ModelIngressQueue :=
  let r := q_ring q in let a := q_acct q in
  let tail := ((head r + count r) mod length (entries r))%nat in
  if bool_decide (tail < length (entries r))%nat then
    let r' := mkRing (<[tail := Some it]> (entries r)) (head r) (count r + 1) in
    let ref := default (mkRef 0 0 (item_profileBytes it)) (profiles a !! digest) in
    let pb := if bool_decide (profiles a !! digest = None) then u64 (profileBytes a + item_profileBytes it) else profileBytes a in
    let a' := mkAccount (u64 (queuedBytes a + entryBytes it)) (inFlightItems a) (inFlightBytes a) pb
                (<[digest := mkRef (u64 (ref_queued ref + 1)) (ref_inFlight ref) (ref_bytes ref)]> (profiles a)) in
    Some (signalLocked (set_acct (set_ring q r') a'))
  else None.

(** The item with the fields that [Offer] fills in. *)
Definition stamp (it : ModelIngressItem) (now : time) : ModelIngressItem :=
  mkModelIngressItem (mi_Profile it) (mi_Traffic it) (modelIngressTrafficRetainedBytes (mi_Traffic it))
    (modelIngressProfileRetainedBytes (mi_Profile it)) now.

Definition Offer (q : ModelIngressQueue) (item : option ModelIngressItem) (now : time) : option (ModelIngressQueue * bool) :=
  match item with
  | None => Some (q, false)
  | Some it =>
      if bool_decide (mi_Profile it = None) || bool_decide (mi_Traffic it = None) then Some (q, false)
      else
        let digest := trim_space (item_digest it) in
        if bool_decide (digest = "") then Some (q, false)
        else
          let it := stamp it now in
          '(q1, evicted) ← evictExpiredLocked q now modelIngressRequestPathEvictionLimit;
          if MaxRetainedBytes (effective (q_cfg q1)) <? u64 (entryBytes it + item_profileBytes it)
          then Some (recordDropLocked q1 ItemTooLarge 1, false)
          else
            q2 ← make_room (count (q_ring q1)) q1 it digest evicted;
            if negb (fitsLocked q2 it digest)
               && (bool_decide (count (q_ring q2) = 0%nat) || negb (exceedsEffectiveLocked q2)
                   || negb (fitsWindowLocked q2 it digest (hardLimit (q_cfg q2))))
            then Some (recordDropLocked q2 (if bool_decide (count (q_ring q2) = 0%nat) then InFlightCapacity else AdmissionBudget) 1, false)
            else q3 ← enqueue q2 it digest; Some (q3, true)
  end.

Definition DropOldest (q : ModelIngressQueue) : option ModelIngressQueue :=
  if bool_decide (count (q_ring q) = 0%nat) then Some q else evictOldestLocked q EvictedOldest.
Definition MarkDropped (q : ModelIngressQueue) : ModelIngressQueue := recordDropLocked q TransportFailed 1.
Definition Dropped (q : ModelIngressQueue) : Z := q_dropped q.
Definition Depth (q : ModelIngressQueue) : nat := count (q_ring q).

(** ** Consumer *)

(** The items from the head, as the ring holds them. *)
Definition ring_at (r : ring) (i : nat) : option ModelIngressItem :=
  entries r !! ((head r + i) mod length (entries r))%nat ≫= id.

Fixpoint batch_ready_loop (todo index : nat) (r : ring) (digest : string) (bytes : Z) (maxItems : nat) (maxBytes : Z) : option bool :=
  match todo with
  | O => Some false
  | S todo' =>
      if bool_decide (maxItems ≤ index)%nat then Some false
      else
        it ← ring_at r index;
        if negb (bool_decide (item_digest it = digest)) then Some true
        else if maxBytes <? u64 (bytes + entryBytes it) then Some true
        else if bool_decide (index + 1 = maxItems)%nat then Some true
        else batch_ready_loop todo' (index + 1) r digest (u64 (bytes + entryBytes it)) maxItems maxBytes
  end.
Definition batchReadyLocked (q : ModelIngressQueue) (maxItems : nat) (maxBytes : Z) : option bool :=
  let r := q_ring q in
  if bool_decide (count r = 0%nat) then Some false
  else first ← ring_first r;
       batch_ready_loop (count r) 0 r (item_digest first) (item_profileBytes first) maxItems maxBytes.

Fixpoint drop_large (fuel : nat) (q : ModelIngressQueue) (maxBytes : Z) : option ModelIngressQueue :=
  match fuel with
  | O => Some q
  | S fuel' =>
      first ← ring_first (q_ring q);
      if u64 (item_profileBytes first + entryBytes first) <=? maxBytes then Some q
      else q' ← evictOldestLocked q ItemTooLarge; drop_large fuel' q' maxBytes
  end.

(** The head item moves from the queued to the in-flight account; a missing reference is
    dereferenced, as in the code. *)
Definition lease_head (q : ModelIngressQueue) (it : ModelIngressItem) (digest : string) : option ModelIngressQueue :=
  let a := q_acct q in
  ref ← profiles a !! digest;
  Some (set_acct (set_ring q (ring_pop (q_ring q)))
    (mkAccount (u64 (queuedBytes a - entryBytes it)) (u64 (inFlightItems a + 1)) (u64 (inFlightBytes a + entryBytes it))
       (profileBytes a) (<[digest := mkRef (u64 (ref_queued ref - 1)) (u64 (ref_inFlight ref + 1)) (ref_bytes ref)]> (profiles a)))).

Fixpoint lease_loop (fuel : nat) (q : ModelIngressQueue) (digest : string) (items : list ModelIngressItem) (bytes : Z)
    (maxItems : nat) (maxBytes : Z) : option (ModelIngressQueue * list ModelIngressItem) :=
  match fuel with
  | O => Some (q, items)
  | S fuel' =>
      if bool_decide (maxItems ≤ length items)%nat then Some (q, items)
      else
        it ← ring_first (q_ring q);
        if negb (bool_decide (item_digest it = digest))
           || (negb (bool_decide (items = [])) && (maxBytes <? u64 (bytes + entryBytes it)))
        then Some (q, items)
        else q' ← lease_head q it digest;
             lease_loop fuel' q' digest (items ++ [it]) (u64 (bytes + entryBytes it)) maxItems maxBytes
  end.

Definition leaseBatchLocked (q : ModelIngressQueue) (maxItems : nat) (maxBytes : Z)
    : option (ModelIngressQueue * option ModelIngressBatch) :=
  q1 ← drop_large (count (q_ring q)) q maxBytes;
  if bool_decide (count (q_ring q1) = 0%nat) then Some (q1, None)
  else
    first ← ring_first (q_ring q1);
    '(q2, items) ← lease_loop (count (q_ring q1)) q1 (item_digest first) [] (item_profileBytes first) maxItems maxBytes;
    Some (q2, Some (mkBatch (mi_Profile first) (item_digest first) items false)).

(** One round of the loop of [TakeBatch]: it starts over at once, returns, or blocks until
    a signal, the context's end or the deadline. *)
Inductive take_outcome := TakeAgain | TakeReturn (b : option ModelIngressBatch) | TakeBlock (deadline : option time).

Definition take_once (q : ModelIngressQueue) (now : time) (deadline : option time) (maxItems : nat) (maxBytes : Z) (maxWait : duration)
    : option (ModelIngressQueue * option time * take_outcome) :=
  '(q1, _) ← evictExpiredLocked q now modelIngressRequestPathEvictionLimit;
  expired ← headExpiredLocked q1 now;
  let lease d := ('(q2, b) ← leaseBatchLocked q1 maxItems maxBytes; Some (q2, d, TakeReturn b)) in
  let wait (d : option time) :=
    Some (q1, d, match d with
                 | Some t => if time_sub t now <=? 0 then TakeAgain else TakeBlock (Some t)
                 | None => TakeBlock None
                 end) in
  if expired : bool then Some (q1, deadline, TakeAgain)
  else if bool_decide (count (q_ring q1) = 0%nat) then wait deadline
  else if maxWait <=? 0 then lease deadline
  else
    let d := default (now + maxWait) deadline in
    ready ← batchReadyLocked q1 maxItems maxBytes;
    if ready || negb (time_before now d) then lease (Some d) else wait (Some d).

(** [TakeBatch] with the clock readings of its rounds and, per round that blocks, whether
    the context ended; [None] in the result is a loop that has not returned yet. *)
Fixpoint take_rounds (q : ModelIngressQueue) (deadline : option time) (rounds : list (time * bool)) (maxItems : nat)
    (maxBytes : Z) (maxWait : duration) : option (ModelIngressQueue * option time * option (option ModelIngressBatch)) :=
  match rounds with
  | [] => Some (q, deadline, None)
  | (now, cancelled) :: rounds' =>
      '(q', d, o) ← take_once q now deadline maxItems maxBytes maxWait;
      match o with
      | TakeReturn b => Some (q', d, Some b)
      | TakeAgain => take_rounds q' d rounds' maxItems maxBytes maxWait
      | TakeBlock _ => if cancelled : bool then Some (q', d, Some None) else take_rounds q' d rounds' maxItems maxBytes maxWait
      end
  end.
Definition TakeBatch (q : ModelIngressQueue) (rounds : list (time * bool)) (maxItems : Z) (maxBytes : Z) (maxWait : duration)
    : option (ModelIngressQueue * option time * option (option ModelIngressBatch)) :=
  if (maxItems <? 1) || (maxBytes =? 0) then Some (q, None, Some None)
  else take_rounds q None rounds (Z.to_nat maxItems) maxBytes maxWait.

(** The loop of [CompleteBatch] over the items of the batch. *)
Definition complete_item (a : account) (it : ModelIngressItem) : account :=
  let a := mkAccount (queuedBytes a) (u64 (inFlightItems a - 1)) (u64 (inFlightBytes a - entryBytes it)) (profileBytes a) (profiles a) in
  match profiles a !! item_digest it with
  | None => a
  | Some ref => removeProfileIfUnusedLocked a (item_digest it) (mkRef (ref_queued ref) (u64 (ref_inFlight ref - 1)) (ref_bytes ref))
  end.

Definition CompleteBatch (q : ModelIngressQueue) (b : option ModelIngressBatch) (accepted : Z) (transportFailed : bool)
    : ModelIngressQueue * option ModelIngressBatch :=
  match b with
  | None => (q, None)
  | Some b =>
      if b_completed b then (q, Some b)
      else
        let n := Z.of_nat (length (b_items b)) in
        let q1 := if transportFailed then recordDropLocked q TransportFailed n
                  else if accepted <? n then recordDropLocked q ModelsideRejected (n - accepted) else q in
        (signalLocked (set_acct q1 (foldl complete_item (q_acct q1) (b_items b))),
         Some (mkBatch (b_Profile b) (b_ProfileDigest b) (b_items b) true))
  end.

Definition Take (q : ModelIngressQueue) (rounds : list (time * bool)) : option (ModelIngressQueue * option (option ModelIngressItem)) :=
  '(q', _, r) ← TakeBatch q rounds 1 ModelIngressBatchMaxBytes 0;
  match r with
  | None => Some (q', None)
  | Some None => Some (q', Some None)
  | Some (Some b) => it ← b_items b !! 0%nat; Some ((CompleteBatch q' (Some b) 1 false).1, Some (Some it))
  end.

(** ** Observation *)

Record ModelIngressSnapshot := mkSnapshot {
  s_Desired : option ModelIngressWindow; s_Effective : option ModelIngressWindow; s_State : ModelIngressWindowState;
  s_Reasons : list ModelIngressDegradationReason; s_QueuedItems : Z; s_QueuedBytes : Z; s_InFlightItems : Z;
  s_InFlightBytes : Z; s_OldestAge : duration; s_Drops : option ModelIngressDropCounters;
}.

(** [range q.profiles] in any order: the sums do not depend on it. *)
Definition partition_step (acc : Z * Z) (ref : modelIngressProfileRef) : Z * Z :=
  if 0 <? ref_queued ref then (u64 (acc.1 + ref_bytes ref), acc.2) else (acc.1, u64 (acc.2 + ref_bytes ref)).
Definition partitionedBytesLocked (a : account) (order : list (string * modelIngressProfileRef)) : Z * Z :=
  foldl partition_step (queuedBytes a, inFlightBytes a) order.*2.

Definition stateLocked (q : ModelIngressQueue) (now : time) : option ModelIngressWindowState :=
  if exceedsEffectiveLocked q then Some STATE_CONVERGING
  else expired ← headExpiredLocked q now;
       Some (if expired : bool then STATE_CONVERGING
             else if bool_decide (reasons (q_cfg q) = []) then STATE_APPLIED else STATE_DEGRADED).

Definition Snapshot (q : ModelIngressQueue) (order : account → list (string * modelIngressProfileRef)) (now : time)
    : option (ModelIngressQueue * ModelIngressSnapshot) :=
  q1 ← cleanupExpired q now;
  let '(qb, fb) := partitionedBytesLocked (q_acct q1) (order (q_acct q1)) in
  st ← stateLocked q1 now;
  age ← (if bool_decide (count (q_ring q1) = 0%nat) then Some 0
         else it ← ring_first (q_ring q1); Some (Z.max 0 (time_sub now (enqueuedAt it))));
  Some (q1, mkSnapshot (Some (desired (q_cfg q1))) (Some (effective (q_cfg q1))) st (reasons (q_cfg q1))
    (Z.of_nat (count (q_ring q1))) qb (inFlightItems (q_acct q1)) fb age (Some (q_drops q1))).

(** ** Building an item from a canonical view *)

Fixpoint headerValuesFold {U : Unicode} (order : header_order) (name : string) : list string :=
  match order with
  | [] => []
  | (k, vs) :: order' => if equal_fold k name then vs else headerValuesFold order' name
  end.
Definition firstHeaderValue {U : Unicode} (order : header_order) (name : string) : string :=
  match headerValuesFold order name with [] => "" | v :: _ => v end.

Definition modelBodyLength (view : CanonicalView) : Z :=
  match list_find (λ c, cov_Target c = INSPECTION_SURFACE_BODY) (v_Coverage view) with
  | Some (_, c) => if 0 <? cov_Total c then cov_Total c else str_len (v_Body view)
  | None => str_len (v_Body view)
  end.
Definition modelBodyPartial (view : CanonicalView) : bool :=
  existsb (λ c, bool_decide (cov_Target c = INSPECTION_SURFACE_BODY) && bool_decide (cov_Status c = COVERAGE_STATUS_PARTIAL))
    (v_Coverage view).
Definition modelCoverage (view : CanonicalView) : list InspectionCoverage :=
  (λ c, mkInspectionCoverage (cov_Target c) (cov_Status c) (cov_Inspected c) (cov_Total c) (v_ProfileDigest view)) <$> v_Coverage view.

(** Slices that [append] grows from nil have the capacity [grow] gives for their length;
    those of [make] have the one they ask for; [bodyCap] is the capacity of the view's body. *)
Definition grown (grow : nat → Z) (l : list string) : slice string := mkSlice l (grow (length l)).

Definition allowedModelHeaders {U : Unicode} (grow : nat → Z) (order : header_order) (allowed : list string) : slice StringValues :=
  let names := sort_strings allowed in
  mkSlice (omap (λ name, match headerValuesFold order name with
                         | [] => None
                         | vs => Some (mkStringValues (to_lower name) (grown grow vs))
                         end) names) (Z.of_nat (length names)).

Definition modelQueryParameters (grow : nat → Z) (view : CanonicalView) : slice StringValues :=
  let q := default ∅ (v_Query view) in
  let names := sort_strings (elements (dom q)) in
  mkSlice ((λ name, mkStringValues name (grown grow (default [] (q !! name)))) <$> names) (Z.of_nat (length names)).

Definition NormalizedModelTrafficSchema : string := "normalized-http/v1".

Definition NewNormalizedModelTraffic {U : Unicode} (grow : nat → Z) (bodyCap : Z) (order : header_order)
    (requestID unitID assetID generationID : string) (generationSeq : Z) (profile : option held_profile)
    (profileDigest : string) (view : CanonicalView) (now : time) : option ModelIngressItem :=
  match profile with
  | None => None
  | Some hp =>
      if bool_decide (trim_space profileDigest = "") || bool_decide (trim_space generationID = "") || (generationSeq <=? 0)
      then None
      else
        let p := hp_profile hp in
        let cut := (0 <? MaxBodyBytes p) && (MaxBodyBytes p <? str_len (v_Body view)) in
        let body := if cut then str_take (Z.to_nat (MaxBodyBytes p)) (v_Body view) else v_Body view in
        let t := mkNormalizedTraffic NormalizedModelTrafficSchema requestID unitID assetID generationID generationSeq
                   (ProfileId p) profileDigest (to_upper (trim_space (v_Method view))) (v_Path view)
                   (allowedModelHeaders grow order (AllowedHeaders p)) (modelQueryParameters grow view)
                   (mkSlice (String.list_ascii_of_string body) bodyCap) (firstHeaderValue order "content-type")
                   (modelBodyLength view) (cut || modelBodyPartial view)
                   (mkSlice (modelCoverage view) (Z.of_nat (length (v_Coverage view)))) now in
        Some (mkModelIngressItem (Some hp) (Some t) 0 0 0)
  end.
