(* ===== verification/ModelIngressProofs.v ===== *)
(** * Correctness of the model ingress queue

    The ring buffer holds a list; the byte and reference accounting is exact for the items
    queued and in flight; every operation keeps this invariant, stays within the hard limit
    and does not panic.  The queue is compared with a reference window on plain lists
    ([w_exec]), whose sizes are recomputed from the items: over any sequence of critical
    sections both give the same answers and end in the same state.  Clock readings are
    arbitrary, since callers read the clock before they take the lock.  [TakeBatch] can
    spin: see [take_batch_spins]. *)

From stdpp Require Import sorting.
From S2P Require Import Prelude GoStrings Contracts Canonical ModelContracts ModelIngress.

(** ** The ring buffer refines a list *)

(** [ring_ok r l]: the ring holds the items [l], oldest first. *)
Definition ring_ok (r : ring) (l : list ModelIngressItem) : Prop :=
  (head r < length (entries r))%nat ∧ count r = length l ∧ (length l ≤ length (entries r))%nat ∧
  ∀ i x, l !! i = Some x → entries r !! ((head r + i) mod length (entries r))%nat = Some (Some x).

(** The items in the queue, oldest first. *)
Definition contents (q : ModelIngressQueue) : list ModelIngressItem := omap (ring_at (q_ring q)) (seq 0 (count (q_ring q))).

Lemma mod_shift_ne h i n : (h < n → 0 < i → i < n → (h + i) mod n ≠ h)%nat.
Proof.
  intros Hh Hi Hn E. destruct (decide (h + i < n)%nat).
  - rewrite Nat.mod_small in E by done. lia.
  - assert ((h + i) mod n = h + i - n)%nat as E'; [|lia].
    replace (h + i)%nat with ((h + i - n) + 1 * n)%nat at 1 by lia. rewrite Nat.Div0.mod_add. apply Nat.mod_small. lia.
Qed.

Lemma ring_first_ok r x l : ring_ok r (x :: l) → ring_first r = Some x.
Proof.
  intros (Hh & _ & _ & Hl). specialize (Hl 0%nat x eq_refl). rewrite Nat.add_0_r, Nat.mod_small in Hl by done.
  unfold ring_first. by rewrite Hl.
Qed.

Lemma ring_at_ok r l i : ring_ok r l → (i < length l)%nat → ring_at r i = l !! i.
Proof.
  intros (_ & _ & _ & Hl) Hi. destruct (lookup_lt_is_Some_2 l i Hi) as [x Hx]. unfold ring_at. by rewrite (Hl i x Hx).
Qed.

Lemma ring_pop_ok r x l : ring_ok r (x :: l) → ring_ok (ring_pop r) l.
Proof.
  intros (Hh & Hc & Hlen & Hl). unfold ring_ok, ring_pop. simpl in *. rewrite length_insert. split_and!.
  - apply Nat.mod_upper_bound. lia.
  - lia.
  - lia.
  - intros i y Hy. rewrite Nat.Div0.add_mod_idemp_l. replace (head r + 1 + i)%nat with (head r + S i)%nat by lia.
    rewrite list_lookup_insert_ne; [by apply (Hl (S i))|]. apply not_eq_sym, mod_shift_ne; [done|lia|].
    apply lookup_lt_Some in Hy. lia.
Qed.

Lemma ring_push_ok r l x :
  ring_ok r l → (length l < length (entries r))%nat →
  ring_ok (mkRing (<[((head r + count r) mod length (entries r))%nat := Some x]> (entries r)) (head r) (count r + 1)) (l ++ [x]).
Proof.
  intros (Hh & Hc & Hlen & Hl) Hroom. unfold ring_ok. simpl. rewrite length_insert, length_app, Hc. simpl. split_and!; try lia.
  assert (∀ i, i < length l → (head r + i) mod length (entries r) ≠ (head r + length l) mod length (entries r))%nat as Hne.
  { intros i Hi E. apply (mod_shift_ne ((head r + i) mod length (entries r)) (length l - i) (length (entries r))); [|lia..|].
    - apply Nat.mod_upper_bound. lia.
    - rewrite Nat.Div0.add_mod_idemp_l. rewrite E. f_equal. lia. }
  intros i y Hy. apply lookup_app_Some in Hy as [Hy|[Hi Hy]].
  - rewrite list_lookup_insert_ne; [by apply Hl|]. apply not_eq_sym, Hne. by apply lookup_lt_Some in Hy.
  - apply list_lookup_singleton_Some in Hy as [Hi0 ->]. replace i with (length l) by lia.
    apply list_lookup_insert_eq. apply Nat.mod_upper_bound. lia.
Qed.

Lemma omap_seq {A} (f : nat → option A) k l :
  (∀ i, (i < length l)%nat → f (k + i)%nat = l !! i) → omap f (seq k (length l)) = l.
Proof.
  revert k. induction l as [|x l IH]; intros k H; [done|]. simpl.
  pose proof (H 0%nat ltac:(simpl; lia)) as H0. rewrite Nat.add_0_r in H0. rewrite H0. simpl. f_equal.
  apply IH. intros i Hi. pose proof (H (S i) ltac:(simpl; lia)) as E. simpl in E. rewrite <-E. f_equal. lia.
Qed.

Lemma contents_ok q l : ring_ok (q_ring q) l → contents q = l.
Proof.
  intros H. unfold contents. assert (count (q_ring q) = length l) as -> by apply H.
  apply omap_seq. intros i Hi. by apply ring_at_ok.
Qed.

(** ** The accounting invariant *)

Definition cnt (d : string) (l : list ModelIngressItem) : Z := Z.of_nat (length (filter (λ it, item_digest it = d) l)).
Definition refs_sum (m : gmap string modelIngressProfileRef) : Z := map_sum ref_bytes m.

(** One reference per profile in use, with exact counts; [pb] is the sum of their bytes. *)
Definition refs_ok (m : gmap string modelIngressProfileRef) (pb : Z) (l F : list ModelIngressItem) : Prop :=
  pb = refs_sum m ∧
  (∀ d, m !! d = None → cnt d l = 0 ∧ cnt d F = 0) ∧
  (∀ d ref, m !! d = Some ref → ref_queued ref = cnt d l ∧ ref_inFlight ref = cnt d F ∧ 0 ≤ ref_bytes ref ∧
     0 < cnt d l + cnt d F).

Lemma refs_sum_insert_new m d ref : m !! d = None → refs_sum (<[d := ref]> m) = ref_bytes ref + refs_sum m.
Proof. apply map_sum_insert. Qed.
Lemma refs_sum_delete m d ref : m !! d = Some ref → refs_sum (delete d m) = refs_sum m - ref_bytes ref.
Proof. apply map_sum_delete. Qed.
Lemma refs_sum_update m d ref ref' :
  m !! d = Some ref → ref_bytes ref' = ref_bytes ref → refs_sum (<[d := ref']> m) = refs_sum m.
Proof. intros H E. unfold refs_sum. rewrite (map_sum_update _ _ _ _ _ H). lia. Qed.
Lemma refs_sum_ge m d ref : (∀ d r, m !! d = Some r → 0 ≤ ref_bytes r) → m !! d = Some ref → ref_bytes ref ≤ refs_sum m.
Proof. apply map_sum_ge. Qed.

Lemma cnt_nonneg d l : 0 ≤ cnt d l.
Proof. unfold cnt. lia. Qed.
Lemma cnt_le d l : cnt d l ≤ Z.of_nat (length l).
Proof. unfold cnt. pose proof (length_filter (λ it, item_digest it = d) l). lia. Qed.
Lemma cnt_nil d : cnt d [] = 0.
Proof. done. Qed.
Lemma cnt_cons d x l : cnt d (x :: l) = (if decide (item_digest x = d) then 1 else 0) + cnt d l.
Proof. unfold cnt. rewrite filter_cons. case_decide; simpl; lia. Qed.
Lemma cnt_app d l1 l2 : cnt d (l1 ++ l2) = cnt d l1 + cnt d l2.
Proof. unfold cnt. rewrite filter_app, length_app. lia. Qed.
#[global] Instance cnt_perm d : Proper ((≡ₚ) ==> (=)) (cnt d).
Proof. intros l1 l2 H. unfold cnt. by rewrite H. Qed.

(** Moving from [(l, F)] to [(l', F')] by changing only the counts of digest [d]. *)
Lemma refs_ok_remove a d ref l F l' F' :
  refs_ok (profiles a) (profileBytes a) l F → profiles a !! d = Some ref → profileBytes a < 2 ^ 40 →
  (∀ d', d' ≠ d → cnt d' l' = cnt d' l ∧ cnt d' F' = cnt d' F) →
  let a' := removeProfileIfUnusedLocked a d (mkRef (cnt d l') (cnt d F') (ref_bytes ref)) in
  refs_ok (profiles a') (profileBytes a') l' F' ∧ profileBytes a' ≤ profileBytes a ∧
  queuedBytes a' = queuedBytes a ∧ inFlightItems a' = inFlightItems a ∧ inFlightBytes a' = inFlightBytes a.
Proof.
  intros (Hpb & Hnone & Hsome) Hd Hsmall Hother. pose proof (Hsome d ref Hd) as (_ & _ & Hb & _).
  assert (ref_bytes ref ≤ refs_sum (profiles a)) as Hge.
  { apply (refs_sum_ge _ d); [|done]. intros d0 r0 Hr0. by apply Hsome in Hr0 as (_ & _ & ? & _). }
  unfold removeProfileIfUnusedLocked. simpl. destruct (_ && _) eqn:Hz; simpl.
  - breflect. destruct Hz as [Hz1 Hz2]. rewrite wrap_u_id by (split; lia).
    split_and!; [|lia|done..]. split_and!.
    + rewrite (refs_sum_delete _ _ _ Hd). lia.
    + intros d' [->|Hn]%lookup_delete_None; [done|].
      destruct (decide (d' = d)) as [->|Hne']; [done|]. destruct (Hother d' Hne') as [-> ->]. by apply Hnone.
    + intros d' r' [Hne Hr']%lookup_delete_Some. destruct (Hother d') as [-> ->]; [done|]. by apply Hsome.
  - split_and!; [|lia|done..]. split_and!.
    + by rewrite (refs_sum_update _ _ ref).
    + intros d' [Hn Hne]%lookup_insert_None. destruct (Hother d') as [-> ->]; [done|]. by apply Hnone.
    + intros d' r' [[<- <-]|[Hne Hr']]%lookup_insert_Some; simpl.
      * split_and!; [done..|]. pose proof (cnt_nonneg d l'). pose proof (cnt_nonneg d F'). breflect. lia.
      * destruct (Hother d') as [-> ->]; [done|]. by apply Hsome.
Qed.

Definition bytes_of (l : list ModelIngressItem) : Z := sum_list_Z entryBytes l.

(** What [Offer] has checked of an item in the window: a profile digest without
    surrounding blanks, and sizes that fit a machine word. *)
Definition item_ok (it : ModelIngressItem) : Prop :=
  trim_space (item_digest it) = item_digest it ∧ 0 ≤ entryBytes it < 2 ^ 62 ∧ 0 ≤ item_profileBytes it < 2 ^ 62.

Definition hard_ok (hard : ModelIngressWindow) : Prop :=
  1 ≤ MaxItems hard ≤ ModelIngressAbsoluteMaxItems ∧ MaxRetainedBytes hard ≤ ModelIngressAbsoluteMaxBytes.

(** [l] is queued, [F] is in flight: the account is exact and within the hard limit. *)
Record acct_ok (hard : ModelIngressWindow) (a : account) (l F : list ModelIngressItem) : Prop := {
  ao_queued : queuedBytes a = bytes_of l;
  ao_items : inFlightItems a = Z.of_nat (length F);
  ao_flight : inFlightBytes a = bytes_of F;
  ao_refs : refs_ok (profiles a) (profileBytes a) l F;
  ao_good : Forall item_ok (l ++ F);
  ao_count : Z.of_nat (length l) + Z.of_nat (length F) ≤ MaxItems hard;
  ao_total : bytes_of l + bytes_of F + profileBytes a ≤ MaxRetainedBytes hard;
}.

Lemma bytes_nonneg l : Forall item_ok l → 0 ≤ bytes_of l.
Proof. intros H. apply sum_list_Z_nonneg. intros x Hx. rewrite Forall_forall in H. destruct (H x Hx) as (_ & ? & _). lia. Qed.

Lemma refs_nonneg m pb l F : refs_ok m pb l F → 0 ≤ pb.
Proof.
  intros (-> & _ & Hs). apply sum_list_Z_nonneg. intros r ([d r'] & -> & Hin)%list_elem_of_fmap.
  apply elem_of_map_to_list in Hin. by apply Hs in Hin as (_ & _ & ? & _).
Qed.

Lemma acct_bounds hard a l F :
  hard_ok hard → acct_ok hard a l F →
  0 ≤ bytes_of l ∧ 0 ≤ bytes_of F ∧ 0 ≤ profileBytes a ∧ bytes_of l + bytes_of F + profileBytes a ≤ 2 ^ 28 ∧
  Z.of_nat (length l) + Z.of_nat (length F) ≤ 2 ^ 16.
Proof.
  intros [Hi Hb] [_ _ _ Hr [Hl HF]%Forall_app Hc Ht].
  unfold ModelIngressAbsoluteMaxItems, ModelIngressAbsoluteMaxBytes in *.
  split_and!; [by apply bytes_nonneg..|by eapply refs_nonneg|lia|lia].
Qed.

(** Removing one occurrence of an item changes the counts of its digest only. *)
Lemma cnt_cons_ne d x l : d ≠ item_digest x → cnt d (x :: l) = cnt d l.
Proof. intros H. rewrite cnt_cons, decide_False by done. lia. Qed.
Lemma cnt_cons_eq x l : cnt (item_digest x) (x :: l) = 1 + cnt (item_digest x) l.
Proof. by rewrite cnt_cons, decide_True. Qed.

Lemma refs_lookup m pb l F x :
  refs_ok m pb l F → x ∈ l ++ F → ∃ ref, m !! item_digest x = Some ref.
Proof.
  intros (_ & Hn & _) Hx. destruct (m !! item_digest x) as [ref|] eqn:E; [by exists ref|].
  destruct (Hn _ E) as [H1 H2]. exfalso. unfold cnt in *.
  assert (∀ k : list ModelIngressItem, length (filter (λ it, item_digest it = item_digest x) k) = 0%nat → x ∉ k) as K.
  { intros k Hk Hin. apply nil_length_inv in Hk. by apply (filter_nil_not_elem_of _ _ x Hk). }
  apply elem_of_app in Hx as [Hx|Hx]; [apply (K l)|apply (K F)]; done || lia.
Qed.

Lemma release_queued_ok hard a x l F :
  hard_ok hard → acct_ok hard a (x :: l) F → acct_ok hard (release_queued a x) l F.
Proof.
  intros Hh Ha. destruct (acct_bounds _ _ _ _ Hh Ha) as (B1 & B2 & B3 & B4 & B5).
  destruct Ha as [H1 H2 H3 H4 H5 H6 H7]. pose proof H5 as [[(_ & Hx & _) Hl]%Forall_cons HF]%Forall_app.
  destruct (refs_lookup _ _ _ _ x H4) as [ref Hd]; [set_solver|].
  pose proof H4 as (_ & _ & Hs). destruct (Hs _ _ Hd) as (Hq & Hf & _ & _).
  rewrite cnt_cons_eq in Hq. pose proof (cnt_nonneg (item_digest x) l). pose proof (cnt_le (item_digest x) l).
  change (bytes_of (x :: l)) with (entryBytes x + bytes_of l) in *. simpl in B5, H6.
  assert (0 ≤ bytes_of l) by by apply bytes_nonneg.
  unfold release_queued. rewrite H1.
  replace (wrap_u 64 (entryBytes x + bytes_of l - entryBytes x)) with (bytes_of l) by (rewrite wrap_u_id by (split; lia); lia).
  simpl. rewrite Hd, Hq, Hf. replace (wrap_u 64 (1 + cnt (item_digest x) l - 1)) with (cnt (item_digest x) l)
    by (rewrite wrap_u_id by (split; lia); lia).
  set (a0 := mkAccount _ _ _ _ _).
  destruct (refs_ok_remove a0 (item_digest x) ref (x :: l) F l F) as (G1 & G2 & G3 & G4 & G5); simpl; try done; [lia| |].
  { intros d' Hne. by rewrite cnt_cons_ne. }
  unfold a0 in *. simpl in *. split; try congruence; try done; [by apply Forall_app|lia|lia].
Qed.

Lemma refs_ok_update m pb l F l' F' d ref :
  refs_ok m pb l F → m !! d = Some ref → (∀ d', d' ≠ d → cnt d' l' = cnt d' l ∧ cnt d' F' = cnt d' F) →
  0 < cnt d l' + cnt d F' → refs_ok (<[d := mkRef (cnt d l') (cnt d F') (ref_bytes ref)]> m) pb l' F'.
Proof.
  intros (Hpb & Hnone & Hsome) Hd Hother Hpos. split_and!.
  - by rewrite (refs_sum_update _ _ ref).
  - intros d' [Hn Hne]%lookup_insert_None. destruct (Hother d') as [-> ->]; [done|]. by apply Hnone.
  - intros d' r' [[<- <-]|[Hne Hr']]%lookup_insert_Some; simpl.
    + split_and!; try done. by apply Hsome in Hd as (_ & _ & ? & _).
    + destruct (Hother d') as [-> ->]; [done|]. by apply Hsome.
Qed.

Lemma lease_account_ok hard q x l F :
  hard_ok hard → ring_ok (q_ring q) (x :: l) → acct_ok hard (q_acct q) (x :: l) F →
  ∃ q', lease_head q x (item_digest x) = Some q' ∧ ring_ok (q_ring q') l ∧ acct_ok hard (q_acct q') l (F ++ [x]) ∧
    q_cfg q' = q_cfg q ∧ q_drops q' = q_drops q ∧ q_dropped q' = q_dropped q.
Proof.
  intros Hh Hr Ha. destruct (acct_bounds _ _ _ _ Hh Ha) as (B1 & B2 & B3 & B4 & B5).
  destruct Ha as [H1 H2 H3 H4 H5 H6 H7]. pose proof H5 as [[(T & Hx & Hx') Hl]%Forall_cons HF]%Forall_app.
  destruct (refs_lookup _ _ _ _ x H4) as [ref Hd]; [set_solver|].
  pose proof H4 as (_ & _ & Hs). destruct (Hs _ _ Hd) as (Hq & Hf & _ & _).
  rewrite cnt_cons_eq in Hq. pose proof (cnt_nonneg (item_digest x) l). pose proof (cnt_le (item_digest x) l).
  pose proof (cnt_nonneg (item_digest x) F). pose proof (cnt_le (item_digest x) F).
  change (bytes_of (x :: l)) with (entryBytes x + bytes_of l) in *. simpl in B5, H6.
  assert (0 ≤ bytes_of l) by by apply bytes_nonneg.
  assert (bytes_of (F ++ [x]) = bytes_of F + entryBytes x) as HbF by (unfold bytes_of; rewrite sum_list_Z_app; simpl; lia).
  assert (cnt (item_digest x) (F ++ [x]) = cnt (item_digest x) F + 1) as HcF.
  { rewrite cnt_app, cnt_cons_eq, cnt_nil. lia. }
  unfold lease_head. rewrite Hd. simpl. eexists. split; [done|]. simpl. split_and!; try done; [by eapply ring_pop_ok|].
  rewrite Hq, Hf, H1, H2, H3.
  rewrite (wrap_u_id 64 (1 + cnt _ l - 1)), (wrap_u_id 64 (cnt _ F + 1)), (wrap_u_id 64 (_ + bytes_of l - _)),
    (wrap_u_id 64 (Z.of_nat _ + 1)), (wrap_u_id 64 (bytes_of F + _)) by (split; lia).
  replace (1 + cnt (item_digest x) l - 1) with (cnt (item_digest x) l) by lia. rewrite <-HcF.
  split; simpl; rewrite ?length_app; simpl; try lia.
  - eapply refs_ok_update; [done..| |lia]. intros d' Hne. rewrite cnt_app, !cnt_cons_ne, cnt_nil by done. lia.
  - rewrite (assoc_L (++)). apply Forall_app. split; [by apply Forall_app|]. by apply Forall_singleton.
Qed.

Lemma complete_item_ok hard a l x F :
  hard_ok hard → acct_ok hard a l (x :: F) → acct_ok hard (complete_item a x) l F.
Proof.
  intros Hh Ha. destruct (acct_bounds _ _ _ _ Hh Ha) as (B1 & B2 & B3 & B4 & B5).
  destruct Ha as [H1 H2 H3 H4 H5 H6 H7]. pose proof H5 as [Hl [(_ & Hx & _) HF]%Forall_cons]%Forall_app.
  destruct (refs_lookup _ _ _ _ x H4) as [ref Hd]; [set_solver|].
  pose proof H4 as (_ & _ & Hs). destruct (Hs _ _ Hd) as (Hq & Hf & _ & _).
  rewrite cnt_cons_eq in Hf. pose proof (cnt_nonneg (item_digest x) F). pose proof (cnt_le (item_digest x) F).
  change (bytes_of (x :: F)) with (entryBytes x + bytes_of F) in *. simpl in B5, H2, H6.
  assert (0 ≤ bytes_of F) by by apply bytes_nonneg.
  unfold complete_item. rewrite H2, H3.
  rewrite (wrap_u_id 64 (Z.of_nat _ - 1)), (wrap_u_id 64 (_ + bytes_of F - _)) by (split; lia).
  simpl. rewrite Hd, Hq, Hf, (wrap_u_id 64 (1 + cnt _ F - 1)) by (split; lia).
  replace (1 + cnt (item_digest x) F - 1) with (cnt (item_digest x) F) by lia.
  set (a0 := mkAccount _ _ _ _ _).
  destruct (refs_ok_remove a0 (item_digest x) ref l (x :: F) l F) as (G1 & G2 & G3 & G4 & G5); simpl; try done; [lia| |].
  { intros d' Hne. by rewrite cnt_cons_ne. }
  unfold a0 in *. simpl in *. split; try congruence; try lia; by apply Forall_app.
Qed.

Lemma acct_perm hard a l F F' : F ≡ₚ F' → acct_ok hard a l F → acct_ok hard a l F'.
Proof.
  intros HF [H1 H2 H3 (H4 & H4' & H4'') H5 H6 H7]. split; try done.
  - by rewrite <-HF.
  - unfold bytes_of in *. by rewrite <-HF.
  - split_and!; [done|intros d; rewrite <-HF; apply H4'|intros d ref; rewrite <-HF; apply H4''].
  - by rewrite <-HF.
  - by rewrite <-HF.
  - unfold bytes_of in *. by rewrite <-HF.
Qed.

Lemma complete_items_ok hard a l items F :
  hard_ok hard → acct_ok hard a l (items ++ F) → acct_ok hard (foldl complete_item a items) l F.
Proof.
  intros Hh. revert a. induction items as [|x items IH]; intros a Ha; simpl; [done|].
  apply IH. by apply complete_item_ok.
Qed.

(** ** The queue invariant *)

(** [queue_inv q l F]: [l] is queued, [F] is in flight, the configuration is within the hard
    limit, and the drop total is exact.  It says nothing of the clock: callers read it before
    they take the lock, so the stamps of queued items need not be in order. *)
Record queue_inv (q : ModelIngressQueue) (l F : list ModelIngressItem) : Prop := {
  qo_ring : ring_ok (q_ring q) l;
  qo_cap : Z.of_nat (length (entries (q_ring q))) = MaxItems (hardLimit (q_cfg q));
  qo_acct : acct_ok (hardLimit (q_cfg q)) (q_acct q) l F;
  qo_hard : hard_ok (hardLimit (q_cfg q));
  qo_eff : MaxItems (effective (q_cfg q)) ≤ MaxItems (hardLimit (q_cfg q)) ∧
           MaxRetainedBytes (effective (q_cfg q)) ≤ MaxRetainedBytes (hardLimit (q_cfg q)) ∧
           0 ≤ queue_age (effective (q_cfg q)) < max_duration;
  qo_drops : q_dropped q = snapshot_dropped (q_drops q);
}.



(** The bytes the account charges for each profile. *)
Definition costs (a : account) : gmap string Z := ref_bytes <$> profiles a.
Definition digests (l : list ModelIngressItem) : list string := item_digest <$> l.
Definition held_costs (c : gmap string Z) (l : list ModelIngressItem) : gmap string Z := filter (λ p, p.1 ∈ digests l) c.

Lemma digest_cnt d l : d ∈ digests l ↔ 0 < cnt d l.
Proof.
  unfold digests. induction l as [|x l IH]; [by rewrite cnt_nil; split; [intros ?%elem_of_nil|lia]|].
  rewrite fmap_cons, elem_of_cons, cnt_cons, IH. pose proof (cnt_nonneg d l). case_decide; naive_solver lia.
Qed.

Lemma digest_held m pb l F d : refs_ok m pb l F → (m !! d = None ↔ d ∉ digests (l ++ F)).
Proof.
  intros (_ & Hn & Hs). rewrite digest_cnt, cnt_app. destruct (m !! d) as [r|] eqn:E.
  - destruct (Hs d r E) as (_ & _ & _ & ?). naive_solver.
  - destruct (Hn d E). split; [lia|done].
Qed.

(** The account charges exactly the profiles of the items it holds. *)
Lemma costs_held a c pb l F : refs_ok (profiles a) pb l F → costs a ⊆ c → costs a = held_costs c (l ++ F).
Proof.
  intros Hr Hc. apply map_eq. intros d. unfold held_costs. destruct (costs a !! d) as [x|] eqn:E; symmetry.
  - apply map_lookup_filter_Some. split; [by eapply lookup_weaken|]. unfold costs in E. rewrite lookup_fmap in E. simpl.
    destruct (profiles a !! d) as [r|] eqn:Er; [|done]. destruct (decide (d ∈ digests (l ++ F))) as [|Hno]; [done|].
    apply (digest_held _ _ _ _ d Hr) in Hno. congruence.
  - apply map_lookup_filter_None. right. intros y _ Hin. unfold costs in E. rewrite lookup_fmap, fmap_None in E.
    by apply (digest_held _ _ _ _ d Hr) in E.
Qed.

Lemma costs_sum a : map_sum id (costs a) = refs_sum (profiles a).
Proof.
  unfold costs, refs_sum, map_sum. rewrite map_to_list_fmap. induction (map_to_list (profiles a)) as [|[d r] ps IH]; [done|].
  unfold sum_list_Z in *. cbn -[id]. f_equal. exact IH.
Qed.

(** ** The reference window

    What the queue is meant to be, on plain lists: the waiting items in order, the batches
    leased, and the bytes charged for each profile held.  Sizes are recomputed from the
    items; there is no ring, no running counter and no reference count. *)

Record window := mkWindow {
  w_items : list ModelIngressItem; w_out : list ModelIngressBatch; w_costs : gmap string Z;
  w_eff : ModelIngressWindow; w_hard : ModelIngressWindow; w_drops : ModelIngressDropCounters;
}.
Definition flight (out : list ModelIngressBatch) : list ModelIngressItem := concat (b_items <$> out).

Definition w_total (c : gmap string Z) (F l : list ModelIngressItem) : Z :=
  bytes_of l + bytes_of F + map_sum id (held_costs c (l ++ F)).
(** One more item fits in [lim]; a profile that is not held yet is charged too. *)
Definition w_fits (c : gmap string Z) (F : list ModelIngressItem) (it : ModelIngressItem) (lim : ModelIngressWindow)
    (l : list ModelIngressItem) : bool :=
  (Z.of_nat (length l + length F) + 1 <=? MaxItems lim) &&
  (w_total c F l + entryBytes it + (if bool_decide (item_digest it ∈ digests (l ++ F)) then 0 else item_profileBytes it)
   <=? MaxRetainedBytes lim).
Definition w_exceeds (w : window) : bool :=
  (MaxItems (w_eff w) <? Z.of_nat (length (w_items w) + length (flight (w_out w)))) ||
  (MaxRetainedBytes (w_eff w) <? w_total (w_costs w) (flight (w_out w)) (w_items w)).

(** The [n] oldest items are dropped for the reason [k]. *)
Definition w_evict (k : drop_kind) (n : nat) (w : window) : window :=
  let l := drop n (w_items w) in
  mkWindow l (w_out w) (held_costs (w_costs w) (l ++ flight (w_out w))) (w_eff w) (w_hard w) (Nat.iter n (add_drop k 1) (w_drops w)).
Definition w_count (k : drop_kind) (n : Z) (w : window) : window :=
  mkWindow (w_items w) (w_out w) (w_costs w) (w_eff w) (w_hard w) (add_drop k n (w_drops w)).
Definition w_push (it : ModelIngressItem) (w : window) : window :=
  mkWindow (w_items w ++ [it]) (w_out w)
    (if bool_decide (item_digest it ∈ digests (w_items w ++ flight (w_out w))) then w_costs w
     else <[item_digest it := item_profileBytes it]> (w_costs w))
    (w_eff w) (w_hard w) (w_drops w).

(** One operation drops at most 32 items for age or room. *)
Definition eviction_budget : nat := 32.

(** How many of the oldest items are too old (at most [budget] of them are looked at). *)
Fixpoint expired_prefix (budget : nat) (age : duration) (now : time) (l : list ModelIngressItem) : nat :=
  match budget, l with
  | S b, x :: l' => if age <? time_sub now (enqueuedAt x) then S (expired_prefix b age now l') else 0
  | _, _ => 0
  end.
(** How many of the oldest items must go until [it] fits (at most [budget] of them go). *)
Fixpoint room_prefix (budget : nat) (c : gmap string Z) (F : list ModelIngressItem) (it : ModelIngressItem)
    (lim : ModelIngressWindow) (l : list ModelIngressItem) : nat :=
  match budget, l with
  | S b, _ :: l' => if w_fits c F it lim l then 0 else S (room_prefix b c F it lim l')
  | _, _ => 0
  end.
(** How many of the oldest items are too large for any batch. *)
Fixpoint large_prefix (maxBytes : Z) (l : list ModelIngressItem) : nat :=
  match l with
  | x :: l' => if maxBytes <? item_profileBytes x + entryBytes x then S (large_prefix maxBytes l') else 0
  | [] => 0
  end.
(** The longest run of at most [n] items of profile [d] that stays within [maxBytes]. *)
Fixpoint run_length (n : nat) (d : string) (bytes maxBytes : Z) (l : list ModelIngressItem) : nat :=
  match n, l with
  | S n', x :: l' =>
      if bool_decide (item_digest x = d) && (bytes + entryBytes x <=? maxBytes)
      then S (run_length n' d (bytes + entryBytes x) maxBytes l') else 0
  | _, _ => 0
  end.

Definition w_head_expired (w : window) (now : time) : bool :=
  match w_items w with x :: _ => queue_age (w_eff w) <? time_sub now (enqueuedAt x) | [] => false end.
Definition w_expire (now : time) (w : window) : window :=
  w_evict Expired (expired_prefix eviction_budget (queue_age (w_eff w)) now (w_items w)) w.

Definition w_offer (item : option ModelIngressItem) (now : time) (w : window) : window * bool :=
  match item with
  | None => (w, false)
  | Some it =>
      if bool_decide (mi_Profile it = None) || bool_decide (mi_Traffic it = None) || bool_decide (item_digest it = "") then (w, false)
      else
        let it := stamp it now in
        let old := expired_prefix eviction_budget (queue_age (w_eff w)) now (w_items w) in
        let w1 := w_expire now w in
        let F := flight (w_out w1) in
        if MaxRetainedBytes (w_eff w1) <? entryBytes it + item_profileBytes it then (w_count ItemTooLarge 1 w1, false)
        else
          let w2 := w_evict EvictedOldest (room_prefix (eviction_budget - old) (w_costs w1) F it (w_eff w1) (w_items w1)) w1 in
          if w_fits (w_costs w2) F it (w_eff w2) (w_items w2) ||
             (negb (bool_decide (w_items w2 = [])) && w_exceeds w2 && w_fits (w_costs w2) F it (w_hard w2) (w_items w2))
          then (w_push it w2, true)
          else (w_count (if bool_decide (w_items w2 = []) then InFlightCapacity else AdmissionBudget) 1 w2, false)
  end.

Definition w_lease (maxItems : nat) (maxBytes : Z) (w : window) : window * option ModelIngressBatch :=
  let w1 := w_evict ItemTooLarge (large_prefix maxBytes (w_items w)) w in
  match w_items w1 with
  | [] => (w1, None)
  | x :: _ =>
      let n := run_length maxItems (item_digest x) (item_profileBytes x) maxBytes (w_items w1) in
      let b := mkBatch (mi_Profile x) (item_digest x) (take n (w_items w1)) false in
      (mkWindow (drop n (w_items w1)) (b :: w_out w1) (w_costs w1) (w_eff w1) (w_hard w1) (w_drops w1), Some b)
  end.
(** A batch would be full, or cannot grow any more. *)
Definition w_ready (maxItems : nat) (maxBytes : Z) (l : list ModelIngressItem) : bool :=
  match l with
  | [] => false
  | x :: _ =>
      let n := run_length maxItems (item_digest x) (item_profileBytes x) maxBytes l in
      bool_decide (n = maxItems) || bool_decide (n < length l)%nat
  end.
Definition w_take (now : time) (deadline : option time) (maxItems : nat) (maxBytes : Z) (maxWait : duration) (w : window)
    : window * option time * take_outcome :=
  let w1 := w_expire now w in
  let lease d := let '(w2, b) := w_lease maxItems maxBytes w1 in (w2, d, TakeReturn b) in
  let wait (d : option time) :=
    (w1, d, match d with
            | Some t => if time_sub t now <=? 0 then TakeAgain else TakeBlock (Some t)
            | None => TakeBlock None
            end) in
  if w_head_expired w1 now then (w1, deadline, TakeAgain)
  else if bool_decide (w_items w1 = []) then wait deadline
  else if maxWait <=? 0 then lease deadline
  else
    let d := default (now + maxWait) deadline in
    if w_ready maxItems maxBytes (w_items w1) || negb (time_before now d) then lease (Some d) else wait (Some d).

Definition w_complete (i : nat) (accepted : Z) (failed : bool) (w : window) : window :=
  match w_out w !! i with
  | None => w
  | Some b =>
      let n := Z.of_nat (length (b_items b)) in
      let out := delete i (w_out w) in
      mkWindow (w_items w) out (held_costs (w_costs w) (w_items w ++ flight out)) (w_eff w) (w_hard w)
        (if failed then add_drop TransportFailed n (w_drops w)
         else if accepted <? n then add_drop ModelsideRejected (n - accepted) (w_drops w) else w_drops w)
  end.

Definition w_configure (x : option ModelIngressWindow) (w : window) : window * result unit :=
  match NormalizeModelIngressWindow x with
  | Err e => (w, Err e)
  | Ok n =>
      let hard := w_hard w in
      (mkWindow (w_items w) (w_out w) (w_costs w)
         (mkModelIngressWindow (Z.min (MaxItems n) (MaxItems hard)) (Z.min (MaxRetainedBytes n) (MaxRetainedBytes hard))
            (if queue_age hard <? queue_age n then MaxQueueAge hard else MaxQueueAge n)) hard (w_drops w), Ok tt)
  end.

(** The window that a queue with the batches [out] stands for. *)
Definition view (q : ModelIngressQueue) (out : list ModelIngressBatch) : window :=
  mkWindow (contents q) out (costs (q_acct q)) (effective (q_cfg q)) (hardLimit (q_cfg q)) (q_drops q).

(** ** Operations on the queue *)

Lemma wrap_add_l w x n : wrap_u w (wrap_u w x + n) = wrap_u w (x + n).
Proof. apply Zplus_mod_idemp_l. Qed.

Lemma wrap_cong c x y : x = y + c * 2 ^ 64 → u64 x = u64 y.
Proof. intros ->. apply Z_mod_plus_full. Qed.

Lemma snapshot_dropped_sum d :
  snapshot_dropped d = u64 (d_EvictedOldest d + d_Expired d + d_ItemTooLarge d + d_InFlightCapacity d + d_TransportFailed d
                            + d_ModelsideRejected d + d_AdmissionBudget d).
Proof. unfold snapshot_dropped, sum_u64. cbn -[wrap_u Z.add].
  repeat (rewrite wrap_add_l; rewrite <-?Z.add_assoc). by rewrite Z.add_0_l. Qed.

Lemma add_drop_total k n d : snapshot_dropped (add_drop k n d) = u64 (snapshot_dropped d + n).
Proof.
  rewrite !snapshot_dropped_sum. destruct d as [d1 d2 d3 d4 d5 d6 d7]. rewrite wrap_add_l.
  destruct k; cbn -[wrap_u Z.add]; repeat (case_bool_decide; try congruence);
    (eapply wrap_cong; match goal with |- context [wrap_u 64 ?z] =>
      instantiate (1 := - (z / 2 ^ 64)); unfold wrap_u; rewrite (Z.mod_eq z (2 ^ 64)) by done; lia end).
Qed.

(** [q'] is [q] after [n] evictions for the reason [k]. *)
Definition evicted (k : drop_kind) (n : nat) (q q' : ModelIngressQueue) : Prop :=
  q_cfg q' = q_cfg q ∧ q_drops q' = Nat.iter n (add_drop k 1) (q_drops q) ∧ costs (q_acct q') ⊆ costs (q_acct q).

Lemma evicted_refl k q : evicted k 0 q q.
Proof. by split_and!. Qed.

Lemma evicted_S k n q1 q2 q3 : evicted k 1 q1 q2 → evicted k n q2 q3 → evicted k (S n) q1 q3.
Proof.
  intros (E1 & E2 & E3) (E4 & E5 & E6). split_and!; [congruence| |by etrans].
  rewrite E5, E2. symmetry. apply Nat.iter_succ_r.
Qed.


(** Evicting is dropping from the front of the window. *)
Lemma view_evict k n q q' l out :
  queue_inv q l (flight out) → queue_inv q' (drop n l) (flight out) → evicted k n q q' →
  view q' out = w_evict k n (view q out).
Proof.
  intros H H' (Ec & Ed & Eb). unfold view, w_evict. simpl.
  rewrite (contents_ok _ _ (qo_ring _ _ _ H)), (contents_ok _ _ (qo_ring _ _ _ H')), Ec, Ed. f_equal.
  eapply costs_held; [apply (ao_refs _ _ _ _ (qo_acct _ _ _ H'))|done].
Qed.

Lemma record_drop_ok q l F k n : queue_inv q l F → queue_inv (recordDropLocked q k n) l F.
Proof. intros []. split; try done. simpl. by rewrite add_drop_total, qo_drops0. Qed.

Lemma costs_remove a d r : profiles a !! d = Some r → ∀ r', ref_bytes r' = ref_bytes r →
  costs (removeProfileIfUnusedLocked a d r') ⊆ costs a.
Proof.
  intros Hd r' Hr. unfold removeProfileIfUnusedLocked, costs. destruct (_ && _); simpl.
  - rewrite fmap_delete. apply delete_subseteq.
  - rewrite fmap_insert, insert_id; [done|]. by rewrite lookup_fmap, Hd, Hr.
Qed.

Lemma costs_release a x : costs (release_queued a x) ⊆ costs a.
Proof.
  unfold release_queued. simpl. destruct (profiles a !! item_digest x) as [r|] eqn:E; [|done].
  by eapply (costs_remove (mkAccount _ _ _ _ (profiles a))).
Qed.

Lemma costs_complete items a : costs (foldl complete_item a items) ⊆ costs a.
Proof.
  revert a. induction items as [|x items IH]; intros a; simpl; [done|]. etrans; [apply IH|].
  unfold complete_item. simpl. destruct (profiles a !! item_digest x) as [r|] eqn:E; [|done].
  by eapply (costs_remove (mkAccount _ _ _ _ (profiles a))).
Qed.

Lemma evictOldest_ok q x l F k :
  queue_inv q (x :: l) F →
  ∃ q', evictOldestLocked q k = Some q' ∧ queue_inv q' l F ∧ evicted k 1 q q'.
Proof.
  intros H. destruct H as [H1 H2 H3 H4 H5 H6]. unfold evictOldestLocked.
  rewrite (ring_first_ok _ _ _ H1). simpl. eexists. split; [done|]. split; [|by split_and!; [..|apply costs_release]].
  apply record_drop_ok. split; simpl; try done.
  - by eapply ring_pop_ok.
  - by rewrite length_insert.
  - by apply release_queued_ok.
Qed.

Lemma expired_prefix_le b age now l : (expired_prefix b age now l ≤ b)%nat ∧ (expired_prefix b age now l ≤ length l)%nat.
Proof. revert l. induction b as [|b IH]; intros [|x l]; simpl; try lia. destruct (_ <? _); [|lia]. specialize (IH l). lia. Qed.

Lemma evict_expired_ok l q F now b ev :
  queue_inv q l F → 0 < Z.of_nat b + ev →
  ∃ q', let n := expired_prefix b (queue_age (effective (q_cfg q))) now l in
    evict_expired (length l) q now (Z.of_nat b + ev) ev = Some (q', ev + Z.of_nat n) ∧
    queue_inv q' (drop n l) F ∧ evicted Expired n q q'.
Proof.
  revert q b ev. induction l as [|x l IH]; intros q b ev H Hev.
  { exists q. destruct b; simpl; (split_and!; [by rewrite Z.add_0_r|done|apply evicted_refl]). }
  cbn [evict_expired length]. rewrite (proj2 (Z.ltb_lt _ _) Hev). cbn [andb]. destruct b as [|b].
  { exists q. rewrite (proj2 (Z.leb_le _ _)) by lia. simpl. split_and!; [by rewrite Z.add_0_r|done|apply evicted_refl]. }
  rewrite (proj2 (Z.leb_gt _ _)) by lia. rewrite (ring_first_ok _ _ _ (qo_ring _ _ _ H)). cbn [mbind option_bind expired_prefix].
  rewrite Z.leb_antisym. destruct (_ <? _); simpl.
  - destruct (evictOldest_ok q x l F Expired H) as (q1 & -> & H1 & E1). simpl.
    destruct (IH q1 b (ev + 1) H1) as (q' & Hk & Hq & E); [lia|]. exists q'. rewrite (proj1 E1) in *.
    replace (Z.of_nat (S b) + ev) with (Z.of_nat b + (ev + 1)) by lia. rewrite Hk.
    split_and!; [do 2 f_equal; lia|done|by eapply evicted_S].
  - exists q. split_and!; [by rewrite Z.add_0_r|done|apply evicted_refl].
Qed.

(** [evictExpiredLocked] drops the expired items at the front, at most 32 of them. *)
Lemma evictExpired_ok q l F now :
  queue_inv q l F →
  ∃ q', let n := expired_prefix eviction_budget (queue_age (effective (q_cfg q))) now l in
    evictExpiredLocked q now modelIngressRequestPathEvictionLimit = Some (q', Z.of_nat n) ∧
    queue_inv q' (drop n l) F ∧ evicted Expired n q q'.
Proof.
  intros H. unfold evictExpiredLocked. assert (count (q_ring q) = length l) as -> by apply (qo_ring _ _ _ H).
  apply (evict_expired_ok l q F now eviction_budget 0 H). done.
Qed.

Lemma view_expire q q' l out now :
  queue_inv q l (flight out) → let n := expired_prefix eviction_budget (queue_age (effective (q_cfg q))) now l in
  queue_inv q' (drop n l) (flight out) → evicted Expired n q q' → view q' out = w_expire now (view q out).
Proof.
  intros H n H' E. rewrite (view_evict _ _ _ _ _ _ H H' E). unfold w_expire, n. simpl.
  by rewrite (contents_ok _ _ (qo_ring _ _ _ H)).
Qed.


Lemma headExpired_ok q l out now :
  queue_inv q l (flight out) → headExpiredLocked q now = Some (w_head_expired (view q out) now).
Proof.
  intros H. unfold headExpiredLocked, w_head_expired. assert (count (q_ring q) = length l) as -> by apply (qo_ring _ _ _ H).
  simpl. rewrite (contents_ok _ _ (qo_ring _ _ _ H)). destruct l as [|x l]; [done|].
  by rewrite bool_decide_false, (ring_first_ok _ _ _ (qo_ring _ _ _ H)).
Qed.

Lemma view_inv q l out : queue_inv q l (flight out) → w_items (view q out) = l.
Proof. intros H. apply (contents_ok _ _ (qo_ring _ _ _ H)). Qed.

(** *** Offering *)

(** What an admitted item adds to the retained bytes. *)
Definition added_bytes (a : account) (it : ModelIngressItem) (d : string) : Z :=
  entryBytes it + (if bool_decide (profiles a !! d = None) then item_profileBytes it else 0).

Lemma fits_iff q l F it d w :
  queue_inv q l F → item_ok it →
  fitsWindowLocked q it d w = true ↔
  Z.of_nat (length l) + Z.of_nat (length F) + 1 ≤ MaxItems w ∧
  bytes_of l + bytes_of F + profileBytes (q_acct q) + added_bytes (q_acct q) it d ≤ MaxRetainedBytes w.
Proof.
  intros H (_ & He & Hp). destruct (acct_bounds _ _ _ _ (qo_hard _ _ _ H) (qo_acct _ _ _ H)) as (B1 & B2 & B3 & B4 & B5).
  destruct (qo_acct _ _ _ H) as [A1 A2 A3 _ _ _ _]. unfold fitsWindowLocked, totalBytesLocked, added_bytes.
  assert (count (q_ring q) = length l) as -> by apply (qo_ring _ _ _ H). rewrite A1, A2, A3.
  rewrite (wrap_u_id 64 (Z.of_nat (length l) + _)) by (split; lia). rewrite (wrap_u_id 64 (_ + 1)) by (split; lia).
  rewrite (wrap_u_id 64 (bytes_of l + bytes_of F)) by (split; lia).
  rewrite (wrap_u_id 64 (bytes_of l + bytes_of F + profileBytes _)) by (split; lia).
  rewrite (wrap_u_id 64 (_ + entryBytes it)) by (split; lia). rewrite (wrap_u_id 64 (_ + item_profileBytes it)) by (split; lia).
  destruct (Z.ltb_spec (MaxItems w) (Z.of_nat (length l) + Z.of_nat (length F) + 1)); [split; [done|lia]|].
  case_bool_decide; rewrite Z.leb_le; lia.
Qed.

Lemma fits_view q l F c it lim :
  queue_inv q l F → item_ok it → costs (q_acct q) ⊆ c → fitsWindowLocked q it (item_digest it) lim = w_fits c F it lim l.
Proof.
  intros H Hit Hc. apply Bool.eq_true_iff_eq.
  rewrite (fits_iff _ _ _ _ _ _ H Hit). unfold w_fits, w_total, added_bytes.
  pose proof (ao_refs _ _ _ _ (qo_acct _ _ _ H)) as Hr. rewrite <-(costs_held _ _ _ _ _ Hr Hc), costs_sum, <-(proj1 Hr).
  rewrite andb_true_iff, !Z.leb_le. pose proof (digest_held _ _ _ _ (item_digest it) Hr) as Hd.
  do 2 case_bool_decide; naive_solver lia.
Qed.

Lemma fits_mono c F it lim lim' l :
  MaxItems lim ≤ MaxItems lim' → MaxRetainedBytes lim ≤ MaxRetainedBytes lim' → w_fits c F it lim l = true → w_fits c F it lim' l = true.
Proof. unfold w_fits. rewrite !andb_true_iff, !Z.leb_le. lia. Qed.

Lemma exceeds_view q l out : queue_inv q l (flight out) → exceedsEffectiveLocked q = w_exceeds (view q out).
Proof.
  intros H. destruct (acct_bounds _ _ _ _ (qo_hard _ _ _ H) (qo_acct _ _ _ H)) as (B1 & B2 & B3 & B4 & B5).
  destruct (qo_acct _ _ _ H) as [A1 A2 A3 A4 _ _ _]. unfold exceedsEffectiveLocked, w_exceeds, totalBytesLocked, w_total. simpl.
  assert (count (q_ring q) = length l) as -> by apply (qo_ring _ _ _ H). rewrite (contents_ok _ _ (qo_ring _ _ _ H)), A1, A2, A3.
  rewrite <-(costs_held _ (costs (q_acct q)) _ _ _ A4 ltac:(done)), costs_sum, <-(proj1 A4).
  rewrite (wrap_u_id 64 (Z.of_nat _ + _)), (wrap_u_id 64 (bytes_of l + _)), wrap_u_id by (split; lia). by rewrite Nat2Z.inj_add.
Qed.

Lemma room_prefix_le b c F it lim l : (room_prefix b c F it lim l ≤ b)%nat ∧ (room_prefix b c F it lim l ≤ length l)%nat.
Proof. revert l. induction b as [|b IH]; intros [|x l]; cbn [room_prefix length]; try lia. destruct (w_fits _ _ _ _ _); [lia|]. specialize (IH l). lia. Qed.

Lemma make_room_ok l q F c it b ev :
  queue_inv q l F → item_ok it → costs (q_acct q) ⊆ c → ev + Z.of_nat b = modelIngressRequestPathEvictionLimit →
  ∃ q', let n := room_prefix b c F it (effective (q_cfg q)) l in
    make_room (length l) q it (item_digest it) ev = Some q' ∧ queue_inv q' (drop n l) F ∧ evicted EvictedOldest n q q'.
Proof.
  revert q b ev. induction l as [|x l IH]; intros q b ev H Hit Hc Hev.
  { exists q. destruct b; (split_and!; [done|done|apply evicted_refl]). }
  cbn [make_room length]. unfold fitsLocked. rewrite (fits_view _ _ _ _ _ _ H Hit Hc). destruct b as [|b].
  { rewrite (proj2 (Z.ltb_ge _ _)), andb_false_r by lia. exists q. by split_and!; [..|apply evicted_refl]. }
  rewrite (proj2 (Z.ltb_lt _ _)), andb_true_r by lia. cbn [room_prefix]. destruct (w_fits _ _ _ _ _); simpl.
  { exists q. by split_and!; [..|apply evicted_refl]. }
  destruct (evictOldest_ok q x l F EvictedOldest H) as (q1 & -> & H1 & E1). simpl.
  destruct (IH q1 b (ev + 1) H1 Hit) as (q' & Hk & Hq & E); [by etrans; [apply E1|]|lia|]. exists q'. rewrite (proj1 E1) in *.
  split_and!; [done..|by eapply evicted_S].
Qed.

Lemma refs_ok_enqueue m pb l F it :
  refs_ok m pb l F → 0 ≤ item_profileBytes it →
  let d := item_digest it in
  let ref := default (mkRef 0 0 (item_profileBytes it)) (m !! d) in
  refs_ok (<[d := mkRef (cnt d (l ++ [it])) (cnt d F) (ref_bytes ref)]> m)
    (pb + (if bool_decide (m !! d = None) then item_profileBytes it else 0)) (l ++ [it]) F ∧
  ref_queued ref = cnt d l ∧ ref_inFlight ref = cnt d F.
Proof.
  intros H Hp d ref.
  assert (∀ d', d' ≠ d → cnt d' (l ++ [it]) = cnt d' l ∧ cnt d' F = cnt d' F) as Hother.
  { intros d' Hne. rewrite cnt_app, cnt_cons_ne, cnt_nil by done. lia. }
  assert (cnt d (l ++ [it]) = cnt d l + 1) as Hd by (unfold d; rewrite cnt_app, cnt_cons_eq, cnt_nil; lia).
  pose proof (cnt_nonneg d l). pose proof (cnt_nonneg d F). pose proof H as (Hpb & Hn & Hs).
  destruct (m !! d) as [r|] eqn:E; unfold ref; simpl.
  - rewrite Z.add_0_r. split; [eapply refs_ok_update; [done..|lia]|].
    by destruct (Hs d r E) as (-> & -> & _).
  - destruct (Hn d E) as [Hl HF]. split; [|lia]. split_and!.
    + rewrite refs_sum_insert_new by done. simpl. lia.
    + intros d' [Hn' Hne]%lookup_insert_None. destruct (Hother d') as [-> _]; [done|]. by apply Hn.
    + intros d' r' [[<- <-]|[Hne Hr']]%lookup_insert_Some; simpl; [lia|]. destruct (Hother d') as [-> _]; [done|]. by apply Hs.
Qed.

Lemma enqueue_ok q l F it :
  queue_inv q l F → item_ok it →
  fitsWindowLocked q it (item_digest it) (hardLimit (q_cfg q)) = true →
  ∃ q', enqueue q it (item_digest it) = Some q' ∧ queue_inv q' (l ++ [it]) F ∧
    q_cfg q' = q_cfg q ∧ q_drops q' = q_drops q ∧
    costs (q_acct q') = (if bool_decide (item_digest it ∈ digests (l ++ F)) then costs (q_acct q)
                         else <[item_digest it := item_profileBytes it]> (costs (q_acct q))).
Proof.
  intros H Hit Hfit. pose proof Hit as (_ & He & Hp).
  destruct (proj1 (fits_iff _ _ _ _ _ _ H Hit) Hfit) as [Hn Hb].
  destruct (acct_bounds _ _ _ _ (qo_hard _ _ _ H) (qo_acct _ _ _ H)) as (B1 & B2 & B3 & B4 & B5).
  destruct H as [H1 H2 [A1 A2 A3 A4 A5 A6 A7] H4 H5 H7].
  destruct (refs_ok_enqueue _ _ _ _ it A4) as (Hr & Hq & Hf); [lia|].
  pose proof (cnt_le (item_digest it) l). pose proof (cnt_nonneg (item_digest it) l).
  assert (cnt (item_digest it) (l ++ [it]) = cnt (item_digest it) l + 1) as Hd by (rewrite cnt_app, cnt_cons_eq, cnt_nil; lia).
  assert (bytes_of (l ++ [it]) = bytes_of l + entryBytes it) as Hbl by (unfold bytes_of; rewrite sum_list_Z_app; simpl; lia).
  unfold enqueue, added_bytes in *. rewrite bool_decide_true by (apply Nat.mod_upper_bound; lia).
  eexists. split; [done|]. split; [|split_and!; [done..|]].
  - split; simpl; try done.
    + apply ring_push_ok; [done|]. lia.
    + by rewrite length_insert.
    + rewrite Hq, Hf, A1. rewrite (wrap_u_id 64 (cnt _ l + 1)), (wrap_u_id 64 (bytes_of l + _)) by (split; lia). rewrite <-Hd.
      assert ((if bool_decide (profiles (q_acct q) !! item_digest it = None) then u64 (profileBytes (q_acct q) + item_profileBytes it)
               else profileBytes (q_acct q)) = profileBytes (q_acct q) + (if bool_decide (profiles (q_acct q) !! item_digest it = None)
               then item_profileBytes it else 0)) as -> by (case_bool_decide; [rewrite wrap_u_id by (split; lia)|]; lia).
      split; simpl; rewrite ?length_app; simpl; try done; try lia.
      rewrite <-(assoc_L (++)), Forall_app in *. destruct A5 as [? ?]. split; [done|]. simpl. by apply Forall_cons.
  - clear Hb Hr Hq Hf. unfold costs. simpl. rewrite fmap_insert. simpl. pose proof (digest_held _ _ _ _ (item_digest it) A4) as Hh.
    destruct (profiles (q_acct q) !! item_digest it) as [r|] eqn:E; simpl; case_bool_decide; try naive_solver.
    rewrite insert_id; [done|]. by rewrite lookup_fmap, E.
Qed.

(** An item a producer may hand in: its digest has no surrounding blanks (it is the content
    address of an artifact) and it fits in memory. *)
Definition offerable (it : ModelIngressItem) : Prop := item_ok (stamp it 0).

Lemma offerable_stamp it now : offerable it → item_ok (stamp it now).
Proof. done. Qed.

Lemma drop_drop_app {A} (l : list A) j k : drop k (drop j l) = drop (j + k) l.
Proof. by rewrite drop_drop. Qed.

(** A refused offer is counted; one that is malformed leaves no trace. *)
Lemma view_count q out k n : view (recordDropLocked q k n) out = w_count k n (view q out).
Proof. done. Qed.

Lemma Offer_ok q l out item now :
  queue_inv q l (flight out) → (∀ it, item = Some it → offerable it) →
  ∃ q' ok l', Offer q item now = Some (q', ok) ∧ queue_inv q' l' (flight out) ∧ q_cfg q' = q_cfg q ∧
    w_offer item now (view q out) = (view q' out, ok).
Proof.
  intros H Hit. unfold Offer, w_offer. destruct item as [it|]; [|by exists q, false, l].
  pose proof (offerable_stamp it now (Hit it eq_refl)) as Hok.
  assert (trim_space (item_digest it) = item_digest it) as Ht by apply Hok. rewrite Ht.
  destruct (bool_decide (mi_Profile it = None) || bool_decide (mi_Traffic it = None)); [by exists q, false, l|].
  destruct (bool_decide (item_digest it = "")); [by exists q, false, l|]. cbn [orb]. change (item_digest it) with (item_digest (stamp it now)). set (x := stamp it now) in *.
  destruct (evictExpired_ok q l (flight out) now H) as (q1 & -> & H1 & E1). cbn [mbind option_bind].
  rewrite <-(view_expire _ _ _ _ _ H H1 E1), (view_inv _ _ _ H).
  pose proof (expired_prefix_le eviction_budget (queue_age (effective (q_cfg q))) now l) as [Hle _].
  cbn [view w_eff w_out]. set (n := expired_prefix _ _ _ _) in *.
  pose proof Hok as (_ & He & Hp). rewrite (wrap_u_id 64 (entryBytes x + _)) by (split; lia).
  destruct (_ <? _).
  { eexists _, _, _. split; [done|]. split; [by apply record_drop_ok|]. split; [apply E1|done]. }
  assert (count (q_ring q1) = length (drop n l)) as -> by apply (qo_ring _ _ _ H1).
  destruct (make_room_ok (drop n l) q1 (flight out) (costs (q_acct q1)) x (eviction_budget - n) (Z.of_nat n) H1 Hok) as (q2 & -> & H2 & E2);
    [done|unfold modelIngressRequestPathEvictionLimit, eviction_budget in *; lia|]. cbn [mbind option_bind].
  rewrite (view_inv _ _ _ H1). change (w_costs (view q1 out)) with (costs (q_acct q1)).
  rewrite <-(view_evict _ _ _ _ _ _ H1 H2 E2). set (m := room_prefix _ _ _ _ _ _) in *.
  assert (count (q_ring q2) = length (drop m (drop n l))) as -> by apply (qo_ring _ _ _ H2).
  unfold fitsLocked. rewrite !(fits_view _ _ _ (costs (q_acct q2)) _ _ H2 Hok) by done.
  rewrite (exceeds_view _ _ _ H2), (view_inv _ _ _ H2). cbn [view w_eff w_hard w_costs].
  assert (bool_decide (length (drop m (drop n l)) = 0%nat) = bool_decide (drop m (drop n l) = [])) as ->.
  { apply bool_decide_ext. by rewrite length_zero_iff_nil. }
  assert (q_cfg q2 = q_cfg q) as Ec by (rewrite (proj1 E2); apply E1). set (l2 := drop m (drop n l)) in *.
  set (fe := w_fits _ _ _ (effective _) _) in *. set (fh := w_fits _ _ _ (hardLimit _) _) in *.
  replace (negb fe && (bool_decide (l2 = []) || negb (w_exceeds (view q2 out)) || negb fh))
    with (negb (fe || negb (bool_decide (l2 = [])) && w_exceeds (view q2 out) && fh)) by (by rewrite negb_orb, !negb_andb, negb_involutive).
  destruct (fe || _) eqn:Hfit; simpl negb.
  - destruct (enqueue_ok q2 l2 (flight out) x H2 Hok) as (q3 & -> & H3 & Ec3 & Ed3 & Eb3).
    { rewrite (fits_view _ _ _ (costs (q_acct q2)) _ _ H2 Hok) by done. change (fh = true).
      apply orb_true_iff in Hfit as [Hfe|Hfh]; [|by apply andb_true_iff in Hfh as [_ ?]]. unfold fe, fh in *.
      by eapply fits_mono; [apply (qo_eff _ _ _ H2)..|]. }
    exists q3, true, (l2 ++ [x]). split_and!; [done..|congruence|]. f_equal. unfold view, w_push. simpl.
    by rewrite (contents_ok _ _ (qo_ring _ _ _ H3)), (contents_ok _ _ (qo_ring _ _ _ H2)), Ec3, Ed3, Eb3.
  - eexists _, _, l2. split; [done|]. split; [by apply record_drop_ok|]. by split.
Qed.

(** *** Leasing *)

Lemma drop_large_ok l q F maxBytes :
  queue_inv q l F →
  ∃ q', let n := large_prefix maxBytes l in
    drop_large (length l) q maxBytes = Some q' ∧ queue_inv q' (drop n l) F ∧ evicted ItemTooLarge n q q'.
Proof.
  revert q. induction l as [|x l IH]; intros q H; [by exists q; split_and!; [..|apply evicted_refl]|]. cbn [drop_large length large_prefix].
  rewrite (ring_first_ok _ _ _ (qo_ring _ _ _ H)). cbn [mbind option_bind].
  pose proof (ao_good _ _ _ _ (qo_acct _ _ _ H)) as [[(_ & He & Hp) _]%Forall_cons _]%Forall_app.
  rewrite wrap_u_id, Z.leb_antisym by (split; lia). destruct (_ <? _); simpl; [|by exists q; split_and!; [..|apply evicted_refl]].
  destruct (evictOldest_ok q x l F ItemTooLarge H) as (q1 & -> & H1 & E1). simpl.
  destruct (IH q1 H1) as (q' & Hk & Hq & E). exists q'. by split_and!; [..|eapply evicted_S].
Qed.

Lemma large_prefix_stop m l x : drop (large_prefix m l) l !! 0%nat = Some x → item_profileBytes x + entryBytes x ≤ m.
Proof. induction l as [|y l IH]; simpl; [done|]. destruct (Z.ltb_spec m (item_profileBytes y + entryBytes y)); [exact IH|]. by intros [= <-]. Qed.

Lemma lease_queue_ok q x l F :
  queue_inv q (x :: l) F →
  ∃ q', lease_head q x (item_digest x) = Some q' ∧ queue_inv q' l (F ++ [x]) ∧
    q_cfg q' = q_cfg q ∧ q_drops q' = q_drops q ∧ costs (q_acct q') = costs (q_acct q).
Proof.
  intros [H1 H2 H3 H4 H5 H7]. destruct (lease_account_ok _ q x l F H4 H1 H3) as (q' & Hl & Hr & Ha & Hc & Hd & Hd').
  exists q'. split_and!; try done; unfold lease_head in Hl; destruct (profiles _ !! _) as [r|] eqn:E; try done; simpl in Hl; injection Hl as <-.
  - split; simpl in *; try done. by rewrite length_insert.
  - unfold costs. simpl. rewrite fmap_insert, insert_id; [done|]. by rewrite lookup_fmap, E.
Qed.

Lemma run_length_le n d bytes m l : (run_length n d bytes m l ≤ n)%nat ∧ (run_length n d bytes m l ≤ length l)%nat.
Proof. revert bytes l. induction n as [|n IH]; intros bytes [|x l]; simpl; try lia. destruct (_ && _); [|lia]. specialize (IH (bytes + entryBytes x) l). lia. Qed.

(** A run is of one profile and within the bytes. *)
Lemma run_length_run n d bytes m l :
  let more := take (run_length n d bytes m l) l in
  Forall (λ it, item_digest it = d) more ∧ (more ≠ [] → bytes + bytes_of more ≤ m).
Proof.
  revert bytes l. induction n as [|n IH]; intros bytes [|x l]; simpl; try by split; [constructor|].
  destruct (_ && _) eqn:E; simpl; [|by split; [constructor|]]. apply andb_true_iff in E as [Hd%bool_decide_eq_true Hb%Z.leb_le].
  destruct (IH (bytes + entryBytes x) l) as [H1 H2]. split; [by constructor|]. intros _.
  change (bytes_of (x :: ?k)) with (entryBytes x + bytes_of k).
  destruct (take _ l) as [|y more]; [unfold bytes_of; simpl; lia|]. specialize (H2 ltac:(done)). lia.
Qed.

Lemma lease_loop_ok l q F d items bytes maxItems maxBytes :
  queue_inv q l F → (length items ≤ maxItems)%nat → 0 ≤ bytes ∧ bytes + bytes_of l < 2 ^ 63 →
  (items = [] → ∀ x, l !! 0%nat = Some x → bytes + entryBytes x ≤ maxBytes) →
  ∃ q', let n := run_length (maxItems - length items) d bytes maxBytes l in
    lease_loop (length l) q d items bytes maxItems maxBytes = Some (q', items ++ take n l) ∧
    queue_inv q' (drop n l) (F ++ take n l) ∧ q_cfg q' = q_cfg q ∧ q_drops q' = q_drops q ∧ costs (q_acct q') = costs (q_acct q).
Proof.
  revert q F items bytes. induction l as [|x l IH]; intros q F items bytes H Hlen Hb Hfirst; cbn [lease_loop length].
  { exists q. rewrite take_nil, drop_nil, !app_nil_r. by split_and!. }
  case_bool_decide as Hmax.
  { replace (maxItems - length items)%nat with 0%nat by lia. exists q. simpl. rewrite !app_nil_r. by split_and!. }
  replace (maxItems - length items)%nat with (S (maxItems - S (length items))) by lia. cbn [run_length].
  rewrite (ring_first_ok _ _ _ (qo_ring _ _ _ H)). cbn [mbind option_bind].
  pose proof (ao_good _ _ _ _ (qo_acct _ _ _ H)) as [[(_ & He & _) Hgl%bytes_nonneg]%Forall_cons _]%Forall_app.
  change (bytes_of (x :: l)) with (entryBytes x + bytes_of l) in Hb. rewrite (wrap_u_id 64 (bytes + _)) by (split; lia).
  replace (negb (bool_decide (items = [])) && (maxBytes <? bytes + entryBytes x)) with (negb (bytes + entryBytes x <=? maxBytes)).
  2:{ rewrite <-Z.ltb_antisym. case_bool_decide; [|done]. simpl. apply Z.ltb_ge. by apply Hfirst. }
  rewrite <-negb_andb. destruct (_ && _) eqn:Hin; cbn [negb].
  2:{ exists q. simpl. rewrite !app_nil_r. by split_and!. }
  apply andb_true_iff in Hin as [Hdg%bool_decide_eq_true _].
  destruct (lease_queue_ok q x l F H) as (q1 & Hl1 & H1 & Ec1 & Ed1 & Eb1). rewrite Hdg in Hl1. rewrite Hl1. cbn [mbind option_bind].
  destruct (IH q1 (F ++ [x]) (items ++ [x]) (bytes + entryBytes x) H1) as (q' & Hl & Hq & Ec & Ed & Eb).
  { rewrite length_app. simpl. lia. } { lia. } { intros Habs. by apply app_nil in Habs as [_ ?]. }
  rewrite length_app, Nat.add_1_r in *. exists q'. cbn [take drop]. rewrite <-!(assoc_L (++)) in *. simpl in *.
  split_and!; [done..|congruence|congruence|congruence].
Qed.

(** A batch: items of one profile, bounded in number and in bytes including the profile. *)
Definition batch_ok (b : ModelIngressBatch) (maxItems : nat) (maxBytes : Z) : Prop :=
  b_completed b = false ∧ b_items b ≠ [] ∧ (length (b_items b) ≤ maxItems)%nat ∧
  Forall (λ it, item_digest it = b_ProfileDigest b) (b_items b) ∧
  ∃ first, b_items b !! 0%nat = Some first ∧ b_Profile b = mi_Profile first ∧
    item_profileBytes first + bytes_of (b_items b) ≤ maxBytes.

(** The batches out after a batch [b] was leased. *)
Definition leased (b : option ModelIngressBatch) (out : list ModelIngressBatch) : list ModelIngressBatch :=
  match b with Some b => b :: out | None => out end.

Lemma queue_inv_perm q l F F' : F ≡ₚ F' → queue_inv q l F → queue_inv q l F'.
Proof. intros HF []. split; try done. by eapply acct_perm. Qed.

Lemma leaseBatch_ok q l out maxItems maxBytes :
  queue_inv q l (flight out) → (0 < maxItems)%nat →
  ∃ q' b l', leaseBatchLocked q maxItems maxBytes = Some (q', b) ∧ queue_inv q' l' (flight (leased b out)) ∧ q_cfg q' = q_cfg q ∧
    w_lease maxItems maxBytes (view q out) = (view q' (leased b out), b).
Proof.
  intros H Hpos. unfold leaseBatchLocked, w_lease. assert (count (q_ring q) = length l) as -> by apply (qo_ring _ _ _ H).
  rewrite (view_inv _ _ _ H). destruct (drop_large_ok l q (flight out) maxBytes H) as (q1 & -> & H1 & E1). cbn [mbind option_bind].
  rewrite <-(view_evict _ _ _ _ _ _ H H1 E1), (view_inv _ _ _ H1). pose proof (large_prefix_stop maxBytes l) as Hstop.
  assert (count (q_ring q1) = length (drop (large_prefix maxBytes l) l)) as -> by apply (qo_ring _ _ _ H1).
  destruct (drop (large_prefix maxBytes l) l) as [|x l1]; [by exists q1, None, []; split_and!; [..|apply E1|]|].
  rewrite bool_decide_false, (ring_first_ok _ _ _ (qo_ring _ _ _ H1)) by done. cbn [mbind option_bind].
  pose proof (ao_good _ _ _ _ (qo_acct _ _ _ H1)) as [[(_ & He & Hp) _]%Forall_cons _]%Forall_app.
  destruct (acct_bounds _ _ _ _ (qo_hard _ _ _ H1) (qo_acct _ _ _ H1)) as (B1 & B2 & B3 & B4 & B5).
  destruct (lease_loop_ok (x :: l1) q1 (flight out) (item_digest x) [] (item_profileBytes x) maxItems maxBytes H1)
    as (q' & -> & Hq & Ec & Ed & Eb); [simpl; lia|lia|intros _ y [= <-]; by apply Hstop|].
  cbn [mbind option_bind app length] in *. rewrite Nat.sub_0_r in *. set (n := run_length _ _ _ _ _) in *.
  exists q', (Some (mkBatch (mi_Profile x) (item_digest x) (take n (x :: l1)) false)), (drop n (x :: l1)).
  split_and!; [done| |rewrite Ec; apply E1|].
  - eapply queue_inv_perm; [|exact Hq]. unfold flight. simpl. apply Permutation_app_comm.
  - f_equal. unfold view. simpl. by rewrite (contents_ok _ _ (qo_ring _ _ _ Hq)), Ec, Ed, Eb.
Qed.

Lemma batch_ready_ok l r todo index d bytes maxItems maxBytes :
  ring_ok r l → Forall item_ok l → (index + todo = length l)%nat → (index < maxItems)%nat →
  0 ≤ bytes ∧ bytes + bytes_of (drop index l) < 2 ^ 63 →
  batch_ready_loop todo index r d bytes maxItems maxBytes =
  let n := run_length (maxItems - index) d bytes maxBytes (drop index l) in
  Some (bool_decide (n = maxItems - index)%nat || bool_decide (n < todo)%nat).
Proof.
  intros Hr Hl. revert index bytes. induction todo as [|todo IH]; intros index bytes Hi Hm Hb; cbn [batch_ready_loop].
  { rewrite drop_ge by lia. replace (maxItems - index)%nat with (S (maxItems - S index)) by lia. done. }
  rewrite bool_decide_false by lia. rewrite (ring_at_ok r l) by (done || lia).
  destruct (lookup_lt_is_Some_2 l index) as [x Hx]; [lia|]. rewrite Hx. cbn [mbind option_bind].
  rewrite (drop_S l x index Hx) in *. replace (maxItems - index)%nat with (S (maxItems - S index)) by lia. cbn [run_length].
  pose proof (Forall_lookup_1 _ _ _ _ Hl Hx) as (_ & He & _). pose proof (bytes_nonneg _ (Forall_drop _ (S index) _ Hl)) as Hn.
  change (bytes_of (x :: ?k)) with (entryBytes x + bytes_of k) in Hb. rewrite !(wrap_u_id 64 (bytes + _)) by (split; lia).
  destruct (bool_decide (item_digest x = d)); cbn [negb andb]; [|done]. rewrite Z.leb_antisym.
  destruct (_ <? _); cbn [negb]; [done|]. case_bool_decide as Hend.
  { replace (maxItems - S index)%nat with 0%nat by lia. done. }
  rewrite Nat.add_1_r in *. rewrite IH by lia. cbv zeta. do 2 f_equal; apply bool_decide_ext; lia.
Qed.

Lemma batchReady_ok q l F maxItems maxBytes :
  queue_inv q l F → (0 < maxItems)%nat → batchReadyLocked q maxItems maxBytes = Some (w_ready maxItems maxBytes l).
Proof.
  intros H Hpos. unfold batchReadyLocked. assert (count (q_ring q) = length l) as -> by apply (qo_ring _ _ _ H).
  destruct l as [|x l]; [done|]. rewrite bool_decide_false, (ring_first_ok _ _ _ (qo_ring _ _ _ H)) by done. cbn [mbind option_bind].
  pose proof (ao_good _ _ _ _ (qo_acct _ _ _ H)) as [Hg _]%Forall_app. pose proof Hg as [(_ & He & Hp) _]%Forall_cons.
  destruct (acct_bounds _ _ _ _ (qo_hard _ _ _ H) (qo_acct _ _ _ H)) as (B1 & B2 & B3 & B4 & B5).
  rewrite (batch_ready_ok (x :: l) (q_ring q) _ 0 _ _ maxItems maxBytes (qo_ring _ _ _ H) Hg); [|done..|cbn [drop]; lia].
  by rewrite Nat.sub_0_r.
Qed.

(** One round of [TakeBatch]. *)
Definition taken (o : take_outcome) : option ModelIngressBatch := match o with TakeReturn b => b | _ => None end.

Lemma take_once_ok q l out now deadline maxItems maxBytes maxWait :
  queue_inv q l (flight out) → (0 < maxItems)%nat →
  ∃ q' d o l', take_once q now deadline maxItems maxBytes maxWait = Some (q', d, o) ∧
    queue_inv q' l' (flight (leased (taken o) out)) ∧ q_cfg q' = q_cfg q ∧
    w_take now deadline maxItems maxBytes maxWait (view q out) = (view q' (leased (taken o) out), d, o).
Proof.
  intros H Hpos. unfold take_once, w_take. destruct (evictExpired_ok q l (flight out) now H) as (q1 & -> & H1 & E1). cbn [mbind option_bind].
  rewrite <-(view_expire _ _ _ _ _ H H1 E1), (view_inv _ _ _ H1), (headExpired_ok _ _ _ now H1). cbn [mbind option_bind].
  set (l1 := drop _ l) in *. pose proof (proj1 E1) as Ec.
  assert (count (q_ring q1) = length l1) as -> by apply (qo_ring _ _ _ H1).
  assert (bool_decide (length l1 = 0%nat) = bool_decide (l1 = [])) as -> by (apply bool_decide_ext; by rewrite length_zero_iff_nil).
  destruct (w_head_expired _ _); [by exists q1, deadline, TakeAgain, l1|].
  assert (∀ d : option time, ∃ q' d' o l', ('(q2, b) ← leaseBatchLocked q1 maxItems maxBytes; Some (q2, d, TakeReturn b)) = Some (q', d', o) ∧
    queue_inv q' l' (flight (leased (taken o) out)) ∧ q_cfg q' = q_cfg q ∧
    (let '(w2, b) := w_lease maxItems maxBytes (view q1 out) in (w2, d, TakeReturn b)) = (view q' (leased (taken o) out), d', o)) as Hlease.
  { intros d. destruct (leaseBatch_ok q1 l1 out maxItems maxBytes H1 Hpos) as (q' & b & l' & -> & Hq & Hc & ->).
    exists q', d, (TakeReturn b), l'. split_and!; [done..|congruence|done]. }
  assert (∀ d : option time, let o := match d with Some t => if time_sub t now <=? 0 then TakeAgain else TakeBlock (Some t) | None => TakeBlock None end in
    ∃ q' d' o' l', Some (q1, d, o) = Some (q', d', o') ∧ queue_inv q' l' (flight (leased (taken o') out)) ∧ q_cfg q' = q_cfg q ∧
    (view q1 out, d, o) = (view q' (leased (taken o') out), d', o')) as Hwait.
  { intros d o. exists q1, d, o, l1. assert (taken o = None) as -> by (unfold o; by repeat case_match). by split_and!. }
  destruct (bool_decide (l1 = [])); [apply Hwait|]. destruct (maxWait <=? 0); [apply Hlease|].
  rewrite (batchReady_ok _ _ _ _ _ H1 Hpos). cbn [mbind option_bind]. set (d := default (now + maxWait) deadline). destruct (_ || _); [apply Hlease|apply (Hwait (Some d))].
Qed.

(** *** Configuration, completion, cleaning *)

Definition window_typed (w : option ModelIngressWindow) : Prop := ∀ x, w = Some x → in_u 32 (MaxItems x).

Lemma window_age w : window_bounded w → 0 ≤ queue_age w < max_duration.
Proof.
  intros (_ & _ & d & Hd & Hr). unfold queue_age. rewrite Hd. simpl.
  destruct (AsDuration_New d) as [-> _]; unfold ModelIngressAbsoluteMinAge, ModelIngressAbsoluteMaxAge, Millisecond, Minute, Second, max_duration in *; lia.
Qed.

Lemma queue_age_Some x y a : queue_age (mkModelIngressWindow x y a) = default 0 (AsDuration <$> a).
Proof. done. Qed.

(** Applying a window leaves what is queued and in flight alone. *)
Lemma Configure_ok q l out w :
  queue_inv q l (flight out) → window_typed w → window_bounded (hardLimit (q_cfg q)) →
  queue_inv (Configure q w).1 l (flight out) ∧ hardLimit (q_cfg (Configure q w).1) = hardLimit (q_cfg q) ∧
  w_configure w (view q out) = (view (Configure q w).1 out, (Configure q w).2).
Proof.
  intros H Hw Hh. unfold Configure, w_configure. destruct (NormalizeModelIngressWindow w) as [n|] eqn:Hn; [|done].
  pose proof (window_age _ (normalized_bounded w n Hn Hw)) as Ha. pose proof (window_age _ Hh) as Hb.
  destruct H as [H1 H2 H3 H4 H5 H6]. split; [|done]. split; simpl; try done. split; [lia|]. split; [lia|].
  rewrite queue_age_Some. destruct (queue_age (hardLimit (q_cfg q)) <? queue_age n); done.
Qed.

Lemma CompleteBatch_ok q l items F p d accepted failed :
  queue_inv q l (items ++ F) →
  let q' := (CompleteBatch q (Some (mkBatch p d items false)) accepted failed).1 in let n := Z.of_nat (length items) in
  queue_inv q' l F ∧ q_cfg q' = q_cfg q ∧ costs (q_acct q') ⊆ costs (q_acct q) ∧
  q_drops q' = (if failed then add_drop TransportFailed n (q_drops q)
                else if accepted <? n then add_drop ModelsideRejected (n - accepted) (q_drops q) else q_drops q).
Proof.
  intros H. unfold CompleteBatch. cbn [b_completed b_items fst]. set (q1 := if failed then _ else _).
  assert (queue_inv q1 l (items ++ F) ∧ q_cfg q1 = q_cfg q ∧ q_acct q1 = q_acct q) as ([H1 H2 H3 H4 H5 H6] & Hc & Ea).
  { unfold q1. destruct failed; [by split; [apply record_drop_ok|]|]. destruct (_ <? _); [by split; [apply record_drop_ok|]|done]. }
  split_and!; [|done| |].
  - split; simpl; try done. by apply complete_items_ok.
  - simpl. rewrite Ea. apply costs_complete.
  - simpl. unfold q1. by destruct failed; [|destruct (_ <? _)].
Qed.



(** ** The queue with its producers, consumers and control plane *)

(** One critical section of a caller; the clock was read before the lock was taken, so the
    readings of successive sections are in no particular order.  [EvClean] is one round of
    [cleanupExpired]. *)
Inductive event :=
  | EvConfigure (w : option ModelIngressWindow)
  | EvOffer (item : option ModelIngressItem) (now : time)
  | EvTake (now : time) (deadline : option time) (maxItems : nat) (maxBytes : Z) (maxWait : duration)
  | EvComplete (i : nat) (accepted : Z) (failed : bool)
  | EvDropOldest
  | EvMarkDropped
  | EvClean (now : time).

(** What the caller learns. *)
Inductive answer :=
  | Configured (r : result unit) | Offered (ok : bool) | Took (deadline : option time) (o : take_outcome)
  | Cleaned (more : bool) | Done.

(** [sys_out]: the batches leased and not completed yet. *)
Record system := mkSystem { sys_queue : ModelIngressQueue; sys_out : list ModelIngressBatch }.
Definition in_flight (st : system) : list ModelIngressItem := flight (sys_out st).

Definition exec (st : system) (e : event) : option (system * answer) :=
  let q := sys_queue st in let out := sys_out st in
  match e with
  | EvConfigure w => let '(q', r) := Configure q w in Some (mkSystem q' out, Configured r)
  | EvOffer item now => '(q', ok) ← Offer q item now; Some (mkSystem q' out, Offered ok)
  | EvTake now d n m w => '(q', d', o) ← take_once q now d n m w; Some (mkSystem q' (leased (taken o) out), Took d' o)
  | EvComplete i accepted failed =>
      match out !! i with
      | Some b => Some (mkSystem (CompleteBatch q (Some b) accepted failed).1 (delete i out), Done)
      | None => Some (st, Done)
      end
  | EvDropOldest => q' ← DropOldest q; Some (mkSystem q' out, Done)
  | EvMarkDropped => Some (mkSystem (MarkDropped q) out, Done)
  | EvClean now =>
      '(q', _) ← evictExpiredLocked q now modelIngressRequestPathEvictionLimit;
      more ← headExpiredLocked q' now; Some (mkSystem q' out, Cleaned more)
  end.

(** Typed arguments: a window of machine integers, an item with a trimmed digest, a batch of
    at least one item (what [TakeBatch] checks first). *)
Definition event_ok (e : event) : Prop :=
  match e with
  | EvConfigure w => window_typed w
  | EvOffer item _ => ∀ it, item = Some it → offerable it
  | EvTake _ _ n _ _ => (0 < n)%nat
  | _ => True
  end.

Fixpoint run (st : system) (es : list event) : option (system * list answer) :=
  match es with
  | [] => Some (st, [])
  | e :: es' => '(st1, a) ← exec st e; '(st2, l) ← run st1 es'; Some (st2, a :: l)
  end.

(** The same calls on the reference window. *)
Definition w_exec (w : window) (e : event) : window * answer :=
  match e with
  | EvConfigure x => let '(w', r) := w_configure x w in (w', Configured r)
  | EvOffer item now => let '(w', ok) := w_offer item now w in (w', Offered ok)
  | EvTake now d n m x => let '(w', d', o) := w_take now d n m x w in (w', Took d' o)
  | EvComplete i accepted failed => (w_complete i accepted failed w, Done)
  | EvDropOldest => (if bool_decide (w_items w = []) then w else w_evict EvictedOldest 1 w, Done)
  | EvMarkDropped => (w_count TransportFailed 1 w, Done)
  | EvClean now => let w' := w_expire now w in (w', Cleaned (w_head_expired w' now))
  end.
Fixpoint w_run (w : window) (es : list event) : window * list answer :=
  match es with
  | [] => (w, [])
  | e :: es' => let '(w1, a) := w_exec w e in let '(w2, l) := w_run w1 es' in (w2, a :: l)
  end.

(** An empty window under the hard limit of the machine, with the default limits. *)
Definition empty_window (hard : ModelIngressWindow) : window :=
  (w_configure (Some DefaultModelIngressWindow) (mkWindow [] [] ∅ hard hard no_drops)).1.

Definition sys_view (st : system) : window := view (sys_queue st) (sys_out st).

Definition system_ok (hard : ModelIngressWindow) (st : system) (l : list ModelIngressItem) : Prop :=
  queue_inv (sys_queue st) l (in_flight st) ∧ Forall (λ b, b_completed b = false) (sys_out st) ∧
  hardLimit (q_cfg (sys_queue st)) = hard.

Lemma concat_delete {A B} (f : A → list B) l i x :
  l !! i = Some x → concat (f <$> l) ≡ₚ f x ++ concat (f <$> delete i l).
Proof.
  revert i. induction l as [|y l IH]; intros [|i] Hi; simplify_eq/=; [done|]. rewrite (IH i Hi). apply Permutation_app_swap_app.
Qed.

(** An offer drops at most 32 of the oldest items and nothing else; an accepted item goes
    last, unchanged but for its stamps. *)
Lemma offer_keeps_latest it now w w' ok :
  w_offer (Some it) now w = (w', ok) →
  ∃ k, (k ≤ eviction_budget)%nat ∧ w_items w' = drop k (w_items w) ++ (if ok then [stamp it now] else []) ∧ w_out w' = w_out w.
Proof.
  unfold w_offer. destruct (_ || _); [intros [= <- <-]; exists 0%nat; rewrite app_nil_r; by split_and!; [lia|..]|].
  pose proof (expired_prefix_le eviction_budget (queue_age (w_eff w)) now (w_items w)) as [Hn _].
  set (n := expired_prefix _ _ _ _) in *. assert (w_items (w_expire now w) = drop n (w_items w)) as Hi by done.
  destruct (_ <? _); [intros [= <- <-]; exists n; simpl; by rewrite app_nil_r|].
  set (m := room_prefix _ _ _ _ _ _). assert (n + m ≤ eviction_budget)%nat.
  { pose proof (room_prefix_le (eviction_budget - n) (w_costs (w_expire now w)) (flight (w_out (w_expire now w))) (stamp it now)
      (w_eff (w_expire now w)) (w_items (w_expire now w))) as [Hm _]. fold m in Hm. lia. }
  destruct (w_fits _ _ _ _ _ || _); intros [= <- <-]; exists (n + m)%nat; cbn [w_push w_count w_evict w_items w_out];
    rewrite Hi, drop_drop, ?app_nil_r; done.
Qed.

Lemma w_lease_batch maxItems maxBytes w w' b :
  (0 < maxItems)%nat → w_lease maxItems maxBytes w = (w', Some b) →
  ∃ k, drop k (w_items w) = b_items b ++ w_items w' ∧ w_out w' = b :: w_out w ∧ batch_ok b maxItems maxBytes.
Proof.
  intros Hpos. unfold w_lease. set (w1 := w_evict _ _ _). assert (w_items w1 = drop (large_prefix maxBytes (w_items w)) (w_items w)) as Hi by done.
  destruct (w_items w1) as [|x l1] eqn:E; [done|]. set (n := run_length _ _ _ _ _). intros [= <- <-].
  exists (large_prefix maxBytes (w_items w)). cbn [w_items w_out b_items]. rewrite <-Hi, take_drop. split_and!; [done..|].
  assert (∃ n', n = S n') as [n' Hn].
  { destruct maxItems as [|mi]; [lia|]. unfold n. cbn [run_length]. rewrite bool_decide_true by done. cbn [andb].
    rewrite (proj2 (Z.leb_le _ _)); [by eexists|]. apply (large_prefix_stop maxBytes (w_items w)). by rewrite <-Hi. }
  destruct (run_length_run maxItems (item_digest x) (item_profileBytes x) maxBytes (x :: l1)) as [Hd Hb]. fold n in Hd, Hb.
  destruct (run_length_le maxItems (item_digest x) (item_profileBytes x) maxBytes (x :: l1)) as [Hm _]. fold n in Hm.
  split_and!; cbn [b_completed b_items b_ProfileDigest b_Profile]; [done|by rewrite Hn|rewrite length_take; lia|done|].
  exists x. rewrite Hn in *. split_and!; [done..|]. by apply Hb.
Qed.

(** Items behind a fresh head are fresh, where the stamps are in order. *)
Lemma fresh_tail (l : list ModelIngressItem) now age :
  0 ≤ age < max_duration → StronglySorted (≤) (enqueuedAt <$> l) →
  match l with x :: _ => age <? time_sub now (enqueuedAt x) | [] => false end = false → Forall (λ it, now - enqueuedAt it ≤ age) l.
Proof.
  intros Ha Hs Hx. destruct l as [|x l]; [done|]. apply Z.ltb_ge in Hx. pose proof (time_sub_gt now (enqueuedAt x) _ Ha).
  rewrite fmap_cons in Hs. apply StronglySorted_cons in Hs as [Hs _]. rewrite Forall_fmap in Hs.
  apply Forall_cons. split; [lia|]. eapply Forall_impl; [exact Hs|]. simpl. lia.
Qed.

(** A batch is the run of items at the front after drops, of one profile, within the bounds
    asked for; where the stamps are in order, none is older than the effective age. *)
Lemma take_batch_fifo now deadline maxItems maxBytes maxWait w w' d b :
  (0 < maxItems)%nat → w_take now deadline maxItems maxBytes maxWait w = (w', d, TakeReturn (Some b)) →
  ∃ k, drop k (w_items w) = b_items b ++ w_items w' ∧ w_out w' = b :: w_out w ∧ batch_ok b maxItems maxBytes ∧
    (0 ≤ queue_age (w_eff w) < max_duration → StronglySorted (≤) (enqueuedAt <$> w_items w) →
     Forall (λ it, now - enqueuedAt it ≤ queue_age (w_eff w)) (b_items b)).
Proof.
  intros Hpos. unfold w_take. set (n := expired_prefix eviction_budget (queue_age (w_eff w)) now (w_items w)).
  assert (w_items (w_expire now w) = drop n (w_items w)) as Hi by done.
  destruct (w_head_expired _ _) eqn:Hfresh; [done|].
  assert (∀ d', (let '(w2, b) := w_lease maxItems maxBytes (w_expire now w) in (w2, d', TakeReturn b)) = (w', d, TakeReturn (Some b)) →
    w_lease maxItems maxBytes (w_expire now w) = (w', Some b)) as Hl by (intros d'; destruct (w_lease _ _ _); by intros [= -> -> ->]).
  intros Ht. assert (w_lease maxItems maxBytes (w_expire now w) = (w', Some b)) as Hb.
  { revert Ht. repeat (case_match; try done); by apply Hl. }
  destruct (w_lease_batch _ _ _ _ _ Hpos Hb) as (k & Hk & Ho & Hok). rewrite Hi, drop_drop in Hk.
  exists (n + k)%nat. split_and!; [done..|]. intros Ha Hs.
  assert (Forall (λ it, now - enqueuedAt it ≤ queue_age (w_eff w)) (drop n (w_items w))) as Hf.
  { apply fresh_tail; [done| |]; [rewrite fmap_drop; rewrite <-(take_drop n (enqueuedAt <$> w_items w)) in Hs; by apply StronglySorted_app_1_r in Hs|].
    unfold w_head_expired in Hfresh. by rewrite Hi in Hfresh. }
  apply (Forall_drop _ k) in Hf. rewrite drop_drop, Hk in Hf. by apply Forall_app in Hf as [? _].
Qed.

(** Each critical section answers as the reference window does, and keeps representing it. *)
Lemma exec_ok hard st e l :
  window_bounded hard → system_ok hard st l → event_ok e →
  ∃ st' a l', exec st e = Some (st', a) ∧ system_ok hard st' l' ∧ w_exec (sys_view st) e = (sys_view st', a).
Proof.
  intros Hh (H & Hout & Hhard) He. destruct st as [q out]. unfold in_flight, sys_view in *. cbn [sys_queue sys_out] in *.
  assert (∀ q' a l', queue_inv q' l' (flight out) → q_cfg q' = q_cfg q → w_exec (view q out) e = (view q' out, a) →
    ∃ st' a' l', Some (mkSystem q' out, a) = Some (st', a') ∧ system_ok hard st' l' ∧ w_exec (view q out) e = (view (sys_queue st') (sys_out st'), a')) as K.
  { intros q' a l' Hq Hc Hw. exists (mkSystem q' out), a, l'. split_and!; [done| |done]. split_and!; [done..|]. cbn. by rewrite Hc. }
  destruct e as [w|item now|now d n m x|i accepted failed| | |now]; cbn [exec w_exec event_ok sys_queue sys_out] in *.
  - destruct (Configure_ok q l out w H He) as (H' & Hc & ->); [by rewrite Hhard|]. destruct (Configure q w) as [q' r].
    cbn [fst snd] in *. exists (mkSystem q' out), (Configured r), l. split_and!; [done| |done]. split_and!; [done..|]. cbn. by rewrite Hc.
  - destruct (Offer_ok q l out item now H He) as (q' & ok & l' & -> & Hq & Hc & Hw). rewrite Hw in *. by apply (K q' _ l').
  - destruct (take_once_ok q l out now d n m x H He) as (q' & d' & o & l' & -> & Hq & Hc & Hw).
    rewrite Hw. eexists _, _, l'. split_and!; [done| |done]. split_and!; [done| |by cbn; rewrite Hc].
    cbn. destruct o as [|[b|]|]; try done. apply Forall_cons. split; [|done]. by destruct (take_batch_fifo _ _ _ _ _ _ _ _ _ He Hw) as (_ & _ & _ & [? _] & _).
  - unfold w_complete. change (w_out (view q out)) with out. destruct (out !! i) as [b|] eqn:Hb; [|by exists (mkSystem q out), Done, l].
    pose proof (delete_Permutation _ _ _ Hb) as Hperm. rewrite Hperm in Hout. apply Forall_cons in Hout as [Hbc Hout].
    destruct b as [p d items []]; [done|].
    destruct (CompleteBatch_ok q l items (flight (delete i out)) p d accepted failed) as (Hq & Hc & Eb & Ed).
    { eapply queue_inv_perm; [|exact H]. apply (concat_delete b_items _ _ _ Hb). }
    set (q' := (CompleteBatch _ _ _ _).1) in *. eexists (mkSystem q' (delete i out)), Done, l. split_and!; [done| |].
    + split_and!; [done..|]. cbn [sys_queue]. by rewrite Hc.
    + f_equal. unfold view. cbn [sys_queue sys_out w_items w_eff w_hard w_drops w_costs b_items].
      rewrite (contents_ok _ _ (qo_ring _ _ _ H)), (contents_ok _ _ (qo_ring _ _ _ Hq)), Hc, Ed. f_equal.
      symmetry. eapply costs_held; [apply (ao_refs _ _ _ _ (qo_acct _ _ _ Hq))|done].
  - unfold DropOldest. assert (count (q_ring q) = length l) as -> by apply (qo_ring _ _ _ H). rewrite (view_inv _ _ _ H) in *.
    destruct l as [|x l]; [by apply (K q _ [])|]. rewrite !bool_decide_false in * by done.
    destruct (evictOldest_ok _ _ _ _ EvictedOldest H) as (q' & -> & Hq & E). apply (K q' _ l Hq (proj1 E)).
    by rewrite (view_evict EvictedOldest 1 q q' (x :: l) out H).
  - by apply (K _ _ l); [apply record_drop_ok|..].
  - destruct (evictExpired_ok q l (flight out) now H) as (q1 & -> & H1 & E1). cbn [mbind option_bind].
    rewrite <-(view_expire _ _ _ _ _ H H1 E1) in *. rewrite (headExpired_ok _ _ _ now H1). by apply (K q1 _ _ H1 (proj1 E1)).
Qed.

Lemma run_ok hard es st l :
  window_bounded hard → system_ok hard st l → Forall event_ok es →
  ∃ st' answers l', run st es = Some (st', answers) ∧ system_ok hard st' l' ∧ w_run (sys_view st) es = (sys_view st', answers).
Proof.
  intros Hh H He. revert st l H. induction He as [|e es He Hes IH]; intros st l H; [by exists st, [], l|]. cbn [run w_run].
  destruct (exec_ok hard st e l Hh H He) as (st1 & a & l1 & -> & H1 & ->). cbn [mbind option_bind].
  destruct (IH st1 l1 H1) as (st2 & answers & l2 & -> & H2 & ->). by exists st2, (a :: answers), l2.
Qed.

Lemma fresh_queue_ok w q :
  NewModelIngressQueueWithHardLimit w = Ok q → window_typed w →
  window_bounded (hardLimit (q_cfg q)) ∧ system_ok (hardLimit (q_cfg q)) (mkSystem q []) [] ∧
  sys_view (mkSystem q []) = empty_window (hardLimit (q_cfg q)).
Proof.
  intros H Hw. unfold NewModelIngressQueueWithHardLimit in H.
  destruct (NormalizeModelIngressWindow w) as [hard|] eqn:Hn; [|done]. cbn -[Configure] in H.
  pose proof (normalized_bounded w hard Hn Hw) as Hb. pose proof (window_age hard Hb) as Ha. set (q0 := mkQueue _ _ _ _ _ _) in H.
  assert (queue_inv q0 [] (flight [])) as H0.
  { destruct Hb as (Hi & Hby & _). unfold ModelIngressAbsoluteMaxItems, ModelIngressAbsoluteMinBytes, ModelIngressAbsoluteMaxBytes in *.
    split; cbn [q0 q_ring q_acct q_cfg q_drops q_dropped entries hardLimit effective].
    - unfold ring_ok. cbn [entries head count length]. rewrite length_replicate. split_and!; [lia..|]. intros i x Hx. by rewrite lookup_nil in Hx.
    - rewrite length_replicate. lia.
    - split; cbn [queuedBytes inFlightItems inFlightBytes profileBytes profiles length flight fmap list_fmap concat];
        [done|done|done|by split_and!|constructor|simpl; lia|unfold bytes_of; simpl; lia].
    - split; unfold ModelIngressAbsoluteMaxItems, ModelIngressAbsoluteMaxBytes; lia.
    - lia.
    - done. }
  destruct (Configure_ok q0 [] [] (Some DefaultModelIngressWindow) H0) as (Hq & Hc & Hv); [|done|].
  { intros x [= <-]. split; vm_compute; congruence. }
  destruct (Configure q0 (Some DefaultModelIngressWindow)) as [q' [|]]; [|done]. injection H as <-. cbn [fst] in *. rewrite Hc.
  split; [done|]. split; [by split_and!|]. unfold empty_window. change (hardLimit (q_cfg q0)) with hard.
  change (mkWindow [] [] ∅ hard hard no_drops) with (view q0 []). by rewrite Hv.
Qed.

(** ** Properties *)

(** C34: from a fresh queue, whatever producers offer, consumers take and
    complete, and the control plane configures, in any order of their critical sections and
    with any clock readings, no call panics; items queued and in flight
    never exceed the hard limit of the machine in number or in retained bytes; the byte and
    in-flight counters are exact, a profile is accounted for exactly while one of its items
    is held, and the total of drops is the sum of the drop counters.  Producers hand in
    profile digests without surrounding blanks ([untrimmed_digest_panics] shows why). *)
Theorem model_ingress_bounded w q0 es :
  NewModelIngressQueueWithHardLimit w = Ok q0 → window_typed w → Forall event_ok es →
  ∃ st answers, run (mkSystem q0 []) es = Some (st, answers) ∧
    let q := sys_queue st in let a := q_acct q in let l := contents q in let F := in_flight st in
    let hard := hardLimit (q_cfg q0) in
    Z.of_nat (length l) + Z.of_nat (length F) ≤ MaxItems hard ∧
    queuedBytes a = bytes_of l ∧ inFlightBytes a = bytes_of F ∧ inFlightItems a = Z.of_nat (length F) ∧
    totalBytesLocked a = bytes_of l + bytes_of F + refs_sum (profiles a) ∧ totalBytesLocked a ≤ MaxRetainedBytes hard ∧
    (∀ d, is_Some (profiles a !! d) ↔ 0 < cnt d l + cnt d F) ∧
    Dropped q = snapshot_dropped (q_drops q).
Proof.
  intros Hnew Hw Hes. destruct (fresh_queue_ok w q0 Hnew Hw) as (Hb & H0 & _).
  destruct (run_ok _ es _ [] Hb H0 Hes) as (st & answers & l & Hrun & (Hq & _ & Hhard) & _). exists st, answers. split; [done|].
  cbv zeta. rewrite (contents_ok _ l (qo_ring _ _ _ Hq)), <-Hhard.
  destruct (acct_bounds _ _ _ _ (qo_hard _ _ _ Hq) (qo_acct _ _ _ Hq)) as (B1 & B2 & B3 & B4 & B5).
  destruct (qo_acct _ _ _ Hq) as [A1 A2 A3 (Hpb & Hn & Hs) A5 A6 A7].
  unfold totalBytesLocked. rewrite A1, A3, <-Hpb, (wrap_u_id 64 (bytes_of l + _)), wrap_u_id by (split; lia).
  split_and!; try done; [|apply (qo_drops _ _ _ Hq)].
  intros d. destruct (profiles (q_acct (sys_queue st)) !! d) as [ref|] eqn:E; split; try done.
  - by destruct (Hs d ref E) as (_ & _ & _ & ?).
  - destruct (Hn d E). lia.
Qed.

(** C9: the ring buffer with its running counters and reference counts is
    the reference window of plain lists: over any sequence of critical sections it gives
    every caller the same answer (accepted or refused, the very batch and deadline, more to
    clean) and ends with the same items in the same order, the same batches in flight, the
    same profile charges and the same drop counters. *)
Theorem model_ingress_refines_window w q0 es :
  NewModelIngressQueueWithHardLimit w = Ok q0 → window_typed w → Forall event_ok es →
  ∃ st answers, run (mkSystem q0 []) es = Some (st, answers) ∧
    w_run (empty_window (hardLimit (q_cfg q0))) es = (sys_view st, answers).
Proof.
  intros Hnew Hw Hes. destruct (fresh_queue_ok w q0 Hnew Hw) as (Hb & H0 & <-).
  destruct (run_ok _ es _ [] Hb H0 Hes) as (st & answers & l & Hrun & _ & Hspec). by exists st, answers.
Qed.

(** *** Snapshots *)



(** *** A loop that spins *)

(** Once a consumer has set its batching deadline and the queue is emptied
    by someone else (evictions under overload, expiry) before the deadline, every further
    round of [TakeBatch] starts over at once: it neither blocks nor looks at its context, so
    a cancelled consumer does not return and the loop spins until an item is offered. *)
Theorem take_batch_spins q d rounds maxItems maxBytes maxWait :
  count (q_ring q) = 0%nat → Forall (λ r, d ≤ r.1) rounds →
  take_rounds q (Some d) rounds maxItems maxBytes maxWait = Some (q, Some d, None).
Proof.
  intros Hz. induction rounds as [|[now cancelled] rounds IH]; intros Hr; simpl; [done|].
  apply Forall_cons in Hr as [Hd Hr]. unfold take_once, evictExpiredLocked. rewrite Hz. cbn [evict_expired mbind option_bind].
  unfold headExpiredLocked. rewrite Hz. cbn -[time_sub].
  destruct (Z.leb_spec (time_sub d now) 0) as [_|Hgt]; [by apply IH|].
  unfold time_sub, min_duration, max_duration in Hgt. simpl in Hd. lia.
Qed.

(** ** A concrete queue *)
Module Demo.
Definition window : option ModelIngressWindow := Some (mkModelIngressWindow 2 (2 ^ 20) (Some (NewDuration Second))).
Definition traffic (digest : string) : NormalizedTraffic :=
  mkNormalizedTraffic "normalized-http/v1" "req" "unit" "asset" "gen" 1 "p" digest "GET" "/" (mkSlice [] 0) (mkSlice [] 0)
    (mkSlice [] 64) "" 0 false (mkSlice [] 0) 0.
Definition item (digest : string) : ModelIngressItem :=
  mkModelIngressItem (Some (mkHeldProfile DefaultModelProfile 3)) (Some (traffic digest)) 0 0 0.
Definition q0 : ModelIngressQueue :=
  match NewModelIngressQueueWithHardLimit window with
  | Ok q => q
  | Err _ => mkQueue (mkRing [] 0 0) (mkAccount 0 0 0 0 ∅) (mkConfig DefaultModelIngressWindow DefaultModelIngressWindow DefaultModelIngressWindow []) no_drops 0 false
  end.
Definition events : list event :=
  [EvOffer (Some (item "sha:a")) 0; EvOffer (Some (item "sha:a")) 1; EvOffer (Some (item "sha:b")) 2;
   EvTake 1 None 1 (2 ^ 20) 0; EvComplete 0 1 false; EvClean 4].

(** The window holds two items: the first is evicted, the second is delivered. *)
Example run_events :
  (λ st, (enqueuedAt <$> contents (sys_queue st), Dropped (sys_queue st), in_flight st)) <$> (fst <$> run (mkSystem q0 []) events)
  = Some ([2], 1, []).
Proof. vm_compute. reflexivity. Qed.

(** [Offer] looks a profile up by its trimmed digest, the consumer by the digest as it is:
    with blanks around it the reference is nil when a batch is leased. *)
Example untrimmed_digest_panics :
  ('(q, ok) ← Offer q0 (Some (item " sha:a")) 0; guard (ok = true);; Some (bool_decide (leaseBatchLocked q 1 (2 ^ 20) = None))) = Some true.
Proof. vm_compute. reflexivity. Qed.

(** A consumer that waits for a second item while the first one is evicted. *)
Definition q_offered : ModelIngressQueue :=
  match Offer q0 (Some (item "sha:a")) 0 with Some (q, _) => q | None => q0 end.
Definition q_emptied : ModelIngressQueue :=
  match take_once q_offered 0 None 2 (2 ^ 20) 10 with
  | Some (q, _, _) => default q (DropOldest q)
  | None => q_offered
  end.
Example spin_reached :
  match take_once q_offered 0 None 2 (2 ^ 20) 10 with
  | Some (q, d, o) => (d, o, count (q_ring q_emptied)) = (Some 10, TakeBlock (Some 10), 0%nat)
  | None => False
  end.
Proof. vm_compute. reflexivity. Qed.

Lemma item_offerable : offerable (item "sha:a") ∧ offerable (item "sha:b").
Proof. split; split_and!; vm_compute; congruence. Qed.

Lemma events_good : Forall event_ok events.
Proof. destruct item_offerable. unfold events. repeat (apply Forall_cons; split); try (by apply Forall_nil); try done; try (cbn; lia); intros ? [= <-]; done. Qed.

Lemma window_small : window_typed window.
Proof. intros x [= <-]. split; vm_compute; congruence. Qed.

Lemma new_q0 : NewModelIngressQueueWithHardLimit window = Ok q0.
Proof. vm_compute. reflexivity. Qed.

End Demo.

Lemma model_ingress_bounded_witness :
  ∃ st answers, run (mkSystem Demo.q0 []) Demo.events = Some (st, answers) ∧ totalBytesLocked (q_acct (sys_queue st)) ≤ 2 ^ 20.
Proof.
  destruct (model_ingress_bounded Demo.window Demo.q0 Demo.events Demo.new_q0 Demo.window_small Demo.events_good)
    as (st & answers & Hr & _ & _ & _ & _ & _ & Hb & _). exists st, answers. split; [exact Hr|]. exact Hb.
Defined.

Lemma model_ingress_refines_window_witness :
  ∃ st answers, run (mkSystem Demo.q0 []) Demo.events = Some (st, answers) ∧
    w_run (empty_window (hardLimit (q_cfg Demo.q0))) Demo.events = (sys_view st, answers).
Proof.
  exact (model_ingress_refines_window Demo.window Demo.q0 Demo.events Demo.new_q0 Demo.window_small Demo.events_good).
Defined.


Lemma take_batch_spins_witness :
  take_rounds Demo.q_emptied (Some 10) [(10, true); (11, true); (1000, true)] 2 (2 ^ 20) 10 = Some (Demo.q_emptied, Some 10, None).
Proof.
  apply (take_batch_spins Demo.q_emptied 10 [(10, true); (11, true); (1000, true)]).
  - vm_compute. reflexivity.
  - repeat constructor; vm_compute; congruence.
Defined.
