(* ===== verification/Saga.v ===== *)
(** * Run sagas: the executor and its journal

    [agents/runtime/saga.go] executes the steps of a run, [lib/brain/agent_run_saga.go] keeps
    the journal that makes it recoverable, and [lib/brain/agent_run.go] leases the work and
    settles the run.  The executor is a program tree: each journal call, action, compensation
    and look at the context is a node whose children are the possible replies, so that crashes
    and lost replies between any two of them can be expressed.  The journal is a function on
    the rows of [run_sagas] and [run_saga_steps]; the columns with a CHECK constraint are
    inductive types.  SQL errors, audit entries and budgets are outside: a transaction that
    fails changes nothing.  A work item of an investigation (a check ticket or a case) settles
    on its receipt: what the checks of [investigation_receipt.go] answer is an argument of
    [CompleteWork] and [FailWork].  The recovery of its model calls after a restart and the
    expiry of its evidence are not modelled. *)

From S2P Require Import Prelude GoStrings Contracts Signing.

(** ** Data *)

Inductive ReplayPolicy := ReplaySafe | ReplayIdempotent | ReplayNever | ReplayOther (s : string).

(** The empty phase of the source is [None] where a phase is optional. *)
Inductive SagaPhase :=
  | PhaseActionIntent | PhaseActionEffect | PhaseActionSucceeded | PhaseActionFailed
  | PhaseCompensationIntent | PhaseCompensationEffect | PhaseCompensated | PhaseCompensationFailed
  | PhaseOutcomeUnknown.

Inductive saga_state :=
  | SAGA_pending | SAGA_running | SAGA_compensating | SAGA_cancelling | SAGA_ready | SAGA_compensated
  | SAGA_outcome_unknown.

Record SagaStepPlan := mkSagaStepPlan {
  pl_Sequence : Z; pl_StepKey : string; pl_ActionReplay : ReplayPolicy; pl_HasCompensation : bool;
  pl_CompensationReplay : ReplayPolicy }.
Record SagaPlan := mkSagaPlan { pl_SchemaVersion : string; pl_Steps : list SagaStepPlan; pl_PlanDigest : string }.
Record SagaReceipt := mkSagaReceipt {
  re_Sequence : Z; re_StepKey : string; re_Phase : SagaPhase; re_GuardDigest : string; re_ReceiptRef : string;
  re_Error : string }.
Record SagaStepSnapshot := mkSagaStepSnapshot {
  ss_Plan : SagaStepPlan; ss_ActionPhase : option SagaPhase; ss_CompensationPhase : option SagaPhase;
  ss_GuardDigest : string; ss_ActionReceiptRef : string; ss_CompensationReceiptRef : string; ss_Error : string;
  ss_ActionEffectStarted : bool }.
Record SagaSnapshot := mkSagaSnapshot {
  sn_State : saga_state; sn_PlanDigest : string; sn_CancelRequested : bool; sn_Steps : list SagaStepSnapshot;
  sn_Cause : string }.

(** A step; [Run] and [Compensate] say whether the closure is present, its effect is an event
    of the program tree.  [Budget] is a pointer, shared between steps: an address in a heap. *)
Record Step := mkStep {
  st_Name : string; st_Dangerous : bool; st_Fail : bool; st_Replay : ReplayPolicy; st_CompensationReplay : ReplayPolicy;
  st_Budget : option nat; st_MemBytes : Z; st_Compensate : bool; st_Run : bool }.
Record ResourceLimit := mkResourceLimit { lim_MemoryBytes : Z; lim_CPUSeconds : Z; lim_Files : Z }.
Abbreviation budgets := (gmap nat Z).

(** The wire messages (workerv1). *)
Inductive RunStepReplayPolicy :=
  | REPLAY_UNSPECIFIED | REPLAY_SAFE | REPLAY_IDEMPOTENT | REPLAY_NEVER_REPLAY | REPLAY_other (n : Z).
Inductive RunStepPhase :=
  | STEP_UNSPECIFIED | STEP_ACTION_INTENT_RECORDED | STEP_ACTION_EFFECT_STARTED | STEP_ACTION_SUCCEEDED
  | STEP_ACTION_FAILED | STEP_COMPENSATION_INTENT_RECORDED | STEP_COMPENSATION_EFFECT_STARTED | STEP_COMPENSATED
  | STEP_COMPENSATION_FAILED | STEP_OUTCOME_UNKNOWN | STEP_other (n : Z).
Record RunSagaStepPlan := mkRunSagaStepPlan {
  rp_Sequence : Z; rp_StepKey : string; rp_ActionReplay : RunStepReplayPolicy; rp_HasCompensation : bool;
  rp_CompensationReplay : RunStepReplayPolicy }.
Record RunSagaPlan := mkRunSagaPlan {
  rp_SchemaVersion : string; rp_Steps : list (option RunSagaStepPlan); rp_PlanDigest : string }.
Record RunSagaReceipt := mkRunSagaReceipt {
  rr_Sequence : Z; rr_StepKey : string; rr_Phase : RunStepPhase; rr_GuardDigest : string; rr_ReceiptRef : string;
  rr_Error : string }.
Record RunSagaStepSnapshot := mkRunSagaStepSnapshot {
  rs_Plan : option RunSagaStepPlan; rs_ActionPhase : RunStepPhase; rs_CompensationPhase : RunStepPhase;
  rs_GuardDigest : string; rs_ActionReceiptRef : string; rs_CompensationReceiptRef : string; rs_Error : string;
  rs_ActionEffectStarted : bool }.
Record RunSagaSnapshot := mkRunSagaSnapshot {
  rs_State : saga_state; rs_PlanDigest : string; rs_CancelRequested : bool;
  rs_Steps : list (option RunSagaStepSnapshot); rs_Cause : string }.

(** The rows of the journal. *)
Inductive replay_name := replay_safe | replay_idempotent | replay_never.
Inductive action_phase :=
  | action_pending | action_intent_recorded | action_effect_started | action_succeeded | action_failed
  | action_outcome_unknown.
Inductive compensation_phase :=
  | comp_pending | comp_intent_recorded | comp_effect_started | comp_compensated | comp_failed | comp_outcome_unknown.
Record StepRow := mkStepRow {
  row_sequence : Z; row_key : string; row_action_replay : replay_name; row_has_compensation : bool;
  row_compensation_replay : replay_name; row_action : action_phase; row_effect_started : bool;
  row_compensation : compensation_phase; row_guard : string; row_action_receipt : string;
  row_compensation_receipt : string; row_error : string }.
Record SagaRow := mkSagaRow { sg_state : saga_state; sg_plan_digest : string; sg_cancel : bool; sg_cause : string }.
Record journal := mkJournal { j_saga : SagaRow; j_steps : list StepRow }.

#[global] Instance ReplayPolicy_eq_dec : EqDecision ReplayPolicy. Proof. solve_decision. Defined.
#[global] Instance SagaPhase_eq_dec : EqDecision SagaPhase. Proof. solve_decision. Defined.
#[global] Instance saga_state_eq_dec : EqDecision saga_state. Proof. solve_decision. Defined.
#[global] Instance RunStepPhase_eq_dec : EqDecision RunStepPhase. Proof. solve_decision. Defined.
#[global] Instance replay_name_eq_dec : EqDecision replay_name. Proof. solve_decision. Defined.
#[global] Instance action_phase_eq_dec : EqDecision action_phase. Proof. solve_decision. Defined.
#[global] Instance compensation_phase_eq_dec : EqDecision compensation_phase. Proof. solve_decision. Defined.

(** ** JSON

    [json.Marshal] of the structures that are hashed, as functions of their fields: the
    executor and the journal declare the same field names in the same order. *)
Record digest_step := mkDigestStep {
  ds_sequence : Z; ds_step_key : string; ds_action_replay : string; ds_has_compensation : bool;
  ds_compensation_replay : string }.
Class SagaJSON := {
  json_plan : string → list digest_step → string;
  json_guard : bool → bool → Z → bool → ResourceLimit → string;
}.

Definition sagaSchemaVersion : string := "run-saga/v1".
Definition ErrOutcomeUnknown : string := "outcome_unknown".

Section Saga.
Context {C : Crypto} {J : SagaJSON}.

(** ** Between the executor and the wire *)

Definition replay_string (p : ReplayPolicy) : string :=
  match p with
  | ReplaySafe => "safe" | ReplayIdempotent => "idempotent" | ReplayNever => "never_replay" | ReplayOther s => s
  end.

Definition replayFromProto (p : RunStepReplayPolicy) : ReplayPolicy :=
  match p with
  | REPLAY_SAFE => ReplaySafe
  | REPLAY_IDEMPOTENT => ReplayIdempotent
  | REPLAY_NEVER_REPLAY => ReplayNever
  | _ => ReplayOther ""
  end.

Definition replayToProto (p : ReplayPolicy) : RunStepReplayPolicy :=
  match p with
  | ReplaySafe => REPLAY_SAFE
  | ReplayIdempotent => REPLAY_IDEMPOTENT
  | ReplayNever => REPLAY_NEVER_REPLAY
  | ReplayOther _ => REPLAY_UNSPECIFIED
  end.

Definition phaseFromProto (p : RunStepPhase) : option SagaPhase :=
  match p with
  | STEP_ACTION_INTENT_RECORDED => Some PhaseActionIntent
  | STEP_ACTION_EFFECT_STARTED => Some PhaseActionEffect
  | STEP_ACTION_SUCCEEDED => Some PhaseActionSucceeded
  | STEP_ACTION_FAILED => Some PhaseActionFailed
  | STEP_COMPENSATION_INTENT_RECORDED => Some PhaseCompensationIntent
  | STEP_COMPENSATION_EFFECT_STARTED => Some PhaseCompensationEffect
  | STEP_COMPENSATED => Some PhaseCompensated
  | STEP_COMPENSATION_FAILED => Some PhaseCompensationFailed
  | STEP_OUTCOME_UNKNOWN => Some PhaseOutcomeUnknown
  | STEP_UNSPECIFIED | STEP_other _ => None
  end.

Definition phaseToProto (p : SagaPhase) : RunStepPhase :=
  match p with
  | PhaseActionIntent => STEP_ACTION_INTENT_RECORDED
  | PhaseActionEffect => STEP_ACTION_EFFECT_STARTED
  | PhaseActionSucceeded => STEP_ACTION_SUCCEEDED
  | PhaseActionFailed => STEP_ACTION_FAILED
  | PhaseCompensationIntent => STEP_COMPENSATION_INTENT_RECORDED
  | PhaseCompensationEffect => STEP_COMPENSATION_EFFECT_STARTED
  | PhaseCompensated => STEP_COMPENSATED
  | PhaseCompensationFailed => STEP_COMPENSATION_FAILED
  | PhaseOutcomeUnknown => STEP_OUTCOME_UNKNOWN
  end.

Definition SagaPlanToProto (p : SagaPlan) : RunSagaPlan :=
  mkRunSagaPlan (pl_SchemaVersion p)
    ((λ s, Some (mkRunSagaStepPlan (pl_Sequence s) (pl_StepKey s) (replayToProto (pl_ActionReplay s))
                   (pl_HasCompensation s) (replayToProto (pl_CompensationReplay s)))) <$> pl_Steps p)
    (pl_PlanDigest p).

Definition SagaReceiptToProto (r : SagaReceipt) : RunSagaReceipt :=
  mkRunSagaReceipt (re_Sequence r) (re_StepKey r) (phaseToProto (re_Phase r)) (re_GuardDigest r) (re_ReceiptRef r)
    (re_Error r).

(** One iteration of the loop of [SagaSnapshotFromProto]; nil steps are skipped. *)
Definition step_from_proto (s : option RunSagaStepSnapshot) : option SagaStepSnapshot :=
  s ← s; p ← rs_Plan s;
  Some (mkSagaStepSnapshot
    (mkSagaStepPlan (rp_Sequence p) (rp_StepKey p) (replayFromProto (rp_ActionReplay p)) (rp_HasCompensation p)
       (replayFromProto (rp_CompensationReplay p)))
    (phaseFromProto (rs_ActionPhase s)) (phaseFromProto (rs_CompensationPhase s)) (rs_GuardDigest s)
    (rs_ActionReceiptRef s) (rs_CompensationReceiptRef s) (rs_Error s) (rs_ActionEffectStarted s)).

(** A nil message gives the zero snapshot; the journal never sends one. *)
Definition SagaSnapshotFromProto (m : RunSagaSnapshot) : SagaSnapshot :=
  mkSagaSnapshot (rs_State m) (rs_PlanDigest m) (rs_CancelRequested m) (omap step_from_proto (rs_Steps m)) (rs_Cause m).

(** ** The journal *)

Definition replayName (p : RunStepReplayPolicy) : option replay_name :=
  match p with
  | REPLAY_SAFE => Some replay_safe
  | REPLAY_IDEMPOTENT => Some replay_idempotent
  | REPLAY_NEVER_REPLAY => Some replay_never
  | _ => None
  end.

Definition replay_name_string (p : option replay_name) : string :=
  match p with
  | Some replay_safe => "safe" | Some replay_idempotent => "idempotent" | Some replay_never => "never_replay" | None => ""
  end.

Definition replayProto (p : replay_name) : RunStepReplayPolicy :=
  match p with replay_safe => REPLAY_SAFE | replay_idempotent => REPLAY_IDEMPOTENT | replay_never => REPLAY_NEVER_REPLAY end.

Definition phaseProto_action (p : action_phase) : RunStepPhase :=
  match p with
  | action_pending => STEP_UNSPECIFIED
  | action_intent_recorded => STEP_ACTION_INTENT_RECORDED
  | action_effect_started => STEP_ACTION_EFFECT_STARTED
  | action_succeeded => STEP_ACTION_SUCCEEDED
  | action_failed => STEP_ACTION_FAILED
  | action_outcome_unknown => STEP_OUTCOME_UNKNOWN
  end.

Definition phaseProto_compensation (p : compensation_phase) : RunStepPhase :=
  match p with
  | comp_pending => STEP_UNSPECIFIED
  | comp_intent_recorded => STEP_COMPENSATION_INTENT_RECORDED
  | comp_effect_started => STEP_COMPENSATION_EFFECT_STARTED
  | comp_compensated => STEP_COMPENSATED
  | comp_failed => STEP_COMPENSATION_FAILED
  | comp_outcome_unknown => STEP_OUTCOME_UNKNOWN
  end.

Definition runSagaPlanDigest (p : RunSagaPlan) : string :=
  "sha256:" +:+ hex_encode (sha256 (json_plan (rp_SchemaVersion p)
    (omap (λ s, s ← s; Some (mkDigestStep (rp_Sequence s) (rp_StepKey s) (replay_name_string (replayName (rp_ActionReplay s)))
                    (rp_HasCompensation s) (replay_name_string (replayName (rp_CompensationReplay s))))) (rp_Steps p)))).

(** The loop that checks the steps of a plan; [i] counts them, [seen] holds their keys. *)
Fixpoint check_plan_steps (i : Z) (seen : list string) (steps : list (option RunSagaStepPlan)) : result unit :=
  match steps with
  | [] => Ok ()
  | None :: _ => Err "saga plan steps must have contiguous sequence and unique keys"
  | Some s :: steps =>
      guard! bool_decide (rp_Sequence s = i32 (i + 1)) && negb (bool_decide (trim_space (rp_StepKey s) = ""))
             && (str_len (rp_StepKey s) <=? 128) && negb (bool_decide (rp_StepKey s ∈ seen))
        else "saga plan steps must have contiguous sequence and unique keys" in
      guard! bool_decide (is_Some (replayName (rp_ActionReplay s))) && bool_decide (is_Some (replayName (rp_CompensationReplay s)))
        else "saga plan replay policy is required" in
      check_plan_steps (i + 1) (rp_StepKey s :: seen) steps
  end.

(** The INSERT of a step, with the defaults of the table. *)
Definition insert_step (s : RunSagaStepPlan) : option StepRow :=
  a ← replayName (rp_ActionReplay s); c ← replayName (rp_CompensationReplay s);
  Some (mkStepRow (rp_Sequence s) (rp_StepKey s) a (rp_HasCompensation s) c action_pending false comp_pending "" "" "" "").

Definition row_snapshot (r : StepRow) : RunSagaStepSnapshot :=
  mkRunSagaStepSnapshot
    (Some (mkRunSagaStepPlan (row_sequence r) (row_key r) (replayProto (row_action_replay r)) (row_has_compensation r)
             (replayProto (row_compensation_replay r))))
    (phaseProto_action (row_action r)) (phaseProto_compensation (row_compensation r)) (row_guard r) (row_action_receipt r)
    (row_compensation_receipt r) (row_error r) (row_effect_started r).

Definition loadRunSagaSnapshot (j : journal) : RunSagaSnapshot :=
  mkRunSagaSnapshot (sg_state (j_saga j)) (sg_plan_digest (j_saga j)) (sg_cancel (j_saga j))
    ((λ r, Some (row_snapshot r)) <$> j_steps j) (sg_cause (j_saga j)).

Definition bindRunSaga (j : journal) (plan : RunSagaPlan) : result (journal * RunSagaSnapshot) :=
  guard! bool_decide (rp_SchemaVersion plan = sagaSchemaVersion) && negb (length (rp_Steps plan) =? 0)%nat
         && (length (rp_Steps plan) <=? 128)%nat else "saga plan is invalid" in
  let! _ := check_plan_steps 0 [] (rp_Steps plan) in
  let digest := runSagaPlanDigest plan in
  guard! bool_decide (rp_PlanDigest plan = digest) else "saga plan digest mismatch" in
  let stored := sg_plan_digest (j_saga j) in
  guard! bool_decide (stored = "") || bool_decide (stored = digest)
    else "saga plan is already bound to a different digest" in
  let j' :=
    if bool_decide (stored = "")
    then mkJournal (mkSagaRow SAGA_running digest (sg_cancel (j_saga j)) (sg_cause (j_saga j)))
           (j_steps j ++ omap (λ s, s ← s; insert_step s) (rp_Steps plan))
    else j in
  Ok (j', loadRunSagaSnapshot j').

Definition currentPhaseMatches (phase : RunStepPhase) (a : action_phase) (c : compensation_phase) : bool :=
  match phase with
  | STEP_ACTION_INTENT_RECORDED => bool_decide (a = action_intent_recorded)
  | STEP_ACTION_EFFECT_STARTED => bool_decide (a = action_effect_started)
  | STEP_ACTION_SUCCEEDED => bool_decide (a = action_succeeded)
  | STEP_ACTION_FAILED => bool_decide (a = action_failed)
  | STEP_COMPENSATION_INTENT_RECORDED => bool_decide (c = comp_intent_recorded)
  | STEP_COMPENSATION_EFFECT_STARTED => bool_decide (c = comp_effect_started)
  | STEP_COMPENSATED => bool_decide (c = comp_compensated)
  | STEP_COMPENSATION_FAILED => bool_decide (c = comp_failed)
  | STEP_OUTCOME_UNKNOWN => bool_decide (a = action_outcome_unknown) || bool_decide (c = comp_outcome_unknown)
  | STEP_UNSPECIFIED | STEP_other _ => false
  end.

Definition invalidSagaTransition {A} : result A := Err "invalid saga state transition".

(** The table of transitions of [recordRunSaga]. *)
Definition next_phases (phase : RunStepPhase) (r : StepRow) : result (action_phase * compensation_phase) :=
  let a := row_action r in
  let c := row_compensation r in
  let nonreplay_a := bool_decide (row_action_replay r = replay_never) in
  let nonreplay_c := bool_decide (row_compensation_replay r = replay_never) in
  match phase with
  | STEP_ACTION_INTENT_RECORDED =>
      if bool_decide (a = action_pending) then Ok (action_intent_recorded, c) else invalidSagaTransition
  | STEP_ACTION_EFFECT_STARTED =>
      if bool_decide (a = action_intent_recorded) || (bool_decide (a = action_effect_started) && negb nonreplay_a)
      then Ok (action_effect_started, c) else invalidSagaTransition
  | STEP_ACTION_SUCCEEDED =>
      if bool_decide (a = action_effect_started) then Ok (action_succeeded, c) else invalidSagaTransition
  | STEP_ACTION_FAILED =>
      if bool_decide (a = action_intent_recorded) || bool_decide (a = action_effect_started)
      then Ok (action_failed, c) else invalidSagaTransition
  | STEP_COMPENSATION_INTENT_RECORDED =>
      if negb (row_has_compensation r) || negb (row_effect_started r)
         || negb (bool_decide (a = action_effect_started) || bool_decide (a = action_succeeded) || bool_decide (a = action_failed))
      then invalidSagaTransition else
      if negb (bool_decide (c = comp_pending)) && (negb (bool_decide (c = comp_failed)) || nonreplay_c)
      then invalidSagaTransition
      else Ok (a, comp_intent_recorded)
  | STEP_COMPENSATION_EFFECT_STARTED =>
      if bool_decide (c = comp_intent_recorded) || (bool_decide (c = comp_effect_started) && negb nonreplay_c)
      then Ok (a, comp_effect_started) else invalidSagaTransition
  | STEP_COMPENSATED =>
      if bool_decide (c = comp_effect_started) then Ok (a, comp_compensated) else invalidSagaTransition
  | STEP_COMPENSATION_FAILED =>
      if bool_decide (c = comp_effect_started) then Ok (a, comp_failed) else invalidSagaTransition
  | STEP_OUTCOME_UNKNOWN =>
      let late := bool_decide (c = comp_effect_started) || bool_decide (c = comp_failed) in
      if (negb (bool_decide (a = action_effect_started)) || negb nonreplay_a) && (negb late || negb nonreplay_c)
      then invalidSagaTransition
      else if late then Ok (a, comp_outcome_unknown) else Ok (action_outcome_unknown, c)
  | STEP_UNSPECIFIED | STEP_other _ => Err "unsupported saga phase"
  end.

Definition if_set (new old : string) : string := if bool_decide (new = "") then old else new.

(** The UPDATE of a step. *)
Definition update_row (rc : RunSagaReceipt) (a : action_phase) (c : compensation_phase) (r : StepRow) : StepRow :=
  let receipt_if (p : RunStepPhase) := if bool_decide (rr_Phase rc = p) then rr_ReceiptRef rc else EmptyString in
  mkStepRow (row_sequence r) (row_key r) (row_action_replay r) (row_has_compensation r) (row_compensation_replay r) a
    (row_effect_started r || bool_decide (rr_Phase rc = STEP_ACTION_EFFECT_STARTED)) c
    (if_set (row_guard r) (rr_GuardDigest rc))
    (if_set (receipt_if STEP_ACTION_SUCCEEDED) (row_action_receipt r))
    (if_set (receipt_if STEP_COMPENSATED) (row_compensation_receipt r))
    (if_set (rr_Error rc) (row_error r)).

Definition needs_compensation (r : StepRow) : bool := row_has_compensation r && row_effect_started r.
Definition is_compensated (r : StepRow) : bool := bool_decide (row_compensation r = comp_compensated).

Definition refreshRunSagaState (rows : list StepRow) (cancelRequested : bool) : saga_state :=
  let allSucceeded := forallb (λ r, bool_decide (row_action r = action_succeeded)) rows in
  let failed := existsb (λ r, bool_decide (row_action r = action_failed)) rows in
  let needsCompensation := existsb needs_compensation rows in
  let compensationComplete := forallb (λ r, negb (needs_compensation r) || is_compensated r) rows in
  let settled := negb needsCompensation || compensationComplete in
  if cancelRequested && settled then SAGA_compensated
  else if cancelRequested then SAGA_cancelling
  else if failed && settled then SAGA_compensated
  else if failed then SAGA_compensating
  else if allSucceeded then SAGA_ready
  else SAGA_running.

Definition recordRunSaga (j : journal) (rc : RunSagaReceipt) : result (journal * RunSagaSnapshot) :=
  guard! (0 <? rr_Sequence rc) && negb (bool_decide (trim_space (rr_StepKey rc) = ""))
         && negb (bool_decide (rr_Phase rc = STEP_UNSPECIFIED)) else "saga receipt is invalid" in
  guard! (str_len (rr_GuardDigest rc) <=? 128) && (str_len (rr_ReceiptRef rc) <=? 2048) && (str_len (rr_Error rc) <=? 2048)
    else "saga receipt field is too large" in
  let s := j_saga j in
  guard! negb (bool_decide (sg_plan_digest s = "")) else "saga plan is not bound" in
  if bool_decide (sg_state s = SAGA_outcome_unknown) then Ok (j, loadRunSagaSnapshot j) else
  match list_find (λ r, row_sequence r = rr_Sequence rc) (j_steps j) with
  | None => Err "saga step is not in the bound plan"
  | Some (i, r) =>
      guard! bool_decide (row_key r = rr_StepKey rc) else "saga step key does not match sequence" in
      guard! bool_decide (row_guard r = "") || bool_decide (rr_GuardDigest rc = "") || bool_decide (row_guard r = rr_GuardDigest rc)
        else "saga guard digest changed" in
      if currentPhaseMatches (rr_Phase rc) (row_action r) (row_compensation r) then Ok (j, loadRunSagaSnapshot j) else
      let! (a, c) := next_phases (rr_Phase rc) r in
      let rows := <[i := update_row rc a c r]> (j_steps j) in
      let s' :=
        if bool_decide (rr_Phase rc = STEP_OUTCOME_UNKNOWN)
        then mkSagaRow SAGA_outcome_unknown (sg_plan_digest s) (sg_cancel s) (rr_Error rc)
        else mkSagaRow (refreshRunSagaState rows (sg_cancel s)) (sg_plan_digest s) (sg_cancel s)
               (if_set (rr_Error rc) (sg_cause s)) in
      let j' := mkJournal s' rows in
      Ok (j', loadRunSagaSnapshot j')
  end.

Definition ensureRunSagaTerminal (s : SagaRow) (complete : bool) : result (SagaRow * saga_state * bool) :=
  if complete then
    if negb (bool_decide (sg_state s = SAGA_ready)) || sg_cancel s then Err "saga is not ready to complete"
    else Ok (s, sg_state s, sg_cancel s)
  else if bool_decide (sg_state s = SAGA_pending) && bool_decide (sg_plan_digest s = "") then
    Ok (mkSagaRow SAGA_compensated (sg_plan_digest s) (sg_cancel s) (sg_cause s), SAGA_compensated, sg_cancel s)
  else if negb (bool_decide (sg_state s = SAGA_compensated)) && negb (bool_decide (sg_state s = SAGA_outcome_unknown))
  then Err "saga is not settled"
  else Ok (s, sg_state s, sg_cancel s).

(** ** The executor *)

Inductive saga_call := CallBind (p : SagaPlan) | CallRecord (r : SagaReceipt).
Definition outcome : Type := (option string * list string)%type.

(** The error returned (or nil) and the events of the [RunRecord] end a program.  [CtxErr]
    looks at the context; [RunStep i] and [CompensateStep i] run the closures of step [i]. *)
Inductive prog :=
  | Ret (o : outcome)
  | Journal (c : saga_call) (k : result SagaSnapshot → prog)
  | CtxErr (k : option string → prog)
  | RunStep (i : nat) (k : option string → prog)
  | CompensateStep (i : nat) (k : option string → prog).

Definition normalizeReplay (p : ReplayPolicy) : ReplayPolicy :=
  match p with ReplaySafe | ReplayIdempotent | ReplayNever => p | ReplayOther _ => ReplayNever end.

(** The loop of [buildSagaPlan]: the sequence number of a step is its position. *)
Fixpoint plan_steps (i : Z) (seen : list string) (steps : list Step) : result (list SagaStepPlan) :=
  match steps with
  | [] => Ok []
  | s :: steps =>
      guard! negb (bool_decide (st_Name s = "")) && negb (bool_decide (st_Name s ∈ seen)) else "invalid saga step key" in
      let! rest := plan_steps (i + 1) (st_Name s :: seen) steps in
      Ok (mkSagaStepPlan (i32 (i + 1)) (st_Name s) (normalizeReplay (st_Replay s)) (st_Compensate s)
            (normalizeReplay (st_CompensationReplay s)) :: rest)
  end.

Definition plan_digest_step (s : SagaStepPlan) : digest_step :=
  mkDigestStep (pl_Sequence s) (pl_StepKey s) (replay_string (pl_ActionReplay s)) (pl_HasCompensation s)
    (replay_string (pl_CompensationReplay s)).

Definition buildSagaPlan (steps : list Step) : result SagaPlan :=
  let! ps := plan_steps 0 [] steps in
  Ok (mkSagaPlan sagaSchemaVersion ps ("sha256:" +:+ hex_encode (sha256 (json_plan sagaSchemaVersion (plan_digest_step <$> ps))))).

Definition sagaStepAt (sn : SagaSnapshot) (index : nat) (name : string) : result SagaStepSnapshot :=
  match sn_Steps sn !! index with
  | None => Err "failed_precondition: saga snapshot is incomplete"
  | Some s =>
      guard! bool_decide (pl_Sequence (ss_Plan s) = i32 (Z.of_nat index + 1)) && bool_decide (pl_StepKey (ss_Plan s) = name)
        else "failed_precondition: saga snapshot step mismatch" in
      Ok s
  end.

Definition stepGuardDigest (s : Step) (sandbox : bool) (lim : ResourceLimit) : string :=
  "sha256:" +:+ hex_encode (sha256 (json_guard (st_Dangerous s) (st_Fail s) (st_MemBytes s) sandbox lim)).

Definition ExceedsLimit (used max : Z) : bool := (0 <? max) && (max <? used).

Definition Consume (b : option nat) (h : budgets) : budgets * option string :=
  match b with
  | None => (h, None)
  | Some b =>
      let remaining := default 0 (h !! b) in
      if remaining <=? 0 then (h, Some "resource_exhausted") else (<[b := remaining - 1]> h, None)
  end.

Definition validateStepGuard (s : Step) (sandbox : bool) (lim : ResourceLimit) (h : budgets) : budgets * option string :=
  if st_Dangerous s && negb sandbox then (h, Some ("dangerous step " +:+ st_Name s +:+ ": failed_precondition")) else
  if ExceedsLimit (st_MemBytes s) (lim_MemoryBytes lim) then (h, Some "resource_exhausted") else
  Consume (st_Budget s) h.

Definition receipt (i : nat) (name : string) (p : SagaPhase) (guard ref err : string) : SagaReceipt :=
  mkSagaReceipt (i32 (Z.of_nat i + 1)) name p guard ref err.

(** A journal call whose error ends the execution. *)
Definition record (r : SagaReceipt) (what : string) (rec : list string) (k : SagaSnapshot → prog) : prog :=
  Journal (CallRecord r) (λ res, match res with Ok sn => k sn | Err _ => Ret (Some what, rec) end).

Definition markOutcomeUnknown (p : SagaStepPlan) (reason : string) (rec : list string) : prog :=
  record (mkSagaReceipt (pl_Sequence p) (pl_StepKey p) PhaseOutcomeUnknown "" "" reason) "record outcome unknown" rec
    (λ _, Ret (Some ErrOutcomeUnknown, rec)).

(** The part of an iteration of [compensateRecoverable] that runs the compensation. *)
Definition run_compensation (i : nat) (name : string) (plan : SagaStepPlan) (cause : string) (rec : list string)
    (next : SagaSnapshot → list string → prog) : prog :=
  let rec := rec ++ ["compensate:" +:+ name] in
  CompensateStep i (λ res,
    match res with
    | Some err =>
        record (receipt i name PhaseCompensationFailed "" "" err) cause rec (λ _,
          if bool_decide (pl_CompensationReplay plan = ReplayNever) then markOutcomeUnknown plan err rec
          else Ret (Some cause, rec))
    | None => record (receipt i name PhaseCompensated "" "ok" "") "record compensation settlement" rec (λ sn, next sn rec)
    end).

(** [compensateRecoverable] from step [last] down; [n] is [last + 1]. *)
Fixpoint compensateRecoverable (steps : list Step) (sn : SagaSnapshot) (n : nat) (cause : string) (rec : list string) : prog :=
  match n with
  | O => Ret (Some cause, rec)
  | S i =>
      match steps !! i with
      | None => Ret (Some "panic: index out of range", rec)
      | Some step =>
          match sagaStepAt sn i (st_Name step) with
          | Err e => Ret (Some e, rec)
          | Ok state =>
              let plan := ss_Plan state in
              let name := st_Name step in
              if negb (st_Compensate step) || negb (ss_ActionEffectStarted state)
              then compensateRecoverable steps sn i cause rec
              else if bool_decide (ss_ActionPhase state = Some PhaseActionEffect) && bool_decide (pl_ActionReplay plan = ReplayNever)
              then markOutcomeUnknown plan "action settlement missing after effect started" rec
              else
                let compensate := run_compensation i name plan cause rec (λ sn, compensateRecoverable steps sn i cause) in
                let effect_boundary :=
                  record (receipt i name PhaseCompensationEffect "" "" "") "record compensation effect boundary" rec (λ _, compensate) in
                let intent :=
                  record (receipt i name PhaseCompensationIntent "" "" "") "record compensation intent" rec (λ _, effect_boundary) in
                let never := bool_decide (pl_CompensationReplay plan = ReplayNever) in
                let settlement := "compensation settlement missing or failed after effect started" in
                match ss_CompensationPhase state with
                | Some PhaseCompensated => compensateRecoverable steps sn i cause rec
                | Some PhaseOutcomeUnknown => Ret (Some ErrOutcomeUnknown, rec)
                | Some PhaseCompensationEffect => if never then markOutcomeUnknown plan settlement rec else compensate
                | Some PhaseCompensationFailed => if never then markOutcomeUnknown plan settlement rec else intent
                | None => intent
                | Some _ => effect_boundary
                end
          end
      end
  end.

Definition firstNonEmpty (a b : string) : string := if bool_decide (a = "") then b else a.

(** Running the action of step [i] once its guard passed and its effect boundary is
    recorded; [next] is the rest of the loop. *)
Definition run_action (steps : list Step) (i : nat) (step : Step) (guard : string) (sn : SagaSnapshot) (rec : list string)
    (next : SagaSnapshot → list string → prog) : prog :=
  let rec := rec ++ ["start:" +:+ st_Name step] in
  let settle (runErr : option string) : prog :=
    match runErr with
    | Some err =>
        let rec := rec ++ ["fail:" +:+ st_Name step] in
        record (receipt i (st_Name step) PhaseActionFailed guard "" err) "record action failure" rec (λ sn,
          compensateRecoverable steps sn (S i) err rec)
    | None =>
        let rec := rec ++ ["ok:" +:+ st_Name step] in
        record (receipt i (st_Name step) PhaseActionSucceeded guard "ok" "") "record action settlement" rec (λ sn,
          if sn_CancelRequested sn then compensateRecoverable steps sn (S i) "context canceled" rec else next sn rec)
    end in
  if st_Fail step then settle (Some ("step " +:+ st_Name step +:+ " failed"))
  else if st_Run step then RunStep i settle
  else settle None.

(** The guard of step [i] and what follows; [effect] says that an earlier execution already
    recorded the effect boundary. *)
Definition guarded_action (steps : list Step) (i : nat) (step : Step) (guard : string) (effect : bool) (sandbox : bool)
    (lim : ResourceLimit) (sn : SagaSnapshot) (h : budgets) (rec : list string)
    (next : SagaSnapshot → budgets → list string → prog) : prog :=
  let '(h, guardErr) := validateStepGuard step sandbox lim h in
  match guardErr with
  | Some err =>
      let rec := rec ++ ["reject:" +:+ st_Name step] in
      record (receipt i (st_Name step) PhaseActionFailed guard "" err) "record guard failure" rec (λ sn,
        compensateRecoverable steps sn i err rec)
  | None =>
      let run sn := run_action steps i step guard sn rec (λ sn, next sn h) in
      if effect then run sn
      else record (receipt i (st_Name step) PhaseActionEffect guard "" "") "record action effect boundary" rec run
  end.

(** The loop of [ExecuteRecoverable] over the steps from index [i]. *)
Fixpoint execute_loop (steps : list Step) (sandbox : bool) (lim : ResourceLimit) (i : nat) (todo : list Step)
    (sn : SagaSnapshot) (h : budgets) (rec : list string) : prog :=
  match todo with
  | [] => Ret (None, rec)
  | step :: todo =>
      match sagaStepAt sn i (st_Name step) with
      | Err e => Ret (Some e, rec)
      | Ok state =>
          let phase := ss_ActionPhase state in
          let next := execute_loop steps sandbox lim (S i) todo in
          match phase with
          | Some PhaseActionSucceeded => next sn h rec
          | Some PhaseActionFailed =>
              compensateRecoverable steps sn (if ss_ActionEffectStarted state then S i else i)
                (firstNonEmpty (ss_Error state) "step failed") rec
          | Some PhaseOutcomeUnknown => Ret (Some ErrOutcomeUnknown, rec)
          | _ =>
              let effect := bool_decide (phase = Some PhaseActionEffect) in
              if effect && bool_decide (pl_ActionReplay (ss_Plan state) = ReplayNever)
              then markOutcomeUnknown (ss_Plan state) "action settlement missing after effect started" rec else
              let guard := stepGuardDigest step sandbox lim in
              if negb (bool_decide (ss_GuardDigest state = "")) && negb (bool_decide (ss_GuardDigest state = guard))
              then Ret (Some "failed_precondition: guard digest changed", rec) else
              CtxErr (λ ctxErr,
                match ctxErr with
                | Some e => compensateRecoverable steps sn i e rec
                | None =>
                    if bool_decide (phase = None) then
                      record (receipt i (st_Name step) PhaseActionIntent guard "" "") "record action intent" rec (λ sn,
                        if sn_CancelRequested sn then compensateRecoverable steps sn i "context canceled" rec
                        else guarded_action steps i step guard false sandbox lim sn h rec next)
                    else guarded_action steps i step guard effect sandbox lim sn h rec next
                end)
          end
      end
  end.

Definition ExecuteRecoverable (steps : list Step) (sandbox : bool) (lim : ResourceLimit) (h : budgets) : prog :=
  match buildSagaPlan steps with
  | Err e => Ret (Some e, [])
  | Ok plan =>
      Journal (CallBind plan) (λ res,
        match res with
        | Err _ => Ret (Some "bind saga plan", [])
        | Ok sn =>
            if negb (bool_decide (sn_PlanDigest sn = pl_PlanDigest plan))
            then Ret (Some "failed_precondition: saga plan digest mismatch", []) else
            if bool_decide (sn_State sn = SAGA_outcome_unknown) then Ret (Some ErrOutcomeUnknown, []) else
            if sn_CancelRequested sn then compensateRecoverable steps sn (length steps) "context canceled" []
            else execute_loop steps sandbox lim 0 steps sn h []
        end)
  end.

(** ** Work items, leases and the end of a run *)

Inductive work_status := WORK_pending | WORK_leased | WORK_succeeded | WORK_failed | WORK_cancelled.
Inductive run_state := RUN_pending | RUN_running | RUN_cancelling | RUN_succeeded | RUN_failed | RUN_cancelled | RUN_outcome_unknown.
Record lease := mkLease { l_worker : string; l_id : string; l_epoch : Z }.
Record run_db := mkRunDB {
  db_run : run_state; db_deadline : option time;
  db_status : work_status; db_worker : string; db_lease_id : string; db_epoch : Z; db_lease_deadline : option time;
  db_journal : journal;
  db_investigation : bool  (* investigation_event_id or investigation_case_id is set *) }.

#[global] Instance work_status_eq_dec : EqDecision work_status. Proof. solve_decision. Defined.
#[global] Instance run_state_eq_dec : EqDecision run_state. Proof. solve_decision. Defined.

Definition isRunTerminal (s : run_state) : bool :=
  match s with RUN_succeeded | RUN_failed | RUN_cancelled | RUN_outcome_unknown => true | _ => false end.

Definition with_journal (d : run_db) (j : journal) : run_db :=
  mkRunDB (db_run d) (db_deadline d) (db_status d) (db_worker d) (db_lease_id d) (db_epoch d) (db_lease_deadline d) j (db_investigation d).
Definition with_state (d : run_db) (run : run_state) (status : work_status) (j : journal) : run_db :=
  mkRunDB run (db_deadline d) status (db_worker d) (db_lease_id d) (db_epoch d) (db_lease_deadline d) j (db_investigation d).

(** The condition on [work_items] of every worker call. *)
Definition lease_live (d : run_db) (l : lease) (now : time) : bool :=
  bool_decide (db_status d = WORK_leased) && bool_decide (db_lease_id d = l_id l) && bool_decide (db_epoch d = l_epoch l)
  && bool_decide (db_worker d = l_worker l) && match db_lease_deadline d with Some t => now <? t | None => false end.

Definition deadline_passed (d : run_db) (now : time) : bool :=
  match db_deadline d with Some t => t <=? now | None => false end.

(** [ReportProgress] with a plan or a receipt, between the conversions of the supervisor
    ([connectWork.Saga]). *)
Definition ReportProgress (d : run_db) (l : lease) (now : time) (c : saga_call) : result (run_db * SagaSnapshot) :=
  guard! lease_live d l now else "work item is not leased to this lease" in
  let! (j, m) := match c with
                 | CallBind p => bindRunSaga (db_journal d) (SagaPlanToProto p)
                 | CallRecord r => recordRunSaga (db_journal d) (SagaReceiptToProto r)
                 end in
  Ok (with_journal d j, SagaSnapshotFromProto m).

Definition instrLeaseTTL : duration := 15 * Minute.

(** The selection and the update of [tryLeaseWork]: a pending item, or one whose lease ran
    out, of a run that is not over. *)
Definition tryLeaseWork (d : run_db) (worker leaseID : string) (now : time) : option (run_db * lease) :=
  let free := bool_decide (db_status d = WORK_pending)
              || (bool_decide (db_status d = WORK_leased) && match db_lease_deadline d with Some t => t <? now | None => false end) in
  if free && negb (isRunTerminal (db_run d)) && negb (deadline_passed d now) then
    let e := i64 (db_epoch d + 1) in
    Some (mkRunDB (if bool_decide (db_run d = RUN_cancelling) then RUN_cancelling else RUN_running) (db_deadline d)
            WORK_leased worker leaseID e (Some (now + instrLeaseTTL)) (db_journal d) (db_investigation d), mkLease worker leaseID e)
  else None.

Definition ExtendLease (d : run_db) (l : lease) (now : time) : result run_db :=
  guard! lease_live d l now else "work item lease is expired or not held" in
  guard! negb (deadline_passed d now) else "run execution deadline exceeded" in
  Ok (mkRunDB (db_run d) (db_deadline d) (db_status d) (db_worker d) (db_lease_id d) (db_epoch d) (Some (now + instrLeaseTTL))
        (db_journal d) (db_investigation d)).

(** [UPDATE run_sagas SET state=...], whatever the state was. *)
Definition force_state (j : journal) (state : saga_state) : journal :=
  mkJournal (mkSagaRow state (sg_plan_digest (j_saga j)) (sg_cancel (j_saga j)) (sg_cause (j_saga j))) (j_steps j).

(** [check] is what [validateInvestigationCompletion] answers for an investigation. *)
Definition CompleteWork (d : run_db) (l : lease) (now : time) (check : result unit) : result run_db :=
  guard! negb (deadline_passed d now) else "run execution deadline exceeded" in
  guard! lease_live d l now else "work item is not leased to this lease" in
  let! j := (if db_investigation d then let! _ := check in Ok (force_state (db_journal d) SAGA_ready)
             else let! _ := ensureRunSagaTerminal (j_saga (db_journal d)) true in Ok (db_journal d)) in
  Ok (with_state d RUN_succeeded WORK_succeeded j).

(** [check] is what [investigationInputForWork] and [recordInvestigationTerminal] answer for
    an investigation. *)
Definition FailWork (d : run_db) (l : lease) (now : time) (check : result unit) : result run_db :=
  guard! negb (deadline_passed d now) else "run execution deadline exceeded" in
  guard! lease_live d l now else "work item is not leased to this lease" in
  let! (j, state, cancelRequested) :=
    (if db_investigation d then
       let! _ := check in Ok (force_state (db_journal d) SAGA_compensated, SAGA_compensated, sg_cancel (j_saga (db_journal d)))
     else
       let! (s, state, cancelRequested) := ensureRunSagaTerminal (j_saga (db_journal d)) false in
       Ok (mkJournal s (j_steps (db_journal d)), state, cancelRequested)) in
  Ok (if bool_decide (state = SAGA_outcome_unknown) then with_state d RUN_outcome_unknown WORK_failed j
      else if cancelRequested then with_state d RUN_cancelled WORK_cancelled j
      else with_state d RUN_failed WORK_failed j).

(** [hasModelEffects] is the second query of [CancelRun]. *)
Definition CancelRun (d : run_db) (hasModelEffects : bool) : result run_db :=
  if bool_decide (db_run d = RUN_cancelled) then Ok d else
  guard! negb (isRunTerminal (db_run d)) else "terminal run cannot be cancelled" in
  let j := db_journal d in
  let hasSagaEffects := existsb (λ r, row_effect_started r || bool_decide (row_action r = action_outcome_unknown)) (j_steps j) in
  let hasEffects := hasSagaEffects || hasModelEffects in
  let s := mkSagaRow (if hasEffects then SAGA_cancelling else SAGA_compensated) (sg_plan_digest (j_saga j)) true (sg_cause (j_saga j)) in
  let j' := mkJournal s (j_steps j) in
  let open := bool_decide (db_status d = WORK_pending) || bool_decide (db_status d = WORK_leased) in
  Ok (if hasEffects then with_state d RUN_cancelling (db_status d) j'
      else with_state d RUN_cancelled (if open then WORK_cancelled else db_status d) j').

Definition expireRunDeadline (d : run_db) (now : time) : run_db :=
  if isRunTerminal (db_run d) || negb (deadline_passed d now) then d else
  let open := bool_decide (db_status d = WORK_pending) || bool_decide (db_status d = WORK_leased) in
  with_state d RUN_failed (if open then WORK_failed else db_status d) (db_journal d).

End Saga.
