(* ===== verification/SagaProofs.v ===== *)
(** * Correctness of run sagas

    A run is executed by a sequence of lease holders, each of which may crash, lose a reply of
    the journal, or go on as a zombie after its lease was given to another; runs are
    cancelled, completed, failed and expire meanwhile.  [step] is that system.  In every
    reachable state an action or compensation that must not be replayed has run at most once,
    nothing has run whose effect boundary is not in the journal, and a run has ended as
    succeeded only with every action succeeded. *)

From S2P Require Import Prelude GoStrings Contracts Signing Saga.

(** ** The system *)

Inductive event := EvAction (i : nat) | EvCompensate (i : nat).
#[global] Instance event_eq_dec : EqDecision event. Proof. solve_decision. Defined.

(** Executors are indexed by the epoch of their lease: there is at most one per lease. *)
Record world := mkWorld { w_db : run_db; w_execs : gmap Z (lease * prog); w_log : list event; w_now : time }.

Definition w_rows (w : world) : list StepRow := j_steps (db_journal (w_db w)).
Definition unknown (d : run_db) : bool := bool_decide (sg_state (j_saga (db_journal d)) = SAGA_outcome_unknown).

Definition fresh_db (deadline : option time) (investigation : bool) : run_db :=
  mkRunDB RUN_pending deadline WORK_pending "" "" 0 None (mkJournal (mkSagaRow SAGA_pending "" false "") []) investigation.

(** How often an event occurs in a log. *)
Definition occ (ev : event) (log : list event) : nat := length (filter (ev =.) log).
#[global] Arguments occ : simpl never.

Section System.
Context {C : Crypto} {J : SagaJSON}.

Inductive step : world → world → Prop :=
  | step_time d ex log now now' : now ≤ now' → step (mkWorld d ex log now) (mkWorld d ex log now')
  | step_lease d ex log now worker id d' l :
      db_epoch d < 2 ^ 63 - 1 → tryLeaseWork d worker id now = Some (d', l) →
      step (mkWorld d ex log now) (mkWorld d' ex log now)
  | step_extend d ex log now l d' :
      ExtendLease d l now = Ok d' → step (mkWorld d ex log now) (mkWorld d' ex log now)
  | step_start d ex log now l steps sandbox lim h :
      l_epoch l ≤ db_epoch d → ex !! l_epoch l = None →
      step (mkWorld d ex log now) (mkWorld d (<[l_epoch l := (l, ExecuteRecoverable steps sandbox lim h)]> ex) log now)
  | step_crash d ex log now e : step (mkWorld d ex log now) (mkWorld d (delete e ex) log now)
  | step_journal d ex log now e l c k d' sn :
      ex !! e = Some (l, Journal c k) → ReportProgress d l now c = Ok (d', sn) →
      step (mkWorld d ex log now) (mkWorld d' (<[e := (l, k (Ok sn))]> ex) log now)
  | step_reply_lost d ex log now e l c k d' sn err :
      ex !! e = Some (l, Journal c k) → ReportProgress d l now c = Ok (d', sn) →
      step (mkWorld d ex log now) (mkWorld d' (<[e := (l, k (Err err))]> ex) log now)
  | step_journal_fails d ex log now e l c k err :
      ex !! e = Some (l, Journal c k) → step (mkWorld d ex log now) (mkWorld d (<[e := (l, k (Err err))]> ex) log now)
  | step_ctx d ex log now e l k r :
      ex !! e = Some (l, CtxErr k) → step (mkWorld d ex log now) (mkWorld d (<[e := (l, k r)]> ex) log now)
  | step_run d ex log now e l i k r :
      ex !! e = Some (l, RunStep i k) →
      step (mkWorld d ex log now) (mkWorld d (<[e := (l, k r)]> ex) (log ++ [EvAction i]) now)
  | step_compensate d ex log now e l i k r :
      ex !! e = Some (l, CompensateStep i k) →
      step (mkWorld d ex log now) (mkWorld d (<[e := (l, k r)]> ex) (log ++ [EvCompensate i]) now)
  | step_complete d ex log now l check d' :
      CompleteWork d l now check = Ok d' → step (mkWorld d ex log now) (mkWorld d' ex log now)
  | step_fail d ex log now l check d' :
      FailWork d l now check = Ok d' → step (mkWorld d ex log now) (mkWorld d' ex log now)
  | step_cancel d ex log now model d' :
      CancelRun d model = Ok d' → step (mkWorld d ex log now) (mkWorld d' ex log now)
  | step_expire d ex log now : step (mkWorld d ex log now) (mkWorld (expireRunDeadline d now) ex log now).

Definition initial (w : world) : Prop := ∃ deadline kind now, w = mkWorld (fresh_db deadline kind) ∅ [] now.
Definition reachable (w : world) : Prop := ∃ w0, initial w0 ∧ rtc step w0 w.

(** ** The journal *)

(** An action behind its effect boundary, and a step with a compensation under way, have
    the effect flag set. *)
Definition row_ok (r : StepRow) : Prop :=
  (match row_action r with
   | action_effect_started | action_succeeded | action_outcome_unknown => row_effect_started r = true
   | _ => True
   end) ∧
  (row_compensation r ≠ comp_pending → row_has_compensation r = true ∧ row_effect_started r = true).

(** Steps are numbered by position. *)
Definition rows_wf (rows : list StepRow) : Prop :=
  (length rows ≤ 128)%nat ∧ ∀ i r, rows !! i = Some r → row_sequence r = Z.of_nat i + 1 ∧ row_ok r.
Definition db_wf (d : run_db) : Prop :=
  let j := db_journal d in rows_wf (j_steps j) ∧ (sg_plan_digest (j_saga j) = "" → j_steps j = []).

Lemma seq_i32 (i : nat) : (i < 128)%nat → i32 (Z.of_nat i + 1) = Z.of_nat i + 1.
Proof. intros. apply wrap_s_id; unfold in_s; lia. Qed.

Lemma rows_wf_lookup rows i r : rows_wf rows → rows !! i = Some r → i32 (Z.of_nat i + 1) = row_sequence r.
Proof.
  intros [Hl Hs] Hr. rewrite (proj1 (Hs i r Hr)). apply seq_i32. apply lookup_lt_Some in Hr. lia.
Qed.

Lemma find_row rows i r :
  rows_wf rows → rows !! i = Some r → list_find (λ x, row_sequence x = row_sequence r) rows = Some (i, r).
Proof.
  intros [_ Hs] Hr. apply list_find_Some. split_and!; [done|done|].
  intros j y Hj Hlt. rewrite (proj1 (Hs _ _ Hj)), (proj1 (Hs _ _ Hr)). lia.
Qed.

Lemma row_ok_update rc a c r : next_phases (rr_Phase rc) r = Ok (a, c) → row_ok r → row_ok (update_row rc a c r).
Proof.
  destruct r as [? ? ar hc cr ac es co ? ? ? ?]. unfold row_ok. cbn. intros Hn [Ha Hc].
  destruct (rr_Phase rc); cbn in Hn; repeat case_match; simplify_eq/=; rewrite ?orb_true_r, ?orb_false_r; try done;
    repeat match goal with
      | E : (_ || _) = false |- _ => apply orb_false_iff in E as [??]
      | E : negb _ = false |- _ => apply negb_false_iff in E
      | E : bool_decide _ = true |- _ => apply bool_decide_eq_true in E
      end; subst; (split; [done|]); intros Hne; first [by split; congruence|by destruct (Hc Hne)|by apply Hc|by destruct co; try discriminate; destruct Hc].
Qed.

Lemma rows_wf_update rows i r rc a c :
  rows_wf rows → rows !! i = Some r → next_phases (rr_Phase rc) r = Ok (a, c) → rows_wf (<[i := update_row rc a c r]> rows).
Proof.
  intros [Hl Hs] Hr Hn. split; [by rewrite length_insert|]. intros k x.
  destruct (decide (k = i)) as [->|Hne].
  - rewrite list_lookup_insert_eq by (by eapply lookup_lt_Some). intros [= <-]. destruct (Hs i r Hr). split; [done|].
    by apply row_ok_update.
  - rewrite list_lookup_insert_ne by done. apply Hs.
Qed.

(** What the executor sees of a row. *)
Definition seen_row (r : StepRow) : SagaStepSnapshot :=
  mkSagaStepSnapshot
    (mkSagaStepPlan (row_sequence r) (row_key r) (replayFromProto (replayProto (row_action_replay r))) (row_has_compensation r)
       (replayFromProto (replayProto (row_compensation_replay r))))
    (phaseFromProto (phaseProto_action (row_action r))) (phaseFromProto (phaseProto_compensation (row_compensation r)))
    (row_guard r) (row_action_receipt r) (row_compensation_receipt r) (row_error r) (row_effect_started r).
Definition reflects (sn : SagaSnapshot) (rows : list StepRow) : Prop := sn_Steps sn = seen_row <$> rows.

Lemma snapshot_reflects j : reflects (SagaSnapshotFromProto (loadRunSagaSnapshot j)) (j_steps j).
Proof. unfold reflects. simpl. induction (j_steps j) as [|r rows IH]; [done|]. cbn. by f_equal. Qed.

Lemma sagaStepAt_inv sn rows i name state :
  reflects sn rows → sagaStepAt sn i name = Ok state → ∃ r, rows !! i = Some r ∧ state = seen_row r ∧ row_key r = name.
Proof.
  intros Hr. unfold sagaStepAt. rewrite Hr, list_lookup_fmap.
  destruct (rows !! i) as [r|]; [|done]. cbn [fmap option_fmap option_map]. intros H.
  case_match eqn:E; [|done]. injection H as <-. apply andb_true_iff in E as [_ E%bool_decide_eq_true]. by exists r.
Qed.

Lemma seen_never p : replayFromProto (replayProto p) = ReplayNever ↔ p = replay_never.
Proof. by destruct p. Qed.

(** The answer to a receipt when the outcome of the saga is not unknown. *)
Lemma record_inv j rc j' m :
  rows_wf (j_steps j) → sg_state (j_saga j) ≠ SAGA_outcome_unknown → recordRunSaga j rc = Ok (j', m) →
  m = loadRunSagaSnapshot j' ∧ sg_plan_digest (j_saga j') = sg_plan_digest (j_saga j) ∧ sg_plan_digest (j_saga j) ≠ "" ∧
  ∃ i r, j_steps j !! i = Some r ∧ row_sequence r = rr_Sequence rc ∧
    ((currentPhaseMatches (rr_Phase rc) (row_action r) (row_compensation r) = true ∧ j' = j) ∨
     ∃ a c, next_phases (rr_Phase rc) r = Ok (a, c) ∧ j_steps j' = <[i := update_row rc a c r]> (j_steps j) ∧
            sg_cancel (j_saga j') = sg_cancel (j_saga j) ∧
            sg_state (j_saga j') = if bool_decide (rr_Phase rc = STEP_OUTCOME_UNKNOWN) then SAGA_outcome_unknown
                                   else refreshRunSagaState (j_steps j') (sg_cancel (j_saga j))).
Proof.
  intros Hwf Hst. unfold recordRunSaga. intros H.
  case_match; [|done]. case_match; [|done]. case_match eqn:Hd; [|done].
  apply negb_true_iff, bool_decide_eq_false in Hd.
  rewrite bool_decide_eq_false_2 in H by done.
  destruct (list_find _ _) as [[i r]|] eqn:Hf; [|done]. apply list_find_Some in Hf as (Hi & Hseq & _).
  case_match; [|done]. case_match; [|done]. case_match eqn:Hm.
  - injection H as <- <-. split_and!; [done..|]. exists i, r. split_and!; [done..|]. by left.
  - destruct (next_phases (rr_Phase rc) r) as [[a c]|] eqn:Hn; [|done]. simpl in H.
    destruct (bool_decide (rr_Phase rc = STEP_OUTCOME_UNKNOWN));
      injection H as <- <-; (split_and!; [done..|]); exists i, r; (split_and!; [done..|]); right; by exists a, c.
Qed.

Lemma refresh_not_unknown rows cancel : refreshRunSagaState rows cancel ≠ SAGA_outcome_unknown.
Proof. unfold refreshRunSagaState. repeat case_match; done. Qed.

(** ** Events and what the journal allows *)

(** Events that must not be replayed; a step that is not in the journal counts as one. *)
Definition never (rows : list StepRow) (ev : event) : Prop :=
  match ev with
  | EvAction i => match rows !! i with Some r => row_action_replay r = replay_never | None => True end
  | EvCompensate i => match rows !! i with Some r => row_compensation_replay r = replay_never | None => True end
  end.

(** The journal passed the effect boundary of the event. *)
Definition granted (rows : list StepRow) (ev : event) : Prop :=
  match ev with
  | EvAction i => ∃ r, rows !! i = Some r ∧ row_action r ≠ action_pending ∧ row_action r ≠ action_intent_recorded
  | EvCompensate i => ∃ r, rows !! i = Some r ∧ row_compensation r ≠ comp_pending ∧ row_compensation r ≠ comp_intent_recorded
  end.

Definition ev_index (ev : event) : nat := match ev with EvAction i | EvCompensate i => i end.
Definition started (rows : list StepRow) (ev : event) : Prop :=
  ∃ r, rows !! ev_index ev = Some r ∧ row_effect_started r = true.

(** Rows only move forward. *)
Record rows_le (rows rows' : list StepRow) : Prop := {
  le_never ev : never rows' ev → never rows ev;
  le_granted ev : never rows' ev → granted rows ev → granted rows' ev;
  le_started ev : started rows ev → started rows' ev }.

Lemma rows_le_refl rows : rows_le rows rows.
Proof. by split. Qed.

Lemma rows_le_nil rows : rows_le [] rows.
Proof.
  split; intros [i|i]; try done; [by intros _ (r & [=] & _)|by intros _ (r & [=] & _)|by intros (r & [=] & _)|by intros (r & [=] & _)].
Qed.

Lemma next_phases_action p r a c :
  next_phases p r = Ok (a, c) → row_action r ≠ action_pending → row_action r ≠ action_intent_recorded →
  a ≠ action_pending ∧ a ≠ action_intent_recorded.
Proof.
  destruct r as [? ? ar hc cr ac es co ? ? ? ?]. cbn [row_action]. intros Hn Hp Hi.
  destruct ac; try done; destruct p; cbn in Hn; repeat case_match; try done; by injection Hn as <- <-.
Qed.

Lemma next_phases_compensation p r a c :
  next_phases p r = Ok (a, c) → row_compensation_replay r = replay_never →
  row_compensation r ≠ comp_pending → row_compensation r ≠ comp_intent_recorded → c ≠ comp_pending ∧ c ≠ comp_intent_recorded.
Proof.
  destruct r as [? ? ar hc cr ac es co ? ? ? ?]. cbn [row_compensation_replay row_compensation]. intros Hn -> Hp Hi.
  destruct co; try done; destruct p; cbn in Hn; repeat case_match; try done; by injection Hn as <- <-.
Qed.

Lemma update_rows_le rows i r rc a c :
  rows !! i = Some r → next_phases (rr_Phase rc) r = Ok (a, c) → rows_le rows (<[i := update_row rc a c r]> rows).
Proof.
  intros Hr Hn. pose proof (next_phases_action _ _ _ _ Hn) as Ha. pose proof (next_phases_compensation _ _ _ _ Hn) as Hc. pose proof (lookup_lt_Some _ _ _ Hr) as Hlt.
  assert (∀ k, <[i := update_row rc a c r]> rows !! k = if decide (k = i) then Some (update_row rc a c r) else rows !! k) as Hk.
  { intros k. case_decide as E; [subst; by apply list_lookup_insert_eq|by apply list_lookup_insert_ne]. }
  split; intros [k|k]; unfold never, granted, started; cbn [ev_index]; rewrite !Hk; case_decide as E; try done; subst k; rewrite Hr; simpl;
    try done.
  - intros _ (x & [= <-] & ? & ?). eexists. split; [done|]. by apply Ha.
  - intros Hnv (x & [= <-] & ? & ?). eexists. split; [done|]. by apply Hc.
  - intros (x & [= <-] & Hst). eexists. split; [done|]. cbn. by rewrite Hst.
  - intros (x & [= <-] & Hst). eexists. split; [done|]. cbn. by rewrite Hst.
Qed.

(** ** Safe programs *)

(** The next event of a program. *)
Definition token (p : prog) : option event :=
  match p with RunStep i _ => Some (EvAction i) | CompensateStep i _ => Some (EvCompensate i) | _ => None end.

(** The program is not about to run an event that needs a new grant. *)
Definition idle (rows : list StepRow) (p : prog) : Prop := ∀ ev, token p = Some ev → ¬ never rows ev ∧ started rows ev.

(** Without the journal, the program runs nothing that needs a grant: a zombie is harmless. *)
Fixpoint quiet (rows : list StepRow) (p : prog) : Prop :=
  match p with
  | Ret _ => True
  | Journal _ k => ∀ err, ∃ o, k (Err err) = Ret o
  | CtxErr k | RunStep _ k | CompensateStep _ k => ∀ r, quiet rows (k r) ∧ idle rows (k r)
  end.

(** [answer rows b c rows' b' sn]: a journal with steps [rows] can answer the call [c] with
    [sn], leaving [rows'].  [b] false means that the outcome is known not to be unknown. *)
Definition answer (rows : list StepRow) (b : bool) (c : saga_call) (rows' : list StepRow) (b' : bool) (sn : SagaSnapshot) : Prop :=
  ∃ d l now d', db_wf d ∧ j_steps (db_journal d) = rows ∧ (b = false → unknown d = false) ∧
    ReportProgress d l now c = Ok (d', sn) ∧ j_steps (db_journal d') = rows' ∧ unknown d' = b'.

(** The lease holder only runs what it was just granted. *)
Fixpoint good (rows : list StepRow) (b : bool) (p : prog) : Prop :=
  match p with
  | Ret _ => True
  | Journal c k => ∀ rows' b' sn, answer rows b c rows' b' sn →
      good rows' b' (k (Ok sn)) ∧ quiet rows' (k (Ok sn)) ∧
      ∀ ev, token (k (Ok sn)) = Some ev → started rows' ev ∧ (never rows' ev → ¬ granted rows ev ∧ granted rows' ev)
  | CtxErr k | RunStep _ k | CompensateStep _ k => ∀ r, good rows b (k r)
  end.

Lemma good_mono rows b b' p : (b' = true → b = true) → good rows b p → good rows b' p.
Proof.
  intros Hb. induction p as [o|c k IH|k IH|i k IH|i k IH]; simpl; [done| |intros H r; by apply IH..].
  intros H rows' b2 sn (d & l & now & d' & ? & ? & Hu & H2). apply H. exists d, l, now, d'. split_and!; try apply H2; try done.
  intros ->. apply Hu. destruct b'; [by discriminate Hb|done].
Qed.

Lemma idle_le rows rows' p : rows_le rows rows' → idle rows p → idle rows' p.
Proof. intros [Hn _ Hs] H ev Hev. destruct (H ev Hev). split; eauto. Qed.

Lemma quiet_le rows rows' p : rows_le rows rows' → quiet rows p → quiet rows' p.
Proof.
  intros Hle. induction p as [o|c k IH|k IH|i k IH|i k IH]; simpl; try done;
    intros H r; destruct (H r); split; eauto using idle_le.
Qed.

(** A program the lease holder may continue with. *)
Definition fine (rows : list StepRow) (p : prog) : Prop := quiet rows p ∧ idle rows p ∧ good rows false p.

Lemma fine_ret rows o : fine rows (Ret o).
Proof. by split_and!. Qed.

Lemma fine_record rows r what rec k :
  (∀ rows' b' sn, answer rows false (CallRecord r) rows' b' sn →
     good rows' b' (k sn) ∧ quiet rows' (k sn) ∧
     ∀ ev, token (k sn) = Some ev → started rows' ev ∧ (never rows' ev → ¬ granted rows ev ∧ granted rows' ev)) →
  fine rows (record r what rec k).
Proof.
  intros H. split_and!; [|by intros ev [=]|].
  - intros err. by eexists.
  - intros rows' b' sn Ha. by apply H.
Qed.

(** The answer to a receipt for step [i]. *)
Lemma answer_record rows i r name ph g ref err rows' b' sn :
  rows !! i = Some r → answer rows false (CallRecord (receipt i name ph g ref err)) rows' b' sn →
  rows_wf rows ∧ rows_wf rows' ∧ reflects sn rows' ∧ (ph ≠ PhaseOutcomeUnknown → b' = false) ∧
  ((currentPhaseMatches (phaseToProto ph) (row_action r) (row_compensation r) = true ∧ rows' = rows) ∨
   ∃ a c, next_phases (phaseToProto ph) r = Ok (a, c) ∧
     rows' = <[i := update_row (SagaReceiptToProto (receipt i name ph g ref err)) a c r]> rows).
Proof.
  intros Hr (d & l & now & d' & [Hwf Hd] & <- & Hu & Hrep & <- & <-).
  apply bool_decide_eq_false in Hu; [|done]. unfold ReportProgress in Hrep. case_match; [|done].
  destruct (recordRunSaga _ _) as [[j' m]|] eqn:Hrec; simplify_eq/=.
  apply record_inv in Hrec as (-> & _ & _ & k & x & Hk & Hseq & Hcase); [|done..].
  simpl in Hseq. rewrite (rows_wf_lookup _ _ _ Hwf Hr) in Hseq.
  assert (k = i) as ->.
  { destruct Hwf as [_ Hs]. rewrite (proj1 (Hs _ _ Hk)), (proj1 (Hs _ _ Hr)) in Hseq. lia. }
  rewrite Hr in Hk. injection Hk as <-. split; [done|].
  destruct Hcase as [[Hm ->]|(a & c & Hn & Hrows & _ & Hst)].
  - split_and!; [done|apply snapshot_reflects|intros _; by apply bool_decide_eq_false|by left].
  - split_and!.
    + rewrite Hrows. by apply rows_wf_update.
    + apply snapshot_reflects.
    + intros Hph. unfold unknown. simpl. rewrite Hst. rewrite (bool_decide_eq_false_2 (_ = STEP_OUTCOME_UNKNOWN)) by (by destruct ph).
      apply bool_decide_eq_false, refresh_not_unknown.
    + right. exists a, c. by rewrite Hrows.
Qed.

(** What a successful receipt leaves in the row of its step. *)
Lemma answer_record_row rows i r name ph g ref err rows' b' sn :
  rows !! i = Some r → answer rows false (CallRecord (receipt i name ph g ref err)) rows' b' sn →
  ∃ r', rows' !! i = Some r' ∧ currentPhaseMatches (phaseToProto ph) (row_action r') (row_compensation r') = true ∧
    (row_effect_started r = true → row_effect_started r' = true) ∧
    row_action_replay r' = row_action_replay r ∧ row_compensation_replay r' = row_compensation_replay r.
Proof.
  intros Hr (_ & _ & _ & _ & [[Hm ->]|(a & c & Hn & ->)])%(answer_record _ _ _ _ _ _ _ _ _ _ _ Hr).
  - by exists r.
  - eexists. rewrite list_lookup_insert_eq by (by eapply lookup_lt_Some). split; [done|].
    split; [|split_and!; [by cbn; intros ->|done..]].
    revert Hn. destruct ph; cbn; repeat case_match; intros [=]; subst; try done; by rewrite orb_true_r.
Qed.

Lemma fine_unknown rows p reason rec : fine rows (markOutcomeUnknown p reason rec).
Proof. apply fine_record. intros. split_and!; try done. Qed.

(** Continuing with a program that is [fine] for the rows of the answer. *)
Lemma fine_then rows r what rec k :
  (∀ rows' b' sn, answer rows false (CallRecord r) rows' b' sn → b' = false ∧ fine rows' (k sn)) →
  fine rows (record r what rec k).
Proof.
  intros H. apply fine_record. intros rows' b' sn Ha. destruct (H _ _ _ Ha) as (-> & Hq & Hi & Hg). split_and!; [done..|].
  intros ev Hev. destruct (Hi ev Hev) as [Hn Hs]. split; [done|]. by intros ?%Hn.
Qed.

(** *** Compensation *)

(** What may follow a settled step. *)
Definition fine_next (next : SagaSnapshot → list string → prog) : Prop :=
  ∀ rows sn rec, rows_wf rows → reflects sn rows → fine rows (next sn rec).

(** A program that runs event [ev] first, if any, and is safe to continue once it is granted. *)
Definition fine_granted (rows : list StepRow) (ev : event) (p : prog) : Prop :=
  quiet rows p ∧ good rows false p ∧ ∀ ev', token p = Some ev' → ev' = ev.

Lemma fine_granted_idle rows ev p : fine_granted rows ev p → ¬ never rows ev → started rows ev → fine rows p.
Proof. intros (Hq & Hg & Ht) Hn Hs. split_and!; try done. by intros ev' ->%Ht. Qed.

Lemma fine_fine_granted rows ev p : fine rows p → token p = None → fine_granted rows ev p.
Proof. intros (Hq & Hi & Hg) Ht. split_and!; try done. by intros ev'; rewrite Ht. Qed.

Lemma fine_run_compensation rows i r name plan cause rec next :
  rows !! i = Some r → fine_next next → fine_granted rows (EvCompensate i) (run_compensation i name plan cause rec next).
Proof.
  intros Hr Hnext. unfold run_compensation.
  match goal with |- fine_granted _ _ (CompensateStep i ?k) => assert (∀ res, fine rows (k res)) as Hk end.
  { intros [err|].
    - apply fine_then. intros rows' b' sn (_ & _ & _ & Hb & _)%(answer_record _ _ _ _ _ _ _ _ _ _ _ Hr).
      split; [by apply Hb|]. case_match; [apply fine_unknown|apply fine_ret].
    - apply fine_then. intros rows' b' sn (_ & Hwf & Hrf & Hb & _)%(answer_record _ _ _ _ _ _ _ _ _ _ _ Hr).
      split; [by apply Hb|]. by apply Hnext. }
  split_and!; [intros res; by destruct (Hk res) as (? & ? & ?)|intros res; apply (Hk res)|by intros ev [= <-]].
Qed.

(** Recording the effect boundary of a compensation grants it. *)
Lemma fine_compensation_effect rows i r name rec p :
  rows !! i = Some r → row_compensation r = comp_intent_recorded → row_effect_started r = true →
  (∀ rows' r', rows' !! i = Some r' → fine_granted rows' (EvCompensate i) p) →
  fine rows (record (receipt i name PhaseCompensationEffect "" "" "") "record compensation effect boundary" rec (λ _, p)).
Proof.
  intros Hr Hc Hs Hp. apply fine_record. intros rows' b' sn Ha.
  destruct (answer_record_row _ _ _ _ _ _ _ _ _ _ _ Hr Ha) as (r' & Hr' & Hm & Hst & _).
  apply bool_decide_eq_true in Hm.
  apply (answer_record _ _ _ _ _ _ _ _ _ _ _ Hr) in Ha as (_ & _ & _ & Hb & _). rewrite Hb by done.
  destruct (Hp rows' r' Hr') as (Hq & Hg & Ht). split_and!; [done..|]. intros ev ->%Ht. split.
  - exists r'. split; [done|]. by apply Hst.
  - intros _. split; [intros (x & Hx & _ & Hne); congruence|]. exists r'. by rewrite Hm.
Qed.

Lemma fine_compensation_intent rows i r name rec p :
  rows !! i = Some r → row_effect_started r = true →
  (∀ rows' r', rows' !! i = Some r' → fine_granted rows' (EvCompensate i) p) →
  fine rows (record (receipt i name PhaseCompensationIntent "" "" "") "record compensation intent" rec (λ _,
    record (receipt i name PhaseCompensationEffect "" "" "") "record compensation effect boundary" rec (λ _, p))).
Proof.
  intros Hr Hs Hp. apply fine_then. intros rows' b' sn Ha.
  destruct (answer_record_row _ _ _ _ _ _ _ _ _ _ _ Hr Ha) as (r' & Hr' & Hm & Hst & _). apply bool_decide_eq_true in Hm.
  apply (answer_record _ _ _ _ _ _ _ _ _ _ _ Hr) in Ha as (_ & _ & _ & Hb & _).
  split; [by apply Hb|]. apply (fine_compensation_effect rows' i r'); auto.
Qed.

Lemma compensate_fine steps cause n : ∀ rows sn rec,
  rows_wf rows → reflects sn rows → fine rows (compensateRecoverable steps sn n cause rec).
Proof.
  induction n as [|i IH]; intros rows sn rec Hwf Hrf; cbn [compensateRecoverable]; [apply fine_ret|].
  destruct (steps !! i) as [step|]; [|apply fine_ret].
  destruct (sagaStepAt _ _ _) as [state|] eqn:Hat; [|apply fine_ret].
  apply (sagaStepAt_inv _ rows) in Hat as (r & Hr & -> & _); [|done].
  cbn [seen_row ss_ActionEffectStarted ss_ActionPhase ss_Plan pl_ActionReplay pl_CompensationReplay ss_CompensationPhase].
  destruct (negb (st_Compensate step) || negb (row_effect_started r)) eqn:Hskip; [by apply IH|].
  apply orb_false_iff in Hskip as [_ Hs%negb_false_iff].
  match goal with |- fine _ (if ?b then _ else _) => destruct b end; [apply fine_unknown|].
  set (body := run_compensation _ _ _ _ _ _).
  assert (∀ rows' r', rows' !! i = Some r' → fine_granted rows' (EvCompensate i) body) as Hbody.
  { intros rows' r' Hr'. apply (fine_run_compensation _ _ r'); [done|]. intros rows2 sn2 rec2. apply IH. }
  destruct (row_compensation r) eqn:Hc; cbn [phaseProto_compensation phaseFromProto].
  - by apply (fine_compensation_intent rows i r).
  - by apply (fine_compensation_effect rows i r).
  - destruct (bool_decide (replayFromProto _ = _)) eqn:Hn; [apply fine_unknown|].
    eapply fine_granted_idle; [by eapply Hbody|..|by exists r]. simpl. rewrite Hr, <- seen_never. by apply bool_decide_eq_false in Hn.
  - by apply IH.
  - destruct (bool_decide (replayFromProto _ = _)); [apply fine_unknown|]. by apply (fine_compensation_intent rows i r).
  - apply fine_ret.
Qed.

(** *** Actions *)

Lemma fine_run_action rows steps i r step guard sn rec next :
  rows !! i = Some r → fine_next next → fine_granted rows (EvAction i) (run_action steps i step guard sn rec next).
Proof.
  intros Hr Hnext. unfold run_action.
  match goal with |- context [RunStep i ?k] => assert (∀ res, fine rows (k res) ∧ token (k res) = None) as Hk end.
  { intros [err|]; (split; [|done]); apply fine_then;
      intros rows' b' sn' (_ & Hwf & Hrf & Hb & _)%(answer_record _ _ _ _ _ _ _ _ _ _ _ Hr); (split; [by apply Hb|]).
    - by apply compensate_fine.
    - case_match; [by apply compensate_fine|by apply Hnext]. }
  case_match; [|case_match].
  - apply fine_fine_granted; apply (Hk (Some _)).
  - split_and!; [intros res; by destruct (Hk res) as ((? & ? & ?) & _)|intros res; apply (Hk res)|by intros ev [= <-]].
  - apply fine_fine_granted; apply (Hk None).
Qed.

(** Step [i] is behind its effect boundary and may be repeated, or its intent is recorded. *)
Definition may_run (rows : list StepRow) (i : nat) (effect : bool) : Prop :=
  if effect then ¬ never rows (EvAction i) ∧ started rows (EvAction i)
  else ∃ r, rows !! i = Some r ∧ row_action r = action_intent_recorded.

Lemma fine_guarded_action rows r steps i step guard effect sandbox lim sn h rec next :
  rows !! i = Some r → may_run rows i effect → rows_wf rows → reflects sn rows → (∀ h, fine_next (λ sn, next sn h)) →
  fine rows (guarded_action steps i step guard effect sandbox lim sn h rec next).
Proof.
  intros Hr Hm Hwf Hrf Hnext. unfold guarded_action. destruct (validateStepGuard step sandbox lim h) as [h' [err|]].
  { apply fine_then. intros rows' b' sn' (_ & Hwf' & Hrf' & Hb & _)%(answer_record _ _ _ _ _ _ _ _ _ _ _ Hr).
    split; [by apply Hb|]. by apply compensate_fine. }
  destruct effect.
  { destruct Hm as [Hn Hs]. eapply fine_granted_idle; [by apply (fine_run_action rows _ _ r)|done..]. }
  destruct Hm as (r0 & Hr0 & Hact). rewrite Hr in Hr0. injection Hr0 as <-.
  apply fine_record. intros rows' b' sn' Ha.
  destruct (answer_record_row _ _ _ _ _ _ _ _ _ _ _ Hr Ha) as (r' & Hr' & Hmt & _). apply bool_decide_eq_true in Hmt.
  apply (answer_record _ _ _ _ _ _ _ _ _ _ _ Hr) in Ha as (_ & _ & _ & Hb & Hcase). rewrite Hb by done.
  destruct (fine_run_action rows' steps i r' step guard sn' rec (λ sn, next sn h') Hr' (Hnext h')) as (Hq & Hg & Ht).
  split_and!; [done..|]. intros ev ->%Ht. split.
  - destruct Hcase as [[Hm _]|(a & c & _ & ->)]; [cbn in Hm; apply bool_decide_eq_true in Hm; congruence|].
    eexists. cbn [ev_index]. rewrite list_lookup_insert_eq by (by eapply lookup_lt_Some). split; [done|]. cbn. apply orb_true_r.
  - intros _. split; [intros (x & Hx & _ & Hne); congruence|]. exists r'. by rewrite Hmt.
Qed.

Lemma fine_ctx rows k : (∀ r, fine rows (k r)) → fine rows (CtxErr k).
Proof. intros H. split_and!; [|by intros ev [=]|]; intros r; by destruct (H r) as (? & ? & ?). Qed.

Lemma execute_loop_fine steps sandbox lim todo : ∀ i h rows sn rec,
  rows_wf rows → reflects sn rows → fine rows (execute_loop steps sandbox lim i todo sn h rec).
Proof.
  induction todo as [|step todo IH]; intros i h rows sn rec Hwf Hrf; cbn [execute_loop]; [apply fine_ret|].
  destruct (sagaStepAt _ _ _) as [state|] eqn:Hat; [|apply fine_ret].
  apply (sagaStepAt_inv _ rows) in Hat as (r & Hr & -> & _); [|done].
  cbn [seen_row ss_ActionEffectStarted ss_ActionPhase ss_Plan pl_ActionReplay ss_GuardDigest ss_Error].
  set (guard := stepGuardDigest step sandbox lim).
  assert (∀ rows' r' sn' e, rows' !! i = Some r' → may_run rows' i e → rows_wf rows' → reflects sn' rows' →
    fine rows' (guarded_action steps i step guard e sandbox lim sn' h rec (execute_loop steps sandbox lim (S i) todo))) as Hgo.
  { intros rows' r' sn' e Hr' Hm Hwf' Hrf'. apply (fine_guarded_action rows' r'); try done.
    intros h2 rows2 sn2 rec2. apply IH. }
  destruct (row_action r) eqn:Ha; cbn [phaseProto_action phaseFromProto]; [| | |by apply IH|by apply compensate_fine|apply fine_ret].
  all: match goal with |- fine _ (if ?b then _ else _) => destruct b eqn:Hnev end; [try done; apply fine_unknown|].
  all: match goal with |- fine _ (if ?b then _ else _) => destruct b end; [apply fine_ret|].
  all: apply fine_ctx; intros [e|]; [by apply compensate_fine|]; cbn -[guarded_action].
  - apply fine_then. intros rows' b' sn' Hans.
    destruct (answer_record_row _ _ _ _ _ _ _ _ _ _ _ Hr Hans) as (r' & Hr' & Hm & _). apply bool_decide_eq_true in Hm.
    apply (answer_record _ _ _ _ _ _ _ _ _ _ _ Hr) in Hans as (_ & Hwf' & Hrf' & Hb & _). split; [by apply Hb|].
    case_match; [by apply compensate_fine|]. apply (Hgo rows' r'); try done. by exists r'.
  - apply (Hgo rows r); try done. by exists r.
  - apply (Hgo rows r); try done. split; [|exists r; split; [done|]].
    + simpl. rewrite Hr, <- seen_never. by apply bool_decide_eq_false in Hnev.
    + destruct Hwf as [_ Hs]. destruct (Hs i r Hr) as [_ [Hok _]]. by rewrite Ha in Hok.
Qed.

(** *** Binding the plan *)

Definition inserted (steps : list (option RunSagaStepPlan)) : list StepRow := omap (λ s, s ← s; insert_step s) steps.

Lemma check_plan_inserted steps : ∀ i seen, check_plan_steps i seen steps = Ok () →
  length (inserted steps) = length steps ∧
  ∀ k r, inserted steps !! k = Some r → row_sequence r = i32 (i + Z.of_nat k + 1) ∧ row_ok r.
Proof.
  induction steps as [|[s|] steps IH]; intros i seen H; [done| |done]. simpl in H.
  case_match eqn:E1; [|done]. case_match eqn:E2; [|done].
  apply andb_true_iff in E2 as [[a Ha]%bool_decide_eq_true [c Hc]%bool_decide_eq_true].
  rewrite !andb_true_iff, bool_decide_eq_true in E1. destruct E1 as [[[Hseq _] _] _].
  destruct (IH _ _ H) as [Hl Hrows]. assert (insert_step s = Some (mkStepRow (rp_Sequence s) (rp_StepKey s) a (rp_HasCompensation s) c action_pending false comp_pending "" "" "" "")) as Hins.
  { unfold insert_step. by rewrite Ha, Hc. }
  unfold inserted in *. cbn. rewrite Hins. cbn. split; [by rewrite Hl|].
  intros [|k] r.
  - cbn. intros [= <-]. cbn. rewrite Hseq. split; [f_equal; lia|done].
  - intros Hr. cbn in Hr. destruct (Hrows k r Hr) as [-> ?]. split; [f_equal; lia|done].
Qed.

Lemma bind_inv j plan j' m :
  rows_wf (j_steps j) → (sg_plan_digest (j_saga j) = "" → j_steps j = []) → bindRunSaga j plan = Ok (j', m) →
  m = loadRunSagaSnapshot j' ∧ rows_wf (j_steps j') ∧ sg_plan_digest (j_saga j') ≠ "" ∧ rows_le (j_steps j) (j_steps j') ∧
  (j' = j ∨ sg_state (j_saga j') = SAGA_running ∧ j_steps j = [] ∧ j_steps j' = inserted (rp_Steps plan) ∧
            sg_cancel (j_saga j') = sg_cancel (j_saga j)).
Proof.
  intros Hwf Hnil. unfold bindRunSaga. intros H. case_match eqn:E1; [|done].
  destruct (check_plan_steps _ _ _) as [[]|] eqn:Hchk; [|done]. simpl in H. case_match; [|done]. case_match eqn:Hst; [|done].
  injection H as <- <-. destruct (bool_decide (sg_plan_digest (j_saga j) = "")) eqn:E.
  - apply bool_decide_eq_true in E. specialize (Hnil E). rewrite Hnil. cbn -[runSagaPlanDigest inserted].
    apply check_plan_inserted in Hchk as [Hl Hrows]. rewrite !andb_true_iff, Nat.leb_le in E1.
    split_and!; [done| |by unfold runSagaPlanDigest|apply rows_le_nil|by right].
    split; [unfold inserted in Hl; rewrite Hl; lia|]. intros i r Hr. destruct (Hrows i r Hr) as [-> Hok]. split; [|done].
    rewrite Z.add_0_l. apply seq_i32. apply lookup_lt_Some in Hr. unfold inserted in *. lia.
  - split_and!; [done|done|by apply bool_decide_eq_false in E|apply rows_le_refl|by left].
Qed.

Lemma record_le j rc j' m :
  rows_wf (j_steps j) → recordRunSaga j rc = Ok (j', m) →
  m = loadRunSagaSnapshot j' ∧ rows_wf (j_steps j') ∧ sg_plan_digest (j_saga j') ≠ "" ∧ rows_le (j_steps j) (j_steps j').
Proof.
  intros Hwf H. destruct (decide (sg_state (j_saga j) = SAGA_outcome_unknown)) as [Hu|Hu].
  - unfold recordRunSaga in H. case_match; [|done]. case_match; [|done]. case_match eqn:Hd; [|done].
    rewrite bool_decide_eq_true_2 in H by done. injection H as <- <-.
    apply negb_true_iff, bool_decide_eq_false in Hd. split_and!; [done..|apply rows_le_refl].
  - apply record_inv in H as (-> & Hd & Hne & i & r & Hi & _ & Hcase); [|done..]. rewrite Hd. split; [done|].
    destruct Hcase as [[_ ->]|(a & c & Hn & -> & _)].
    + split_and!; [done..|apply rows_le_refl].
    + split_and!; [by apply rows_wf_update|done|by apply update_rows_le].
Qed.

(** Every accepted worker call keeps the journal well formed and moves it forward. *)
Lemma report_le d l now c d' sn :
  db_wf d → ReportProgress d l now c = Ok (d', sn) →
  lease_live d l now = true ∧ db_wf d' ∧ rows_le (j_steps (db_journal d)) (j_steps (db_journal d')) ∧ db_epoch d' = db_epoch d ∧
  reflects sn (j_steps (db_journal d')) ∧ sn_State sn = sg_state (j_saga (db_journal d')).
Proof.
  intros [Hwf Hnil] H. unfold ReportProgress in H. case_match; [|done]. destruct c as [p|r].
  - destruct (bindRunSaga _ _) as [[j m]|] eqn:E; [|done]. apply bind_inv in E as (-> & Hwf' & Hd & Hle & _); [|done..].
    injection H as <- <-. split_and!; try done; apply snapshot_reflects.
  - destruct (recordRunSaga _ _) as [[j m]|] eqn:E; [|done]. apply record_le in E as (-> & Hwf' & Hd & Hle); [|done..].
    injection H as <- <-. split_and!; try done; apply snapshot_reflects.
Qed.

(** Starting over is always safe. *)
Lemma execute_good steps sandbox lim h rows b :
  let p := ExecuteRecoverable steps sandbox lim h in quiet rows p ∧ good rows b p ∧ token p = None.
Proof.
  unfold ExecuteRecoverable. destruct (buildSagaPlan steps) as [plan|e]; simpl; [|done]. split_and!; [by eexists| |done].
  intros rows' b' sn (d & l & now & d' & Hwf & <- & _ & Hrep & <- & <-).
  destruct (report_le _ _ _ _ _ _ Hwf Hrep) as (_ & [Hwf' _] & _ & _ & Hrf & Hst).
  match goal with |- good _ _ ?p ∧ _ => cut (fine (j_steps (db_journal d')) p ∧ (unknown d' = true → ∃ o, p = Ret o)) end.
  { intros [(Hq & Hi & Hg) Hu]. split_and!; [|done|].
    - destruct (unknown d') eqn:E; [|done]. destruct Hu as [o ->]; done.
    - intros ev Hev. destruct (Hi ev Hev). split; [done|]. naive_solver. }
  case_match; [split; [apply fine_ret|by eexists]|]. rewrite Hst.
  fold (unknown d'). destruct (unknown d'); [split; [apply fine_ret|by eexists]|]. split; [|done].
  case_match; [by apply compensate_fine|by apply execute_loop_fine].
Qed.

(** ** Nothing is replayed *)

Definition exec_ok (w : world) (e : Z) (x : lease * prog) : Prop :=
  l_epoch x.1 = e ∧ e ≤ db_epoch (w_db w) ∧ quiet (w_rows w) x.2 ∧
  (e = db_epoch (w_db w) → good (w_rows w) (unknown (w_db w)) x.2) ∧
  ∀ ev, token x.2 = Some ev → started (w_rows w) ev ∧ (never (w_rows w) ev → granted (w_rows w) ev ∧ occ ev (w_log w) = 0%nat).

Record world_inv (w : world) : Prop := {
  inv_wf : db_wf (w_db w);
  inv_epoch : 0 ≤ db_epoch (w_db w);
  inv_exec e x : w_execs w !! e = Some x → exec_ok w e x;
  inv_unique e x e' x' ev : w_execs w !! e = Some x → w_execs w !! e' = Some x' →
    token x.2 = Some ev → token x'.2 = Some ev → never (w_rows w) ev → e = e';
  inv_log ev : ev ∈ w_log w → started (w_rows w) ev;
  inv_once ev : never (w_rows w) ev → (occ ev (w_log w) ≤ 1)%nat ∧ ((0 < occ ev (w_log w))%nat → granted (w_rows w) ev) }.

Lemma occ_app ev l ev' : occ ev (l ++ [ev']) = (occ ev l + if decide (ev = ev') then 1 else 0)%nat.
Proof. unfold occ. rewrite filter_app, length_app. f_equal. rewrite filter_cons, filter_nil. by case_decide. Qed.

(** A change of the database that keeps the steps, does not lower the epoch, and does not
    make the outcome unknown. *)
Lemma inv_db d d' ex log now now' :
  world_inv (mkWorld d ex log now) → j_steps (db_journal d') = j_steps (db_journal d) →
  sg_plan_digest (j_saga (db_journal d')) = sg_plan_digest (j_saga (db_journal d)) →
  db_epoch d ≤ db_epoch d' → (unknown d' = true → unknown d = true) → world_inv (mkWorld d' ex log now').
Proof.
  intros [[Hwf Hnil] Hep Hex Hun Hlog Hone] Hs Hp He Hu. unfold w_rows in *. cbn in *. split; unfold w_rows; cbn; rewrite ?Hs; try done.
  - split; cbn; rewrite Hs; [done|]. rewrite Hp. done.
  - lia.
  - intros e x Hx. destruct (Hex e x Hx) as (Hl & Hle & Hq & Hg & Ht). unfold exec_ok, w_rows in *. cbn in *. rewrite Hs.
    split_and!; [done|lia|done| |done]. intros Heq. eapply good_mono; [done|]. apply Hg. lia.
Qed.

(** An executor moves on without touching the database or the log. *)
Lemma inv_idle d ex log now e l p p' :
  world_inv (mkWorld d ex log now) → ex !! e = Some (l, p) →
  quiet (j_steps (db_journal d)) p' → idle (j_steps (db_journal d)) p' →
  (good (j_steps (db_journal d)) (unknown d) p → good (j_steps (db_journal d)) (unknown d) p') →
  world_inv (mkWorld d (<[e := (l, p')]> ex) log now).
Proof.
  intros [Hwf Hep Hex Hun Hlog Hone] He Hq Hi Hg. unfold w_rows in *. cbn in *. split; unfold w_rows; cbn; try done.
  - intros e' x. rewrite lookup_insert_Some. intros [[<- <-]|[_ Hx]]; [|by apply (Hex e' x)].
    destruct (Hex e _ He) as (Hl & Hle & _ & Hgood & _). unfold exec_ok, w_rows in *. cbn in *. split_and!; try done.
    + intros Heq. auto.
    + intros ev Hev. destruct (Hi ev Hev). split; [done|]. naive_solver.
  - intros e1 x1 e2 x2 ev. rewrite !lookup_insert_Some. intros [[<- <-]|[H1 Hx1]] [[<- <-]|[H2 Hx2]] Ht1 Ht2 Hn; try done.
    + by destruct (Hi ev Ht1).
    + by destruct (Hi ev Ht2).
    + by apply (Hun e1 x1 e2 x2 ev).
Qed.

(** An executor runs the event it is about to run. *)
Lemma inv_event d ex log now e l p p' ev :
  world_inv (mkWorld d ex log now) → ex !! e = Some (l, p) → token p = Some ev →
  quiet (j_steps (db_journal d)) p' → idle (j_steps (db_journal d)) p' →
  (good (j_steps (db_journal d)) (unknown d) p → good (j_steps (db_journal d)) (unknown d) p') →
  world_inv (mkWorld d (<[e := (l, p')]> ex) (log ++ [ev]) now).
Proof.
  intros Hinv He Htok Hq Hi Hg. pose proof (inv_idle _ _ _ _ _ _ _ _ Hinv He Hq Hi Hg) as [Hwf Hep Hex' Hun' _ _].
  destruct Hinv as [_ _ Hex Hun Hlog Hone]. destruct (Hex e _ He) as (_ & _ & _ & _ & Hev). destruct (Hev ev Htok) as [Hst Hgr].
  unfold w_rows in *. cbn in *. split; unfold w_rows; cbn; try done.
  - intros e' x Hx. destruct (Hex' e' x Hx) as (? & ? & ? & ? & Ht). split_and!; try done. unfold w_rows in *. cbn in *.
    intros ev' Hev'. destruct (Ht ev' Hev') as [Hs Hn]. split; [done|]. intros Hnev. destruct (Hn Hnev) as [Hgt Hocc].
    split; [done|]. rewrite occ_app, Hocc. case_decide as E; [|done]. subst ev'. exfalso.
    apply lookup_insert_Some in Hx as [[<- <-]|[Hne Hx]]; [by destruct (Hi ev Hev')|].
    apply Hne. by apply (Hun e (l, p) e' x ev).
  - intros ev' [?| ->%list_elem_of_singleton]%elem_of_app; auto.
  - intros ev' Hn. rewrite occ_app. destruct (Hone ev' Hn) as [H1 H2]. case_decide as E; [subst ev'|rewrite Nat.add_0_r; auto].
    destruct (Hgr Hn) as [Hgt ->]. split; [lia|done].
Qed.

(** An executor gets an answer from the journal. *)
Lemma inv_journal d ex log now e l c k d' sn :
  world_inv (mkWorld d ex log now) → ex !! e = Some (l, Journal c k) → ReportProgress d l now c = Ok (d', sn) →
  world_inv (mkWorld d' (<[e := (l, k (Ok sn))]> ex) log now) ∧ ∀ err, world_inv (mkWorld d' (<[e := (l, k (Err err))]> ex) log now).
Proof.
  intros [Hwf Hep Hex Hun Hlog Hone] He Hrep. destruct (report_le _ _ _ _ _ _ Hwf Hrep) as (Hlive & Hwf' & Hle & Hepe & _ & _).
  destruct (Hex e _ He) as (Hl & Hlee & Hq & Hgood & _). unfold w_rows in *. cbn in *.
  assert (e = db_epoch d) as Hcur.
  { unfold lease_live in Hlive. rewrite !andb_true_iff, !bool_decide_eq_true in Hlive. lia. }
  specialize (Hgood Hcur _ _ _ ltac:(exists d, l, now, d'; split_and!; done)) as (Hg' & Hq' & Ht').
  set (rows := j_steps (db_journal d)) in *. set (rows' := j_steps (db_journal d')) in *.
  assert (∀ e' x, e' ≠ e → ex !! e' = Some x → exec_ok (mkWorld d' (<[e := (l, k (Ok sn))]> ex) log now) e' x) as Hothers.
  { intros e' x Hne Hx. destruct (Hex e' x Hx) as (? & ? & Hqx & _ & Htx). unfold exec_ok, w_rows in *. cbn in *.
    split_and!; [done|lia|by eapply quiet_le|lia|]. intros ev Hev. destruct (Htx ev Hev) as [Hs Hn].
    split; [by eapply le_started|]. intros Hn'. destruct Hn; [by eapply le_never|]. split; [by eapply le_granted|done]. }
  assert (∀ p, quiet rows' p → good rows' (unknown d') p →
    (∀ ev, token p = Some ev → started rows' ev ∧ (never rows' ev → ¬ granted rows ev ∧ granted rows' ev)) →
    world_inv (mkWorld d' (<[e := (l, p)]> ex) log now)) as Hgo.
  { intros p Hqp Hgp Htp.
    assert (∀ ev, token p = Some ev → never rows' ev → occ ev log = 0%nat) as Hzero.
    { intros ev Hev Hn. destruct (Htp ev Hev) as [_ Hgr]. destruct (Hgr Hn) as [Hng _].
      destruct (Hone ev) as [_ Hpos]; [by eapply le_never|]. destruct (occ ev log); [done|]. exfalso. apply Hng, Hpos. lia. }
    split; unfold w_rows; cbn; fold rows'; try done; [lia|..].
    - intros e' x. rewrite lookup_insert_Some. intros [[<- <-]|[Hne Hx]]; [|by apply Hothers].
      unfold exec_ok, w_rows. cbn. split_and!; [done|lia|done|done|]. intros ev Hev. destruct (Htp ev Hev) as [Hs Hgr].
      split; [done|]. intros Hn. split; [by apply Hgr|by apply Hzero].
    - intros e1 x1 e2 x2 ev. rewrite !lookup_insert_Some.
      assert (∀ e2 x2, ex !! e2 = Some x2 → token p = Some ev → token x2.2 = Some ev → never rows' ev → False) as Hclash.
      { intros e3 x3 Hx3 Htk Htk3 Hn. destruct (Htp ev Htk) as [_ Hgr]. destruct (Hgr Hn) as [Hng _].
        destruct (Hex e3 x3 Hx3) as (_ & _ & _ & _ & Ht3). destruct (Ht3 ev Htk3) as [_ Hg3]. apply Hng, Hg3. by eapply le_never. }
      intros [[<- <-]|[H1 Hx1]] [[<- <-]|[H2 Hx2]] Ht1 Ht2 Hn; [done|exfalso; by eapply Hclash|exfalso; by eapply Hclash|].
      eapply Hun; try done. by eapply le_never.
    - intros ev Hin. eapply le_started; [done|]. by apply Hlog.
    - intros ev Hn. destruct (Hone ev) as [H1 H2]; [by eapply le_never|]. split; [done|]. intros Hpos. eapply le_granted; [done..|].
      by apply H2. }
  split; [by apply Hgo|]. intros err. destruct (Hq err) as [o ->]. by apply Hgo.
Qed.

Lemma inv_start d ex log now l steps sandbox lim h :
  world_inv (mkWorld d ex log now) → l_epoch l ≤ db_epoch d → ex !! l_epoch l = None →
  world_inv (mkWorld d (<[l_epoch l := (l, ExecuteRecoverable steps sandbox lim h)]> ex) log now).
Proof.
  intros [Hwf Hep Hex Hun Hlog Hone] Hle Hnone.
  destruct (execute_good steps sandbox lim h (j_steps (db_journal d)) (unknown d)) as (Hq & Hg & Ht).
  split; unfold w_rows; cbn; try done.
  - intros e x. rewrite lookup_insert_Some. intros [[<- <-]|[_ Hx]]; [|by apply (Hex e x)].
    unfold exec_ok, w_rows. cbn. split_and!; [done..|]. intros ev. by rewrite Ht.
  - intros e1 x1 e2 x2 ev. rewrite !lookup_insert_Some. intros [[<- <-]|[H1 Hx1]] [[<- <-]|[H2 Hx2]] Ht1 Ht2 Hn; try done.
    + cbn in Ht1. by rewrite Ht in Ht1.
    + cbn in Ht2. by rewrite Ht in Ht2.
    + by apply (Hun e1 x1 e2 x2 ev).
Qed.

Lemma inv_crash d ex log now e : world_inv (mkWorld d ex log now) → world_inv (mkWorld d (delete e ex) log now).
Proof.
  intros [Hwf Hep Hex Hun Hlog Hone]. split; cbn; try done.
  - intros e' x [_ Hx]%lookup_delete_Some. by apply (Hex e' x).
  - intros e1 x1 e2 x2 ev [_ H1]%lookup_delete_Some [_ H2]%lookup_delete_Some. by apply Hun.
Qed.

(** What the operations of the run leave alone. *)
Record same_steps (d d' : run_db) : Prop := {
  ss_rows : j_steps (db_journal d') = j_steps (db_journal d);
  ss_digest : sg_plan_digest (j_saga (db_journal d')) = sg_plan_digest (j_saga (db_journal d));
  ss_epoch : db_epoch d ≤ db_epoch d';
  ss_unknown : unknown d' = true → unknown d = true }.

Lemma lease_same d worker id now d' l : db_epoch d < 2 ^ 63 - 1 → 0 ≤ db_epoch d →
  tryLeaseWork d worker id now = Some (d', l) → same_steps d d' ∧ db_epoch d' = db_epoch d + 1.
Proof.
  intros H1 H2 H. assert (i64 (db_epoch d + 1) = db_epoch d + 1) as E by (apply wrap_s_id; unfold in_s; lia).
  unfold tryLeaseWork in H. rewrite E in H. case_match; [|done]. injection H as <- <-. split; [|done]. split; cbn; try done. lia.
Qed.

Lemma terminal_same s b s' st c : ensureRunSagaTerminal s b = Ok (s', st, c) →
  sg_plan_digest s' = sg_plan_digest s ∧ c = sg_cancel s ∧ sg_cancel s' = sg_cancel s ∧
  if b then s' = s ∧ sg_state s = SAGA_ready ∧ c = false
  else sg_state s' = st ∧ (st = SAGA_compensated ∨ st = SAGA_outcome_unknown) ∧ (s' = s ∨ sg_plan_digest s = "" ∧ st = SAGA_compensated).
Proof.
  unfold ensureRunSagaTerminal. destruct b.
  - case_match eqn:E; [done|]. apply orb_false_iff in E as [E%negb_false_iff%bool_decide_eq_true E2]. by intros [= <- <- <-].
  - case_match eqn:E.
    + apply andb_true_iff in E as [_ E%bool_decide_eq_true]. intros [= <- <- <-]. cbn. split_and!; try done; auto.
    + case_match eqn:E2; [done|]. intros [= <- <- <-]. split_and!; try done; auto.
      apply andb_false_iff in E2 as [E2|E2]; apply negb_false_iff, bool_decide_eq_true in E2; auto.
Qed.

Lemma extend_same d l now d' : ExtendLease d l now = Ok d' → same_steps d d'.
Proof. unfold ExtendLease. intros H. case_match; [|done]. case_match; [|done]. injection H as <-. by split. Qed.

Lemma complete_same d l now check d' : CompleteWork d l now check = Ok d' → same_steps d d'.
Proof.
  unfold CompleteWork. intros H. case_match; [|done]. case_match; [|done]. destruct (db_investigation d).
  - destruct check; [|done]. injection H as <-. by split.
  - destruct (ensureRunSagaTerminal _ _); [|done]. injection H as <-. by split.
Qed.

Lemma fail_same d l now check d' : FailWork d l now check = Ok d' → same_steps d d'.
Proof.
  unfold FailWork. intros H. case_match; [|done]. case_match; [|done]. destruct (db_investigation d).
  { destruct check; [|done]. injection H as <-. destruct (sg_cancel _); by split. }
  destruct (ensureRunSagaTerminal _ _) as [[[s st] c]|] eqn:E; [|done]. apply terminal_same in E as (Hd & _ & _ & Hst & Hor & Hs).
  injection H as <-. assert (sg_state s = SAGA_outcome_unknown → sg_state (j_saga (db_journal d)) = SAGA_outcome_unknown) as Hu.
  { intros Hu. destruct Hs as [->|[_ ->]]; [done|congruence]. }
  repeat case_match; split; cbn; try done; unfold unknown; cbn; rewrite !bool_decide_eq_true; done.
Qed.

Lemma cancel_same d m d' : CancelRun d m = Ok d' → same_steps d d'.
Proof.
  unfold CancelRun. case_match; [by intros [= <-]|]. intros H0. case_match; [|done]. injection H0 as <-.
  repeat case_match; by split.
Qed.

Lemma expire_same d now : same_steps d (expireRunDeadline d now).
Proof. unfold expireRunDeadline. repeat case_match; by split. Qed.

Lemma inv_same d d' ex log now : world_inv (mkWorld d ex log now) → same_steps d d' → world_inv (mkWorld d' ex log now).
Proof. intros Hinv [????]. by eapply inv_db. Qed.

Lemma world_reachable_inv w : reachable w → world_inv w.
Proof.
  intros (w0 & (dl & kind & now & ->) & Hs). apply (rtc_ind_r world_inv) in Hs; [done| |].
  { split; cbn; try done.
    - by repeat split; cbn; lia || done.
    - intros ev []%elem_of_nil.
    - intros ev _. unfold occ. cbn. split; [lia|]. intros []%Nat.nlt_0_r. }
  intros w1 w2 _ Hstep Hinv. destruct Hstep.
  - by eapply inv_db.
  - eapply inv_same; [done|]. eapply lease_same; [done|by apply (inv_epoch _ Hinv)|done].
  - by eapply inv_same, extend_same.
  - by apply inv_start.
  - by apply inv_crash.
  - by eapply inv_journal.
  - by eapply (inv_journal _ _ _ _ _ _ _ _ _ _ Hinv).
  - destruct (inv_exec _ Hinv e _ H) as (_ & _ & Hq & _). destruct (Hq err) as [o E]. eapply inv_idle; [done..| | |].
    all: unfold w_rows in *; cbn in *; rewrite E; done.
  - destruct (inv_exec _ Hinv e _ H) as (_ & _ & Hq & _). destruct (Hq r) as [??]. eapply inv_idle; [done..|]. intros Hg; apply Hg.
  - destruct (inv_exec _ Hinv e _ H) as (_ & _ & Hq & _). destruct (Hq r) as [??]. eapply inv_event; [done..|]. intros Hg; apply Hg.
  - destruct (inv_exec _ Hinv e _ H) as (_ & _ & Hq & _). destruct (Hq r) as [??]. eapply inv_event; [done..|]. intros Hg; apply Hg.
  - by eapply inv_same, complete_same.
  - by eapply inv_same, fail_same.
  - by eapply inv_same, cancel_same.
  - eapply inv_same, expire_same. done.
Qed.

(** C5: under crashes, lost journal replies, lease takeovers with the old executor
    still running, cancellation and deadlines, an action (or compensation) whose step is
    declared never_replay runs at most once, and whatever has run had its effect boundary
    recorded in the journal first. *)
Theorem never_replay_runs_once w i r :
  reachable w → w_rows w !! i = Some r →
  (row_action_replay r = replay_never → (occ (EvAction i) (w_log w) ≤ 1)%nat) ∧
  (row_compensation_replay r = replay_never → (occ (EvCompensate i) (w_log w) ≤ 1)%nat) ∧
  (EvAction i ∈ w_log w ∨ EvCompensate i ∈ w_log w → row_effect_started r = true).
Proof.
  intros Hr%world_reachable_inv Hi. split_and!.
  - intros Hn. apply (inv_once _ Hr). simpl. by rewrite Hi.
  - intros Hn. apply (inv_once _ Hr). simpl. by rewrite Hi.
  - intros [Hl|Hl]; apply (inv_log _ Hr) in Hl as (x & Hx & Hs); cbn in Hx; congruence.
Qed.

(** ** How runs end *)

Definition settled_row (r : StepRow) : Prop := needs_compensation r = true → row_compensation r = comp_compensated.
Definition all_succeeded (rows : list StepRow) : Prop := rows ≠ [] ∧ Forall (λ r, row_action r = action_succeeded) rows.

(** The state column agrees with the steps. *)
Definition state_ok (j : journal) : Prop :=
  match sg_state (j_saga j) with
  | SAGA_ready => sg_cancel (j_saga j) = false ∧ all_succeeded (j_steps j)
  | SAGA_compensated => Forall settled_row (j_steps j)
  | _ => True
  end.

(** A succeeded run has every action succeeded, a cancelled one every compensation done. *)
Definition run_settled (d : run_db) : Prop :=
  match db_run d with
  | RUN_succeeded => sg_cancel (j_saga (db_journal d)) = false ∧ all_succeeded (j_steps (db_journal d))
  | RUN_cancelled => Forall settled_row (j_steps (db_journal d))
  | _ => True
  end.

(** A run that is over has no live work item; the state of an ordinary one agrees with its
    steps.  An investigation settles on its receipt, whatever its steps say. *)
Definition run_ok (d : run_db) : Prop :=
  (isRunTerminal (db_run d) = true → db_status d ≠ WORK_leased ∧ db_status d ≠ WORK_pending) ∧
  (db_investigation d = false → state_ok (db_journal d) ∧ run_settled d).

Lemma refresh_ok rows cancel :
  (refreshRunSagaState rows cancel = SAGA_ready → cancel = false ∧ Forall (λ r, row_action r = action_succeeded) rows) ∧
  (refreshRunSagaState rows cancel = SAGA_compensated → Forall settled_row rows).
Proof.
  unfold refreshRunSagaState.
  assert (negb (existsb needs_compensation rows) || forallb (λ r, negb (needs_compensation r) || is_compensated r) rows = true →
          Forall settled_row rows) as Hset.
  { rewrite orb_true_iff, negb_true_iff, forallb_forall, Forall_forall. intros [Hno|Hall] r Hr Hn.
    - rewrite <- not_true_iff_false, existsb_exists in Hno. destruct Hno. exists r. by rewrite <- list_elem_of_In.
    - specialize (Hall r ltac:(by apply list_elem_of_In)). rewrite Hn in Hall. by apply bool_decide_eq_true in Hall. }
  set (settled := negb _ || forallb _ _) in *. set (failed := existsb _ _). set (all := forallb (λ r, bool_decide (row_action r = _)) _).
  assert (all = true → Forall (λ r, row_action r = action_succeeded) rows) as Hall.
  { unfold all. rewrite forallb_forall, Forall_forall. intros H r Hr%list_elem_of_In%H. by apply bool_decide_eq_true in Hr. }
  clearbody settled failed all. destruct cancel, settled, failed, all; cbn; split; intros E; try discriminate E; auto.
Qed.

Lemma report_state_ok d l now c d' sn :
  db_wf d → state_ok (db_journal d) → ReportProgress d l now c = Ok (d', sn) → state_ok (db_journal d').
Proof.
  intros [Hwf Hnil] Hst H. unfold ReportProgress in H. case_match eqn:Hlive; [|done]. destruct c as [p|r].
  - destruct (bindRunSaga _ _) as [[j m]|] eqn:E; [|done]. injection H as <- _.
    apply bind_inv in E as (_ & _ & _ & _ & [->|(Hs & _)]); [done| |done..]. unfold state_ok. cbn. by rewrite Hs.
  - destruct (recordRunSaga _ _) as [[j m]|] eqn:E; [|done]. injection H as <- _. cbn.
    destruct (decide (sg_state (j_saga (db_journal d)) = SAGA_outcome_unknown)) as [Hu|Hu].
    { unfold recordRunSaga in E. do 3 (case_match; [|done]). rewrite bool_decide_eq_true_2 in E by done. by injection E as <- _. }
    apply record_inv in E as (_ & _ & _ & i & x & Hi & _ & Hcase); [|done..].
    destruct Hcase as [[_ ->]|(a & cc & _ & Hrows & Hc & Hs)]; [done|]. unfold state_ok. rewrite Hs, Hc. case_match; [done|].
    destruct (refresh_ok (j_steps j) (sg_cancel (j_saga (db_journal d)))) as [Hready Hcomp].
    destruct (refreshRunSagaState _ _); try done; [|by apply Hcomp]. destruct Hready as [??]; [done|]. split; [done|]. split; [|done].
    intros Hn. rewrite Hn in Hrows. apply (f_equal length) in Hrows. rewrite length_insert in Hrows. apply lookup_lt_Some in Hi. cbn in Hrows. lia.
Qed.

Lemma report_run_ok d l now c d' sn : db_wf d → run_ok d → ReportProgress d l now c = Ok (d', sn) → run_ok d'.
Proof.
  intros Hwf (Hterm & Hrun) H. pose proof (λ Hs, report_state_ok _ _ _ _ _ _ Hwf Hs H) as Hst.
  unfold ReportProgress in H. case_match eqn:Hlive; [|done].
  assert (isRunTerminal (db_run d) = false) as Hnt.
  { apply not_true_iff_false. intros Ht. destruct (Hterm Ht) as [Hne _]. apply Hne.
    unfold lease_live in Hlive. rewrite !andb_true_iff, bool_decide_eq_true in Hlive. by destruct Hlive as [[[[? _] _] _] _]. }
  destruct (match c with CallBind _ => _ | CallRecord _ => _ end) as [[j m]|]; [|done]. injection H as <- _.
  split; [exact Hterm|]. cbn. intros Hk. destruct (Hrun Hk) as [Hs _]. split; [by apply Hst|].
  unfold run_settled. cbn. by destruct (db_run d).
Qed.

Lemma cancel_run_ok d m d' : run_ok d → CancelRun d m = Ok d' → run_ok d'.
Proof.
  intros Hok. unfold CancelRun. case_match; [by intros [= <-]|]. intros H0. case_match; [|done]. injection H0 as <-.
  set (effects := existsb _ _ || m). destruct effects eqn:E; split; cbn; try done.
  - intros _. destruct (db_status d); cbn; done.
  - intros _. apply orb_false_iff in E as [E _]. assert (Forall settled_row (j_steps (db_journal d))); [|done].
    rewrite Forall_forall. intros r Hr Hn. exfalso. apply andb_true_iff in Hn as [_ Hn].
    rewrite <- not_true_iff_false, existsb_exists in E. apply E. exists r. rewrite Hn. by rewrite <- list_elem_of_In.
Qed.

Lemma complete_run_ok d l now check d' : run_ok d → CompleteWork d l now check = Ok d' → run_ok d'.
Proof.
  intros (Hterm & Hrun) H. unfold CompleteWork in H. case_match; [|done]. case_match; [|done].
  destruct (db_investigation d) eqn:Hk.
  { destruct check; [|done]. injection H as <-. split; [done|]. cbn. by rewrite Hk. }
  destruct (ensureRunSagaTerminal _ _) as [[[s st] c]|] eqn:E; [|done]. apply terminal_same in E as (_ & _ & _ & -> & Hr & _).
  injection H as <-. destruct (Hrun eq_refl) as [Hst _]. split; [done|]. intros _. split; [done|].
  unfold state_ok in Hst. cbn. by rewrite Hr in Hst.
Qed.

Lemma fail_run_ok d l now check d' : db_wf d → run_ok d → FailWork d l now check = Ok d' → run_ok d'.
Proof.
  intros [_ Hnil] (Hterm & Hrun) H. unfold FailWork in H. case_match; [|done]. case_match; [|done].
  destruct (db_investigation d) eqn:Hk.
  { destruct check; [|done]. injection H as <-. destruct (sg_cancel _); (split; [done|]); cbn; by rewrite Hk. }
  destruct (Hrun eq_refl) as [Hst _].
  destruct (ensureRunSagaTerminal _ _) as [[[s st] c]|] eqn:E; [|done]. apply terminal_same in E as (_ & _ & _ & Hs & Hor & Hsame).
  assert (state_ok (mkJournal s (j_steps (db_journal d)))) as Hok.
  { unfold state_ok in *. cbn. destruct Hsame as [->|[Hd ->]]; [done|]. rewrite Hs, (Hnil Hd). done. }
  injection H as <-. destruct (bool_decide (st = _)) eqn:Est; [by split|]. destruct c; [|by split].
  apply bool_decide_eq_false in Est. split; [done|]. intros _. split; [done|]. unfold state_ok in Hok. cbn in Hok |- *. rewrite Hs in Hok. destruct Hor as [->| ->]; done.
Qed.

Lemma reachable_run_ok w : reachable w → run_ok (w_db w).
Proof.
  intros Hr. destruct Hr as (w0 & (dl & kind & now & ->) & Hs). apply (rtc_ind_r (λ w, world_inv w ∧ run_ok (w_db w))) in Hs; [by destruct Hs| |].
  { split; [by apply world_reachable_inv; eexists; split; [by do 3 eexists|]|]. by split. }
  intros w1 w2 Hpath Hstep [_ Hok]. assert (world_inv w1) as Hinv.
  { apply world_reachable_inv. eexists. split; [by do 3 eexists|done]. }
  split; [apply world_reachable_inv; eexists; split; [by do 3 eexists|by eapply rtc_r]|].
  pose proof (inv_wf _ Hinv) as Hwf. destruct Hstep; cbn in *; try done.
  - destruct Hok as (Hterm & Hrun). unfold tryLeaseWork in H0.
    match type of H0 with (if ?b then _ else _) = _ => destruct b eqn:E end; [|done]. injection H0 as <- _.
    apply andb_true_iff in E as [E _]. apply andb_true_iff in E as [_ E%negb_true_iff].
    destruct (bool_decide (db_run d = RUN_cancelling)); (split; [done|]); cbn; intros Hk; by destruct (Hrun Hk).
  - unfold ExtendLease in H. case_match; [|done]. case_match; [|done]. injection H as <-. done.
  - by eapply report_run_ok.
  - by eapply report_run_ok.
  - by eapply complete_run_ok.
  - by eapply fail_run_ok.
  - by eapply cancel_run_ok.
  - unfold expireRunDeadline. destruct (isRunTerminal _ || _); [done|]. destruct Hok as (_ & Hrun).
    split; cbn; [intros _; by destruct (db_status d)|]. intros Hk. by destruct (Hrun Hk).
Qed.

(** C10: a run of ordinary work (not an investigation, which settles on its receipt)
    ends as succeeded only with every action of its plan succeeded and no
    cancellation asked for, and as cancelled only with every started step that has a
    compensation compensated; once a run of either kind is over, no lease of it is granted
    and no journal call accepted. *)
Theorem runs_end_settled w :
  reachable w →
  let d := w_db w in
  (db_investigation d = false →
   (db_run d = RUN_succeeded → sg_cancel (j_saga (db_journal d)) = false ∧ all_succeeded (w_rows w)) ∧
   (db_run d = RUN_cancelled → Forall settled_row (w_rows w))) ∧
  (isRunTerminal (db_run d) = true →
   (∀ worker id now, tryLeaseWork d worker id now = None) ∧ ∀ l now c, is_ok (ReportProgress d l now c) = false).
Proof.
  intros (Hterm & Hrun)%reachable_run_ok d. subst d. split.
  - intros Hk. destruct (Hrun Hk) as [_ Hset]. unfold run_settled in Hset. split; intros E; by rewrite E in Hset.
  - intros Ht. destruct (Hterm Ht) as [Hl Hp]. split.
    + intros worker id now. unfold tryLeaseWork. rewrite (bool_decide_eq_false_2 (_ = WORK_pending)), (bool_decide_eq_false_2 (_ = WORK_leased)) by done.
      done.
    + intros l now c. unfold ReportProgress, lease_live. by rewrite (bool_decide_eq_false_2 (_ = WORK_leased)) by done.
Qed.

(** An investigation whose cancellation was recorded because its model call had taken effect
    is still completed as succeeded: nothing looks at the cancel flag. *)
Theorem cancelled_investigation_succeeds :
  ∃ w, reachable w ∧ db_investigation (w_db w) = true ∧ db_run (w_db w) = RUN_succeeded ∧ sg_cancel (j_saga (db_journal (w_db w))) = true.
Proof.
  set (d0 := fresh_db None true). set (l := mkLease "w" "l" 1).
  set (d1 := mkRunDB RUN_running None WORK_leased "w" "l" 1 (Some instrLeaseTTL) (db_journal d0) true).
  set (d2 := with_state d1 RUN_cancelling WORK_leased (mkJournal (mkSagaRow SAGA_cancelling "" true "") [])).
  set (d3 := with_state d2 RUN_succeeded WORK_succeeded (force_state (db_journal d2) SAGA_ready)).
  exists (mkWorld d3 ∅ [] 0). split; [|done]. exists (mkWorld d0 ∅ [] 0). split; [by exists None, true, 0|].
  eapply rtc_l; [by apply (step_lease d0 ∅ [] 0 "w" "l" d1 l)|]. eapply rtc_l; [by apply (step_cancel d1 ∅ [] 0 true d2)|].
  eapply rtc_l; [by apply (step_complete d2 ∅ [] 0 l (Ok tt) d3)|]. apply rtc_refl.
Qed.

End System.
