(* ===== verification/SagaRuns.v ===== *)
(** * Sagas run to an end

    Executed without faults, a bound saga goes forward from wherever earlier executions left
    it and ends ready; once a step has failed or the run was cancelled it is compensated, last
    step first.  Two ways in which it does not end as it should are at the end of the file. *)

From S2P Require Import Prelude GoStrings Contracts Signing Saga SagaProofs.

Section Runs.
Context {C : Crypto} {J : SagaJSON}.

(** ** Execution without faults *)

(** What the closures and the context of an execution answer; the context may end at any
    point of the run. *)
Record env := mkEnv { env_ctx : run_db → option string; env_run : nat → option string; env_compensate : nat → option string }.

(** Running a program against the journal, every call answered. *)
Fixpoint interp (v : env) (l : lease) (now : time) (d : run_db) (p : prog) : run_db * list event * outcome :=
  match p with
  | Ret o => (d, [], o)
  | Journal c k =>
      match ReportProgress d l now c with
      | Ok (d', sn) => interp v l now d' (k (Ok sn))
      | Err e => interp v l now d (k (Err e))
      end
  | CtxErr k => interp v l now d (k (env_ctx v d))
  | RunStep i k => let '(d', evs, o) := interp v l now d (k (env_run v i)) in (d', EvAction i :: evs, o)
  | CompensateStep i k => let '(d', evs, o) := interp v l now d (k (env_compensate v i)) in (d', EvCompensate i :: evs, o)
  end.

(** It is one behaviour of the system. *)
Lemma interp_steps v l now e p : ∀ d ex log d' evs o,
  interp v l now d p = (d', evs, o) → ex !! e = Some (l, p) →
  rtc step (mkWorld d ex log now) (mkWorld d' (<[e := (l, Ret o)]> ex) (log ++ evs) now).
Proof.
  induction p as [o0|c k IH|k IH|i k IH|i k IH]; intros d ex log d' evs o Hi He; cbn in Hi.
  - simplify_eq. rewrite insert_id, app_nil_r by done. done.
  - destruct (ReportProgress d l now c) as [[d1 sn]|err] eqn:E.
    + eapply rtc_l; [by eapply step_journal|]. rewrite <- (insert_insert_eq ex e (l, Ret o) (l, k (Ok sn))). eapply IH; [done|]. by rewrite lookup_insert_eq.
    + eapply rtc_l; [by eapply (step_journal_fails _ _ _ _ _ _ _ _ err)|]. rewrite <- (insert_insert_eq ex e (l, Ret o) (l, k (Err err))). eapply IH; [done|].
      by rewrite lookup_insert_eq.
  - eapply rtc_l; [by eapply step_ctx|]. rewrite <- (insert_insert_eq ex e (l, Ret o) (l, k (env_ctx v d))). eapply IH; [done|]. by rewrite lookup_insert_eq.
  - destruct (interp v l now d (k (env_run v i))) as [[d1 evs1] o1] eqn:E. simplify_eq.
    eapply rtc_l; [by eapply step_run|]. rewrite <- (insert_insert_eq ex e (l, Ret o) (l, k (env_run v i))).
    replace (log ++ EvAction i :: evs1) with ((log ++ [EvAction i]) ++ evs1) by (by rewrite <- app_assoc). eapply IH; [done|].
    by rewrite lookup_insert_eq.
  - destruct (interp v l now d (k (env_compensate v i))) as [[d1 evs1] o1] eqn:E. simplify_eq.
    eapply rtc_l; [by eapply step_compensate|]. rewrite <- (insert_insert_eq ex e (l, Ret o) (l, k (env_compensate v i))).
    replace (log ++ EvCompensate i :: evs1) with ((log ++ [EvCompensate i]) ++ evs1) by (by rewrite <- app_assoc). eapply IH; [done|].
    by rewrite lookup_insert_eq.
Qed.

(** A bound journal the holder of [l] may write. *)
Record holds (d : run_db) (l : lease) (now : time) : Prop := {
  holds_wf : db_wf d;
  holds_live : lease_live d l now = true;
  holds_deadline : deadline_passed d now = false;
  holds_bound : sg_plan_digest (j_saga (db_journal d)) ≠ "";
  holds_known : sg_state (j_saga (db_journal d)) ≠ SAGA_outcome_unknown }.

(** The database after an accepted receipt. *)
Definition recorded (d : run_db) (i : nat) (r : StepRow) (rc : RunSagaReceipt) (a : action_phase) (c : compensation_phase) : run_db :=
  let s := j_saga (db_journal d) in
  let rows := <[i := update_row rc a c r]> (j_steps (db_journal d)) in
  with_journal d (mkJournal (mkSagaRow (refreshRunSagaState rows (sg_cancel s)) (sg_plan_digest s) (sg_cancel s) (if_set (rr_Error rc) (sg_cause s))) rows).

Definition snapshot_of (d : run_db) : SagaSnapshot := SagaSnapshotFromProto (loadRunSagaSnapshot (db_journal d)).

Lemma record_forward d l now i r name ph g ref err a c :
  holds d l now → j_steps (db_journal d) !! i = Some r → row_key r = name → trim_space name ≠ "" →
  str_len g ≤ 128 → str_len ref ≤ 2048 → str_len err ≤ 2048 → row_guard r = "" ∨ g = "" ∨ row_guard r = g →
  currentPhaseMatches (phaseToProto ph) (row_action r) (row_compensation r) = false →
  next_phases (phaseToProto ph) r = Ok (a, c) → ph ≠ PhaseOutcomeUnknown →
  let rc := SagaReceiptToProto (receipt i name ph g ref err) in
  let d' := recorded d i r rc a c in
  ReportProgress d l now (CallRecord (receipt i name ph g ref err)) = Ok (d', snapshot_of d') ∧ holds d' l now.
Proof.
  intros [[Hwf Hnil] Hlive Hdl Hbound Hknown] Hr <- Hname Hg Href Herr Hguard Hmatch Hnext Hph. split.
  - unfold ReportProgress. rewrite Hlive. unfold recordRunSaga.
    assert (rr_Sequence (SagaReceiptToProto (receipt i (row_key r) ph g ref err)) = row_sequence r) as Hseq by (by apply (rows_wf_lookup (j_steps (db_journal d)))).
    assert (1 ≤ row_sequence r) as Hpos by (destruct Hwf as [_ Hs]; destruct (Hs i r Hr); lia).
    rewrite Hseq, (find_row _ _ _ Hwf Hr). cbn -[trim_space next_phases].
    rewrite (bool_decide_eq_false_2 (trim_space _ = _)), (bool_decide_eq_false_2 (sg_plan_digest _ = _)), (bool_decide_eq_false_2 (sg_state _ = _)) by done.
    rewrite (bool_decide_eq_false_2 (phaseToProto ph = STEP_UNSPECIFIED)) by (by destruct ph).
    rewrite (bool_decide_eq_false_2 (phaseToProto ph = STEP_OUTCOME_UNKNOWN)) by (by destruct ph).
    rewrite (bool_decide_eq_true_2 (row_key r = _)) by done.
    replace (0 <? row_sequence r) with true by (symmetry; apply Z.ltb_lt; lia).
    replace (str_len g <=? 128) with true by (symmetry; by apply Z.leb_le).
    replace (str_len ref <=? 2048) with true by (symmetry; by apply Z.leb_le).
    replace (str_len err <=? 2048) with true by (symmetry; by apply Z.leb_le).
    cbn -[trim_space next_phases]. rewrite Hmatch, Hnext.
    replace (bool_decide (row_guard r = "") || bool_decide (g = "") || bool_decide (row_guard r = g)) with true; [done|].
    symmetry. rewrite !orb_true_iff, !bool_decide_eq_true. tauto.
  - split; cbn; try done; [|apply refresh_not_unknown]. split; [by apply rows_wf_update|]. cbn. done.
Qed.

Lemma hex_encode_len m : str_len (hex_encode m) = 2 * str_len m.
Proof. induction m as [|ch m IH]; [done|]. cbn [hex_encode]. rewrite !str_len_cons, IH. lia. Qed.

Lemma guard_len s sandbox lim : (∀ m, str_len (sha256 m) = 32) → str_len (stepGuardDigest s sandbox lim) ≤ 128.
Proof. intros Hsha. unfold stepGuardDigest. rewrite str_len_app, hex_encode_len, Hsha. done. Qed.

(** [advance d d' i r']: a lease holder changed row [i] to [r'], and nothing else. *)
Record advance (d : run_db) (l : lease) (now : time) (i : nat) (r' : StepRow) (d' : run_db) : Prop := {
  adv_holds : holds d' l now;
  adv_rows : j_steps (db_journal d') = <[i := r']> (j_steps (db_journal d));
  adv_cancel : sg_cancel (j_saga (db_journal d')) = sg_cancel (j_saga (db_journal d));
  adv_state : sg_state (j_saga (db_journal d')) = refreshRunSagaState (j_steps (db_journal d')) (sg_cancel (j_saga (db_journal d))) }.

Lemma advance_trans d l now i r1 d1 r2 d2 :
  advance d l now i r1 d1 → advance d1 l now i r2 d2 → advance d l now i r2 d2.
Proof.
  intros [_ Hr1 Hc1 _] [Hh Hr2 Hc2 Hs2]. split; [done| |congruence|congruence]. rewrite Hr2, Hr1. apply list_insert_insert_eq.
Qed.

Lemma advance_lookup d l now i r r1 d1 :
  advance d l now i r1 d1 → j_steps (db_journal d) !! i = Some r → j_steps (db_journal d1) !! i = Some r1.
Proof. intros [_ -> _ _] Hr. apply list_lookup_insert_eq. by eapply lookup_lt_Some. Qed.

(** Recording a receipt of the executor for row [i], as one step of [interp]. *)
Lemma interp_record v l now d i r ph g ref err what rec k a c :
  holds d l now → j_steps (db_journal d) !! i = Some r → trim_space (row_key r) ≠ "" →
  str_len g ≤ 128 → str_len ref ≤ 2048 → str_len err ≤ 2048 → row_guard r = "" ∨ g = "" ∨ row_guard r = g →
  currentPhaseMatches (phaseToProto ph) (row_action r) (row_compensation r) = false →
  next_phases (phaseToProto ph) r = Ok (a, c) → ph ≠ PhaseOutcomeUnknown →
  ∃ d', advance d l now i (update_row (SagaReceiptToProto (receipt i (row_key r) ph g ref err)) a c r) d' ∧
    interp v l now d (record (receipt i (row_key r) ph g ref err) what rec k) = interp v l now d' (k (snapshot_of d')).
Proof.
  intros Hh Hr Hn Hg Href Herr Hgd Hm Hnx Hph.
  destruct (record_forward d l now i r (row_key r) ph g ref err a c) as [Hrep Hh']; try done.
  eexists. split; [|cbn [record interp]; by rewrite Hrep]. by split.
Qed.

(** *** An execution in which nothing fails *)

Record clean_run (steps : list Step) (sandbox : bool) (lim : ResourceLimit) (v : env) : Prop := {
  cr_sha m : str_len (sha256 m) = 32;
  cr_step s : s ∈ steps → trim_space (st_Name s) ≠ "" ∧ st_Fail s = false ∧ ∀ h, validateStepGuard s sandbox lim h = (h, None);
  cr_ctx d : env_ctx v d = None;
  cr_run i : env_run v i = None }.

(** A row from which execution can go forward. *)
Definition resumable (guard : string) (r : StepRow) : Prop :=
  (row_guard r = "" ∨ row_guard r = guard) ∧
  match row_action r with
  | action_pending | action_intent_recorded | action_succeeded => True
  | action_effect_started => row_action_replay r ≠ replay_never
  | action_failed | action_outcome_unknown => False
  end.

(** *** The plan of the executor is accepted by the journal *)

Definition names_ok (steps : list Step) : Prop :=
  Forall (λ s, trim_space (st_Name s) ≠ "" ∧ str_len (st_Name s) ≤ 128) steps.

Definition plan_to_proto (s : SagaStepPlan) : RunSagaStepPlan :=
  mkRunSagaStepPlan (pl_Sequence s) (pl_StepKey s) (replayToProto (pl_ActionReplay s)) (pl_HasCompensation s)
    (replayToProto (pl_CompensationReplay s)).

Definition fresh_row (s : Step) (r : StepRow) : Prop :=
  row_key r = st_Name s ∧ row_action r = action_pending ∧ row_guard r = "" ∧ row_has_compensation r = st_Compensate s ∧
  (row_action_replay r = replay_never ↔ normalizeReplay (st_Replay s) = ReplayNever) ∧
  (row_compensation_replay r = replay_never ↔ normalizeReplay (st_CompensationReplay s) = ReplayNever).

Lemma replay_proto p : ∃ n, replayName (replayToProto (normalizeReplay p)) = Some n ∧
  replay_name_string (Some n) = replay_string (normalizeReplay p) ∧ (n = replay_never ↔ normalizeReplay p = ReplayNever).
Proof. destruct p; eexists; by split_and!. Qed.

Lemma plan_steps_ok steps : ∀ i seen ps, plan_steps i seen steps = Ok ps → names_ok steps →
  check_plan_steps i seen ((λ s, Some (plan_to_proto s)) <$> ps) = Ok () ∧
  length ps = length steps ∧ Forall2 fresh_row steps (inserted ((λ s, Some (plan_to_proto s)) <$> ps)) ∧
  omap (λ s, s ← s; Some (mkDigestStep (rp_Sequence s) (rp_StepKey s) (replay_name_string (replayName (rp_ActionReplay s)))
          (rp_HasCompensation s) (replay_name_string (replayName (rp_CompensationReplay s)))))
       ((λ s, Some (plan_to_proto s)) <$> ps) = plan_digest_step <$> ps.
Proof.
  induction steps as [|s steps IH]; intros i seen ps H Hn; cbn in H; [by injection H as <-|].
  apply Forall_cons in Hn as [[Hblank Hlen] Hn]. case_match eqn:E; [|done].
  apply andb_true_iff in E as [_ E%negb_true_iff]. destruct (plan_steps _ _ steps) as [rest|] eqn:Hrest; [|done].
  injection H as <-. destruct (IH _ _ _ Hrest Hn) as (Hc & Hl & Hf & Hd).
  destruct (replay_proto (st_Replay s)) as (na & Hna & Hsa & Hia), (replay_proto (st_CompensationReplay s)) as (nc & Hnc & Hsc & Hic).
  cbn [fmap list_fmap check_plan_steps plan_to_proto rp_Sequence rp_StepKey rp_ActionReplay rp_CompensationReplay
       pl_Sequence pl_StepKey pl_ActionReplay pl_CompensationReplay pl_HasCompensation].
  rewrite Hna, Hnc, E. rewrite (bool_decide_eq_true_2 (i32 _ = i32 _)), (bool_decide_eq_false_2 (trim_space _ = _)), !(bool_decide_eq_true_2 (is_Some _)) by done.
  replace (str_len (st_Name s) <=? 128) with true by (symmetry; by apply Z.leb_le). split_and!; [done|cbn; by rewrite Hl| |].
  - unfold inserted. cbn. unfold insert_step at 1. cbn. rewrite Hna, Hnc. cbn. constructor; [|done]. by split_and!.
  - cbn. rewrite Hna, Hnc. f_equal; [|exact Hd]. unfold plan_digest_step. cbn -[replay_name_string]. by rewrite Hsa, Hsc.
Qed.

(** The plan an executor builds from admissible steps has the digest the journal
    computes for it, so binding it to an unbound saga is accepted, once and for every later
    execution with the same steps, and it fixes each step's key, replay policies and
    compensation. *)
Theorem plan_binds steps plan j :
  buildSagaPlan steps = Ok plan → names_ok steps → steps ≠ [] → (length steps ≤ 128)%nat →
  j_steps j = [] → sg_plan_digest (j_saga j) = "" →
  ∃ j', bindRunSaga j (SagaPlanToProto plan) = Ok (j', loadRunSagaSnapshot j') ∧
    sg_state (j_saga j') = SAGA_running ∧ sg_plan_digest (j_saga j') = pl_PlanDigest plan ∧ sg_cancel (j_saga j') = sg_cancel (j_saga j) ∧
    Forall2 fresh_row steps (j_steps j') ∧ bindRunSaga j' (SagaPlanToProto plan) = Ok (j', loadRunSagaSnapshot j').
Proof.
  unfold buildSagaPlan. destruct (plan_steps 0 [] steps) as [ps|] eqn:Hps; [|done]. intros [= <-] Hn Hne Hlen Hj Hd.
  destruct (plan_steps_ok _ _ _ _ Hps Hn) as (Hc & Hl & Hf & Hdig).
  set (plan := mkSagaPlan _ _ _). set (m := SagaPlanToProto plan).
  assert (runSagaPlanDigest m = pl_PlanDigest plan) as Hdigest by (unfold runSagaPlanDigest; cbn; by rewrite <- Hdig).
  assert ((length (rp_Steps m) =? 0)%nat = false ∧ (length (rp_Steps m) <=? 128)%nat = true) as [Hl0 Hl1].
  { cbn. rewrite length_fmap, Hl, Nat.eqb_neq, Nat.leb_le. destruct steps; cbn in *; done. }
  assert (bool_decide (rp_SchemaVersion m = sagaSchemaVersion) && negb (length (rp_Steps m) =? 0)%nat && (length (rp_Steps m) <=? 128)%nat = true) as Hguard
    by (by rewrite Hl0, Hl1).
  assert (check_plan_steps 0 [] (rp_Steps m) = Ok ()) as Hchk by exact Hc.
  exists (mkJournal (mkSagaRow SAGA_running (pl_PlanDigest plan) (sg_cancel (j_saga j)) (sg_cause (j_saga j))) (inserted (rp_Steps m))).
  unfold bindRunSaga. rewrite Hguard, Hchk. cbn [result_bind]. rewrite Hdigest.
  change (rp_PlanDigest m) with (pl_PlanDigest plan). rewrite !(bool_decide_eq_true_2 (pl_PlanDigest plan = _)) by done.
  rewrite Hd, Hj. split_and!; try done. cbn [j_saga sg_plan_digest].
  rewrite (bool_decide_eq_false_2 (pl_PlanDigest plan = _)), (bool_decide_eq_true_2 (pl_PlanDigest plan = _)) by done. done.
Qed.

Section Clean.
Context (steps : list Step) (sandbox : bool) (lim : ResourceLimit) (v : env) (l : lease) (now : time).
Context (Hclean : clean_run steps sandbox lim v).

(** [d'] differs from [d] in that step [i] has succeeded. *)
Definition step_done (d : run_db) (i : nat) (d' : run_db) : Prop :=
  ∃ r', advance d l now i r' d' ∧ row_action r' = action_succeeded ∧
        (∀ r, j_steps (db_journal d) !! i = Some r → row_key r' = row_key r).

Definition run_events (i : nat) (step : Step) : list event := if st_Run step then [EvAction i] else [].

(** [p] in [d] goes on as [next] in a database where step [i] is done. *)
Definition completes (d : run_db) (i : nat) (step : Step) (p : prog) (next : SagaSnapshot → list string → prog) : Prop :=
  ∃ d' rec', step_done d i d' ∧
    interp v l now d p =
      let '(d2, evs, o) := interp v l now d' (next (snapshot_of d') rec') in (d2, run_events i step ++ evs, o).

Lemma run_action_completes d i r step guard sn rec next :
  steps !! i = Some step → holds d l now → sg_cancel (j_saga (db_journal d)) = false →
  j_steps (db_journal d) !! i = Some r → row_key r = st_Name step → guard = stepGuardDigest step sandbox lim →
  row_guard r = "" ∨ row_guard r = guard → row_action r = action_effect_started →
  completes d i step (run_action steps i step guard sn rec next) next.
Proof.
  intros Hs Hh Hc Hr Hk -> Hg Ha. destruct (cr_step _ _ _ _ Hclean step) as (Hn & Hf & _); [by eapply list_elem_of_lookup_2|].
  unfold run_action. rewrite Hf, <- Hk. rewrite <- Hk in Hn.
  set (settle := λ runErr : option string, _).
  assert (∃ d' rec', step_done d i d' ∧ interp v l now d (settle None) = interp v l now d' (next (snapshot_of d') rec')) as (d' & rec' & Hd & Hi).
  { destruct (interp_record v l now d i r PhaseActionSucceeded (stepGuardDigest step sandbox lim) "ok" ""
      "record action settlement" ((rec ++ ["start:" +:+ row_key r]) ++ ["ok:" +:+ row_key r])
      (λ sn, if sn_CancelRequested sn then compensateRecoverable steps sn (S i) "context canceled"
               ((rec ++ ["start:" +:+ row_key r]) ++ ["ok:" +:+ row_key r])
             else next sn ((rec ++ ["start:" +:+ row_key r]) ++ ["ok:" +:+ row_key r])) action_succeeded (row_compensation r))
      as (d' & Hadv & Hi); try done.
    - apply guard_len, (cr_sha _ _ _ _ Hclean).
    - destruct Hg; auto.
    - by rewrite Ha.
    - cbn. by rewrite Ha.
    - exists d'. eexists. split.
      + eexists. split_and!; [done|done|]. intros r0 Hr0. rewrite Hr in Hr0. by injection Hr0 as <-.
      + unfold settle. rewrite Hi. cbn [sn_CancelRequested snapshot_of SagaSnapshotFromProto loadRunSagaSnapshot rs_CancelRequested].
        by rewrite (adv_cancel _ _ _ _ _ _ Hadv), Hc. }
  exists d', rec'. split; [done|]. unfold run_events. destruct (st_Run step).
  - cbn [interp]. rewrite (cr_run _ _ _ _ Hclean), Hi. by destruct (interp v l now d' _) as [[??]?].
  - unfold settle in Hi. rewrite Hi. by destruct (interp v l now d' _) as [[??]?].
Qed.

(** One record of the executor on the way to its action. *)
Lemma completes_record d i r step ph a what rec k next :
  steps !! i = Some step → holds d l now → j_steps (db_journal d) !! i = Some r → row_key r = st_Name step →
  row_guard r = "" ∨ row_guard r = stepGuardDigest step sandbox lim →
  currentPhaseMatches (phaseToProto ph) (row_action r) (row_compensation r) = false →
  next_phases (phaseToProto ph) r = Ok (a, row_compensation r) → ph ≠ PhaseOutcomeUnknown →
  (∀ d' r', advance d l now i r' d' → row_key r' = row_key r → row_action r' = a →
     row_action_replay r' = row_action_replay r → row_guard r' = stepGuardDigest step sandbox lim →
     completes d' i step (k (snapshot_of d')) next) →
  completes d i step (record (receipt i (st_Name step) ph (stepGuardDigest step sandbox lim) "" "") what rec k) next.
Proof.
  intros Hs Hh Hr Hk Hg Hm Hn Hph Hnext. destruct (cr_step _ _ _ _ Hclean step) as (Hname & _ & _); [by eapply list_elem_of_lookup_2|].
  rewrite <- Hk. destruct (interp_record v l now d i r ph (stepGuardDigest step sandbox lim) "" "" what rec k a (row_compensation r))
    as (d' & Hadv & Hi); try done.
  - congruence.
  - apply guard_len, (cr_sha _ _ _ _ Hclean).
  - destruct Hg; auto.
  - destruct (Hnext d' _ Hadv) as (d2 & rec2 & (r2 & Hadv2 & Ha2 & Hk2) & Hi2); [done..| |].
    { cbn. unfold if_set. destruct Hg as [-> | ->]; [done|]. by case_bool_decide. }
    exists d2, rec2. split; [|by rewrite Hi]. exists r2. split_and!; [by eapply advance_trans|done|].
    intros r0 Hr0. rewrite Hr in Hr0. injection Hr0 as <-. by rewrite (Hk2 _ (advance_lookup _ _ _ _ _ _ _ Hadv Hr)).
Qed.

Lemma guarded_action_completes d i r step (effect : bool) sn h rec next :
  steps !! i = Some step → holds d l now → sg_cancel (j_saga (db_journal d)) = false →
  j_steps (db_journal d) !! i = Some r → row_key r = st_Name step →
  row_guard r = "" ∨ row_guard r = stepGuardDigest step sandbox lim →
  row_action r = (if effect then action_effect_started else action_intent_recorded) →
  completes d i step (guarded_action steps i step (stepGuardDigest step sandbox lim) effect sandbox lim sn h rec next) (λ sn, next sn h).
Proof.
  intros Hs Hh Hc Hr Hk Hg Ha. destruct (cr_step _ _ _ _ Hclean step) as (_ & _ & Hv); [by eapply list_elem_of_lookup_2|].
  unfold guarded_action. rewrite Hv. destruct effect; [by apply (run_action_completes d i r)|].
  apply (completes_record d i r step PhaseActionEffect action_effect_started); try done.
  - by rewrite Ha.
  - cbn. by rewrite Ha.
  - intros d' r' Hadv Hk' Ha' _ Hg'. apply (run_action_completes d' i r'); try done; [apply Hadv|by rewrite (adv_cancel _ _ _ _ _ _ Hadv)| |congruence|auto].
    by eapply advance_lookup.
Qed.

(** One iteration of the loop. *)
Lemma iteration_completes d i r step todo h rec :
  steps !! i = Some step → holds d l now → sg_cancel (j_saga (db_journal d)) = false →
  j_steps (db_journal d) !! i = Some r → row_key r = st_Name step →
  resumable (stepGuardDigest step sandbox lim) r → row_action r ≠ action_succeeded →
  completes d i step (execute_loop steps sandbox lim i (step :: todo) (snapshot_of d) h rec)
    (λ sn, execute_loop steps sandbox lim (S i) todo sn h).
Proof.
  intros Hs Hh Hc Hr Hk [Hg Hres] Hns. cbn [execute_loop].
  assert (sagaStepAt (snapshot_of d) i (st_Name step) = Ok (seen_row r)) as ->.
  { unfold sagaStepAt. rewrite (snapshot_reflects (db_journal d)), list_lookup_fmap, Hr. cbn.
    rewrite Hk, (rows_wf_lookup _ _ _ (proj1 (holds_wf _ _ _ Hh)) Hr), !bool_decide_eq_true_2 by done. done. }
  cbn [seen_row ss_ActionEffectStarted ss_ActionPhase ss_Plan pl_ActionReplay ss_GuardDigest ss_Error].
  assert (negb (bool_decide (row_guard r = "")) && negb (bool_decide (row_guard r = stepGuardDigest step sandbox lim)) = false) as Hgd.
  { rewrite andb_false_iff, !negb_false_iff, !bool_decide_eq_true. tauto. }
  assert (∀ p, completes d i step p (λ sn, execute_loop steps sandbox lim (S i) todo sn h) →
    completes d i step (CtxErr (λ e, match e with Some e => compensateRecoverable steps (snapshot_of d) i e rec | None => p end))
      (λ sn, execute_loop steps sandbox lim (S i) todo sn h)) as Hctx.
  { intros p (d' & rec' & Hd & Hi). exists d', rec'. split; [done|]. cbn [interp]. by rewrite (cr_ctx _ _ _ _ Hclean). }
  destruct (row_action r) eqn:Ha; cbn [phaseProto_action phaseFromProto]; try done.
  all: rewrite Hgd.
  - apply Hctx. cbn -[guarded_action record]. apply (completes_record d i r step PhaseActionIntent action_intent_recorded); try done.
    + by rewrite Ha.
    + cbn. by rewrite Ha.
    + intros d' r' Hadv Hk' Ha' _ Hg'. cbn [sn_CancelRequested snapshot_of SagaSnapshotFromProto loadRunSagaSnapshot rs_CancelRequested].
      rewrite (adv_cancel _ _ _ _ _ _ Hadv), Hc. apply (guarded_action_completes d' i r'); try done; [apply Hadv| | |congruence|auto].
      * by rewrite (adv_cancel _ _ _ _ _ _ Hadv).
      * by eapply advance_lookup.
  - apply Hctx. by apply (guarded_action_completes d i r).
  - rewrite (bool_decide_eq_false_2 (_ = ReplayNever)) by (by rewrite seen_never). cbn -[guarded_action].
    apply Hctx. by apply (guarded_action_completes d i r).
Qed.

(** The steps before [i] are done, the others can go forward. *)
Record loop_ok (i : nat) (d : run_db) : Prop := {
  lo_holds : holds d l now;
  lo_cancel : sg_cancel (j_saga (db_journal d)) = false;
  lo_length : length (j_steps (db_journal d)) = length steps;
  lo_row k s r : steps !! k = Some s → j_steps (db_journal d) !! k = Some r →
    row_key r = st_Name s ∧ ((k < i)%nat → row_action r = action_succeeded) ∧
      ((i ≤ k)%nat → resumable (stepGuardDigest s sandbox lim) r) }.

(** The actions that are still to run. *)
Fixpoint remaining (i : nat) (todo : list Step) (rows : list StepRow) : list event :=
  match todo, rows with
  | s :: todo, r :: rows =>
      (if bool_decide (row_action r = action_succeeded) then [] else run_events i s) ++ remaining (S i) todo rows
  | _, _ => []
  end.

Lemma refresh_ready rows : Forall (λ r, row_action r = action_succeeded) rows → refreshRunSagaState rows false = SAGA_ready.
Proof.
  rewrite Forall_forall. intros H.
  assert (existsb (λ r, bool_decide (row_action r = action_failed)) rows = false) as Hf.
  { rewrite <- not_true_iff_false, existsb_exists. intros (r & Hr%list_elem_of_In & Hf%bool_decide_eq_true). rewrite H in Hf; done. }
  assert (forallb (λ r, bool_decide (row_action r = action_succeeded)) rows = true) as Ha.
  { apply forallb_forall. intros r Hr%list_elem_of_In. apply bool_decide_eq_true. auto. }
  unfold refreshRunSagaState. by rewrite Hf, Ha.
Qed.

Lemma loop_all_done d : loop_ok (length steps) d → Forall (λ r, row_action r = action_succeeded) (j_steps (db_journal d)).
Proof.
  intros [_ _ Hl Hrow]. apply Forall_lookup. intros k r Hr. pose proof (lookup_lt_Some _ _ _ Hr) as Hlt. rewrite Hl in Hlt.
  apply lookup_lt_is_Some in Hlt as Hs. destruct Hs as [s Hs]. by destruct (Hrow k s r Hs Hr) as (_ & H & _); apply H.
Qed.

(** Settling step [i] brings the loop to step [S i]. *)
Lemma loop_next i d d' step : steps !! i = Some step → loop_ok i d → step_done d i d' → loop_ok (S i) d'.
Proof.
  intros Hs [Hh Hc Hl Hrow] (r' & [Hh' Hrows Hc' _] & Ha & Hk). split; [done|congruence|by rewrite Hrows, length_insert|].
  intros k s r Hks. rewrite Hrows. destruct (decide (k = i)) as [->|Hne].
  - assert (i < length (j_steps (db_journal d)))%nat as Hlt by (rewrite Hl; by eapply lookup_lt_Some).
    rewrite list_lookup_insert_eq by done. intros [= <-]. apply lookup_lt_is_Some in Hlt as [r0 Hr0].
    destruct (Hrow i s r0 Hks Hr0) as (Hkey & _ & _). rewrite (Hk r0 Hr0). split_and!; [done|done|lia].
  - rewrite list_lookup_insert_ne by done. intros Hr. destruct (Hrow k s r Hks Hr) as (? & Hlt & Hres). split_and!; [done| |].
    + intros ?. apply Hlt. lia.
    + intros ?. apply Hres. lia.
Qed.

Lemma loop_completes todo : ∀ i d h rec, drop i steps = todo → loop_ok i d →
  ∃ d' rec', interp v l now d (execute_loop steps sandbox lim i todo (snapshot_of d) h rec)
             = (d', remaining i todo (drop i (j_steps (db_journal d))), (None, rec')) ∧
    loop_ok (length steps) d' ∧ (sg_state (j_saga (db_journal d')) = SAGA_ready ∨ d' = d).
Proof.
  induction todo as [|step todo IH]; intros i d h rec Hdrop Hok.
  - exists d, rec. cbn. split_and!; [done| |by right]. destruct Hok as [? ? ? Hrow]. split; try done. intros k s r Hs Hr.
    apply (f_equal length) in Hdrop. rewrite length_drop in Hdrop. cbn in Hdrop. pose proof (lookup_lt_Some _ _ _ Hs).
    destruct (Hrow k s r Hs Hr) as (? & Hd & _). split_and!; [done|intros _; apply Hd; lia|lia].
  - assert (steps !! i = Some step) as Hs.
    { rewrite <- (Nat.add_0_r i), <- lookup_drop, Hdrop. done. }
    assert (drop (S i) steps = todo) as Hdrop'.
    { replace (S i) with (i + 1)%nat by lia. by rewrite <- drop_drop, Hdrop. }
    assert (∃ r, j_steps (db_journal d) !! i = Some r) as [r Hr].
    { apply lookup_lt_is_Some. rewrite (lo_length _ _ Hok). by eapply lookup_lt_Some. }
    destruct (lo_row _ _ Hok i step r Hs Hr) as (Hk & _ & Hres). specialize (Hres ltac:(lia)).
    rewrite (drop_S _ _ _ Hr). cbn [remaining]. destruct (decide (row_action r = action_succeeded)) as [Ha|Ha].
    + rewrite bool_decide_eq_true_2 by done. destruct (IH (S i) d h rec Hdrop') as (d' & rec' & Hi & Hok' & Hor).
      { destruct Hok as [? ? ? Hrow]. split; try done. intros k s x Hks Hkx. destruct (Hrow k s x Hks Hkx) as (? & Hd & Hrs).
        split_and!; [done| |intros ?; apply Hrs; lia]. intros Hlt. destruct (decide (k = i)) as [->|]; [congruence|apply Hd; lia]. }
      exists d', rec'. split_and!; [|done|done]. cbn [execute_loop].
      assert (sagaStepAt (snapshot_of d) i (st_Name step) = Ok (seen_row r)) as ->.
      { unfold sagaStepAt. rewrite (snapshot_reflects (db_journal d)), list_lookup_fmap, Hr. cbn.
        rewrite Hk, (rows_wf_lookup _ _ _ (proj1 (holds_wf _ _ _ (lo_holds _ _ Hok))) Hr), !bool_decide_eq_true_2 by done. done. }
      cbn [seen_row ss_ActionPhase]. rewrite Ha. cbn [phaseProto_action phaseFromProto]. exact Hi.
    + rewrite bool_decide_eq_false_2 by done.
      destruct (iteration_completes d i r step todo h rec Hs (lo_holds _ _ Hok) (lo_cancel _ _ Hok) Hr Hk Hres Ha) as (d1 & rec1 & Hd1 & Hi1).
      pose proof (loop_next i d d1 step Hs Hok Hd1) as Hok1.
      destruct (IH (S i) d1 h rec1 Hdrop' Hok1) as (d' & rec' & Hi & Hok' & Hor).
      destruct Hd1 as (r' & Hadv & _). rewrite (adv_rows _ _ _ _ _ _ Hadv), drop_insert_lt in Hi by lia.
      exists d', rec'. rewrite Hi1, Hi. split_and!; [done|done|]. left.
      destruct Hor as [?| ->]; [done|]. rewrite (adv_state _ _ _ _ _ _ Hadv), (lo_cancel _ _ Hok). by apply refresh_ready, loop_all_done.
Qed.

End Clean.

(** The journal of [d] is bound to [plan], and every step can go forward from where it is. *)
Record resumable_saga (steps : list Step) (sandbox : bool) (lim : ResourceLimit) (plan : SagaPlan) (d : run_db) : Prop := {
  rs_bound : sg_plan_digest (j_saga (db_journal d)) = pl_PlanDigest plan;
  rs_rows : Forall2 (λ s r, row_key r = st_Name s ∧ resumable (stepGuardDigest s sandbox lim) r) steps (j_steps (db_journal d));
  rs_known : sg_state (j_saga (db_journal d)) ≠ SAGA_outcome_unknown;
  rs_ready : Forall (λ r, row_action r = action_succeeded) (j_steps (db_journal d)) → sg_state (j_saga (db_journal d)) = SAGA_ready }.

Lemma rebind steps plan j :
  buildSagaPlan steps = Ok plan → names_ok steps → steps ≠ [] → (length steps ≤ 128)%nat → sg_plan_digest (j_saga j) = pl_PlanDigest plan →
  bindRunSaga j (SagaPlanToProto plan) = Ok (j, loadRunSagaSnapshot j).
Proof.
  intros Hp Hn Hne Hl Hd.
  destruct (plan_binds steps plan (mkJournal (mkSagaRow SAGA_pending "" false "") [])) as (j' & Hb & _); try done.
  unfold bindRunSaga in *. case_match; [|done]. destruct (check_plan_steps _ _ _); [|done]. cbn [result_bind] in *.
  destruct (bool_decide (rp_PlanDigest _ = _)) eqn:E; [|done]. apply bool_decide_eq_true in E. rewrite Hd.
  change (rp_PlanDigest (SagaPlanToProto plan)) with (pl_PlanDigest plan) in E.
  rewrite <- E, (bool_decide_eq_true_2 (pl_PlanDigest plan = pl_PlanDigest plan)), orb_true_r by done.
  rewrite bool_decide_eq_false_2; [done|]. rewrite E. by unfold runSagaPlanDigest.
Qed.

(** C36: an execution in which nothing fails, started from a journal bound to its
    plan with each step untouched, intended, under way and repeatable, or done, returns nil
    after running exactly the actions that had not succeeded, in order; the saga is then
    ready and the run can be completed. *)
Theorem recovery_completes steps sandbox lim h v l now plan d :
  clean_run steps sandbox lim v → buildSagaPlan steps = Ok plan → names_ok steps → steps ≠ [] → (length steps ≤ 128)%nat →
  db_wf d → lease_live d l now = true → sg_cancel (j_saga (db_journal d)) = false → deadline_passed d now = false →
  resumable_saga steps sandbox lim plan d →
  ∃ d' rec, interp v l now d (ExecuteRecoverable steps sandbox lim h) = (d', remaining 0 steps (j_steps (db_journal d)), (None, rec)) ∧
    sg_state (j_saga (db_journal d')) = SAGA_ready ∧ all_succeeded (j_steps (db_journal d')) ∧
    is_ok (CompleteWork d' l now (Ok tt)) = true.
Proof.
  intros Hclean Hplan Hn Hne Hl Hwf Hlive Hc Hdl [Hb Hrows Hk Hready].
  assert (loop_ok steps sandbox lim l now 0 d) as Hok.
  { split; [split; [done|done|done| |done]|done|by rewrite (Forall2_length _ _ _ Hrows)|].
    - rewrite Hb. unfold buildSagaPlan in Hplan. destruct (plan_steps _ _ _); [|done]. by injection Hplan as <-.
    - intros k s r Hs Hr. destruct (Forall2_lookup_lr _ _ _ _ _ _ Hrows Hs Hr) as [? ?]. split_and!; [done|lia|done]. }
  destruct (loop_completes _ _ _ v l now Hclean steps 0 d h [] eq_refl Hok) as (d' & rec & Hi & Hok' & Hst).
  rewrite drop_0 in Hi. pose proof (loop_all_done _ _ _ _ _ _ Hok') as Hall.
  assert (sg_state (j_saga (db_journal d')) = SAGA_ready) as Hrd by (destruct Hst as [?| ->]; auto).
  exists d', rec. split_and!; [|done| |].
  - unfold ExecuteRecoverable. rewrite Hplan. cbn [interp]. unfold ReportProgress. rewrite Hlive, (rebind steps plan) by done.
    cbn [result_bind]. fold (snapshot_of (with_journal d (db_journal d))).
    replace (with_journal d (db_journal d)) with d by (by destruct d). change (SagaSnapshotFromProto _) with (snapshot_of d).
    cbn [sn_PlanDigest sn_State sn_CancelRequested snapshot_of SagaSnapshotFromProto loadRunSagaSnapshot rs_PlanDigest rs_State rs_CancelRequested].
    rewrite Hb, (bool_decide_eq_true_2 (pl_PlanDigest plan = _)), (bool_decide_eq_false_2 (sg_state _ = _)), Hc by done. exact Hi.
  - split; [|done]. intros E. pose proof (lo_length _ _ _ _ _ _ _ Hok') as Hlen. rewrite E in Hlen. by destruct steps.
  - destruct (lo_holds _ _ _ _ _ _ _ Hok') as [_ Hlive' Hdl' _ _]. unfold CompleteWork, ensureRunSagaTerminal. rewrite Hdl', Hlive', Hrd.
    rewrite (lo_cancel _ _ _ _ _ _ _ Hok'). by destruct (db_investigation d').
Qed.

(** *** Compensation without faults *)

(** A started step whose compensation can be carried out. *)
Definition compensable (r : StepRow) : Prop :=
  row_has_compensation r = true ∧
  match row_action r with
  | action_succeeded | action_failed => True
  | action_effect_started => row_action_replay r ≠ replay_never
  | _ => False
  end ∧
  match row_compensation r with
  | comp_pending | comp_intent_recorded => True
  | comp_effect_started | comp_failed => row_compensation_replay r ≠ replay_never
  | _ => False
  end.

(** The row is ready for [p], which compensates step [i] and goes on as [next]. *)
Definition compensates (v : env) (l : lease) (now : time) (d : run_db) (i : nat) (p : prog) (next : SagaSnapshot → list string → prog) : Prop :=
  ∃ d' r' rec', advance d l now i r' d' ∧ row_compensation r' = comp_compensated ∧
    (∀ r, j_steps (db_journal d) !! i = Some r →
       row_key r' = row_key r ∧ row_action r' = row_action r ∧ row_effect_started r' = row_effect_started r ∧
       row_has_compensation r' = row_has_compensation r ∧ row_action_replay r' = row_action_replay r) ∧
    interp v l now d p =
      let '(d2, evs, o) := interp v l now d' (next (snapshot_of d') rec') in (d2, EvCompensate i :: evs, o).

(** One receipt of the executor on the way to a compensation. *)
Lemma compensates_record v l now d i r ph c what rec k next :
  holds d l now → j_steps (db_journal d) !! i = Some r → trim_space (row_key r) ≠ "" →
  ph = PhaseCompensationIntent ∨ ph = PhaseCompensationEffect →
  currentPhaseMatches (phaseToProto ph) (row_action r) (row_compensation r) = false →
  next_phases (phaseToProto ph) r = Ok (row_action r, c) →
  (∀ d' r', advance d l now i r' d' → row_key r' = row_key r → row_action r' = row_action r → row_compensation r' = c →
     row_effect_started r' = row_effect_started r → row_has_compensation r' = row_has_compensation r →
     row_compensation_replay r' = row_compensation_replay r → compensates v l now d' i (k (snapshot_of d')) next) →
  compensates v l now d i (record (receipt i (row_key r) ph "" "" "") what rec k) next.
Proof.
  intros Hh Hr Hn Hph Hm Hnx Hnext.
  destruct (interp_record v l now d i r ph "" "" "" what rec k (row_action r) c) as (d' & Hadv & Hi); try done; [by right; left|by destruct Hph as [-> | ->]|].
  destruct (Hnext d' _ Hadv) as (d2 & r2 & rec2 & Hadv2 & Hc2 & Hsame & Hi2); try done.
  { cbn. destruct Hph as [-> | ->]; cbn; apply orb_false_r. }
  exists d2, r2, rec2. split_and!; [by eapply advance_trans|done| |by rewrite Hi].
  intros r0 Hr0. rewrite Hr in Hr0. injection Hr0 as <-. destruct (Hsame _ (advance_lookup _ _ _ _ _ _ _ Hadv Hr)) as (-> & -> & -> & -> & ->).
  split_and!; try done. cbn. destruct Hph as [-> | ->]; cbn; apply orb_false_r.
Qed.

Lemma run_compensation_compensates v l now d i r plan cause rec next :
  (∀ k, env_compensate v k = None) → holds d l now → j_steps (db_journal d) !! i = Some r → trim_space (row_key r) ≠ "" →
  row_compensation r = comp_effect_started →
  compensates v l now d i (run_compensation i (row_key r) plan cause rec next) next.
Proof.
  intros Hv Hh Hr Hn Hc. unfold run_compensation. set (rec1 := rec ++ _).
  destruct (interp_record v l now d i r PhaseCompensated "" "ok" "" "record compensation settlement" rec1 (λ sn, next sn rec1)
    (row_action r) comp_compensated) as (d' & Hadv & Hi); try done; [by right; left|cbn; by rewrite Hc..|].
  exists d'. eexists. exists rec1. split_and!; [done|done| |].
  - intros r0 Hr0. rewrite Hr in Hr0. injection Hr0 as <-. split_and!; try done. cbn. apply orb_false_r.
  - cbn [interp]. rewrite Hv, Hi. by destruct (interp v l now d' _) as [[??]?].
Qed.

Lemma effect_compensates v l now d i r plan cause rec next :
  (∀ k, env_compensate v k = None) → holds d l now → j_steps (db_journal d) !! i = Some r → trim_space (row_key r) ≠ "" →
  row_compensation r = comp_intent_recorded →
  compensates v l now d i (record (receipt i (row_key r) PhaseCompensationEffect "" "" "") "record compensation effect boundary" rec
    (λ _, run_compensation i (row_key r) plan cause rec next)) next.
Proof.
  intros Hv Hh Hr Hn Hc. apply compensates_record with (c := comp_effect_started); try done; [by right|cbn; by rewrite Hc..|].
  intros d' r' Hadv Hk _ Hc' _ _ _. rewrite <- Hk. apply (run_compensation_compensates v l now d' i r'); try done; [apply Hadv| |congruence].
  by eapply advance_lookup.
Qed.

Lemma intent_compensates v l now d i r plan cause rec next :
  (∀ k, env_compensate v k = None) → holds d l now → j_steps (db_journal d) !! i = Some r → trim_space (row_key r) ≠ "" →
  row_effect_started r = true → compensable r →
  row_compensation r = comp_pending ∨ row_compensation r = comp_failed →
  compensates v l now d i (record (receipt i (row_key r) PhaseCompensationIntent "" "" "") "record compensation intent" rec (λ _,
    record (receipt i (row_key r) PhaseCompensationEffect "" "" "") "record compensation effect boundary" rec
      (λ _, run_compensation i (row_key r) plan cause rec next))) next.
Proof.
  intros Hv Hh Hr Hn Hs (Hhc & Ha & Hcc) Hc. apply compensates_record with (c := comp_intent_recorded); try done; [by left| | |].
  - destruct Hc as [-> | ->]; done.
  - cbn. rewrite Hhc, Hs. destruct Hc as [Hc|Hc]; rewrite Hc in *; destruct (row_action r); try done.
    all: by rewrite (bool_decide_eq_false_2 (row_compensation_replay r = _)).
  - intros d' r' Hadv Hk _ Hc' _ _ _. rewrite <- Hk. apply (effect_compensates v l now d' i r'); try done; [apply Hadv| |congruence].
    by eapply advance_lookup.
Qed.

(** The steps from [n] on are settled; those below can be. *)
Record unwind_ok (steps : list Step) (l : lease) (now : time) (n : nat) (d : run_db) : Prop := {
  uw_holds : holds d l now;
  uw_length : length (j_steps (db_journal d)) = length steps;
  uw_row k s r : steps !! k = Some s → j_steps (db_journal d) !! k = Some r →
    row_key r = st_Name s ∧ trim_space (st_Name s) ≠ "" ∧ row_has_compensation r = st_Compensate s ∧
    (needs_compensation r = true →
      (row_action r = action_effect_started → row_action_replay r ≠ replay_never) ∧
      (row_compensation r = comp_compensated ∨ (k < n)%nat ∧ compensable r)) }.

(** The compensations still to run, last step first. *)
Fixpoint unwinding (n : nat) (rows : list StepRow) : list event :=
  match n with
  | O => []
  | S i => (match rows !! i with
            | Some r => if needs_compensation r && negb (is_compensated r) then [EvCompensate i] else []
            | None => []
            end) ++ unwinding i rows
  end.

Lemma unwinding_insert n i r' rows : (n ≤ i)%nat → unwinding n (<[i := r']> rows) = unwinding n rows.
Proof.
  induction n as [|n IH]; intros Hn; [done|]. cbn. rewrite IH by lia. by rewrite list_lookup_insert_ne by lia.
Qed.

Lemma unwind_settled steps l now d : unwind_ok steps l now 0 d → Forall settled_row (j_steps (db_journal d)).
Proof.
  intros [_ Hl Hrow]. apply Forall_lookup. intros k r Hr Hn. pose proof (lookup_lt_Some _ _ _ Hr) as Hlt. rewrite Hl in Hlt.
  apply lookup_lt_is_Some in Hlt as [s Hs]. destruct (Hrow k s r Hs Hr) as (_ & _ & _ & Hc). destruct (Hc Hn) as [_ [?|[? _]]]; [done|lia].
Qed.

Lemma sagaStepAt_snapshot d l now i r name :
  holds d l now → j_steps (db_journal d) !! i = Some r → row_key r = name → sagaStepAt (snapshot_of d) i name = Ok (seen_row r).
Proof.
  intros Hh Hr Hk. unfold sagaStepAt. rewrite (snapshot_reflects (db_journal d)), list_lookup_fmap, Hr. cbn.
  by rewrite Hk, (rows_wf_lookup _ _ _ (proj1 (holds_wf _ _ _ Hh)) Hr), !bool_decide_eq_true_2 by done.
Qed.

(** One iteration that has something to compensate. *)
Lemma iteration_compensates steps v l now d i r step cause rec :
  (∀ k, env_compensate v k = None) → unwind_ok steps l now (S i) d → steps !! i = Some step → j_steps (db_journal d) !! i = Some r →
  needs_compensation r = true → row_compensation r ≠ comp_compensated →
  compensates v l now d i (compensateRecoverable steps (snapshot_of d) (S i) cause rec) (λ sn, compensateRecoverable steps sn i cause).
Proof.
  intros Hv [Hh Hl Hrow] Hs Hr Hn Hnc. destruct (Hrow i step r Hs Hr) as (Hk & Hblank & Hhc & Hc). destruct (Hc Hn) as [Hnev [?|[_ Hcomp]]]; [done|].
  apply andb_true_iff in Hn as [Hhc' Hst]. cbn [compensateRecoverable]. rewrite Hs, (sagaStepAt_snapshot d l now i r) by done.
  cbn [seen_row ss_ActionEffectStarted ss_ActionPhase ss_Plan pl_ActionReplay pl_CompensationReplay ss_CompensationPhase].
  rewrite <- Hhc, Hhc', Hst. cbn [negb orb].
  replace (bool_decide (phaseFromProto (phaseProto_action (row_action r)) = Some PhaseActionEffect) && _) with false.
  2: { symmetry. rewrite andb_false_iff, !bool_decide_eq_false, seen_never. destruct (row_action r); auto; right; auto. }
  rewrite <- Hk in *. destruct Hcomp as (_ & Ha & Hcc).
  destruct (row_compensation r) eqn:Hrc; cbn [phaseProto_compensation phaseFromProto]; try done.
  - apply intent_compensates; try done; [|by left]. unfold compensable. by rewrite Hrc.
  - by apply effect_compensates.
  - rewrite (bool_decide_eq_false_2 (_ = ReplayNever)) by (by rewrite seen_never). by apply run_compensation_compensates.
  - rewrite (bool_decide_eq_false_2 (_ = ReplayNever)) by (by rewrite seen_never). apply intent_compensates; try done; [|by right].
    unfold compensable. by rewrite Hrc.
Qed.

(** An iteration that has nothing to compensate. *)
Lemma iteration_skips steps v l now d i r step cause rec :
  unwind_ok steps l now (S i) d → steps !! i = Some step → j_steps (db_journal d) !! i = Some r →
  needs_compensation r && negb (is_compensated r) = false →
  interp v l now d (compensateRecoverable steps (snapshot_of d) (S i) cause rec)
  = interp v l now d (compensateRecoverable steps (snapshot_of d) i cause rec).
Proof.
  intros [Hh Hl Hrow] Hs Hr Hn. destruct (Hrow i step r Hs Hr) as (Hk & Hblank & Hhc & Hc).
  cbn [compensateRecoverable]. rewrite Hs, (sagaStepAt_snapshot d l now i r) by done.
  cbn [seen_row ss_ActionEffectStarted ss_ActionPhase ss_Plan pl_ActionReplay pl_CompensationReplay ss_CompensationPhase].
  destruct (needs_compensation r) eqn:Hneeds.
  - cbn in Hn. apply negb_false_iff, bool_decide_eq_true in Hn. destruct (Hc eq_refl) as [Hnev _].
    unfold needs_compensation in Hneeds. rewrite <- Hhc. apply andb_true_iff in Hneeds as [-> ->]. cbn [negb orb].
    replace (bool_decide (phaseFromProto (phaseProto_action (row_action r)) = Some PhaseActionEffect) && _) with false.
    2: { symmetry. rewrite andb_false_iff, !bool_decide_eq_false, seen_never. destruct (row_action r); auto; right; auto. }
    by rewrite Hn.
  - unfold needs_compensation in Hneeds. rewrite <- Hhc, <- negb_andb, Hneeds. done.
Qed.

Lemma unwind_completes steps v l now cause n : ∀ d rec,
  (∀ k, env_compensate v k = None) → (n ≤ length steps)%nat → unwind_ok steps l now n d →
  ∃ d' rec', interp v l now d (compensateRecoverable steps (snapshot_of d) n cause rec)
             = (d', unwinding n (j_steps (db_journal d)), (Some cause, rec')) ∧
    unwind_ok steps l now 0 d' ∧ sg_cancel (j_saga (db_journal d')) = sg_cancel (j_saga (db_journal d)) ∧
    row_action <$> j_steps (db_journal d') = row_action <$> j_steps (db_journal d) ∧
    (unwinding n (j_steps (db_journal d)) = [] ∧ d' = d ∨
     unwinding n (j_steps (db_journal d)) ≠ [] ∧
     sg_state (j_saga (db_journal d')) = refreshRunSagaState (j_steps (db_journal d')) (sg_cancel (j_saga (db_journal d)))).
Proof.
  induction n as [|i IH]; intros d rec Hv Hle Hok; [exists d, rec; by split_and!; auto|].
  assert (∃ step, steps !! i = Some step) as [step Hs] by (apply lookup_lt_is_Some; lia).
  assert (∃ r, j_steps (db_journal d) !! i = Some r) as [r Hr] by (apply lookup_lt_is_Some; rewrite (uw_length _ _ _ _ _ Hok); lia).
  cbn [unwinding]. rewrite Hr. destruct (needs_compensation r && negb (is_compensated r)) eqn:Hn.
  - apply andb_true_iff in Hn as [Hn Hnc%negb_true_iff%bool_decide_eq_false].
    destruct (iteration_compensates steps v l now d i r step cause rec) as (d1 & r1 & rec1 & Hadv & Hc1 & Hsame & Hi1); try done.
    destruct (Hsame r Hr) as (Hk1 & Ha1 & Hst1 & Hhc1 & Hrp1).
    assert (unwind_ok steps l now i d1) as Hok1.
    { destruct Hok as [Hh Hl Hrow]. split; [apply Hadv|by rewrite (adv_rows _ _ _ _ _ _ Hadv), length_insert|].
      intros k s x Hks. rewrite (adv_rows _ _ _ _ _ _ Hadv). destruct (decide (k = i)) as [->|Hne].
      - rewrite list_lookup_insert_eq by (by eapply lookup_lt_Some). intros [= <-]. rewrite Hs in Hks. injection Hks as <-.
        destruct (Hrow i step r Hs Hr) as (? & ? & ? & Hneed). split_and!; [congruence|done|congruence|]. intros _.
        split; [|by left]. rewrite Ha1, Hrp1. by apply Hneed.
      - rewrite list_lookup_insert_ne by done. intros Hx. destruct (Hrow k s x Hks Hx) as (? & ? & ? & Hneed). split_and!; try done.
        intros Hnx. destruct (Hneed Hnx) as [? [?|[? ?]]]; (split; [done|]); [by left|right; split; [lia|done]]. }
    destruct (IH d1 rec1 Hv ltac:(lia) Hok1) as (d' & rec' & Hi & Hok' & Hcan & Hact & Hor).
    exists d', rec'. rewrite Hi1, Hi, (adv_rows _ _ _ _ _ _ Hadv), unwinding_insert by lia. split_and!; try done.
    + by rewrite Hcan, (adv_cancel _ _ _ _ _ _ Hadv).
    + rewrite Hact, (adv_rows _ _ _ _ _ _ Hadv), list_fmap_insert, Ha1. apply list_insert_id. by rewrite list_lookup_fmap, Hr.
    + right. split; [done|]. destruct Hor as [[_ ->]|[_ Hst]]; [by apply Hadv|]. by rewrite Hst, (adv_cancel _ _ _ _ _ _ Hadv).
  - rewrite (iteration_skips steps v l now d i r step) by done. apply (IH d rec Hv ltac:(lia)).
    destruct Hok as [Hh Hl Hrow]. split; try done. intros k s x Hks Hx. destruct (Hrow k s x Hks Hx) as (? & ? & ? & Hneed). split_and!; try done.
    intros Hnx. destruct (Hneed Hnx) as [? [?|[? Hcp]]]; (split; [done|]); [by left|].
    destruct (decide (k = i)) as [->|]; [|right; split; [lia|done]]. rewrite Hr in Hx. injection Hx as <-.
    rewrite Hnx in Hn. cbn in Hn. apply negb_false_iff, bool_decide_eq_true in Hn. by left.
Qed.

Lemma refresh_settled rows cancel :
  Forall settled_row rows → cancel = true ∨ action_failed ∈ (row_action <$> rows) → refreshRunSagaState rows cancel = SAGA_compensated.
Proof.
  rewrite Forall_forall. intros Hset Hwhy. unfold refreshRunSagaState.
  assert (forallb (λ r, negb (needs_compensation r) || is_compensated r) rows = true) as ->.
  { apply forallb_forall. intros r Hr%list_elem_of_In. destruct (needs_compensation r) eqn:E; [|done]. cbn. apply bool_decide_eq_true. by apply Hset. }
  rewrite orb_true_r, !andb_true_r. destruct cancel; [done|]. destruct Hwhy as [?|(r & Hr & Hin)%list_elem_of_fmap]; [done|].
  replace (existsb _ rows) with true; [done|]. symmetry. apply existsb_exists. exists r. rewrite <- list_elem_of_In. split; [done|].
  by apply bool_decide_eq_true.
Qed.

(** When a step has failed or a cancellation was asked for, and no replay is
    forbidden, the executor runs exactly the missing compensations of the started steps, from
    the last to the first, and returns the cause; if there was one to run, the saga is then
    compensated and the run can be settled, as cancelled or failed. *)
Theorem compensation_settles steps v l now cause n d rec :
  (∀ k, env_compensate v k = None) → (n ≤ length steps)%nat → unwind_ok steps l now n d →
  sg_cancel (j_saga (db_journal d)) = true ∨ action_failed ∈ (row_action <$> j_steps (db_journal d)) →
  ∃ d' rec', interp v l now d (compensateRecoverable steps (snapshot_of d) n cause rec)
             = (d', unwinding n (j_steps (db_journal d)), (Some cause, rec')) ∧
    Forall settled_row (j_steps (db_journal d')) ∧
    (unwinding n (j_steps (db_journal d)) ≠ [] →
     sg_state (j_saga (db_journal d')) = SAGA_compensated ∧ is_ok (FailWork d' l now (Ok tt)) = true).
Proof.
  intros Hv Hle Hok Hwhy. destruct (unwind_completes steps v l now cause n d rec Hv Hle Hok) as (d' & rec' & Hi & Hok' & Hcan & Hact & Hor).
  pose proof (unwind_settled _ _ _ _ Hok') as Hset. exists d', rec'. split_and!; [done..|]. intros Hne.
  destruct Hor as [[? _]|[_ Hst]]; [done|]. rewrite refresh_settled in Hst; [|done|by rewrite Hact].
  split; [done|]. destruct (uw_holds _ _ _ _ _ Hok') as [_ Hlive Hdl Hb _]. unfold FailWork, ensureRunSagaTerminal.
  rewrite Hdl, Hlive, Hst, (bool_decide_eq_false_2 (sg_plan_digest _ = _)) by done. by destruct (db_investigation d').
Qed.

(** A cancelled saga whose started steps have no compensation left to run (none
    has one, say) is never settled: every execution returns without writing the journal,
    whose state stays cancelling, and [FailWork] is refused each time. *)
Theorem cancelling_without_compensation_stuck steps sandbox lim h v l now plan d :
  buildSagaPlan steps = Ok plan → names_ok steps → steps ≠ [] → (length steps ≤ 128)%nat →
  unwind_ok steps l now (length steps) d → sg_plan_digest (j_saga (db_journal d)) = pl_PlanDigest plan →
  sg_cancel (j_saga (db_journal d)) = true → sg_state (j_saga (db_journal d)) = SAGA_cancelling →
  unwinding (length steps) (j_steps (db_journal d)) = [] → (∀ k, env_compensate v k = None) → db_investigation d = false →
  (∃ rec, interp v l now d (ExecuteRecoverable steps sandbox lim h) = (d, [], (Some "context canceled", rec))) ∧
  is_ok (FailWork d l now (Ok tt)) = false ∧ is_ok (CompleteWork d l now (Ok tt)) = false.
Proof.
  intros Hp Hn Hne Hl Hok Hb Hc Hst Hun Hv Hkind.
  destruct (unwind_completes steps v l now "context canceled" (length steps) d [] Hv ltac:(lia) Hok) as (d' & rec' & Hi & _ & _ & _ & Hor).
  destruct (uw_holds _ _ _ _ _ Hok) as [_ Hlive Hdl _ Hk]. split.
  - exists rec'. unfold ExecuteRecoverable. rewrite Hp. cbn [interp]. unfold ReportProgress. rewrite Hlive, (rebind steps plan) by done.
    cbn [result_bind]. replace (with_journal d (db_journal d)) with d by (by destruct d). change (SagaSnapshotFromProto _) with (snapshot_of d).
    cbn [sn_PlanDigest sn_State sn_CancelRequested snapshot_of SagaSnapshotFromProto loadRunSagaSnapshot rs_PlanDigest rs_State rs_CancelRequested].
    rewrite Hb, (bool_decide_eq_true_2 (pl_PlanDigest plan = _)), (bool_decide_eq_false_2 (sg_state _ = _)), Hc by done.
    destruct Hor as [[_ ->]|[? _]]; [|done]. by rewrite Hun in Hi.
  - unfold FailWork, CompleteWork, ensureRunSagaTerminal. rewrite Hdl, Hlive, Hkind, Hst. done.
Qed.

(** *** From executions to reachable states *)

Lemma reach_step w w' : reachable w → step w w' → reachable w'.
Proof. intros (w0 & Hi & Hs) H. exists w0. split; [done|]. by eapply rtc_r. Qed.

(** The world in which the holder of [l] has run to its end. *)
Definition after (v : env) (l : lease) (now : time) (w : world) (p : prog) : world :=
  let x := interp v l now (w_db w) p in
  mkWorld x.1.1 (<[l_epoch l := (l, Ret x.2)]> (w_execs w)) (w_log w ++ x.1.2) now.

Lemma reach_execution v l now w steps sandbox lim h :
  reachable w → w_now w = now → l_epoch l <=? db_epoch (w_db w) = true → w_execs w !! l_epoch l = None →
  reachable (after v l now w (ExecuteRecoverable steps sandbox lim h)).
Proof.
  destruct w as [d ex log now']. intros Hr E He%Z.leb_le Hnone. cbn in E, He, Hnone. subst now'. set (p := ExecuteRecoverable _ _ _ _).
  assert (reachable (mkWorld d (<[l_epoch l := (l, p)]> ex) log now)) as (w0 & Hw0 & Hs).
  { eapply reach_step; [done|]. by eapply step_start. }
  exists w0. split; [done|]. etrans; [done|]. unfold after. cbn. destruct (interp v l now d p) as [[d' evs] o] eqn:Hi. cbn.
  rewrite <- (insert_insert_eq ex _ (l, Ret o) (l, p)). eapply interp_steps; [done|]. apply lookup_insert_eq.
Qed.

Lemma world_eta w : w = mkWorld (w_db w) (w_execs w) (w_log w) (w_now w).
Proof. by destruct w. Qed.

(** A worker takes the lease at time [now]. *)
Definition leased (w : world) (worker id : string) (now : time) : world * lease :=
  match tryLeaseWork (w_db w) worker id now with
  | Some (d, l) => (mkWorld d (w_execs w) (w_log w) now, l)
  | None => (w, mkLease "" "" 0)
  end.

Lemma reach_lease w worker id now :
  reachable w → w_now w <=? now = true → db_epoch (w_db w) <? 2 ^ 63 - 1 = true → reachable (leased w worker id now).1.
Proof.
  destruct w as [d ex log now']. intros Hr Hle%Z.leb_le He%Z.ltb_lt. unfold leased. cbn in *.
  destruct (tryLeaseWork d worker id now) as [[d' l]|] eqn:E; [|done].
  eapply reach_step; [|by eapply step_lease]. eapply reach_step; [done|]. by apply step_time.
Qed.

(** The database after a list of worker calls; refused ones change nothing. *)
Definition feed (l : lease) (now : time) (d : run_db) (cs : list saga_call) : run_db :=
  foldl (λ d c, match ReportProgress d l now c with Ok (d', _) => d' | Err _ => d end) d cs.

Lemma feed_wf l now cs : ∀ d, db_wf d → db_wf (feed l now d cs).
Proof.
  induction cs as [|c cs IH]; intros d Hwf; [done|]. apply IH. destruct (ReportProgress d l now c) as [[d' sn]|] eqn:E; [|done].
  by apply (report_le _ _ _ _ _ _ Hwf E).
Qed.

End Runs.


(** ** Concrete runs *)
Module Demo.

#[local] Existing Instance toy_crypto.
Definition json : SagaJSON := {|
  json_plan version steps := version +:+ join "," (ds_step_key <$> steps);
  json_guard dangerous fail mem sandbox lim := if dangerous then "dangerous" else "plain" |}.
#[local] Existing Instance json.

(** The steps of cmd/yufeng-run. *)
Definition steps : list Step :=
  [mkStep "prepare" false false ReplaySafe ReplayIdempotent None 0 true true;
   mkStep "apply" false false ReplayNever ReplayIdempotent None 0 true false;
   mkStep "verify" false false ReplaySafe (ReplayOther "") None 0 false true].
Definition nolim : ResourceLimit := mkResourceLimit 0 0 0.
Definition start : prog := ExecuteRecoverable steps false nolim ∅.
Definition plan : SagaPlan := match buildSagaPlan steps with Ok p => p | Err _ => mkSagaPlan "" [] "" end.
Definition healthy : env := mkEnv (λ _, None) (λ _, None) (λ _, None).

Definition world0 : world := mkWorld (fresh_db None false) ∅ [] 0.
Definition world1 : world := (leased world0 "worker" "lease-1" 0).1.
Definition l1 : lease := (leased world0 "worker" "lease-1" 0).2.
Definition d1 : run_db := w_db world1.

(** The context of the first executor ends once [prepare] is done. *)
Definition interrupted : env :=
  mkEnv (λ d, match j_steps (db_journal d) with
              | r :: _ => if bool_decide (row_action r = action_succeeded) then Some "context canceled" else None
              | [] => None
              end) (λ _, None) (λ _, None).
Definition world2 : world := after interrupted l1 0 world1 start.
Definition later : time := 16 * Minute.
Definition world3 : world := (leased world2 "worker" "lease-2" later).1.
Definition l2 : lease := (leased world2 "worker" "lease-2" later).2.
Definition world4 : world := after healthy l2 later world3 start.
Definition world5 : world :=
  match CompleteWork (w_db world4) l2 (w_now world4) (Ok tt) with
  | Ok d => mkWorld d (w_execs world4) (w_log world4) (w_now world4)
  | Err _ => world4
  end.

Lemma world1_reachable : reachable world1.
Proof. apply reach_lease; [|done..]. exists world0. split; [by exists None, false, 0|done]. Qed.

Lemma world5_reachable : reachable world5.
Proof.
  assert (reachable world2) as H2 by (apply reach_execution; [exact world1_reachable|vm_compute; reflexivity..]).
  assert (reachable world3) as H3 by (apply reach_lease; [exact H2|vm_compute; reflexivity..]).
  assert (reachable world4) as H4 by (apply reach_execution; [exact H3|vm_compute; reflexivity..]).
  unfold world5. destruct (CompleteWork _ _ _ _) as [d|] eqn:E; [|exact H4]. eapply reach_step; [exact H4|].
  rewrite (world_eta world4) at 1. by apply step_complete with l2 (Ok tt).
Qed.

(** A step that must not be replayed. *)
Definition once : list Step := [mkStep "apply" false false ReplayNever ReplayNever None 0 true true].
Definition world_once : world := after healthy l1 0 world1 (ExecuteRecoverable once false nolim ∅).

Lemma world_once_reachable : reachable world_once.
Proof. apply reach_execution; [exact world1_reachable|vm_compute; reflexivity..]. Qed.

(** Journals in the middle of a run. *)
Definition act (i : nat) (name : string) (p : SagaPhase) (err : string) : saga_call := CallRecord (receipt i name p "" "" err).
Definition bound : run_db := feed l1 0 d1 [CallBind plan; act 0 "prepare" PhaseActionIntent ""; act 0 "prepare" PhaseActionEffect ""].
Definition failed : run_db :=
  feed l1 0 bound [act 0 "prepare" PhaseActionSucceeded ""; act 1 "apply" PhaseActionIntent ""; act 1 "apply" PhaseActionEffect "";
                   act 1 "apply" PhaseActionFailed "boom"].

Definition check_only : list Step := [mkStep "verify" false false ReplaySafe ReplaySafe None 0 false true].
Definition check_plan : SagaPlan := match buildSagaPlan check_only with Ok p => p | Err _ => plan end.
Definition cancelled : run_db :=
  match CancelRun (feed l1 0 d1 [CallBind check_plan; act 0 "verify" PhaseActionIntent ""; act 0 "verify" PhaseActionEffect ""]) false with
  | Ok d => d
  | Err _ => d1
  end.

Lemma d1_wf : db_wf d1.
Proof. split; [split; [vm_compute; lia|done]|done]. Qed.

(** Cancelling a run whose outcome was just recorded as unknown hides that outcome, and the
    run can no longer be settled. *)
Definition once_plan : SagaPlan := match buildSagaPlan once with Ok p => p | Err _ => plan end.
Definition unknown_outcome : run_db :=
  feed l1 0 d1 [CallBind once_plan; act 0 "apply" PhaseActionIntent ""; act 0 "apply" PhaseActionEffect ""; act 0 "apply" PhaseOutcomeUnknown "lost"].
Definition hidden : run_db := match CancelRun unknown_outcome false with Ok d => d | Err _ => d1 end.
Example cancel_hides_unknown_outcome :
  sg_state (j_saga (db_journal unknown_outcome)) = SAGA_outcome_unknown ∧ is_ok (FailWork unknown_outcome l1 0 (Ok tt)) = true ∧
  sg_state (j_saga (db_journal hidden)) = SAGA_cancelling ∧ is_ok (FailWork hidden l1 0 (Ok tt)) = false ∧
  interp healthy l1 0 hidden (ExecuteRecoverable once false nolim ∅) = (hidden, [], (Some "record compensation intent", [])).
Proof. vm_compute. done. Qed.

(** A guard that fails once the effect of a step is under way leaves that step out of the
    compensation, which the next execution then runs out of order. *)
Definition pair : list Step :=
  [mkStep "a" false false ReplaySafe ReplaySafe None 0 true true; mkStep "b" false false ReplaySafe ReplaySafe (Some 0%nat) 0 true true].
Definition pair_plan : SagaPlan := match buildSagaPlan pair with Ok p => p | Err _ => plan end.
Definition half_done : run_db :=
  feed l1 0 d1 [CallBind pair_plan; act 0 "a" PhaseActionIntent ""; act 0 "a" PhaseActionEffect ""; act 0 "a" PhaseActionSucceeded "";
                act 1 "b" PhaseActionIntent ""; act 1 "b" PhaseActionEffect ""].
Definition exhausted := interp healthy l1 0 half_done (ExecuteRecoverable pair false nolim (<[0%nat := 0]> ∅)).
Example compensation_out_of_order :
  exhausted.1.2 = [EvCompensate 0] ∧
  (interp healthy l1 0 exhausted.1.1 (ExecuteRecoverable pair false nolim (<[0%nat := 0]> ∅))).1.2 = [EvCompensate 1].
Proof. vm_compute. done. Qed.

Lemma cancel_wf d m d' : db_wf d → CancelRun d m = Ok d' → db_wf d'.
Proof. intros [Hwf Hnil] [Hr Hd _ _]%cancel_same. unfold db_wf. by rewrite Hr, Hd. Qed.

Lemma cancelled_wf : db_wf cancelled.
Proof.
  unfold cancelled. destruct (CancelRun _ _) as [d|] eqn:E; [|exact d1_wf]. eapply cancel_wf; [|exact E]. apply feed_wf, d1_wf.
Qed.

End Demo.

(** A run can end as succeeded with a step undone.  The steps are those of
    cmd/yufeng-run: the context of the first executor ends after [prepare] succeeded, which
    compensates [prepare] but records no failure; the next lease holder skips [prepare], whose
    action phase is still succeeded, finishes the other steps, and the run is completed. *)
Theorem interrupted_run_succeeds_undone :
  ∃ w r, reachable (C := toy_crypto) (J := Demo.json) w ∧ db_run (w_db w) = RUN_succeeded ∧ w_rows w !! 0%nat = Some r ∧
    row_key r = "prepare" ∧ row_compensation r = comp_compensated ∧ w_log w = [EvAction 0; EvCompensate 0; EvAction 2].
Proof.
  exists Demo.world5. eexists. split_and!; [exact Demo.world5_reachable|vm_compute; reflexivity..].
Qed.

(** ** The theorems at concrete runs *)

Lemma never_replay_runs_once_witness :
  (occ (EvAction 0) (w_log Demo.world_once) ≤ 1)%nat ∧ EvAction 0 ∈ w_log Demo.world_once.
Proof.
  split; [|vm_compute; left].
  eapply (never_replay_runs_once (C := toy_crypto) (J := Demo.json) Demo.world_once 0).
  - exact Demo.world_once_reachable.
  - vm_compute. reflexivity.
  - vm_compute. reflexivity.
Defined.

Lemma runs_end_settled_witness : all_succeeded (w_rows Demo.world5).
Proof.
  apply (runs_end_settled (C := toy_crypto) (J := Demo.json) Demo.world5).
  - exact Demo.world5_reachable.
  - vm_compute. reflexivity.
  - vm_compute. reflexivity.
Defined.

Lemma plan_binds_witness :
  ∃ j', bindRunSaga (C := toy_crypto) (J := Demo.json) (db_journal Demo.d1) (SagaPlanToProto Demo.plan) = Ok (j', loadRunSagaSnapshot j') ∧
        sg_state (j_saga j') = SAGA_running.
Proof.
  destruct (plan_binds (C := toy_crypto) (J := Demo.json) Demo.steps Demo.plan (db_journal Demo.d1)) as (j' & Hb & Hs & _).
  - vm_compute. reflexivity.
  - repeat constructor; vm_compute; congruence.
  - vm_compute. congruence.
  - vm_compute. lia.
  - vm_compute. reflexivity.
  - vm_compute. reflexivity.
  - exists j'. split; [exact Hb|exact Hs].
Defined.

Lemma recovery_completes_witness :
  ∃ d' rec, interp (C := toy_crypto) (J := Demo.json) Demo.healthy Demo.l1 0 Demo.bound Demo.start
              = (d', [EvAction 0; EvAction 2], (None, rec)) ∧ sg_state (j_saga (db_journal d')) = SAGA_ready.
Proof.
  destruct (recovery_completes (C := toy_crypto) (J := Demo.json) Demo.steps false Demo.nolim ∅ Demo.healthy Demo.l1 0 Demo.plan Demo.bound)
    as (d' & rec & Hi & Hs & _).
  - split; [intros m; apply str_pad_length| |done|done]. intros s Hs. repeat (apply elem_of_cons in Hs as [->|Hs]; [by split_and!; vm_compute|]).
    by apply elem_of_nil in Hs.
  - vm_compute. reflexivity.
  - repeat constructor; vm_compute; congruence.
  - vm_compute. congruence.
  - vm_compute. lia.
  - apply feed_wf, Demo.d1_wf.
  - vm_compute. reflexivity.
  - vm_compute. reflexivity.
  - vm_compute. reflexivity.
  - split; [vm_compute; reflexivity| |vm_compute; congruence|].
    + repeat (apply Forall2_cons_2; [split; [vm_compute; reflexivity|split; [left; vm_compute; reflexivity|by vm_compute]]|]). apply Forall2_nil_2.
    + vm_compute. intros H. apply Forall_cons in H as [[=] _].
  - exists d', rec. split; [exact Hi|exact Hs].
Defined.

Lemma compensation_settles_witness :
  ∃ d' rec, interp (C := toy_crypto) (J := Demo.json) Demo.healthy Demo.l1 0 Demo.failed
              (compensateRecoverable Demo.steps (snapshot_of Demo.failed) 2 "boom" [])
            = (d', [EvCompensate 1; EvCompensate 0], (Some "boom", rec)) ∧ sg_state (j_saga (db_journal d')) = SAGA_compensated.
Proof.
  destruct (compensation_settles (C := toy_crypto) (J := Demo.json) Demo.steps Demo.healthy Demo.l1 0 "boom" 2 Demo.failed [])
    as (d' & rec & Hi & _ & Hs).
  - intros k. reflexivity.
  - vm_compute. lia.
  - split.
    + split; [apply feed_wf, feed_wf, Demo.d1_wf|vm_compute; congruence..].
    + vm_compute. reflexivity.
    + intros k s r Hk Hr. destruct k as [|[|[|k]]]; vm_compute in Hk, Hr; simplify_eq; split_and!; try (by vm_compute); vm_compute.
      * intros _. split; [congruence|right; split; [lia|done]].
      * intros _. split; [congruence|right; split; [lia|done]].
  - right. vm_compute. right. left.
  - exists d', rec. split; [exact Hi|apply Hs]. vm_compute. congruence.
Defined.

Lemma cancelling_without_compensation_stuck_witness :
  is_ok (FailWork Demo.cancelled Demo.l1 0 (Ok tt)) = false ∧ sg_state (j_saga (db_journal Demo.cancelled)) = SAGA_cancelling.
Proof.
  split; [|vm_compute; reflexivity].
  eapply (cancelling_without_compensation_stuck (C := toy_crypto) (J := Demo.json) Demo.check_only false Demo.nolim ∅ Demo.healthy Demo.l1 0
    Demo.check_plan Demo.cancelled).
  - vm_compute. reflexivity.
  - repeat constructor; vm_compute; congruence.
  - vm_compute. congruence.
  - vm_compute. lia.
  - split.
    + split; [exact Demo.cancelled_wf|vm_compute; congruence..].
    + vm_compute. reflexivity.
    + intros k s r Hk Hr. destruct k as [|k]; vm_compute in Hk, Hr; simplify_eq; split_and!; try (by vm_compute); vm_compute; congruence.
  - vm_compute. reflexivity.
  - vm_compute. reflexivity.
  - vm_compute. reflexivity.
  - vm_compute. reflexivity.
  - intros k. reflexivity.
  - vm_compute. reflexivity.
Defined.
