(* ===== verification/RunBudget.v ===== *)
(** * Run budgets

    [lib/brain/run_budget.go]: a ledger of accounts, one per run, and of reservations against
    them.  Each function is one transaction on two tables; the constraints of the tables
    (migration 00030) are checked by [check_account] and [check_reservation] on every write,
    and a failed one undoes the transaction.  Sums computed in Go wrap at 64 bits, sums
    computed by the database fail instead.  New identifiers and the clock are arguments; a
    time that goes through the database keeps its microseconds only. *)

From S2P Require Import Prelude GoStrings.

Record runBudgetAmount := mkAmount {
  Steps : Z; ModelCalls : Z; InputTokens : Z; OutputTokens : Z; ToolCalls : Z; ToolResultBytes : Z; CostMicrounits : Z }.

Inductive budget_state := BUDGET_active | BUDGET_completed | BUDGET_failed | BUDGET_cancelled | BUDGET_expired | BUDGET_outcome_unknown.
Inductive reservation_kind := KIND_step | KIND_model | KIND_tool.
Inductive reservation_state := RES_reserved | RES_settled | RES_outcome_unknown.

Record runBudgetAccount := mkBudget {
  b_RunID : string; b_State : budget_state; Limit : runBudgetAmount; Used : runBudgetAmount; Reserved : runBudgetAmount;
  MaxActiveMillis : Z; ActiveMillisUsed : Z; ActiveStartedAt : option time; ExecutionDeadline : time }.

Record reservation := mkReservation {
  rv_budget : string; rv_kind : reservation_kind; rv_key : string; rv_state : reservation_state; rv_amount : runBudgetAmount;
  rv_actual : runBudgetAmount }.

Record ledger := mkLedger { accounts : gmap string runBudgetAccount; reservations : gmap string reservation }.

#[global] Instance runBudgetAmount_eq_dec : EqDecision runBudgetAmount. Proof. solve_decision. Defined.
#[global] Instance budget_state_eq_dec : EqDecision budget_state. Proof. solve_decision. Defined.
#[global] Instance reservation_kind_eq_dec : EqDecision reservation_kind. Proof. solve_decision. Defined.
#[global] Instance reservation_state_eq_dec : EqDecision reservation_state. Proof. solve_decision. Defined.

Definition zero_amount : runBudgetAmount := mkAmount 0 0 0 0 0 0 0.

(** ** Amounts *)

Definition validRunBudgetAmount (a : runBudgetAmount) : bool :=
  (0 <=? Steps a) && (0 <=? ModelCalls a) && (0 <=? InputTokens a) && (0 <=? OutputTokens a) && (0 <=? ToolCalls a)
  && (0 <=? ToolResultBytes a) && (0 <=? CostMicrounits a).

Definition addRunBudgetAmount (a b : runBudgetAmount) : runBudgetAmount :=
  mkAmount (i64 (Steps a + Steps b)) (i64 (ModelCalls a + ModelCalls b)) (i64 (InputTokens a + InputTokens b))
    (i64 (OutputTokens a + OutputTokens b)) (i64 (ToolCalls a + ToolCalls b)) (i64 (ToolResultBytes a + ToolResultBytes b))
    (i64 (CostMicrounits a + CostMicrounits b)).

Definition runBudgetAmountWithin (actual reserved : runBudgetAmount) : bool :=
  (Steps actual <=? Steps reserved) && (ModelCalls actual <=? ModelCalls reserved) && (InputTokens actual <=? InputTokens reserved)
  && (OutputTokens actual <=? OutputTokens reserved) && (ToolCalls actual <=? ToolCalls reserved)
  && (ToolResultBytes actual <=? ToolResultBytes reserved) && (CostMicrounits actual <=? CostMicrounits reserved).

Definition runBudgetFits (limit consumed requested : runBudgetAmount) : bool :=
  runBudgetAmountWithin (addRunBudgetAmount consumed requested) limit.

(** Sums and differences in the database are exact. *)
Definition sql_add (a b : runBudgetAmount) : runBudgetAmount :=
  mkAmount (Steps a + Steps b) (ModelCalls a + ModelCalls b) (InputTokens a + InputTokens b) (OutputTokens a + OutputTokens b)
    (ToolCalls a + ToolCalls b) (ToolResultBytes a + ToolResultBytes b) (CostMicrounits a + CostMicrounits b).
Definition sql_sub (a b : runBudgetAmount) : runBudgetAmount :=
  mkAmount (Steps a - Steps b) (ModelCalls a - ModelCalls b) (InputTokens a - InputTokens b) (OutputTokens a - OutputTokens b)
    (ToolCalls a - ToolCalls b) (ToolResultBytes a - ToolResultBytes b) (CostMicrounits a - CostMicrounits b).

(** ** The constraints of the tables *)

Definition check_account (a : runBudgetAccount) : bool :=
  validRunBudgetAmount (Used a) && validRunBudgetAmount (Reserved a) && (0 <=? ActiveMillisUsed a)
  && runBudgetAmountWithin (sql_add (Used a) (Reserved a)) (Limit a).

Definition check_reservation (r : reservation) : bool :=
  validRunBudgetAmount (rv_amount r) && validRunBudgetAmount (rv_actual r) && runBudgetAmountWithin (rv_actual r) (rv_amount r).

Definition write_account (l : ledger) (id : string) (a : runBudgetAccount) : result ledger :=
  guard! check_account a else "run_budget_accounts: check constraint" in
  Ok (mkLedger (<[id := a]> (accounts l)) (reservations l)).

(** ** Operations *)

Definition RunModelInputTokensPerCall : Z := 2 ^ 20 / 4.
Definition ChatCompleteMaxTokens : Z := 1024.
Definition RunToolResultBytesPerCall : Z := 2 ^ 20.
Definition RunModelCostMicrounitsPerCall : Z := 1000000.

Definition milliseconds (d : duration) : Z := go_div d Millisecond.

Definition currentActiveMillis (a : runBudgetAccount) (now : time) : Z :=
  match ActiveStartedAt a with
  | Some s => if time_after now s then i64 (ActiveMillisUsed a + milliseconds (time_sub now s)) else ActiveMillisUsed a
  | None => ActiveMillisUsed a
  end.

(** A [timestamptz] column has microsecond resolution. *)
Definition pg_time (t : time) : time := t / Microsecond * Microsecond.

Definition lockRunBudgetAccount (l : ledger) (budgetID : string) : option runBudgetAccount := accounts l !! budgetID.

(** [runs] tells which rows of the table of runs exist. *)
Definition createRunBudgetAccount (runs : string → bool) (l : ledger) (budgetID runID : string) (calls : Z) (ttl : duration) (now : time)
    : result (ledger * time) :=
  guard! (0 <? calls) && (0 <? ttl) else "run budget limits are invalid" in
  let limit := mkAmount calls calls (i64 (calls * RunModelInputTokensPerCall)) (i64 (calls * ChatCompleteMaxTokens)) calls
                 (i64 (calls * RunToolResultBytesPerCall)) (i64 (calls * RunModelCostMicrounitsPerCall)) in
  let positive := (0 <? Steps limit) && (0 <? ModelCalls limit) && (0 <? InputTokens limit) && (0 <? OutputTokens limit)
                  && (0 <? ToolCalls limit) && (0 <? ToolResultBytes limit) && (0 <? CostMicrounits limit) && (0 <? milliseconds ttl) in
  guard! positive else "run_budget_accounts: check constraint" in
  guard! runs runID else "run_budget_accounts: foreign key" in
  guard! bool_decide (map_Forall (λ _ a, b_RunID a ≠ runID) (accounts l)) else "run_budget_accounts: duplicate run" in
  match accounts l !! budgetID with
  | Some _ => Err "run_budget_accounts: duplicate key"
  | None =>
      let a := mkBudget runID BUDGET_active limit zero_amount zero_amount (milliseconds ttl) 0 None (pg_time (now + ttl)) in
      let! l' := write_account l budgetID a in
      Ok (l', now + ttl)
  end.

(** The reservation of an account for a request; there is at most one. *)
Definition find_reservation (l : ledger) (budgetID : string) (kind : reservation_kind) (key : string) : option (string * reservation) :=
  head (map_to_list (filter (λ p : string * reservation, rv_budget p.2 = budgetID ∧ rv_kind p.2 = kind ∧ rv_key p.2 = key) (reservations l))).

(** The clock of the active time is restarted by every reservation and settlement. *)
Definition tick (a : runBudgetAccount) (now : time) (used reserved : runBudgetAmount) : runBudgetAccount :=
  mkBudget (b_RunID a) (b_State a) (Limit a) used reserved (MaxActiveMillis a) (currentActiveMillis a now)
    (match ActiveStartedAt a with Some _ => Some (pg_time now) | None => None end) (ExecutionDeadline a).

Definition has_time (a : runBudgetAccount) (now : time) : bool :=
  bool_decide (b_State a = BUDGET_active) && time_before now (ExecutionDeadline a) && (currentActiveMillis a now <? MaxActiveMillis a).

Definition reserveRunBudget (l : ledger) (budgetID : string) (kind : reservation_kind) (requestKey : string) (amount : runBudgetAmount)
    (now : time) (newid : string) : result (ledger * string) :=
  if bool_decide (budgetID = "") || bool_decide (requestKey = "") then Ok (l, EmptyString) else
  guard! validRunBudgetAmount amount else "run budget reservation is invalid" in
  match lockRunBudgetAccount l budgetID with
  | None => Ok (l, EmptyString)
  | Some account =>
      match find_reservation l budgetID kind requestKey with
      | Some (id, existing) =>
          guard! bool_decide (rv_amount existing = amount) else "run budget reservation changed" in
          Ok (l, id)
      | None =>
          guard! has_time account now && runBudgetFits (Limit account) (addRunBudgetAmount (Used account) (Reserved account)) amount
            else "run budget exhausted or expired" in
          guard! bool_decide (reservations l !! newid = None) else "run_budget_reservations: duplicate key" in
          let r := mkReservation budgetID kind requestKey RES_reserved amount zero_amount in
          guard! check_reservation r else "run_budget_reservations: check constraint" in
          let! l' := write_account (mkLedger (accounts l) (<[newid := r]> (reservations l))) budgetID
                       (tick account now (Used account) (sql_add (Reserved account) amount)) in
          Ok (l', newid)
      end
  end.

Definition settleRunBudget (l : ledger) (reservationID : string) (state : reservation_state) (actual : runBudgetAmount) (now : time)
    : result ledger :=
  if bool_decide (reservationID = "") then Ok l else
  guard! bool_decide (state = RES_settled) || bool_decide (state = RES_outcome_unknown) else "run budget settlement state is invalid" in
  guard! validRunBudgetAmount actual else "run budget settlement is invalid" in
  match reservations l !! reservationID with
  | None => Err "no rows"
  | Some r =>
      match lockRunBudgetAccount l (rv_budget r) with
      | None => Err "no rows"
      | Some account =>
          if negb (bool_decide (rv_state r = RES_reserved)) then
            guard! bool_decide (rv_state r = state) && bool_decide (rv_actual r = actual) else "run budget settlement changed" in
            Ok l
          else
            guard! runBudgetAmountWithin actual (rv_amount r) else "run budget settlement exceeds reservation" in
            let r' := mkReservation (rv_budget r) (rv_kind r) (rv_key r) state (rv_amount r) actual in
            guard! check_reservation r' else "run_budget_reservations: check constraint" in
            write_account (mkLedger (accounts l) (<[reservationID := r']> (reservations l))) (rv_budget r)
              (tick account now (sql_add (Used account) actual) (sql_sub (Reserved account) (rv_amount r)))
      end
  end.

Definition settleRunBudgetFull (l : ledger) (reservationID : string) (state : reservation_state) (now : time) : result ledger :=
  if bool_decide (reservationID = "") then Ok l else
  match reservations l !! reservationID with
  | None => Err "no rows"
  | Some r => settleRunBudget l reservationID state (rv_amount r) now
  end.

Definition settleRunBudgetByKey (l : ledger) (budgetID : string) (kind : reservation_kind) (requestKey : string)
    (state : reservation_state) (actual : runBudgetAmount) (now : time) : result ledger :=
  if bool_decide (budgetID = "") then Ok l else
  match find_reservation l budgetID kind requestKey with
  | None => Ok l
  | Some (id, _) => settleRunBudget l id state actual now
  end.

(** The UPDATE of the open reservations of a closed account. *)
Definition close_reservation (budgetID : string) (r : reservation) : reservation :=
  if bool_decide (rv_budget r = budgetID) && bool_decide (rv_state r = RES_reserved)
  then mkReservation (rv_budget r) (rv_kind r) (rv_key r) RES_outcome_unknown (rv_amount r) (rv_amount r)
  else r.

Definition closeRunBudget (l : ledger) (budgetID : string) (state : budget_state) (requireSettled : bool) (now : time) : result ledger :=
  if bool_decide (budgetID = "") then Ok l else
  match lockRunBudgetAccount l budgetID with
  | None => Ok l
  | Some account =>
      let open := negb (bool_decide (Reserved account = zero_amount)) in
      guard! negb (requireSettled && open) else "run has unsettled budget reservations" in
      let rs := if negb requireSettled && open then close_reservation budgetID <$> reservations l else reservations l in
      write_account (mkLedger (accounts l) rs) budgetID
        (mkBudget (b_RunID account) state (Limit account) (sql_add (Used account) (Reserved account)) zero_amount (MaxActiveMillis account)
           (currentActiveMillis account now) None (ExecutionDeadline account))
  end.

Definition startRunBudgetActive (l : ledger) (budgetID : string) (now : time) : result ledger :=
  match lockRunBudgetAccount l budgetID with
  | None => Ok l
  | Some a =>
      guard! has_time a now else "run budget exhausted or expired" in
      write_account l budgetID (mkBudget (b_RunID a) (b_State a) (Limit a) (Used a) (Reserved a) (MaxActiveMillis a)
        (currentActiveMillis a now) (Some (pg_time now)) (ExecutionDeadline a))
  end.

Definition stopRunBudgetActive (l : ledger) (budgetID : string) (now : time) : result ledger :=
  match lockRunBudgetAccount l budgetID with
  | None => Ok l
  | Some a =>
      write_account l budgetID (mkBudget (b_RunID a) (b_State a) (Limit a) (Used a) (Reserved a) (MaxActiveMillis a)
        (currentActiveMillis a now) None (ExecutionDeadline a))
  end.

(** ** Snapshots *)

Record RunBudgetSnapshot := mkSnapshot {
  sn_BudgetId : string; sn_State : budget_state; sn_Limits : runBudgetAmount; sn_MaxActiveMilliseconds : Z; sn_Used : runBudgetAmount;
  sn_Reserved : runBudgetAmount; sn_ActiveMillisecondsUsed : Z; sn_ExecutionDeadline : time }.

Definition snapshot (budgetID : string) (a : runBudgetAccount) (active : Z) : RunBudgetSnapshot :=
  mkSnapshot budgetID (b_State a) (Limit a) (MaxActiveMillis a) (Used a) (Reserved a) active (ExecutionDeadline a).

Definition loadRunBudgetSnapshot (l : ledger) (budgetID : string) (now : time) : option RunBudgetSnapshot :=
  if bool_decide (budgetID = "") then None else
  match accounts l !! budgetID with
  | None => None
  | Some a => Some (snapshot budgetID a (currentActiveMillis a now))
  end.

Definition loadRunBudgetForRun (l : ledger) (runID : string) (now : time) : option RunBudgetSnapshot :=
  match head (map_to_list (filter (λ p : string * runBudgetAccount, b_RunID p.2 = runID) (accounts l))) with
  | None => None
  | Some (id, _) => loadRunBudgetSnapshot l id now
  end.

(** ** The seven dimensions of an amount *)

Inductive dim := D_steps | D_model | D_in | D_out | D_tool | D_bytes | D_cost.

Definition get (d : dim) (a : runBudgetAmount) : Z :=
  match d with
  | D_steps => Steps a | D_model => ModelCalls a | D_in => InputTokens a | D_out => OutputTokens a | D_tool => ToolCalls a
  | D_bytes => ToolResultBytes a | D_cost => CostMicrounits a
  end.

Lemma amount_ext a b : (∀ d, get d a = get d b) → a = b.
Proof.
  intros H. destruct a, b. pose proof (H D_steps). pose proof (H D_model). pose proof (H D_in). pose proof (H D_out).
  pose proof (H D_tool). pose proof (H D_bytes). pose proof (H D_cost). by simplify_eq/=.
Qed.

Lemma within_iff a b : runBudgetAmountWithin a b = true ↔ ∀ d, get d a ≤ get d b.
Proof.
  unfold runBudgetAmountWithin. breflect. split; [intros H []; simpl; tauto|]. intros H.
  split_and!; [apply (H D_steps)|apply (H D_model)|apply (H D_in)|apply (H D_out)|apply (H D_tool)|apply (H D_bytes)|apply (H D_cost)].
Qed.

Lemma valid_iff a : validRunBudgetAmount a = true ↔ ∀ d, 0 ≤ get d a.
Proof.
  unfold validRunBudgetAmount. breflect. split; [intros H []; simpl; tauto|]. intros H.
  split_and!; [apply (H D_steps)|apply (H D_model)|apply (H D_in)|apply (H D_out)|apply (H D_tool)|apply (H D_bytes)|apply (H D_cost)].
Qed.

Lemma get_add d a b : get d (sql_add a b) = get d a + get d b.
Proof. by destruct d. Qed.
Lemma get_sub d a b : get d (sql_sub a b) = get d a - get d b.
Proof. by destruct d. Qed.
Lemma get_go_add d a b : get d (addRunBudgetAmount a b) = i64 (get d a + get d b).
Proof. by destruct d. Qed.
Lemma get_zero d : get d zero_amount = 0.
Proof. by destruct d. Qed.

(** ** Consistent ledgers *)

Definition is_open (id : string) (r : reservation) : bool := bool_decide (rv_budget r = id) && bool_decide (rv_state r = RES_reserved).
Definition is_charged (id : string) (r : reservation) : bool :=
  bool_decide (rv_budget r = id) && negb (bool_decide (rv_state r = RES_reserved)).
Definition open_amount (d : dim) (id : string) (r : reservation) : Z := if is_open id r then get d (rv_amount r) else 0.
Definition spent (d : dim) (id : string) (r : reservation) : Z := if is_charged id r then get d (rv_actual r) else 0.

Record account_ok (l : ledger) (id : string) (a : runBudgetAccount) : Prop := {
  aok_bounds d : 0 ≤ get d (Used a) ∧ 0 ≤ get d (Reserved a) ∧ get d (Used a) + get d (Reserved a) ≤ get d (Limit a) < 2 ^ 63;
  aok_reserved d : get d (Reserved a) = map_sum (open_amount d id) (reservations l);
  aok_used d : get d (Used a) = map_sum (spent d id) (reservations l);
  aok_closed : b_State a ≠ BUDGET_active → Reserved a = zero_amount }.

Record reservation_ok (l : ledger) (rid : string) (r : reservation) : Prop := {
  rok_check : check_reservation r = true;
  rok_account : is_Some (accounts l !! rv_budget r) }.

Record ledger_ok (l : ledger) : Prop := {
  lok_account id a : accounts l !! id = Some a → account_ok l id a;
  lok_reservation rid r : reservations l !! rid = Some r → reservation_ok l rid r;
  lok_unique i j r q : reservations l !! i = Some r → reservations l !! j = Some q → rv_budget r = rv_budget q → rv_kind r = rv_kind q →
    rv_key r = rv_key q → i = j }.

Lemma open_spent_other d i j r : rv_budget r = i → i ≠ j → open_amount d j r = 0 ∧ spent d j r = 0.
Proof. intros <- Hne. unfold open_amount, spent, is_open, is_charged. by rewrite bool_decide_eq_false_2. Qed.

(** Writing back an account whose sums match the reservations keeps a ledger consistent. *)
Lemma write_preserves l rs id a a' l' :
  ledger_ok l → accounts l !! id = Some a → write_account (mkLedger (accounts l) rs) id a' = Ok l' → Limit a' = Limit a →
  (∀ j d, j ≠ id → map_sum (open_amount d j) rs = map_sum (open_amount d j) (reservations l)
                   ∧ map_sum (spent d j) rs = map_sum (spent d j) (reservations l)) →
  (∀ d, get d (Reserved a') = map_sum (open_amount d id) rs ∧ get d (Used a') = map_sum (spent d id) rs) →
  (b_State a' ≠ BUDGET_active → Reserved a' = zero_amount) →
  (∀ rid r, rs !! rid = Some r → check_reservation r = true ∧ is_Some (accounts l !! rv_budget r)) →
  (∀ i j r q, rs !! i = Some r → rs !! j = Some q → rv_budget r = rv_budget q → rv_kind r = rv_kind q → rv_key r = rv_key q → i = j) →
  ledger_ok l'.
Proof.
  intros Hl Ha Hw Hlim Hothers Hsums Hclosed Hres Huniq. unfold write_account in Hw. destruct (check_account a') eqn:Hc; [|done].
  simplify_eq/=. unfold check_account in Hc. breflect. destruct Hc as [[[Hu Hr] _] Hin].
  rewrite valid_iff in Hu. rewrite valid_iff in Hr. rewrite within_iff in Hin.
  split; simpl; [|intros rid r Hrid|done].
  - intros j b. rewrite lookup_insert_Some. intros [[<- <-]|[Hne Hb]].
    + split; simpl; [intros d|intros d; apply Hsums..|done]. specialize (Hin d). rewrite get_add in Hin.
      pose proof (aok_bounds _ _ _ (lok_account _ Hl _ _ Ha) d). rewrite Hlim in *. specialize (Hu d). specialize (Hr d). lia.
    + pose proof (lok_account _ Hl _ _ Hb) as [Hbd Hre Hus Hcl].
      split; simpl; [done|intros d; rewrite Hre|intros d; rewrite Hus|done]; destruct (Hothers j d); congruence.
  - destruct (Hres _ _ Hrid) as [? Hacc]. split; [done|]. simpl. rewrite lookup_insert_is_Some. destruct (decide (id = rv_budget r)); auto.
Qed.

(** Changing only the state, the clock and the deadline of an account. *)
Lemma touch_preserves l id a a' l' :
  ledger_ok l → accounts l !! id = Some a → write_account l id a' = Ok l' → Limit a' = Limit a → Used a' = Used a →
  Reserved a' = Reserved a → b_State a' = b_State a → ledger_ok l'.
Proof.
  intros Hl Ha Hw Hlim Hu Hr Hs. pose proof (lok_account _ Hl _ _ Ha) as Ho. destruct l as [acc rs].
  refine (write_preserves (mkLedger acc rs) rs id a a' l' Hl Ha Hw Hlim _ _ _ _ _); simpl.
  - done.
  - intros d. rewrite Hu, Hr. split; [apply (aok_reserved _ _ _ Ho)|apply (aok_used _ _ _ Ho)].
  - rewrite Hs, Hr. apply (aok_closed _ _ _ Ho).
  - intros rid r Hrid. split; [apply (rok_check _ _ _ (lok_reservation _ Hl _ _ Hrid))|apply (rok_account _ _ _ (lok_reservation _ Hl _ _ Hrid))].
  - apply (lok_unique _ Hl).
Qed.

Lemma find_reservation_Some l b k key id r :
  find_reservation l b k key = Some (id, r) → reservations l !! id = Some r ∧ rv_budget r = b ∧ rv_kind r = k ∧ rv_key r = key.
Proof.
  unfold find_reservation. intros H%head_Some_elem_of%elem_of_map_to_list. by apply map_lookup_filter_Some in H.
Qed.

Lemma find_reservation_None l b k key i r :
  find_reservation l b k key = None → reservations l !! i = Some r → rv_budget r = b → rv_kind r = k → rv_key r ≠ key.
Proof.
  unfold find_reservation. intros H Hi Hb Hk Hkey. destruct (map_to_list _) as [|x ls] eqn:E; [|done].
  apply map_to_list_empty_iff in E. pose proof (map_filter_empty_not_lookup _ _ i r E) as Hno. by apply Hno.
Qed.

Lemma find_reservation_known l b k key id r :
  ledger_ok l → reservations l !! id = Some r → rv_budget r = b → rv_kind r = k → rv_key r = key →
  find_reservation l b k key = Some (id, r).
Proof.
  intros Hl Hid Hb Hk Hkey. destruct (find_reservation l b k key) as [[j q]|] eqn:E.
  - apply find_reservation_Some in E as (Hj & <- & <- & <-). pose proof (lok_unique _ Hl _ _ _ _ Hid Hj Hb Hk Hkey). congruence.
  - by destruct (find_reservation_None _ _ _ _ _ _ E Hid Hb Hk).
Qed.

Lemma create_ok runs l b run calls ttl now l' dl :
  in_s 64 calls → ledger_ok l → createRunBudgetAccount runs l b run calls ttl now = Ok (l', dl) → ledger_ok l'.
Proof.
  intros Hcalls Hl H. unfold createRunBudgetAccount in H. branch_in H. apply result_bind_Ok in H as (l1 & Hw & [= <- <-]).
  unfold write_account in Hw. branch_in Hw. injection Hw as <-.
  assert (∀ i r, reservations l !! i = Some r → rv_budget r ≠ b) as Hnone.
  { intros i r Hi <-. destruct (rok_account _ _ _ (lok_reservation _ Hl _ _ Hi)). congruence. }
  split; simpl; [|intros rid r Hrid|apply (lok_unique _ Hl)].
  - intros j a'. rewrite lookup_insert_Some. intros [[<- <-]|[Hne Hj]].
    + split; simpl; [|intros d; rewrite get_zero; symmetry; apply map_sum_zero..|done].
      * intros d. rewrite get_zero. unfold check_account in *. breflect. destruct_and?. assert (∀ x, i64 x < 2 ^ 63) as Hi.
        { intros x. unfold wrap_s. pose proof (Z.mod_pos_bound (x + 2 ^ (64 - 1)) (2 ^ 64)). lia. }
        destruct Hcalls as [_ Hcalls]. change (2 ^ (64 - 1)) with (2 ^ 63) in *.
        destruct d; simpl in *; rewrite ?get_zero; match goal with |- context [i64 ?x] => specialize (Hi x) | _ => idtac end; lia.
      * intros i r Hi. apply (open_spent_other d (rv_budget r)); [done|]. by eapply Hnone.
      * intros i r Hi. apply (open_spent_other d (rv_budget r)); [done|]. by eapply Hnone.
    + destruct (lok_account _ Hl _ _ Hj). by split.
  - destruct (lok_reservation _ Hl _ _ Hrid) as [? Ha]. split; [done|]. simpl. rewrite lookup_insert_is_Some.
    destruct (decide (b = rv_budget r)); auto.
Qed.

Lemma reserve_ok l b k key amount now newid l' id :
  ledger_ok l → reserveRunBudget l b k key amount now newid = Ok (l', id) → ledger_ok l'.
Proof.
  intros Hl H. unfold reserveRunBudget, lockRunBudgetAccount in H. destruct (_ || _); [by simplify_eq|].
  destruct (validRunBudgetAmount amount) eqn:Hv; [|done]. destruct (accounts l !! b) as [a|] eqn:Ha; [|by simplify_eq].
  destruct (find_reservation l b k key) as [[??]|] eqn:Hf; [by branch_in H; simplify_eq|].
  destruct (has_time a now) eqn:Ht; [simpl in H|done]. destruct (runBudgetFits _ _ _); [|done].
  case_bool_decide as Hnew; [|done]. destruct (check_reservation _) eqn:Hc; [|done].
  apply result_bind_Ok in H as (l1 & Hw & [= <- <-]). pose proof (lok_account _ Hl _ _ Ha) as Ho.
  refine (write_preserves _ _ _ _ _ _ Hl Ha Hw eq_refl _ _ _ _ _); simpl.
  - intros j d Hne. rewrite !map_sum_insert by done. by destruct (open_spent_other d b j (mkReservation b k key RES_reserved amount zero_amount)) as [-> ->].
  - intros d. rewrite !map_sum_insert, get_add, (aok_reserved _ _ _ Ho d), (aok_used _ _ _ Ho d) by done.
    unfold open_amount, spent, is_open, is_charged; simpl. rewrite bool_decide_eq_true_2 by done. simpl. lia.
  - unfold has_time in Ht. breflect. rewrite bool_decide_eq_true in Ht. tauto.
  - intros rid r. rewrite lookup_insert_Some. intros [[<- <-]|[_ Hr]]; [split; [done|by exists a]|]. by destruct (lok_reservation _ Hl _ _ Hr).
  - intros i j r q. rewrite !lookup_insert_Some. intros [[<- <-]|[Hi Hr]] [[<- <-]|[Hj Hq]]; simpl; intros; [done| | |by eapply (lok_unique _ Hl)].
    + by destruct (find_reservation_None l b k key j q Hf Hq).
    + by destruct (find_reservation_None l b k key i r Hf Hr).
Qed.

Lemma settle_ok l rid st actual now l' : ledger_ok l → settleRunBudget l rid st actual now = Ok l' → ledger_ok l'.
Proof.
  intros Hl H. unfold settleRunBudget, lockRunBudgetAccount in H. destruct (bool_decide (rid = _)); [by simplify_eq|].
  destruct (_ || _) eqn:Hst; [|done]. destruct (validRunBudgetAmount actual) eqn:Hv; [|done].
  destruct (reservations l !! rid) as [r|] eqn:Hr; [|done]. destruct (accounts l !! rv_budget r) as [a|] eqn:Ha; [|done].
  case_bool_decide as Hs; simpl in H; [|by destruct (_ && _); simplify_eq].
  destruct (runBudgetAmountWithin _ _); [|done]. destruct (check_reservation _) eqn:Hc; [|done].
  pose proof (lok_account _ Hl _ _ Ha) as Ho. assert (st ≠ RES_reserved) as Hne by (intros ->; done).
  refine (write_preserves _ _ _ _ _ _ Hl Ha H eq_refl _ _ _ _ _); simpl.
  - intros j d Hj. rewrite !(map_sum_update _ _ _ _ _ Hr). destruct (open_spent_other d (rv_budget r) j r) as [-> ->]; [done..|].
    destruct (open_spent_other d (rv_budget r) j (mkReservation (rv_budget r) (rv_kind r) (rv_key r) st (rv_amount r) actual)) as [-> ->]; [done..|]. lia.
  - intros d. rewrite !(map_sum_update _ _ _ _ _ Hr), get_add, get_sub, (aok_reserved _ _ _ Ho d), (aok_used _ _ _ Ho d).
    unfold open_amount, spent, is_open, is_charged; simpl. rewrite !(bool_decide_eq_true_2 (rv_budget r = _)), Hs by done.
    rewrite (bool_decide_eq_false_2 (st = _)) by done. simpl. lia.
  - intros Hna. pose proof (aok_closed _ _ _ Ho Hna) as Hz. apply amount_ext. intros d. rewrite get_sub, Hz, get_zero.
    assert (0 ≤ get d (rv_amount r) ≤ get d (Reserved a)) as Hb; [|rewrite Hz, get_zero in Hb; lia].
    assert (∀ i q, reservations l !! i = Some q → 0 ≤ open_amount d (rv_budget r) q) as Hpos.
    { intros i q Hq. pose proof (rok_check _ _ _ (lok_reservation _ Hl _ _ Hq)) as Hcq. unfold check_reservation in Hcq. breflect.
      destruct Hcq as [[Hcq _] _]. rewrite valid_iff in Hcq. unfold open_amount. destruct (is_open _ _); [apply Hcq|done]. }
    assert (open_amount d (rv_budget r) r = get d (rv_amount r)) as <-.
    { unfold open_amount, is_open. by rewrite Hs, !bool_decide_eq_true_2. }
    split; [by eapply Hpos|]. rewrite (aok_reserved _ _ _ Ho d). by apply (map_sum_ge _ _ rid).
  - intros i q. rewrite lookup_insert_Some. intros [[<- <-]|[_ Hq]]; [split; [done|by exists a]|]. by destruct (lok_reservation _ Hl _ _ Hq).
  - intros i j q q'. rewrite !lookup_insert_Some. intros [[<- <-]|[Hi Hq]] [[<- <-]|[Hj Hq']]; simpl; intros; try done;
      by eapply (lok_unique _ Hl).
Qed.

Lemma close_reservation_key b r :
  rv_budget (close_reservation b r) = rv_budget r ∧ rv_kind (close_reservation b r) = rv_kind r ∧ rv_key (close_reservation b r) = rv_key r
  ∧ rv_amount (close_reservation b r) = rv_amount r.
Proof. unfold close_reservation. by case_match. Qed.

Lemma close_reservation_check b r : check_reservation r = true → check_reservation (close_reservation b r) = true.
Proof.
  unfold close_reservation. case_match; [|done]. unfold check_reservation. simpl. rewrite !andb_true_iff, !within_iff.
  intros [[? _] _]. split_and!; done.
Qed.

Lemma close_reservation_sums d b j r :
  open_amount d j (close_reservation b r) = (if decide (j = b) then 0 else open_amount d j r)
  ∧ spent d j (close_reservation b r) = (if decide (j = b) then spent d j r + open_amount d j r else spent d j r).
Proof.
  unfold close_reservation, open_amount, spent, is_open, is_charged.
  destruct (decide (j = b)) as [->|Hne]; repeat (case_bool_decide; simpl); simplify_eq; try done; lia.
Qed.

Lemma close_ok l b st req now l' : ledger_ok l → closeRunBudget l b st req now = Ok l' → ledger_ok l'.
Proof.
  intros Hl H. unfold closeRunBudget, lockRunBudgetAccount in H. destruct (bool_decide (b = _)); [by simplify_eq|].
  destruct (accounts l !! b) as [a|] eqn:Ha; [|by simplify_eq]. pose proof (lok_account _ Hl _ _ Ha) as Ho.
  match type of H with context [mkLedger _ ?x] => set (rs := x) in H end. destruct (negb (req && _)) eqn:Hreq; [|done].
  assert (rs = close_reservation b <$> reservations l ∨ rs = reservations l ∧ Reserved a = zero_amount) as Hrs.
  { subst rs. case_bool_decide; destruct req; simpl in *; auto; discriminate. }
  clearbody rs. refine (write_preserves _ _ _ _ _ _ Hl Ha H eq_refl _ _ _ _ _); simpl.
  - intros j d Hj. destruct Hrs as [->|[-> _]]; [|done]. rewrite !map_sum_fmap.
    split; apply map_sum_ext; intros i r _; destruct (close_reservation_sums d b j r) as [E1 E2]; by rewrite decide_False in E1, E2.
  - intros d. rewrite get_zero, get_add, (aok_reserved _ _ _ Ho d), (aok_used _ _ _ Ho d). destruct Hrs as [->|[-> Hz]].
    + rewrite !map_sum_fmap, <- map_sum_add. split.
      * symmetry. apply map_sum_zero. intros i r _. destruct (close_reservation_sums d b b r) as [E1 _]. by rewrite decide_True in E1.
      * apply map_sum_ext. intros i r _. destruct (close_reservation_sums d b b r) as [_ E2]. by rewrite decide_True in E2.
    + rewrite <- (aok_reserved _ _ _ Ho d), Hz, get_zero. lia.
  - done.
  - intros i r Hi. destruct Hrs as [->|[-> _]]; [|by destruct (lok_reservation _ Hl _ _ Hi)].
    apply lookup_fmap_Some in Hi as (q & <- & Hi). destruct (lok_reservation _ Hl _ _ Hi). destruct (close_reservation_key b q) as (-> & _).
    split; [by apply close_reservation_check|done].
  - intros i j r q Hi Hj. destruct Hrs as [->|[-> _]]; [|by apply (lok_unique _ Hl)].
    apply lookup_fmap_Some in Hi as (r' & <- & Hi), Hj as (q' & <- & Hj).
    destruct (close_reservation_key b r') as (-> & -> & -> & _), (close_reservation_key b q') as (-> & -> & -> & _). by apply (lok_unique _ Hl).
Qed.

(** ** Histories *)

Inductive op :=
  | OpCreate (budgetID runID : string) (calls : Z) (ttl : duration)
  | OpReserve (budgetID : string) (kind : reservation_kind) (key : string) (amount : runBudgetAmount) (newid : string)
  | OpSettle (rid : string) (state : reservation_state) (actual : runBudgetAmount)
  | OpSettleFull (rid : string) (state : reservation_state)
  | OpSettleByKey (budgetID : string) (kind : reservation_kind) (key : string) (state : reservation_state) (actual : runBudgetAmount)
  | OpClose (budgetID : string) (state : budget_state) (requireSettled : bool)
  | OpStart (budgetID : string)
  | OpStop (budgetID : string).

Definition exec (runs : string → bool) (l : ledger) (now : time) (o : op) : result ledger :=
  match o with
  | OpCreate b r calls ttl => let! p := createRunBudgetAccount runs l b r calls ttl now in Ok (fst p)
  | OpReserve b k key amount newid => let! p := reserveRunBudget l b k key amount now newid in Ok (fst p)
  | OpSettle rid st actual => settleRunBudget l rid st actual now
  | OpSettleFull rid st => settleRunBudgetFull l rid st now
  | OpSettleByKey b k key st actual => settleRunBudgetByKey l b k key st actual now
  | OpClose b st req => closeRunBudget l b st req now
  | OpStart b => startRunBudgetActive l b now
  | OpStop b => stopRunBudgetActive l b now
  end.

(** Integers that fit their Go types. *)
Definition op_typed (o : op) : Prop :=
  match o with
  | OpCreate _ _ calls _ => in_s 64 calls
  | _ => True
  end.

(** [later l l']: [l'] is reached from [l] by successful transactions; a failed one is rolled back. *)
Inductive later : ledger → ledger → Prop :=
  | later_refl l : later l l
  | later_step l l' l'' runs now o : later l l' → op_typed o → exec runs l' now o = Ok l'' → later l l''.

Definition empty_ledger : ledger := mkLedger ∅ ∅.

Lemma empty_ledger_ok : ledger_ok empty_ledger.
Proof. split; simpl; intros *; by rewrite lookup_empty. Qed.

Lemma settle_full_inv l rid st now l' :
  settleRunBudgetFull l rid st now = Ok l' → l' = l ∨ ∃ actual, settleRunBudget l rid st actual now = Ok l'.
Proof. unfold settleRunBudgetFull. intros H. branch_in H; simplify_eq; eauto. Qed.

Lemma settle_by_key_inv l b k key st actual now l' :
  settleRunBudgetByKey l b k key st actual now = Ok l' → l' = l ∨ ∃ rid, settleRunBudget l rid st actual now = Ok l'.
Proof. unfold settleRunBudgetByKey. intros H. branch_in H; simplify_eq; eauto. Qed.

Lemma budget_exec_ok runs l now o l' : op_typed o → ledger_ok l → exec runs l now o = Ok l' → ledger_ok l'.
Proof.
  intros Ht Hl H. destruct o; simpl in *.
  - apply result_bind_Ok in H as ([l1 dl] & H & [= <-]). by eapply create_ok.
  - apply result_bind_Ok in H as ([l1 dl] & H & [= <-]). by eapply reserve_ok.
  - by eapply settle_ok.
  - apply settle_full_inv in H as [->|[? ?]]; [done|by eapply settle_ok].
  - apply settle_by_key_inv in H as [->|[? ?]]; [done|by eapply settle_ok].
  - by eapply close_ok.
  - unfold startRunBudgetActive, lockRunBudgetAccount in H. destruct (accounts l !! budgetID) eqn:Ha; [|by simplify_eq].
    destruct (has_time _ _); [|done]. by eapply touch_preserves.
  - unfold stopRunBudgetActive, lockRunBudgetAccount in H. destruct (accounts l !! budgetID) eqn:Ha; [|by simplify_eq].
    by eapply touch_preserves.
Qed.

Lemma later_ok l l' : later l l' → ledger_ok l → ledger_ok l'.
Proof. induction 1; eauto using budget_exec_ok. Qed.

(** ** What later transactions keep *)

(** A reservation keeps its account, request and amount; once charged it does not change at all. *)
Definition kept (r q : reservation) : Prop :=
  rv_budget q = rv_budget r ∧ rv_kind q = rv_kind r ∧ rv_key q = rv_key r ∧ rv_amount q = rv_amount r ∧ (rv_state r ≠ RES_reserved → q = r).

Lemma kept_refl r : kept r r.
Proof. by repeat split. Qed.

Lemma kept_trans r q s : kept r q → kept q s → kept r s.
Proof. intros (?&?&?&?&Hr) (?&?&?&?&Hq). split_and!; try congruence. intros Hs. specialize (Hr Hs). subst. auto. Qed.

Lemma close_kept b r : kept r (close_reservation b r).
Proof.
  destruct (close_reservation_key b r) as (?&?&?&?). split_and!; auto. unfold close_reservation. intros Hs.
  by rewrite (bool_decide_eq_false_2 (rv_state r = _)), andb_false_r.
Qed.

Lemma write_reservations l id a l' : write_account l id a = Ok l' → reservations l' = reservations l.
Proof. unfold write_account. intros H. branch_in H. by simplify_eq. Qed.

Lemma exec_keeps runs l now o l' i r :
  exec runs l now o = Ok l' → reservations l !! i = Some r → ∃ q, reservations l' !! i = Some q ∧ kept r q.
Proof.
  assert (∀ rid st actual, settleRunBudget l rid st actual now = Ok l' → reservations l !! i = Some r →
            ∃ q, reservations l' !! i = Some q ∧ kept r q) as Hset.
  { intros rid st actual H Hi. unfold settleRunBudget in H. branch_in H; simplify_eq; eauto using kept_refl.
    rewrite (write_reservations _ _ _ _ H). simpl. destruct (decide (rid = i)) as [->|Hne].
    - rewrite lookup_insert_eq. eexists. split; [done|]. simplify_eq. breflect. case_bool_decide; [|done]. by split_and!.
    - rewrite lookup_insert_ne by done. eauto using kept_refl. }
  intros H Hi. destruct o; simpl in H.
  - apply result_bind_Ok in H as ([l1 dl] & H & [= <-]). unfold createRunBudgetAccount in H. branch_in H.
    apply result_bind_Ok in H as (l2 & H & [= <- _]). rewrite (write_reservations _ _ _ _ H). eauto using kept_refl.
  - apply result_bind_Ok in H as ([l1 dl] & H & [= <-]). unfold reserveRunBudget in H. branch_in H; simplify_eq; eauto using kept_refl.
    apply result_bind_Ok in H as (l2 & H & [= <- _]). rewrite (write_reservations _ _ _ _ H). simpl. case_bool_decide; [|done].
    rewrite lookup_insert_ne by congruence. eauto using kept_refl.
  - eauto.
  - apply settle_full_inv in H as [->|[? ?]]; eauto using kept_refl.
  - apply settle_by_key_inv in H as [->|[? ?]]; eauto using kept_refl.
  - unfold closeRunBudget in H. destruct (bool_decide (budgetID = _)); [simplify_eq; eauto using kept_refl|].
    destruct (lockRunBudgetAccount _ _); [|simplify_eq; eauto using kept_refl].
    match type of H with context [mkLedger _ ?x] => set (rs := x) in H end.
    destruct (negb (_ && _)); [|done]. rewrite (write_reservations _ _ _ _ H). simpl. subst rs. destruct (_ && _); [|eauto using kept_refl].
    rewrite lookup_fmap, Hi. eauto using close_kept.
  - unfold startRunBudgetActive in H. branch_in H; simplify_eq; rewrite ?(write_reservations _ _ _ _ H); eauto using kept_refl.
  - unfold stopRunBudgetActive in H. branch_in H; simplify_eq; rewrite ?(write_reservations _ _ _ _ H); eauto using kept_refl.
Qed.

Lemma later_keeps l l' i r : later l l' → reservations l !! i = Some r → ∃ q, reservations l' !! i = Some q ∧ kept r q.
Proof.
  intros H. revert r. induction H as [l|l l1 l2 runs now o H IH Ht Hx]; intros r Hi; [eauto using kept_refl|].
  destruct (IH r Hi) as (q & Hq & Hk). destruct (exec_keeps _ _ _ _ _ _ _ Hx Hq) as (s & Hs & Hk'). eauto using kept_trans.
Qed.

(** ** Theorems *)

Definition reachable_ledger (l : ledger) : Prop := later empty_ledger l.

Lemma reachable_ledger_ok l : reachable_ledger l → ledger_ok l.
Proof. intros H. exact (later_ok _ _ H empty_ledger_ok). Qed.

(** C26: after any history of transactions, in each of the seven dimensions an account has used and reserved
    together at most its limit; what it has reserved is exactly the sum of its open reservations, and what it has used is
    exactly the sum of the actual amounts of the others. *)
Theorem budget_never_overspent l id a :
  reachable_ledger l → accounts l !! id = Some a → ∀ d,
    0 ≤ get d (Used a) ∧ 0 ≤ get d (Reserved a) ∧ get d (Used a) + get d (Reserved a) ≤ get d (Limit a)
    ∧ get d (Reserved a) = map_sum (λ r, if bool_decide (rv_budget r = id) && bool_decide (rv_state r = RES_reserved)
                                         then get d (rv_amount r) else 0) (reservations l)
    ∧ get d (Used a) = map_sum (λ r, if bool_decide (rv_budget r = id) && negb (bool_decide (rv_state r = RES_reserved))
                                     then get d (rv_actual r) else 0) (reservations l).
Proof.
  intros Hl%reachable_ledger_ok Ha d. destruct (lok_account _ Hl _ _ Ha) as [Hb Hr Hu _]. specialize (Hb d).
  split_and!; [lia..|apply Hr|apply Hu].
Qed.

(** The 64-bit test of the code, together with the constraint of the table, is the exact test. *)
Lemma fits_exact l id a amount :
  account_ok l id a → validRunBudgetAmount amount = true →
  runBudgetFits (Limit a) (addRunBudgetAmount (Used a) (Reserved a)) amount
    && runBudgetAmountWithin (sql_add (Used a) (sql_add (Reserved a) amount)) (Limit a)
  = runBudgetAmountWithin (sql_add (sql_add (Used a) (Reserved a)) amount) (Limit a).
Proof.
  intros Ho Hv. rewrite valid_iff in Hv. apply eq_true_iff_eq. unfold runBudgetFits. rewrite andb_true_iff, !within_iff.
  setoid_rewrite get_go_add. setoid_rewrite get_go_add. setoid_rewrite get_add. setoid_rewrite get_add.
  assert (∀ d, i64 (get d (Used a) + get d (Reserved a)) = get d (Used a) + get d (Reserved a)) as Hsmall.
  { intros d. pose proof (aok_bounds _ _ _ Ho d). apply wrap_s_id; unfold in_s; simpl; lia. }
  split; [intros [_ H] d; specialize (H d); lia|]. intros H. split; intros d; specialize (H d); [|lia].
  rewrite Hsmall. pose proof (aok_bounds _ _ _ Ho d). specialize (Hv d). rewrite wrap_s_id; unfold in_s; simpl; lia.
Qed.

(** In every reachable ledger a new request is granted exactly when its account is active, before its deadline,
    has active time left, and the amount fits beside what is used and reserved, although the code adds at 64 bits. *)
Theorem reserve_granted_iff l b k key a amount now newid :
  reachable_ledger l → accounts l !! b = Some a → b ≠ "" → key ≠ "" → validRunBudgetAmount amount = true →
  find_reservation l b k key = None → reservations l !! newid = None →
  is_ok (reserveRunBudget l b k key amount now newid)
  = bool_decide (b_State a = BUDGET_active) && (now <? ExecutionDeadline a) && (currentActiveMillis a now <? MaxActiveMillis a)
    && (0 <=? currentActiveMillis a now) && runBudgetAmountWithin (sql_add (sql_add (Used a) (Reserved a)) amount) (Limit a).
Proof.
  intros Hl%reachable_ledger_ok Ha Hb Hkey Hv Hf Hnew. pose proof (lok_account _ Hl _ _ Ha) as Ho.
  rewrite <- (fits_exact _ _ _ _ Ho Hv). unfold reserveRunBudget, lockRunBudgetAccount.
  rewrite !(bool_decide_eq_false_2 (_ = EmptyString)), Hv, Ha, Hf, (bool_decide_eq_true_2 (_ = None)) by done. simpl.
  unfold has_time, time_before, check_reservation, write_account, check_account. simpl. rewrite Hv.
  assert (validRunBudgetAmount zero_amount = true) as -> by done.
  assert (runBudgetAmountWithin zero_amount amount = true) as ->.
  { rewrite within_iff. intros d. rewrite get_zero. by apply valid_iff. }
  assert (validRunBudgetAmount (Used a) = true) as ->.
  { rewrite valid_iff. intros d. apply (aok_bounds _ _ _ Ho). }
  assert (validRunBudgetAmount (sql_add (Reserved a) amount) = true) as ->.
  { rewrite valid_iff in Hv |- *. intros d. rewrite get_add. pose proof (aok_bounds _ _ _ Ho d). specialize (Hv d). lia. }
  simpl. destruct (bool_decide _ && _ && _); simpl; [|done]. destruct (runBudgetFits _ _ _); simpl; [|by rewrite andb_false_r].
  by destruct (_ && _).
Qed.

(** What a granted request leaves in the ledger. *)
Lemma reserve_granted l b k key amount now newid l1 id :
  reserveRunBudget l b k key amount now newid = Ok (l1, id) → id ≠ "" →
  b ≠ "" ∧ key ≠ "" ∧ validRunBudgetAmount amount = true
  ∧ ∃ r, reservations l1 !! id = Some r ∧ rv_budget r = b ∧ rv_kind r = k ∧ rv_key r = key ∧ rv_amount r = amount.
Proof.
  unfold reserveRunBudget. intros H Hid. destruct (_ || _) eqn:Hne; [simplify_eq|]. breflect. rewrite !bool_decide_eq_false in Hne.
  destruct Hne as [Hb Hkey]. destruct (validRunBudgetAmount amount) eqn:Hv; [|done].
  split_and!; [done..|]. destruct (lockRunBudgetAccount l b) as [acc|]; [|simplify_eq].
  destruct (find_reservation l b k key) as [[j r]|] eqn:Hf.
  - case_bool_decide as Hsame; simplify_eq. apply find_reservation_Some in Hf as (Hj & ? & ? & ?). by exists r.
  - branch_in H. apply result_bind_Ok in H as (l2 & H & [= <- <-]). rewrite (write_reservations _ _ _ _ H). simpl.
    rewrite lookup_insert_eq. by eexists.
Qed.

Lemma settle_charged l id q a st actual now :
  reservations l !! id = Some q → accounts l !! rv_budget q = Some a → id ≠ "" → rv_state q ≠ RES_reserved → st ≠ RES_reserved →
  validRunBudgetAmount actual = true →
  settleRunBudget l id st actual now
  = if bool_decide (rv_state q = st) && bool_decide (rv_actual q = actual) then Ok l else Err "run budget settlement changed".
Proof.
  intros Hq Ha Hid Hs Hst Hv. unfold settleRunBudget, lockRunBudgetAccount.
  rewrite bool_decide_eq_false_2, Hv, Hq, Ha by done. rewrite (bool_decide_eq_false_2 (rv_state q = RES_reserved)) by done.
  by destruct st.
Qed.

(** C27: a request is charged once.  Whatever happens after its reservation was granted, asking again returns the same
    reservation and changes nothing, asking for another amount is refused; once it is settled, the same settlement changes
    nothing and a different one is refused. *)
Theorem request_charged_once l b k key amount now newid l1 id l2 :
  reachable_ledger l → reserveRunBudget l b k key amount now newid = Ok (l1, id) → id ≠ "" → later l1 l2 →
  ∃ q, reservations l2 !! id = Some q ∧ rv_amount q = amount
  ∧ (∀ now' newid', reserveRunBudget l2 b k key amount now' newid' = Ok (l2, id))
  ∧ (∀ other now' newid', validRunBudgetAmount other = true → other ≠ amount →
       reserveRunBudget l2 b k key other now' newid' = Err "run budget reservation changed")
  ∧ (∀ st actual now', rv_state q ≠ RES_reserved → st ≠ RES_reserved → validRunBudgetAmount actual = true →
       settleRunBudget l2 id st actual now'
       = if bool_decide (rv_state q = st) && bool_decide (rv_actual q = actual) then Ok l2 else Err "run budget settlement changed").
Proof.
  intros Hl Hres Hid Hlater. destruct (reserve_granted _ _ _ _ _ _ _ _ _ Hres Hid) as (Hb & Hkey & Hv & r & Hr & Hrb & Hrk & Hrkey & Hra).
  assert (ledger_ok l2) as Hok2.
  { eapply later_ok; [done|]. eapply reserve_ok; [by apply reachable_ledger_ok|done]. }
  destruct (later_keeps _ _ _ _ Hlater Hr) as (q & Hq & Hqb & Hqk & Hqkey & Hqa & _). exists q.
  destruct (rok_account _ _ _ (lok_reservation _ Hok2 _ _ Hq)) as [a Ha].
  assert (find_reservation l2 b k key = Some (id, q)) as Hf by (apply find_reservation_known; congruence).
  rewrite Hqb, Hrb in Ha. split_and!; [done|congruence|..].
  - intros now' newid'. unfold reserveRunBudget, lockRunBudgetAccount. rewrite !(bool_decide_eq_false_2 (_ = EmptyString)), Hv, Ha, Hf by done.
    simpl. by rewrite bool_decide_eq_true_2 by congruence.
  - intros other now' newid' Hvo Hne. unfold reserveRunBudget, lockRunBudgetAccount.
    rewrite !(bool_decide_eq_false_2 (_ = EmptyString)), Hvo, Ha, Hf by done. simpl. by rewrite bool_decide_eq_false_2 by congruence.
  - intros st actual now' Hs Hst Hva. apply (settle_charged _ _ _ a); [done|congruence|done..].
Qed.

(** ** Active time *)

(** What a transaction does to an account: nothing, or it takes over the active time up to now. *)
Definition clock_step (now : time) (a a' : runBudgetAccount) : Prop :=
  MaxActiveMillis a' = MaxActiveMillis a ∧ ExecutionDeadline a' = ExecutionDeadline a
  ∧ (a' = a ∨ ActiveMillisUsed a' = currentActiveMillis a now ∧ 0 ≤ ActiveMillisUsed a'
              ∧ (ActiveStartedAt a' = None ∨ ActiveStartedAt a' = Some (pg_time now))).

Definition clock_ok (a : runBudgetAccount) : Prop :=
  0 ≤ ActiveMillisUsed a ∧ in_s 64 (ActiveMillisUsed a) ∧ ∀ s, ActiveStartedAt a = Some s → pg_time s = s.

Lemma clock_step_refl now a : clock_step now a a.
Proof. by split_and!; auto. Qed.

Lemma tick_step now a u r : 0 ≤ currentActiveMillis a now → clock_step now a (tick a now u r).
Proof. intros. split_and!; [done..|right]. simpl. destruct (ActiveStartedAt a); auto. Qed.

Lemma write_accounts l id a l' :
  write_account l id a = Ok l' → accounts l' = <[id := a]> (accounts l) ∧ 0 ≤ ActiveMillisUsed a.
Proof. unfold write_account, check_account. intros H. branch_in H. breflect. simplify_eq. split; [done|tauto]. Qed.

Lemma write_clock_step l rs b a l' now id c c' :
  accounts l !! b = Some a → write_account (mkLedger (accounts l) rs) b c' = Ok l' → (0 ≤ ActiveMillisUsed c' → clock_step now a c') →
  accounts l !! id = Some c → ∃ a', accounts l' !! id = Some a' ∧ clock_step now c a'.
Proof.
  intros Ha [-> Hpos]%write_accounts Hstep Hc. simpl. destruct (decide (b = id)) as [->|Hne].
  - rewrite lookup_insert_eq. simplify_eq. eauto.
  - rewrite lookup_insert_ne by done. eauto using clock_step_refl.
Qed.

Lemma settle_clock_step l rid st actual now l' id a :
  settleRunBudget l rid st actual now = Ok l' → accounts l !! id = Some a → ∃ a', accounts l' !! id = Some a' ∧ clock_step now a a'.
Proof.
  unfold settleRunBudget, lockRunBudgetAccount. intros H Ha. destruct (bool_decide (rid = _)); [simplify_eq; eauto using clock_step_refl|].
  destruct (_ || _); [|done]. destruct (validRunBudgetAmount _); [|done]. destruct (reservations l !! rid) as [r|]; [|done].
  destruct (accounts l !! rv_budget r) as [c|] eqn:Hc; [|done].
  destruct (negb _); [branch_in H; simplify_eq; eauto using clock_step_refl|]. branch_in H.
  eapply write_clock_step; [exact Hc|exact H|apply tick_step|exact Ha].
Qed.

Lemma exec_clock_step runs l now o l' id a :
  exec runs l now o = Ok l' → accounts l !! id = Some a → ∃ a', accounts l' !! id = Some a' ∧ clock_step now a a'.
Proof.
  intros H Ha. destruct o; simpl in H.
  - apply result_bind_Ok in H as ([l1 dl] & H & [= <-]). unfold createRunBudgetAccount in H. branch_in H.
    apply result_bind_Ok in H as (l2 & [H _]%write_accounts & [= <- _]). simpl. rewrite H, lookup_insert_ne by congruence.
    eauto using clock_step_refl.
  - apply result_bind_Ok in H as ([l1 dl] & H & [= <-]). unfold reserveRunBudget, lockRunBudgetAccount in H.
    destruct (_ || _); [simplify_eq; eauto using clock_step_refl|]. destruct (validRunBudgetAmount _); [|done].
    destruct (accounts l !! budgetID) as [c|] eqn:Hc; [|simplify_eq; eauto using clock_step_refl].
    destruct (find_reservation _ _ _ _) as [[??]|]; [branch_in H; simplify_eq; eauto using clock_step_refl|]. branch_in H.
    apply result_bind_Ok in H as (l2 & H & [= <- _]). eapply write_clock_step; [exact Hc|exact H|apply tick_step|exact Ha].
  - eauto using settle_clock_step.
  - apply settle_full_inv in H as [->|[? ?]]; eauto using settle_clock_step, clock_step_refl.
  - apply settle_by_key_inv in H as [->|[? ?]]; eauto using settle_clock_step, clock_step_refl.
  - unfold closeRunBudget, lockRunBudgetAccount in H. destruct (bool_decide (budgetID = _)); [simplify_eq; eauto using clock_step_refl|].
    destruct (accounts l !! budgetID) as [c|] eqn:Hc; [|simplify_eq; eauto using clock_step_refl]. destruct (negb (_ && _)); [|done].
    eapply write_clock_step; [exact Hc|exact H|by intros ?; split_and!; auto|exact Ha].
  - unfold startRunBudgetActive, lockRunBudgetAccount in H.
    destruct (accounts l !! budgetID) as [c|] eqn:Hc; [|simplify_eq; eauto using clock_step_refl]. destruct (has_time _ _); [|done].
    destruct l. eapply write_clock_step; [exact Hc|exact H|by intros ?; split_and!; auto|exact Ha].
  - unfold stopRunBudgetActive, lockRunBudgetAccount in H.
    destruct (accounts l !! budgetID) as [c|] eqn:Hc; [|simplify_eq; eauto using clock_step_refl].
    destruct l. eapply write_clock_step; [exact Hc|exact H|by intros ?; split_and!; auto|exact Ha].
Qed.

Lemma pg_time_idem t : pg_time (pg_time t) = pg_time t.
Proof. unfold pg_time. by rewrite Z.div_mul. Qed.

Lemma pg_time_bounds t : pg_time t ≤ t < pg_time t + Microsecond.
Proof. unfold pg_time, Microsecond. pose proof (Z.div_mod t 1000). pose proof (Z.mod_pos_bound t 1000). lia. Qed.

(** Only a new account has no predecessor, and its clock stands at zero. *)
Lemma exec_new_account runs l now o l' id a' :
  exec runs l now o = Ok l' → accounts l !! id = None → accounts l' !! id = Some a' → clock_ok a'.
Proof.
  assert (∀ l0 b c c' l1, accounts l0 = accounts l → accounts l !! b = Some c → write_account l0 b c' = Ok l1 → accounts l !! id = None →
            accounts l1 !! id = Some a' → clock_ok a') as Hw.
  { intros l0 b c c' l1 E Hb [-> _]%write_accounts Hn Hs. rewrite E, lookup_insert_ne in Hs; congruence. }
  assert (∀ rid st actual, settleRunBudget l rid st actual now = Ok l' → accounts l !! id = None → accounts l' !! id = Some a' → clock_ok a')
    as Hset.
  { intros rid st actual H Hn Hs. unfold settleRunBudget, lockRunBudgetAccount in H. branch_in H; simplify_eq. eapply Hw; [|done..]. done. }
  intros H Hn Hs. destruct o; simpl in H.
  - apply result_bind_Ok in H as ([l1 dl] & H & [= <-]). unfold createRunBudgetAccount in H. branch_in H.
    apply result_bind_Ok in H as (l2 & [H _]%write_accounts & [= <- _]). simpl in Hs. rewrite H, lookup_insert_Some in Hs.
    destruct Hs as [[_ <-]|[_ ?]]; [|congruence]. by split_and!.
  - apply result_bind_Ok in H as ([l1 dl] & H & [= <-]). unfold reserveRunBudget, lockRunBudgetAccount in H. branch_in H; simplify_eq.
    apply result_bind_Ok in H as (l2 & H & [= <- _]). eapply Hw; [|done..]. done.
  - eauto.
  - apply settle_full_inv in H as [->|[? ?]]; [congruence|eauto].
  - apply settle_by_key_inv in H as [->|[? ?]]; [congruence|eauto].
  - unfold closeRunBudget, lockRunBudgetAccount in H. destruct (bool_decide _); [by simplify_eq|].
    destruct (accounts l !! budgetID) eqn:Hb; [|by simplify_eq]. destruct (negb (_ && _)); [|done]. eapply Hw; [|done..]. done.
  - unfold startRunBudgetActive, lockRunBudgetAccount in H. branch_in H; simplify_eq. by eapply Hw.
  - unfold stopRunBudgetActive, lockRunBudgetAccount in H. branch_in H; simplify_eq. by eapply Hw.
Qed.

Lemma i64_range x : in_s 64 (i64 x).
Proof. unfold in_s, wrap_s. pose proof (Z.mod_pos_bound (x + 2 ^ (64 - 1)) (2 ^ 64)). lia. Qed.

Lemma clock_step_ok now a a' : clock_step now a a' → clock_ok a → clock_ok a'.
Proof.
  intros (_ & _ & [->|(E & Hpos & Hs)]) Ha; [done|]. destruct Ha as (? & Hr & _). split_and!; [done| |].
  - rewrite E. unfold currentActiveMillis. repeat case_match; auto using i64_range.
  - intros s Es. destruct Hs as [Hs|Hs]; rewrite Hs in Es; [done|]. injection Es as <-. apply pg_time_idem.
Qed.

Lemma reachable_clock_ok l id a : reachable_ledger l → accounts l !! id = Some a → clock_ok a.
Proof.
  unfold reachable_ledger. intros H. remember empty_ledger as e eqn:He. revert a.
  induction H as [|l l1 l2 runs now o H IH Ht Hx]; subst; intros a Ha; [by simpl in Ha; rewrite lookup_empty in Ha|].
  destruct (accounts l1 !! id) as [c|] eqn:Hc; [|by eapply exec_new_account].
  destruct (exec_clock_step _ _ _ _ _ _ _ Hx Hc) as (a' & Ha' & Hstep). simplify_eq. eauto using clock_step_ok.
Qed.

(** The milliseconds of a running clock, without the machine arithmetic. *)
Lemma running_millis a s t :
  clock_ok a → ActiveStartedAt a = Some s → s ≤ t → t - s ≤ max_duration → ActiveMillisUsed a + (t - s) / Millisecond < 2 ^ 63 →
  currentActiveMillis a t = ActiveMillisUsed a + (t - s) / Millisecond.
Proof.
  intros (Hpos & Hr & _) Hs Hst Hd Hmax. unfold currentActiveMillis, time_after. rewrite Hs. destruct (Z.ltb_spec s t).
  - unfold milliseconds, time_sub, max_duration, min_duration in *. rewrite Z.min_r, Z.max_r by lia.
    rewrite Z.quot_div_nonneg by (unfold Millisecond; lia). apply wrap_s_id; [lia|]. unfold in_s. simpl.
    assert (0 ≤ (t - s) / Millisecond); [|lia]. apply Z.div_pos; unfold Millisecond; lia.
  - assert (t = s) as -> by lia. rewrite Z.sub_diag, Z.div_0_l by done. lia.
Qed.

(** Splitting a stretch of time at an instant that the database rounds loses at most one millisecond. *)
Lemma split_millis s now t :
  pg_time s = s → s ≤ now ≤ t →
  (t - s) / Millisecond - 1 ≤ (now - s) / Millisecond + (t - pg_time now) / Millisecond ≤ (t - s) / Millisecond.
Proof.
  unfold pg_time, Microsecond, Millisecond. intros Hs H.
  pose proof (Z.div_mod s 1000 ltac:(lia)). pose proof (Z.mod_pos_bound s 1000 ltac:(lia)).
  pose proof (Z.div_mod now 1000 ltac:(lia)). pose proof (Z.mod_pos_bound now 1000 ltac:(lia)).
  Z.div_mod_to_equations. lia.
Qed.

Lemma restart_now now a a' : clock_step now a a' → clock_ok a' → currentActiveMillis a' now = currentActiveMillis a now.
Proof.
  intros (_ & _ & [->|(E & _ & Hs)]) Hok; [done|]. rewrite <- E. destruct Hs as [Hs|Hs]; [by unfold currentActiveMillis; rewrite Hs|].
  pose proof (pg_time_bounds now) as Hb. unfold Microsecond in Hb. assert ((now - pg_time now) / Millisecond = 0) as H0.
  { apply Z.div_small. unfold Millisecond. lia. }
  rewrite (running_millis _ _ _ Hok Hs); rewrite ?H0; destruct Hok as (? & [_ ?] & _); unfold max_duration; simpl in *; lia.
Qed.

(** Active time is never made up or silently dropped: at its own instant a transaction leaves the accounted
    active time of every account as it was, and an account that keeps running loses at most one millisecond, and gains
    none, at any later instant. *)
Theorem active_time_kept runs l now o l' id a :
  reachable_ledger l → exec runs l now o = Ok l' → accounts l !! id = Some a →
  ∃ a', accounts l' !! id = Some a' ∧ MaxActiveMillis a' = MaxActiveMillis a ∧ ExecutionDeadline a' = ExecutionDeadline a
  ∧ currentActiveMillis a' now = currentActiveMillis a now
  ∧ ∀ s t, ActiveStartedAt a = Some s → s ≤ now ≤ t → t - s ≤ max_duration → ActiveMillisUsed a + (t - s) / Millisecond < 2 ^ 63 →
      ActiveStartedAt a' ≠ None → currentActiveMillis a t - 1 ≤ currentActiveMillis a' t ≤ currentActiveMillis a t.
Proof.
  intros Hl Hx Ha. pose proof (reachable_clock_ok _ _ _ Hl Ha) as Hok.
  destruct (exec_clock_step _ _ _ _ _ _ _ Hx Ha) as (a' & Ha' & Hstep). pose proof (clock_step_ok _ _ _ Hstep Hok) as Hok'.
  exists a'. split_and!; [done|apply Hstep|apply Hstep|by apply restart_now|].
  intros s t Hs Hst Hd Hmax Hrun. destruct Hstep as (_ & _ & [->|(E & _ & [Hs'|Hs'])]); [lia|done|].
  pose proof (split_millis s now t (proj2 (proj2 Hok) _ Hs) Hst) as Hsplit. pose proof (pg_time_bounds now) as Hpg.
  assert (0 ≤ (now - s) / Millisecond) by (apply Z.div_pos; unfold Millisecond; lia).
  assert (s ≤ pg_time now). { rewrite <- (proj2 (proj2 Hok) _ Hs). unfold pg_time, Microsecond. apply Z.mul_le_mono_nonneg_r; [lia|]. apply Z.div_le_mono; lia. }
  rewrite (running_millis a s now) in E; [|done|done|lia|lia|].
  2: { pose proof (Z.div_le_mono (now - s) (t - s) Millisecond). unfold Millisecond in *. lia. }
  rewrite (running_millis a s t), (running_millis a' (pg_time now) t); [lia|done|done|lia|lia|lia|done|done|lia|done|done].
Qed.

(** ** A run of three calls *)

Module Demo.

Fixpoint run_ops (l : ledger) (ops : list (time * op)) : result ledger :=
  match ops with
  | [] => Ok l
  | (now, o) :: ops => let! l' := exec (λ _, true) l now o in run_ops l' ops
  end.

Lemma run_ops_later ops : ∀ l0 l l', later l0 l → Forall (λ p, op_typed p.2) ops → run_ops l ops = Ok l' → later l0 l'.
Proof.
  induction ops as [|[now o] ops IH]; intros l0 l l' Hl Ht H; simpl in H; [by simplify_eq|].
  apply result_bind_Ok in H as (l1 & Hx & H). inversion_clear Ht. eapply IH; [|done..]. by eapply later_step.
Qed.

Definition one_call : runBudgetAmount := mkAmount 0 1 100 10 0 0 0.
Definition used_call : runBudgetAmount := mkAmount 0 1 80 5 0 0 0.

Definition prefix : list (time * op) :=
  [(0, OpCreate "b" "run" 3 Minute); (10, OpStart "b"); (20, OpReserve "b" KIND_step "w" (mkAmount 1 0 0 0 0 0 0) "r0")].
Definition suffix : list (time * op) :=
  [(2 * Second + 500, OpReserve "b" KIND_model "m" one_call "r1"); (3 * Second, OpSettle "r1" RES_settled used_call)].

Definition ledger_of (ops : list (time * op)) : ledger := match run_ops empty_ledger ops with Ok l => l | Err _ => empty_ledger end.

Lemma ops_typed : Forall (λ p, op_typed p.2) (prefix ++ suffix).
Proof. repeat apply Forall_cons_2; simpl; try done; unfold in_s; lia. Qed.

Lemma prefix_reachable : reachable_ledger (ledger_of prefix).
Proof. apply (run_ops_later prefix empty_ledger empty_ledger); [constructor|pose proof ops_typed as H; apply Forall_app in H; apply H|vm_compute; reflexivity]. Qed.

Lemma all_reachable : reachable_ledger (ledger_of (prefix ++ suffix)).
Proof. apply (run_ops_later (prefix ++ suffix) empty_ledger empty_ledger); [constructor|apply ops_typed|vm_compute; reflexivity]. Qed.

Definition account_of (l : ledger) : runBudgetAccount :=
  match accounts l !! "b" with Some a => a | None => mkBudget "" BUDGET_active zero_amount zero_amount zero_amount 0 0 None 0 end.

End Demo.

Lemma budget_never_overspent_witness :
  let a := Demo.account_of (Demo.ledger_of (Demo.prefix ++ Demo.suffix)) in
  ModelCalls (Used a) = 1 ∧ Steps (Reserved a) = 1 ∧ get D_model (Used a) + get D_model (Reserved a) ≤ get D_model (Limit a).
Proof.
  split; [vm_compute; reflexivity|]. split; [vm_compute; reflexivity|].
  refine (proj1 (proj2 (proj2 (budget_never_overspent _ "b" _ Demo.all_reachable _ D_model)))). vm_compute. reflexivity.
Defined.

Lemma reserve_granted_iff_witness :
  is_ok (reserveRunBudget (Demo.ledger_of Demo.prefix) "b" KIND_model "m" Demo.one_call (2 * Second) "r1") = true
  ∧ is_ok (reserveRunBudget (Demo.ledger_of Demo.prefix) "b" KIND_model "m" (mkAmount 0 4 0 0 0 0 0) (2 * Second) "r1") = false.
Proof.
  split.
  - rewrite (reserve_granted_iff _ "b" KIND_model "m" (Demo.account_of (Demo.ledger_of Demo.prefix)) _ _ _ Demo.prefix_reachable);
      vm_compute; first [reflexivity|discriminate].
  - rewrite (reserve_granted_iff _ "b" KIND_model "m" (Demo.account_of (Demo.ledger_of Demo.prefix)) _ _ _ Demo.prefix_reachable);
      vm_compute; first [reflexivity|discriminate].
Defined.

Lemma request_charged_once_witness :
  let l := Demo.ledger_of (Demo.prefix ++ [(2 * Second, OpReserve "b" KIND_model "m" Demo.one_call "r1")]) in
  (∃ l1, reserveRunBudget (Demo.ledger_of Demo.prefix) "b" KIND_model "m" Demo.one_call (2 * Second) "r1" = Ok (l1, "r1"))
  ∧ reserveRunBudget l "b" KIND_model "m" Demo.one_call (5 * Second) "r9" = Ok (l, "r1").
Proof.
  split; [eexists; vm_compute; reflexivity|].
  set (l := Demo.ledger_of (Demo.prefix ++ _)).
  destruct (request_charged_once (Demo.ledger_of Demo.prefix) "b" KIND_model "m" Demo.one_call (2 * Second) "r1" l "r1" l Demo.prefix_reachable)
    as (q & _ & _ & Hsame & _); [vm_compute; reflexivity|discriminate|apply later_refl|apply Hsame].
Defined.

Lemma active_time_kept_witness :
  let a := Demo.account_of (Demo.ledger_of Demo.prefix) in
  let t := 3 * Second + 2 * Millisecond in
  ∃ l' a', exec (λ _, true) (Demo.ledger_of Demo.prefix) (2 * Second + 500500000) (OpReserve "b" KIND_model "m" Demo.one_call "r1") = Ok l'
  ∧ accounts l' !! "b" = Some a' ∧ currentActiveMillis a t = 3002 ∧ currentActiveMillis a t - 1 ≤ currentActiveMillis a' t.
Proof.
  set (l := Demo.ledger_of Demo.prefix). set (o := OpReserve "b" KIND_model "m" Demo.one_call "r1").
  assert (∃ l', exec (λ _, true) l (2 * Second + 500500000) o = Ok l') as [l' Hx] by (eexists; vm_compute; reflexivity).
  destruct (active_time_kept (λ _, true) l (2 * Second + 500500000) o l' "b" (Demo.account_of l) Demo.prefix_reachable Hx)
    as (a' & Ha' & _ & _ & _ & Ht); [vm_compute; reflexivity|].
  exists l', a'. split; [exact Hx|]. split; [exact Ha'|]. split; [vm_compute; reflexivity|].
  refine (proj1 (Ht 0 _ _ _ _ _ _)); [vm_compute; reflexivity|split; vm_compute; discriminate|vm_compute; discriminate|vm_compute; reflexivity|].
  assert (accounts l' !! "b" = accounts (match exec (λ _, true) l (2 * Second + 500500000) o with Ok x => x | Err _ => l end) !! "b") as E by (by rewrite Hx).
  rewrite Ha' in E. assert (a' = Demo.account_of (match exec (λ _, true) l (2 * Second + 500500000) o with Ok x => x | Err _ => l end)) as ->.
  { unfold Demo.account_of. by rewrite <- E. }
  vm_compute. discriminate.
Defined.
