(* ===== verification/Spool.v ===== *)
(** * The edge event spool

    [lib/edgeclient/spool.go] and [upload_acknowledgement.go], and the upload loop of
    [cmd/yufeng-edge/brain.go]: events are appended as lines to the segment file of the
    current hour, uploaded, and removed when they are acknowledged; events the server rejects
    for good go to a quarantine file beside the segment.

    The spool directory is a map from file names to contents; the paths of the code are the
    names in it.  A critical section of the code is one function.  Reading the directory or an
    existing file succeeds; a write can stop after any number of bytes, and a rename or a
    removal can fail.  The JSON form of an event is the parameter class [EventWire]. *)

From stdpp Require Import pretty.
From S2P Require Import Prelude GoStrings.

(** ** Events *)

Inductive EventVerdict := VERDICT_UNSPECIFIED | VERDICT_ALLOW | VERDICT_BLOCK | VERDICT_OBSERVE | VERDICT_ESCALATE.
Inductive ObservationState :=
  | OBSERVATION_STATE_UNSPECIFIED | OBSERVATION_STATE_SYNC_DETECTED | OBSERVATION_STATE_SYNC_NO_DETECTION
  | OBSERVATION_STATE_INSPECTION_PARTIAL | OBSERVATION_STATE_INSPECTION_ERROR.

(** The fields the spool reads; [ev_Other] stands for all the others. *)
Record Event := mkEvent {
  ev_Id : string; ev_Verdict : EventVerdict; ev_Detections : list string; ev_WouldHaveBlocked : bool; ev_Observation : ObservationState;
  ev_Other : string }.

#[global] Instance EventVerdict_eq_dec : EqDecision EventVerdict. Proof. solve_decision. Defined.
#[global] Instance ObservationState_eq_dec : EqDecision ObservationState. Proof. solve_decision. Defined.
#[global] Instance Event_eq_dec : EqDecision Event. Proof. solve_decision. Defined.

(** [protojson.Marshal] and [protojson.Unmarshal] on events. *)
Class EventWire := {
  marshal_event : Event → result string;
  unmarshal_event : string → result Event;
}.

(** What the spool relies on: an encoded event is one JSON object on one line and decodes to the event. *)
Class EventWireLaws (W : EventWire) : Prop := {
  wire_object e raw : marshal_event e = Ok raw → ∃ m : string, raw = "{" +:+ m +:+ "}" ∧ str_mem (of_byte 10) raw = false;
  wire_decodes e raw : marshal_event e = Ok raw → unmarshal_event raw = Ok e;
}.

Definition NL : string := String (of_byte 10) "".

Definition defaultSpoolMaxFiles : Z := 64.
Definition EdgeTelemetrySpoolBytes : Z := 64 * 1024 * 1024.
Definition segmentWindow : duration := Hour.

Abbreviation files := (gmap string string).

Record Spool := mkSpool {
  MaxBytes : Z; MaxFiles : Z; sp_Rejected : Z; sp_Dropped : Z; bufferedCritical : Z; bufferedOrdinary : Z; droppedCritical : Z;
  droppedOrdinary : Z }.

(** ** Counting *)

Definition isOrdinarySample (event : option Event) : bool :=
  match event with
  | None => false
  | Some e => bool_decide (ev_Verdict e = VERDICT_ALLOW) && bool_decide (ev_Detections e = []) && negb (ev_WouldHaveBlocked e)
              && bool_decide (ev_Observation e = OBSERVATION_STATE_SYNC_NO_DETECTION)
  end.

Fixpoint eventClassCounts (events : list (option Event)) : Z * Z :=
  match events with
  | [] => (0, 0)
  | event :: events =>
      let '(critical, ordinary) := eventClassCounts events in
      if isOrdinarySample event then (critical, u64 (1 + ordinary))
      else match event with Some _ => (u64 (1 + critical), ordinary) | None => (critical, ordinary) end
  end.

Definition set_buffered (s : Spool) (critical ordinary : Z) : Spool :=
  mkSpool (MaxBytes s) (MaxFiles s) (sp_Rejected s) (sp_Dropped s) critical ordinary (droppedCritical s) (droppedOrdinary s).

Definition add_buffered (s : Spool) (critical ordinary : Z) : Spool :=
  set_buffered s (u64 (bufferedCritical s + critical)) (u64 (bufferedOrdinary s + ordinary)).

Definition removeBuffered (s : Spool) (critical ordinary : Z) : Spool :=
  let critical := if bufferedCritical s <? critical then bufferedCritical s else critical in
  let ordinary := if bufferedOrdinary s <? ordinary then bufferedOrdinary s else ordinary in
  set_buffered s (u64 (bufferedCritical s - critical)) (u64 (bufferedOrdinary s - ordinary)).

Definition ProductionStats (s : option Spool) : Z * Z * Z * Z :=
  match s with
  | None => (0, 0, 0, 0)
  | Some s => (bufferedCritical s, bufferedOrdinary s, droppedCritical s, droppedOrdinary s)
  end.

(** ** Names *)

Definition segment_name (now : time) : string := "events-" +:+ pretty (now - now mod segmentWindow) +:+ ".ndjson".
Definition is_spooled (name : string) : bool := has_prefix name "events-".
Definition is_segment (name : string) : bool := is_spooled name && has_suffix name ".ndjson".
Definition quarantine_name (path : string) : string := trim_suffix path ".ndjson" +:+ ".corrupt".

Definition Files (fs : files) : list string :=
  sort_strings (filter (λ n, is_segment n = true) (map_to_list fs).*1).

Section spool.
Context {W : EventWire}.

(** ** Reading *)

Definition content_lines (raw : string) : list string :=
  filter (λ l, l ≠ EmptyString) (split_byte (of_byte 10) (trim_space raw)).

Fixpoint read_lines (lines : list string) : result (list (option Event)) :=
  match lines with
  | [] => Ok []
  | line :: lines =>
      let! e := unmarshal_event line in
      let! events := read_lines lines in
      Ok (Some e :: events)
  end.

Definition ReadEvents (fs : files) (path : string) : result (list (option Event)) :=
  match fs !! path with
  | None => Err "no such file"
  | Some raw => read_lines (content_lines raw)
  end.

Definition fileClassCounts (fs : files) (path : string) : Z * Z :=
  match fs !! path with
  | None => (0, 0)
  | Some raw =>
      eventClassCounts (omap (λ line, match unmarshal_event line with Ok e => Some (Some e) | Err _ => None end) (content_lines raw))
  end.

Definition count_file (fs : files) (s : Spool) (file : string) : Spool :=
  match ReadEvents fs file with
  | Ok events => let '(critical, ordinary) := eventClassCounts events in add_buffered s critical ordinary
  | Err _ => s
  end.

Definition NewSpool (fs : files) : Spool :=
  foldl (count_file fs) (mkSpool EdgeTelemetrySpoolBytes defaultSpoolMaxFiles 0 0 0 0 0 0) (Files fs).

(** ** Writing *)

(** A write: the file cannot be opened, or the disk takes only [n] more bytes, or everything is written. *)
Inductive disk := DiskFail | DiskShort (n : nat) | DiskOk.

Definition spooled_bytes (fs : files) : Z := map_sum str_len (filter (λ p : string * string, is_spooled p.1 = true) fs).
Definition spooled_files (fs : files) : Z := Z.of_nat (size (filter (λ p : string * string, is_spooled p.1 = true) fs)).

Definition overLimitLocked (s : Spool) (fs : files) (extra : Z) : bool :=
  let maxBytes := if MaxBytes s <=? 0 then EdgeTelemetrySpoolBytes else MaxBytes s in
  let maxFiles := if MaxFiles s <=? 0 then defaultSpoolMaxFiles else MaxFiles s in
  (maxFiles <? spooled_files fs) || (maxBytes <? spooled_bytes fs + extra).

Definition Append (s : Spool) (fs : files) (e : Event) (now : time) (w : disk) : Spool * files * result unit :=
  match marshal_event e with
  | Err err => (s, fs, Err err)
  | Ok raw =>
      let raw := raw +:+ NL in
      if overLimitLocked s fs (str_len raw) then
        let ordinary := isOrdinarySample (Some e) in
        (mkSpool (MaxBytes s) (MaxFiles s) (sp_Rejected s + 1) (sp_Dropped s + 1) (bufferedCritical s) (bufferedOrdinary s)
           (if ordinary then droppedCritical s else u64 (droppedCritical s + 1))
           (if ordinary then u64 (droppedOrdinary s + 1) else droppedOrdinary s), fs, Err "spool capacity exceeded")
      else
        let name := segment_name now in
        let old := default "" (fs !! name) in
        let done := (if isOrdinarySample (Some e) then add_buffered s 0 1 else add_buffered s 1 0, <[name := old +:+ raw]> fs, Ok tt) in
        match w with
        | DiskFail => (s, fs, Err "open")
        | DiskShort n => if (n <? String.length raw)%nat then (s, <[name := old +:+ str_take n raw]> fs, Err "short write") else done
        | DiskOk => done
        end
  end.

(** The bytes of the events that reach a file, and whether all did. *)
Fixpoint write_events (events : list (option Event)) (w : disk) : string * bool :=
  match events with
  | [] => (EmptyString, true)
  | None :: events => write_events events w
  | Some e :: events =>
      match marshal_event e with
      | Err _ => (EmptyString, false)
      | Ok raw =>
          let line := raw +:+ NL in
          match w with
          | DiskFail => (EmptyString, false)
          | DiskShort n =>
              if (n <? String.length line)%nat then (str_take n line, false)
              else let '(rest, ok) := write_events events (DiskShort (n - String.length line)) in (line +:+ rest, ok)
          | DiskOk => let '(rest, ok) := write_events events DiskOk in (line +:+ rest, ok)
          end
      end
  end.

Definition writeEventsFile (fs : files) (path : string) (events : list (option Event)) (w : disk) : files * result unit :=
  match w with
  | DiskFail => (fs, Err "open")
  | _ => let '(c, ok) := write_events events w in (<[path := c]> fs, if ok : bool then Ok tt else Err "write")
  end.

Definition appendEventsFile (fs : files) (path : string) (events : list (option Event)) (w : disk) : files * result unit :=
  match w with
  | DiskFail => (fs, Err "open")
  | _ => let '(c, ok) := write_events events w in
         (<[path := default "" (fs !! path) +:+ c]> fs, if ok : bool then Ok tt else Err "write")
  end.

(** ** Removing *)

(** What the file system does during an operation. *)
Record io := mkIO { io_quarantine : disk; io_tmp : disk; io_rename : bool; io_remove : bool; io_cleanup : bool }.
Definition io_fine : io := mkIO DiskOk DiskOk true true true.

Definition fs_remove (ok : bool) (fs : files) (path : string) : option files :=
  if ok then match fs !! path with Some _ => Some (delete path fs) | None => None end else None.
Definition fs_rename (ok : bool) (fs : files) (old new : string) : option files :=
  if ok then match fs !! old with Some c => Some (<[new := c]> (delete old fs)) | None => None end else None.
Definition fs_cleanup (ok : bool) (fs : files) (path : string) : files := default fs (fs_remove ok fs path).

Definition Remove (s : Spool) (fs : files) (path : string) (d : io) : Spool * files * result unit :=
  let '(critical, ordinary) := fileClassCounts fs path in
  match fs_remove (io_remove d) fs path with
  | None => (s, fs, Err "remove")
  | Some fs' => (removeBuffered s critical ordinary, fs', Ok tt)
  end.

Definition rewriteLocked (s : Spool) (fs : files) (path : string) (events : list (option Event)) (d : io) : Spool * files * result unit :=
  let '(oldCritical, oldOrdinary) := fileClassCounts fs path in
  if bool_decide (events = []) then
    match fs_remove (io_remove d) fs path with
    | None => (s, fs, Err "remove")
    | Some fs' => (removeBuffered s oldCritical oldOrdinary, fs', Ok tt)
    end
  else
    let tmp := path +:+ ".tmp" in
    let '(fs1, written) := writeEventsFile fs tmp events (io_tmp d) in
    match written with
    | Err e => (s, fs_cleanup (io_cleanup d) fs1 tmp, Err e)
    | Ok _ =>
        match fs_rename (io_rename d) fs1 tmp path with
        | None => (s, fs_cleanup (io_cleanup d) fs1 tmp, Err "rename")
        | Some fs2 =>
            let '(critical, ordinary) := eventClassCounts events in
            (add_buffered (removeBuffered s oldCritical oldOrdinary) critical ordinary, fs2, Ok tt)
        end
    end.

Definition Rewrite (s : Spool) (fs : files) (path : string) (events : list (option Event)) (d : io) : Spool * files * result unit :=
  rewriteLocked s fs path events d.

Definition ResolveUpload (s : Spool) (fs : files) (path : string) (retry permanent : list (option Event)) (d : io)
    : Spool * files * result unit :=
  if bool_decide (permanent = []) then rewriteLocked s fs path retry d
  else
    let '(fs1, written) := appendEventsFile fs (quarantine_name path) permanent (io_quarantine d) in
    match written with
    | Err e => (s, fs1, Err e)
    | Ok _ => rewriteLocked s fs1 path retry d
    end.

Definition Quarantine (s : Spool) (fs : files) (path : string) (d : io) : Spool * files * result unit :=
  let '(critical, ordinary) := fileClassCounts fs path in
  match fs_rename (io_rename d) fs path (quarantine_name path) with
  | None => (s, fs, Err "rename")
  | Some fs' => (removeBuffered s critical ordinary, fs', Ok tt)
  end.

(** ** Upload acknowledgements *)

Record RejectedEvent := mkRejected { rj_EventId : string; rj_Code : string }.
Definition UploadEventsResponse := list (option RejectedEvent).

Context {U : Unicode}.

Definition isPermanentCode (code : string) : bool :=
  existsb (λ c, bool_decide (to_lower code = c)) ["invalid_event"; "unknown_asset"; "invalid_argument"; "permission_denied"].

Definition isPermanentUploadErr (err : string) : bool := contains err "invalid_argument" || contains err "permission_denied".

Definition rejected_codes (resp : UploadEventsResponse) : gmap string string :=
  foldl (λ m r, match r with Some r => <[rj_EventId r := rj_Code r]> m | None => m end) ∅ resp.

(** The answer for one event: [Some true] rejected for good, [Some false] rejected for now, [None] acknowledged. *)
Definition rejection (rejected : gmap string string) (e : option Event) : option bool :=
  match e with
  | None => None
  | Some e => isPermanentCode <$> rejected !! ev_Id e
  end.

Definition PartitionUploadAck (events : list (option Event)) (resp : option UploadEventsResponse)
    : list (option Event) * list (option Event) :=
  match resp with
  | None => ([], [])
  | Some resp =>
      let rejected := rejected_codes resp in
      (filter (λ e, rejection rejected e = Some false) events, filter (λ e, rejection rejected e = Some true) events)
  end.

Definition ApplyUploadAck (s : Spool) (fs : files) (path : string) (events : list (option Event))
    (upload : result (option UploadEventsResponse)) (d : io) : Spool * files * result unit :=
  match upload with
  | Err err => if isPermanentUploadErr err then Quarantine s fs path d else (s, fs, Err err)
  | Ok None => Remove s fs path d
  | Ok (Some resp) =>
      let '(retry, permanent) := PartitionUploadAck events (Some resp) in
      ResolveUpload s fs path retry permanent d
  end.

Definition UploadBatchMax : nat := 100.

(** The batches of the loop [for i := 0; i < len(events); i += max]. *)
Fixpoint batches (fuel : nat) (max : nat) (events : list (option Event)) : list (list (option Event)) :=
  match fuel, events with
  | O, _ | _, [] => []
  | S fuel, _ => take max events :: batches fuel max (drop max events)
  end.

(** Each batch is uploaded; the first failure ends the loop. *)
Fixpoint upload_batches (upload : list (option Event) → result (option UploadEventsResponse)) (bs : list (list (option Event)))
    : result (list (option Event) * list (option Event)) :=
  match bs with
  | [] => Ok ([], [])
  | chunk :: bs =>
      let! resp := upload chunk in
      let '(r, p) := PartitionUploadAck chunk resp in
      let! rest := upload_batches upload bs in
      Ok (r ++ fst rest, p ++ snd rest)
  end.

(** The state is that of the spool when the uploads are done. *)
Definition uploadEventBatches (s : Spool) (fs : files) (file : string) (events : list (option Event))
    (upload : list (option Event) → result (option UploadEventsResponse)) (d : io) : Spool * files * result unit :=
  if (length events <=? UploadBatchMax)%nat then ApplyUploadAck s fs file events (upload events) d
  else
    match upload_batches upload (batches (length events) UploadBatchMax events) with
    | Err e => (s, fs, Err e)
    | Ok (retry, permanent) => ResolveUpload s fs file retry permanent d
    end.

(** One file of a round of the upload loop.  It is read in the state [fs0]; the spool has become [s], [fs] when the
    outcome of the upload is applied.  [None]: the access token could not be refreshed. *)
Definition upload_file (fs0 : files) (s : Spool) (fs : files) (file : string)
    (upload : option (list (option Event) → result (option UploadEventsResponse))) (d : io) : Spool * files * result unit :=
  match ReadEvents fs0 file with
  | Err _ => Quarantine s fs file d
  | Ok [] => Remove s fs file d
  | Ok events =>
      match upload with
      | None => (s, fs, Err "refresh")
      | Some upload => uploadEventBatches s fs file events upload d
      end
  end.
End spool.
