(* ===== verification/SpoolProofs.v ===== *)
(** * The edge event spool: theorems

    What the files hold after every operation of [Spool], that an upload loses no event that
    was not acknowledged, whatever the disk does, and the one interleaving in which it does;
    that the counters are those of the files. *)

From stdpp Require Import sorting.
From S2P Require Import Prelude GoStrings Spool.

Section proofs.
Context {W : EventWire} {L : EventWireLaws W} {U : Unicode}.

(** ** Lines *)

Definition lines (raws : list string) : string := foldr (λ r s, r +:+ NL +:+ s) "" raws.
Definition encoded (es : list Event) (c : string) : Prop := ∃ raws, Forall2 (λ e r, marshal_event e = Ok r) es raws ∧ c = lines raws.

Lemma lines_app l1 l2 : lines (l1 ++ l2) = lines l1 +:+ lines l2.
Proof. induction l1 as [|r l1 IH]; [done|]. simpl. rewrite IH. by rewrite <- !str_app_assoc. Qed.

Lemma encoded_app es1 es2 c1 c2 : encoded es1 c1 → encoded es2 c2 → encoded (es1 ++ es2) (c1 +:+ c2).
Proof. intros (r1 & H1 & ->) (r2 & H2 & ->). exists (r1 ++ r2). split; [by apply Forall2_app|by rewrite lines_app]. Qed.

Lemma encoded_nil : encoded [] "".
Proof. by exists []. Qed.

Lemma encoded_one e raw : marshal_event e = Ok raw → encoded [e] (raw +:+ NL).
Proof. intros H. exists [raw]. split; [by constructor|]. simpl. by rewrite str_app_nil_r. Qed.

Definition braced (r : string) : Prop := ∃ m : string, r = "{" +:+ m +:+ "}".

Lemma join_braced raws : raws ≠ [] → Forall braced raws → braced (join NL raws).
Proof.
  intros Hne H. induction H as [|r raws [m ->] Hr IH]; [done|]. destruct raws as [|r' raws]; [by exists m|].
  destruct IH as [m' E]; [done|]. change (join NL (("{" +:+ m +:+ "}") :: r' :: raws)) with (("{" +:+ m +:+ "}") +:+ NL +:+ join NL (r' :: raws)).
  rewrite E. exists (m +:+ "}" +:+ NL +:+ "{" +:+ m'). by rewrite <- !str_app_assoc.
Qed.

Lemma lines_join raws : raws ≠ [] → lines raws = join NL raws +:+ NL.
Proof.
  induction raws as [|r raws IH]; [done|]. intros _. destruct raws as [|r' raws]; [simpl; by rewrite str_app_nil_r|].
  change (lines (r :: r' :: raws)) with (r +:+ NL +:+ lines (r' :: raws)). rewrite IH by done.
  change (join NL (r :: r' :: raws)) with (r +:+ NL +:+ join NL (r' :: raws)). by rewrite <- !str_app_assoc.
Qed.

Lemma content_lines_lines raws : Forall (λ r, braced r ∧ str_mem (of_byte 10) r = false) raws → content_lines (lines raws) = raws.
Proof.
  intros H. destruct (decide (raws = [])) as [->|Hne]; [done|]. unfold content_lines. rewrite lines_join by done.
  destruct (join_braced raws Hne) as [m E]; [by eapply Forall_impl; [exact H|intros ? []]|].
  assert (trim_space (join NL raws +:+ NL) = join NL raws) as ->.
  { rewrite E, <- !str_app_assoc. refine (proj1 (trim_line "{" m "}" _ _ _ _)); by vm_compute. }
  unfold NL. rewrite split_join; [|done|by eapply Forall_impl; [exact H|intros ? []]].
  apply filter_Forall. eapply Forall_impl; [exact H|]. by intros r [[? ->] _].
Qed.

Lemma encoded_wire es raws : Forall2 (λ e r, marshal_event e = Ok r) es raws → Forall (λ r, braced r ∧ str_mem (of_byte 10) r = false) raws.
Proof. induction 1 as [|e r es raws Hr _ IH]; constructor; [|done]. destruct (wire_object _ _ Hr) as (m & ? & ?). by split; [exists m|]. Qed.

(** A file of encoded events is read back. *)
Lemma read_encoded es c : encoded es c → read_lines (content_lines c) = Ok (Some <$> es).
Proof.
  intros (raws & H & ->). rewrite content_lines_lines by (by eapply encoded_wire).
  induction H as [|e r es raws Hr _ IH]; [done|]. simpl. by rewrite (wire_decodes _ _ Hr), IH.
Qed.

Definition decoded (c : string) : list (option Event) :=
  omap (λ line, match unmarshal_event line with Ok e => Some (Some e) | Err _ => None end) (content_lines c).

Lemma decoded_encoded es c : encoded es c → decoded c = Some <$> es.
Proof.
  intros (raws & H & ->). unfold decoded. rewrite content_lines_lines by (by eapply encoded_wire).
  induction H as [|e r es raws Hr _ IH]; [done|]. simpl. rewrite (wire_decodes _ _ Hr). by f_equal.
Qed.

Lemma write_events_ok evs w c : write_events evs w = (c, true) → encoded (omap id evs) c.
Proof.
  revert w c. induction evs as [|[e|] evs IH]; intros w c; simpl; [intros [= <-]; apply encoded_nil| |apply IH].
  destruct (marshal_event e) as [raw|] eqn:Hm; [|done].
  assert (∀ w', (let '(rest, ok) := write_events evs w' in ((raw +:+ NL) +:+ rest, ok)) = (c, true) → encoded (e :: omap id evs) c) as Hgo.
  { intros w'. destruct (write_events evs w') as [rest ok] eqn:E. intros [= <- ->].
    apply (encoded_app [e] (omap id evs)); [by apply encoded_one|by eapply IH]. }
  destruct w; [done|case_match; [done|apply Hgo]|apply Hgo].
Qed.

(** ** Names *)

Lemma segment_name_segment now : is_segment (segment_name now) = true.
Proof.
  unfold is_segment, is_spooled, segment_name. rewrite has_prefix_app, str_app_assoc. by rewrite has_suffix_app.
Qed.

Lemma quarantine_not_segment path : is_segment (quarantine_name path) = false.
Proof. unfold is_segment, quarantine_name, has_suffix. rewrite str_rev_app, andb_comm. done. Qed.

Lemma tmp_not_segment path : is_segment (path +:+ ".tmp") = false.
Proof. unfold is_segment, has_suffix. rewrite str_rev_app, andb_comm. done. Qed.

Lemma segment_ne_tmp path path' : is_segment path = true → path ≠ path' +:+ ".tmp".
Proof. intros H ->. by rewrite tmp_not_segment in H. Qed.

Lemma segment_ne_quarantine path path' : is_segment path = true → path ≠ quarantine_name path'.
Proof. intros H ->. by rewrite quarantine_not_segment in H. Qed.

Lemma quarantine_ne_tmp path path' : quarantine_name path ≠ path' +:+ ".tmp".
Proof. intros H. apply (f_equal String.rev) in H. unfold quarantine_name in H. by rewrite !str_rev_app in H. Qed.

(** ** Operations *)

Definition well_formed (fs : files) : Prop := ∀ n c, is_segment n = true → fs !! n = Some c → ∃ es, encoded es c.

Lemma append_ok s fs e now w s' fs' :
  Append s fs e now w = (s', fs', Ok tt) →
  ∃ raw, marshal_event e = Ok raw ∧ overLimitLocked s fs (str_len (raw +:+ NL)) = false
  ∧ fs' = <[segment_name now := default "" (fs !! segment_name now) +:+ (raw +:+ NL)]> fs
  ∧ s' = if isOrdinarySample (Some e) then add_buffered s 0 1 else add_buffered s 1 0.
Proof.
  unfold Append. destruct (marshal_event e) as [raw|] eqn:Hm; [|done]. destruct (overLimitLocked _ _ _) eqn:Ho; [done|].
  intros H. exists raw. destruct w; [done|case_match; [done|]|]; injection H as <- <-; done.
Qed.

Lemma old_encoded fs n : well_formed fs → is_segment n = true → ∃ es, encoded es (default "" (fs !! n)).
Proof. intros Hwf Hn. destruct (fs !! n) as [c|] eqn:E; simpl; [by eapply Hwf|]. exists []. apply encoded_nil. Qed.

Lemma append_well_formed s fs e now s' fs' r : well_formed fs → Append s fs e now DiskOk = (s', fs', r) → well_formed fs'.
Proof.
  intros Hwf H n c Hn. destruct r as [[]|err].
  - apply append_ok in H as (raw & Hm & _ & -> & _). rewrite lookup_insert_Some. intros [[<- <-]|[_ Hc]]; [|by eapply Hwf].
    destruct (old_encoded fs _ Hwf Hn) as [es Hes]. eexists. apply encoded_app; [done|by apply encoded_one].
  - unfold Append in H. repeat case_match; simplify_eq; by apply Hwf.
Qed.

(** What replacing a segment does, whatever the disk does. *)
Lemma rewrite_cases s fs path events d s' fs' r :
  is_segment path = true → rewriteLocked s fs path events d = (s', fs', r) →
  (r = Ok tt ∧ events = [] ∧ is_Some (fs !! path) ∧ fs' = delete path fs
     ∧ s' = removeBuffered s (fileClassCounts fs path).1 (fileClassCounts fs path).2)
  ∨ (r = Ok tt ∧ events ≠ [] ∧ ∃ c, encoded (omap id events) c ∧ fs' = <[path := c]> (delete (path +:+ ".tmp") fs)
     ∧ s' = add_buffered (removeBuffered s (fileClassCounts fs path).1 (fileClassCounts fs path).2)
              (eventClassCounts events).1 (eventClassCounts events).2)
  ∨ (r ≠ Ok tt ∧ s' = s ∧ ∀ n, n ≠ path +:+ ".tmp" → fs' !! n = fs !! n).
Proof.
  intros Hseg H. unfold rewriteLocked in H. destruct (fileClassCounts fs path) as [oc oo] eqn:Hfc. simpl.
  case_bool_decide as Hev.
  - unfold fs_remove in H. destruct (io_remove d); [|simplify_eq; by auto 10].
    destruct (fs !! path) as [c|] eqn:Hp; simplify_eq; [left; by eauto 10|by auto 10].
  - unfold writeEventsFile in H.
    assert (∀ c n, n ≠ path +:+ ".tmp" → fs_cleanup (io_cleanup d) (<[path +:+ ".tmp" := c]> fs) (path +:+ ".tmp") !! n = fs !! n) as Hclean.
    { intros c n Hne. unfold fs_cleanup, fs_remove. destruct (io_cleanup d); simpl; [|by rewrite lookup_insert_ne].
      rewrite lookup_insert_eq. simpl. by rewrite lookup_delete_ne, lookup_insert_ne. }
    assert (∀ n, n ≠ path +:+ ".tmp" → fs_cleanup (io_cleanup d) fs (path +:+ ".tmp") !! n = fs !! n) as Hclean0.
    { intros n Hne. unfold fs_cleanup, fs_remove. destruct (io_cleanup d); [|done].
      destruct (fs !! (path +:+ ".tmp")); simpl; [|done]. by rewrite lookup_delete_ne. }
    destruct (write_events events (io_tmp d)) as [c ok] eqn:Hwe.
    destruct (io_tmp d); [simplify_eq; by auto 10| |]; (destruct ok; [|simplify_eq; by auto 10]);
      (unfold fs_rename in H; destruct (io_rename d); [rewrite lookup_insert_eq in H|simplify_eq; by auto 10]);
      destruct (eventClassCounts events) as [nc no]; simplify_eq/=; right; left; (split; [done|]; split; [done|]);
      exists c; (split; [by eapply write_events_ok|]); by rewrite delete_insert_eq.
Qed.

Lemma read_ext fs fs' path : fs' !! path = fs !! path → ReadEvents fs' path = ReadEvents fs path.
Proof. unfold ReadEvents. by intros ->. Qed.

Lemma elem_live e (evs : list (option Event)) : Some e ∈ evs → e ∈ omap id evs.
Proof. intros H. apply list_elem_of_omap. by exists (Some e). Qed.

Lemma read_written fs path evs c : encoded (omap id evs) c → fs !! path = Some c → ReadEvents fs path = Ok (Some <$> omap id evs).
Proof. intros Hc Hp. unfold ReadEvents. rewrite Hp. by apply read_encoded. Qed.

Lemma encoded_line es c e :
  encoded es c → e ∈ es → ∃ raw pre post : string, marshal_event e = Ok raw ∧ c = pre +:+ (raw +:+ NL) +:+ post.
Proof.
  intros (raws & H & ->) He. induction H as [|e' r es raws Hr _ IH]; [by apply elem_of_nil in He|].
  apply elem_of_cons in He as [->|He].
  - exists r, "", (lines raws). split; [done|]. simpl. by rewrite <- str_app_assoc.
  - destruct (IH He) as (raw & pre & post & Hm & E). exists raw, (r +:+ NL +:+ pre), post. split; [done|]. simpl. rewrite E.
    by rewrite <- !str_app_assoc.
Qed.

(** ** Where an event of a segment is after an upload *)

(** It is still in the segment, or in the quarantine file, or the server acknowledged it. *)
Definition kept_in (fs : files) (file : string) (e : Event) : Prop := ∃ evs, ReadEvents fs file = Ok evs ∧ Some e ∈ evs.
Definition quarantined (fs : files) (file : string) (e : Event) : Prop :=
  ∃ raw pre post : string, marshal_event e = Ok raw ∧ fs !! quarantine_name file = Some (pre +:+ (raw +:+ NL) +:+ post).
Definition acknowledged (upload : list (option Event) → result (option UploadEventsResponse)) (e : Event) : Prop :=
  ∃ chunk resp, upload chunk = Ok resp ∧ Some e ∈ chunk ∧
    match resp with None => True | Some r => rejection (rejected_codes r) (Some e) = None end.

Lemma rewrite_keeps s fs path retry d s' fs' r e :
  is_segment path = true → rewriteLocked s fs path retry d = (s', fs', r) → kept_in fs path e →
  (r = Ok tt → Some e ∈ retry) → kept_in fs' path e.
Proof.
  intros Hseg H (evs & Hev & He) Hre. apply rewrite_cases in H as [(-> & -> & _)|[(-> & _ & c & Hc & -> & _)|(Hr & _ & Hsame)]].
  - by apply elem_of_nil in Hre.
  - exists (Some <$> omap id retry). split; [eapply read_written; [done|by rewrite lookup_insert_eq]|].
    apply list_elem_of_fmap_2, elem_live. by apply Hre.
  - exists evs. split; [|done]. rewrite <- Hev. apply read_ext, Hsame. by apply segment_ne_tmp.
  - done.
Qed.

Lemma rewrite_other s fs path retry d s' fs' r n :
  is_segment path = true → rewriteLocked s fs path retry d = (s', fs', r) → n ≠ path → n ≠ path +:+ ".tmp" → fs' !! n = fs !! n.
Proof.
  intros Hseg H Hn Ht. apply rewrite_cases in H as [(_ & _ & _ & -> & _)|[(_ & _ & c & _ & -> & _)|(_ & _ & Hsame)]]; [..|done].
  - by rewrite lookup_delete_ne.
  - by rewrite lookup_insert_ne, lookup_delete_ne.
  - by apply Hsame.
Qed.

Lemma quarantine_append fs path perm w fs1 r :
  appendEventsFile fs path perm w = (fs1, r) →
  (∀ n, n ≠ path → fs1 !! n = fs !! n)
  ∧ (r = Ok tt → ∃ c, encoded (omap id perm) c ∧ fs1 !! path = Some (default "" (fs !! path) +:+ c)).
Proof.
  unfold appendEventsFile. intros H. destruct (write_events perm w) as [c ok] eqn:Hwe.
  destruct w; simplify_eq/=; (split; [by intros k Hk; rewrite ?lookup_insert_ne|]); [done|..];
    (destruct ok; [|done]); intros _; exists c; (split; [by eapply write_events_ok|by rewrite lookup_insert_eq]).
Qed.

Lemma resolve_keeps s fs path retry perm d s' fs' r e :
  is_segment path = true → ResolveUpload s fs path retry perm d = (s', fs', r) → kept_in fs path e → Some e ∈ retry ∨ Some e ∈ perm →
  kept_in fs' path e ∨ quarantined fs' path e.
Proof.
  intros Hseg H Hk He. unfold ResolveUpload in H. case_bool_decide as Hperm.
  { subst perm. destruct He as [He|He%elem_of_nil]; [|done]. left. by eapply rewrite_keeps. }
  destruct (appendEventsFile _ _ _ _) as [fs1 w] eqn:Ha. apply quarantine_append in Ha as [Hother Hq].
  assert (kept_in fs1 path e) as Hk1.
  { destruct Hk as (evs & Hev & ?). exists evs. split; [|done]. rewrite <- Hev. by apply read_ext, Hother, segment_ne_quarantine. }
  destruct w as [[]|err]; [|simplify_eq; by left]. destruct (Hq eq_refl) as (c & Hc & Hqc).
  destruct He as [He|He]; [left; by eapply rewrite_keeps|]. destruct r as [[]|]; [|left; by eapply rewrite_keeps]. right.
  destruct (encoded_line _ _ e Hc (elem_live _ _ He)) as (raw & pre & post & Hm & ->).
  exists raw, (default "" (fs !! quarantine_name path) +:+ pre), post. split; [done|].
  rewrite (rewrite_other _ _ _ _ _ _ _ _ _ Hseg H), Hqc; [by rewrite <- !str_app_assoc|by apply not_eq_sym, segment_ne_quarantine|apply quarantine_ne_tmp].
Qed.

Lemma partition_cases events resp e :
  Some e ∈ events → Some e ∈ (PartitionUploadAck events (Some resp)).1 ∨ Some e ∈ (PartitionUploadAck events (Some resp)).2
                    ∨ rejection (rejected_codes resp) (Some e) = None.
Proof.
  intros He. unfold PartitionUploadAck. cbn [fst snd]. rewrite !list_elem_of_filter. destruct (rejection _ _) as [[]|]; auto.
Qed.

Lemma remove_loses s fs path d s' fs' r :
  Remove s fs path d = (s', fs', r) → (r = Ok tt ∧ fs' = delete path fs) ∨ fs' = fs.
Proof.
  unfold Remove, fs_remove. destruct (fileClassCounts fs path). intros H. destruct (io_remove d); [|simplify_eq; auto].
  destruct (fs !! path); simplify_eq; auto.
Qed.

Lemma quarantine_keeps s fs path d s' fs' r e es c :
  is_segment path = true → Quarantine s fs path d = (s', fs', r) → fs !! path = Some c → encoded es c → e ∈ es →
  kept_in fs' path e ∨ quarantined fs' path e.
Proof.
  intros Hseg H Hp Hc He. unfold Quarantine, fs_rename in H. destruct (fileClassCounts fs path).
  assert (kept_in fs path e) as Hk.
  { exists (Some <$> es). split; [unfold ReadEvents; rewrite Hp; by apply read_encoded|by apply list_elem_of_fmap_2]. }
  destruct (io_rename d); [|simplify_eq; auto]. rewrite Hp in H. simplify_eq. right.
  destruct (encoded_line _ _ e Hc He) as (raw & pre & post & Hm & ->). exists raw, pre, post. split; [done|by rewrite lookup_insert_eq].
Qed.

Lemma batches_concat fuel max events : (0 < max)%nat → (length events ≤ fuel)%nat → concat (batches fuel max events) = events.
Proof.
  intros Hmax. revert events. induction fuel as [|fuel IH]; intros events Hlen.
  - destruct events; [done|simpl in Hlen; lia].
  - destruct events as [|x events]; [done|]. cbn [batches concat]. rewrite IH, take_drop; [done|]. rewrite length_drop. simpl in *. lia.
Qed.

Lemma upload_batches_cover upload bs retry perm e :
  upload_batches upload bs = Ok (retry, perm) → Some e ∈ concat bs → Some e ∈ retry ∨ Some e ∈ perm ∨ acknowledged upload e.
Proof.
  revert retry perm. induction bs as [|chunk bs IH]; intros retry perm H He; [by apply elem_of_nil in He|]. cbn [upload_batches] in H.
  apply result_bind_Ok in H as (resp & Hup & H). destruct (PartitionUploadAck chunk resp) as [r p] eqn:Hp.
  apply result_bind_Ok in H as ([retry' perm'] & Hb & [= <- <-]). simpl. rewrite !elem_of_app. cbn [concat] in He.
  apply elem_of_app in He as [He|He]; [|destruct (IH _ _ Hb He) as [?|[?|?]]; auto].
  destruct resp as [resp|]; [|right; right; by exists chunk, None].
  destruct (partition_cases chunk resp e He) as [H|[H|H]]; rewrite ?Hp in H; auto. right; right. by exists chunk, (Some resp).
Qed.

(** C33: whatever the disk does while a segment is uploaded and the answer applied, and whatever the server answers,
    every event the segment held is afterwards acknowledged by the server, or still in the segment, or in the quarantine
    file beside it, provided nothing was appended to the segment meanwhile. *)
Theorem upload_keeps_unacknowledged s fs file upload d s' fs' r e :
  well_formed fs → is_segment file = true → upload_file fs s fs file (Some upload) d = (s', fs', r) → kept_in fs file e →
  acknowledged upload e ∨ kept_in fs' file e ∨ quarantined fs' file e.
Proof.
  intros Hwf Hseg H Hk. pose proof Hk as (events & Hev & He). unfold upload_file in H. rewrite Hev in H.
  destruct events as [|ev0 events0] eqn:Hnil; [by apply elem_of_nil in He|]. rewrite <- Hnil in *. clear Hnil ev0 events0.
  assert (uploadEventBatches s fs file events upload d = (s', fs', r)) as Hup by (by destruct events).
  clear H. unfold uploadEventBatches in Hup. destruct (_ <=? _)%nat.
  - unfold ApplyUploadAck in Hup. destruct (upload events) as [[resp|]|err] eqn:Hans.
    + pose proof (partition_cases events resp e He) as Hcase. destruct (PartitionUploadAck events (Some resp)) as [retry perm].
      destruct Hcase as [?|[?|?]]; [right; eapply resolve_keeps; eauto..|]. left. by exists events, (Some resp).
    + left. by exists events, None.
    + destruct (isPermanentUploadErr err); [|simplify_eq; auto]. right.
      unfold ReadEvents in Hev. destruct (fs !! file) as [c|] eqn:Hc; [|done]. destruct (Hwf _ _ Hseg Hc) as [es Hes].
      rewrite (read_encoded _ _ Hes) in Hev. injection Hev as <-. apply list_elem_of_fmap in He as (e' & [= <-] & He).
      by eapply quarantine_keeps.
  - destruct (upload_batches _ _) as [[retry perm]|err] eqn:Hb; [|simplify_eq; auto].
    destruct (upload_batches_cover _ _ _ _ e Hb) as [?|[?|?]]; auto.
    + rewrite batches_concat; [done|unfold UploadBatchMax; lia|done].
    + right. eapply resolve_keeps; eauto.
    + right. eapply resolve_keeps; eauto.
Qed.

(** An event appended to the segment between the reading of the segment and the application of the server's
    answer is lost, although Append reported success: it is in no file afterwards. *)
Theorem upload_race_drops_event s0 fs0 now events e s1 fs1 upload resp d s2 fs2 :
  well_formed fs0 → ReadEvents fs0 (segment_name now) = Ok events → events ≠ [] → (length events ≤ UploadBatchMax)%nat →
  upload events = Ok (Some resp) → Some e ∉ events → Append s0 fs0 e now DiskOk = (s1, fs1, Ok tt) →
  upload_file fs0 s1 fs1 (segment_name now) (Some upload) d = (s2, fs2, Ok tt) →
  kept_in fs1 (segment_name now) e ∧ ¬ kept_in fs2 (segment_name now) e
  ∧ (∀ n, n ≠ segment_name now → n ≠ quarantine_name (segment_name now) → n ≠ segment_name now +:+ ".tmp" → fs2 !! n = fs0 !! n)
  ∧ ∃ es c, e ∉ es ∧ encoded es c
    ∧ default "" (fs2 !! quarantine_name (segment_name now)) = default "" (fs0 !! quarantine_name (segment_name now)) +:+ c.
Proof.
  intros Hwf Hread Hne Hlen Hans Hfresh Happ Hup. set (file := segment_name now) in *.
  assert (is_segment file = true) as Hseg by apply segment_name_segment.
  destruct (append_ok _ _ _ _ _ _ _ Happ) as (raw & Hm & _ & Hfs1 & _). fold file in Hfs1.
  destruct (old_encoded fs0 file Hwf Hseg) as [es0 Hes0].
  split.
  { exists (Some <$> es0 ++ [e]). split; [|apply list_elem_of_fmap_2; set_solver]. unfold ReadEvents. rewrite Hfs1, lookup_insert_eq.
    apply read_encoded, encoded_app; [done|by apply encoded_one]. }
  assert (∀ n, n ≠ file → fs1 !! n = fs0 !! n) as Hsame1 by (intros n Hn; by rewrite Hfs1, lookup_insert_ne).
  unfold upload_file in Hup. rewrite Hread in Hup.
  assert (uploadEventBatches s1 fs1 file events upload d = (s2, fs2, Ok tt)) as Hb by (by destruct events).
  clear Hup. unfold uploadEventBatches in Hb. rewrite (proj2 (Nat.leb_le _ _) Hlen) in Hb. unfold ApplyUploadAck in Hb. rewrite Hans in Hb.
  destruct (PartitionUploadAck events (Some resp)) as [retry perm] eqn:Hpart.
  assert (Some e ∉ retry ∧ Some e ∉ perm) as [Hnr Hnp].
  { injection Hpart as <- <-. rewrite !list_elem_of_filter. tauto. }
  assert (∀ fsx, rewriteLocked s1 fsx file retry d = (s2, fs2, Ok tt) → ¬ kept_in fs2 file e) as Hgone.
  { intros fsx H (evs & Hev & Hin). unfold ReadEvents in Hev.
    apply rewrite_cases in H as [(_ & _ & _ & -> & _)|[(_ & _ & c & Hc & -> & _)|(Hr & _ & _)]]; [by rewrite lookup_delete_eq in Hev| |done..].
    rewrite lookup_insert_eq, (read_encoded _ _ Hc) in Hev. injection Hev as <-. apply list_elem_of_fmap in Hin as (e' & [= <-] & Hin).
    apply list_elem_of_omap in Hin as ([x|] & Hx & Hid); [|done]. simpl in Hid. by simplify_eq. }
  unfold ResolveUpload in Hb. case_bool_decide as Hperm.
  - split; [by eapply Hgone|]. split.
    + intros n ? ? ?. by rewrite (rewrite_other _ _ _ _ _ _ _ _ _ Hseg Hb), Hsame1.
    + exists [], "". split; [set_solver|]. split; [apply encoded_nil|]. rewrite str_app_nil_r.
      rewrite (rewrite_other _ _ _ _ _ _ _ _ _ Hseg Hb), Hsame1 by first [by apply not_eq_sym, segment_ne_quarantine|apply quarantine_ne_tmp].
      done.
  - destruct (appendEventsFile fs1 _ perm _) as [fsq w] eqn:Hq. apply quarantine_append in Hq as [Hother Hq]. destruct w as [[]|]; [|done].
    destruct (Hq eq_refl) as (c & Hc & Hqc). split; [by eapply Hgone|]. split.
    + intros n ? ? ?. by rewrite (rewrite_other _ _ _ _ _ _ _ _ _ Hseg Hb), Hother, Hsame1.
    + exists (omap id perm), c. split.
      { intros ([x|] & Hx & Hid)%list_elem_of_omap; [|done]. simpl in Hid. by simplify_eq. }
      split; [done|]. rewrite (rewrite_other _ _ _ _ _ _ _ _ _ Hseg Hb), Hqc by first [by apply not_eq_sym, segment_ne_quarantine|apply quarantine_ne_tmp].
      simpl. rewrite Hsame1; [done|by apply not_eq_sym, segment_ne_quarantine].
Qed.

(** ** Counters *)

Definition counts_of (c : string) : Z * Z := eventClassCounts (decoded c).
Definition segments (fs : files) : files := filter (λ p : string * string, is_segment p.1 = true) fs.

(** The number of critical ([fst]) or ordinary ([snd]) events in the segments. *)
Definition class_sum (pr : Z * Z → Z) (fs : files) : Z := map_sum (λ c, pr (counts_of c)) (segments fs).

Lemma file_counts fs path : fileClassCounts fs path = match fs !! path with Some c => counts_of c | None => (0, 0) end.
Proof. done. Qed.

Lemma class_counts_range evs : (0 ≤ (eventClassCounts evs).1 < 2 ^ 64) ∧ (0 ≤ (eventClassCounts evs).2 < 2 ^ 64).
Proof.
  induction evs as [|e evs IH]; [done|]. simpl. destruct (eventClassCounts evs) as [a b].
  pose proof (wrap_u_range 64 (1 + a)). pose proof (wrap_u_range 64 (1 + b)). unfold in_u in *.
  destruct (isOrdinarySample e); [simpl in *; lia|]. destruct e; simpl in *; lia.
Qed.

Lemma segments_ext fs fs' : (∀ n, is_segment n = true → fs' !! n = fs !! n) → segments fs' = segments fs.
Proof.
  intros H. apply map_eq. intros n. apply option_eq. intros c. unfold segments. rewrite !map_lookup_filter_Some. simpl.
  split; intros [Hc Hn]; split; try done; by rewrite <- Hc, H.
Qed.

Lemma class_sum_delete pr fs path c :
  is_segment path = true → fs !! path = Some c → class_sum pr (delete path fs) = class_sum pr fs - pr (counts_of c).
Proof.
  intros Hseg Hc. unfold class_sum, segments. rewrite map_filter_delete.
  apply (map_sum_delete (λ c, pr (counts_of c))). by apply map_lookup_filter_Some.
Qed.

Lemma class_sum_insert pr fs path c :
  is_segment path = true → pr (0, 0) = 0 → class_sum pr (<[path := c]> fs) = class_sum pr fs - pr (fileClassCounts fs path) + pr (counts_of c).
Proof.
  intros Hseg Hpr. unfold class_sum, segments. rewrite map_filter_insert_True by done. rewrite file_counts. destruct (fs !! path) as [c0|] eqn:Hc.
  - apply (map_sum_update (λ c, pr (counts_of c))). by apply map_lookup_filter_Some.
  - rewrite map_sum_insert, Hpr; [lia|]. apply map_lookup_filter_None. by left.
Qed.

Lemma class_sum_ge fs path : is_segment path = true →
  0 ≤ (fileClassCounts fs path).1 ≤ class_sum fst fs ∧ 0 ≤ (fileClassCounts fs path).2 ≤ class_sum snd fs.
Proof.
  intros Hseg. rewrite file_counts.
  assert (∀ (k : string) v, segments fs !! k = Some v → 0 ≤ (counts_of v).1 ∧ 0 ≤ (counts_of v).2) as Hpos.
  { intros k v _. unfold counts_of. pose proof (class_counts_range (decoded v)). lia. }
  destruct (fs !! path) as [c|] eqn:Hc.
  - assert (segments fs !! path = Some c) as Hs by (by apply map_lookup_filter_Some).
    destruct (Hpos _ _ Hs). split; (split; [done|]).
    + apply (map_sum_ge (λ c, (counts_of c).1) _ path); [|done]. intros k v Hk. by apply (Hpos k).
    + apply (map_sum_ge (λ c, (counts_of c).2) _ path); [|done]. intros k v Hk. by apply (Hpos k).
  - split; (split; [done|]); apply map_sum_nonneg; intros k v Hk; by apply (Hpos k).
Qed.

Definition counted (s : Spool) (fs : files) : Prop := bufferedCritical s = class_sum fst fs ∧ bufferedOrdinary s = class_sum snd fs.

(** The counters of the spool are 64-bit. *)
Definition roomy (fs : files) : Prop := class_sum fst fs + 1 < 2 ^ 64 ∧ class_sum snd fs + 1 < 2 ^ 64.

Lemma u64_small x : 0 ≤ x < 2 ^ 64 → u64 x = x.
Proof. intros H. by apply wrap_u_id. Qed.

Lemma remove_buffered s fs path :
  is_segment path = true → counted s fs → roomy fs →
  let s' := removeBuffered s (fileClassCounts fs path).1 (fileClassCounts fs path).2 in
  bufferedCritical s' = class_sum fst fs - (fileClassCounts fs path).1 ∧ bufferedOrdinary s' = class_sum snd fs - (fileClassCounts fs path).2.
Proof.
  intros Hseg [Hc Ho] [Hr1 Hr2]. destruct (class_sum_ge fs path Hseg). unfold removeBuffered. simpl. rewrite Hc, Ho.
  rewrite !(proj2 (Z.ltb_ge _ _)) by lia. rewrite !u64_small by lia. done.
Qed.

Lemma encoded_counts evs c : encoded (omap id evs) c → counts_of c = eventClassCounts evs.
Proof.
  intros H. unfold counts_of. rewrite (decoded_encoded _ _ H). clear H. induction evs as [|[e|] evs IH]; [done|..].
  - change (eventClassCounts (Some e :: (Some <$> omap id evs)) = eventClassCounts (Some e :: evs)). simpl. by rewrite IH.
  - etrans; [exact IH|]. simpl. by destruct (eventClassCounts evs).
Qed.

Lemma rewrite_counted s fs path events d s' fs' r :
  is_segment path = true → counted s fs → roomy fs → roomy fs' → rewriteLocked s fs path events d = (s', fs', r) → counted s' fs'.
Proof.
  intros Hseg Hct Hr Hr' H. pose proof (remove_buffered s fs path Hseg Hct Hr) as [Hc Ho].
  apply rewrite_cases in H as [(_ & _ & [c Hp] & -> & ->)|[(_ & _ & c & Hen & -> & ->)|(_ & -> & Hsame)]]; [| | |done].
  - rewrite file_counts, Hp in *. split; rewrite (class_sum_delete _ _ _ c) by done; done.
  - assert (∀ pr, class_sum pr (delete (path +:+ ".tmp") fs) = class_sum pr fs) as Htmp.
    { intros pr. unfold class_sum. f_equal. apply segments_ext. intros n Hn. apply lookup_delete_ne. by apply not_eq_sym, segment_ne_tmp. }
    assert (fileClassCounts (delete (path +:+ ".tmp") fs) path = fileClassCounts fs path) as Hfc.
    { rewrite !file_counts, lookup_delete_ne; [done|]. by apply not_eq_sym, segment_ne_tmp. }
    destruct Hr' as [Hr1 Hr2]. rewrite class_sum_insert, Htmp, Hfc, (encoded_counts _ _ Hen) in Hr1, Hr2 by done.
    pose proof (class_counts_range events). destruct (class_sum_ge fs path Hseg).
    unfold counted, add_buffered. cbn [bufferedCritical bufferedOrdinary set_buffered].
    rewrite Hc, Ho, !class_sum_insert, !Htmp, Hfc, (encoded_counts _ _ Hen), !u64_small by (done || lia). done.
  - unfold counted, class_sum. rewrite (segments_ext fs fs'); [exact Hct|]. intros n Hn. by apply Hsame, segment_ne_tmp.
Qed.

Lemma class_counts_snoc evs e :
  eventClassCounts (evs ++ [Some e])
  = if isOrdinarySample (Some e) then ((eventClassCounts evs).1, u64 ((eventClassCounts evs).2 + 1))
    else (u64 ((eventClassCounts evs).1 + 1), (eventClassCounts evs).2).
Proof.
  assert (∀ x, u64 (1 + u64 (x + 1)) = u64 (u64 (1 + x) + 1)) as Hswap.
  { intros x. unfold wrap_u. rewrite Zplus_mod_idemp_r, Zplus_mod_idemp_l. f_equal. lia. }
  induction evs as [|x evs IH]; [simpl; by destruct (_ && _)|].
  rewrite <- app_comm_cons. cbn [eventClassCounts]. rewrite IH. destruct (eventClassCounts evs) as [a b].
  destruct (isOrdinarySample (Some e)), (isOrdinarySample x); simpl; rewrite ?Hswap; try done; destruct x; simpl; by rewrite ?Hswap.
Qed.

Lemma append_counted s fs e now s' fs' r :
  well_formed fs → counted s fs → roomy fs → Append s fs e now DiskOk = (s', fs', r) → counted s' fs'.
Proof.
  intros Hwf Hct Hr H. destruct r as [[]|err].
  - apply append_ok in H as (raw & Hm & _ & -> & ->). set (n := segment_name now).
    assert (is_segment n = true) as Hseg by apply segment_name_segment.
    destruct (old_encoded fs n Hwf Hseg) as [es Hes].
    assert (fileClassCounts fs n = eventClassCounts (Some <$> es)) as Hold.
    { rewrite file_counts. destruct (fs !! n) as [c|]; simpl in Hes.
      - unfold counts_of. by rewrite (decoded_encoded _ _ Hes).
      - apply decoded_encoded in Hes. by destruct es. }
    assert (counts_of (default "" (fs !! n) +:+ (raw +:+ NL)) = eventClassCounts ((Some <$> es) ++ [Some e])) as Hnew.
    { unfold counts_of. rewrite (decoded_encoded (es ++ [e])); [by rewrite fmap_app|]. by apply encoded_app, encoded_one. }
    destruct (class_sum_ge fs n Hseg) as [H1 H2]. rewrite Hold in *. destruct Hct as [Hc Ho], Hr as [Hr1 Hr2].
    unfold counted. rewrite !class_sum_insert, Hnew, Hold, class_counts_snoc by done.
    destruct (isOrdinarySample (Some e)); unfold add_buffered; cbn [bufferedCritical bufferedOrdinary set_buffered fst snd];
      rewrite Hc, Ho, !u64_small by lia; lia.
  - unfold Append in H. destruct (marshal_event e); [|by simplify_eq]. destruct (overLimitLocked _ _ _); by simplify_eq.
Qed.

Lemma remove_counted s fs path d s' fs' r :
  is_segment path = true → counted s fs → roomy fs → Remove s fs path d = (s', fs', r) → counted s' fs'.
Proof.
  intros Hseg Hct Hr H. pose proof (remove_buffered s fs path Hseg Hct Hr) as [Hc Ho]. unfold Remove, fs_remove in H.
  destruct (fileClassCounts fs path) as [a b] eqn:Hfc. rewrite file_counts in Hfc. destruct (io_remove d); [|by simplify_eq].
  destruct (fs !! path) as [c|] eqn:Hp; [|by simplify_eq]. injection H as <- <- _. simpl in Hc, Ho.
  split; rewrite (class_sum_delete _ _ _ c), Hfc by done; done.
Qed.

Lemma quarantine_counted s fs path d s' fs' r :
  is_segment path = true → counted s fs → roomy fs → Quarantine s fs path d = (s', fs', r) → counted s' fs'.
Proof.
  intros Hseg Hct Hr H. pose proof (remove_buffered s fs path Hseg Hct Hr) as [Hc Ho]. unfold Quarantine, fs_rename in H.
  destruct (fileClassCounts fs path) as [a b] eqn:Hfc. rewrite file_counts in Hfc. destruct (io_rename d); [|by simplify_eq].
  destruct (fs !! path) as [c|] eqn:Hp; [|by simplify_eq]. injection H as <- <- _. simpl in Hc, Ho.
  assert (∀ pr, class_sum pr (<[quarantine_name path := c]> (delete path fs)) = class_sum pr (delete path fs)) as Hq.
  { intros pr. unfold class_sum. f_equal. apply segments_ext. intros n Hn. apply lookup_insert_ne. by apply not_eq_sym, segment_ne_quarantine. }
  split; rewrite Hq, (class_sum_delete _ _ _ c), Hfc by done; done.
Qed.

Lemma quarantine_append_segments fs path perm w fs1 r : appendEventsFile fs (quarantine_name path) perm w = (fs1, r) → segments fs1 = segments fs.
Proof. intros [H _]%quarantine_append. apply segments_ext. intros n Hn. by apply H, segment_ne_quarantine. Qed.

Lemma resolve_counted s fs path retry perm d s' fs' r :
  is_segment path = true → counted s fs → roomy fs → roomy fs' → ResolveUpload s fs path retry perm d = (s', fs', r) → counted s' fs'.
Proof.
  intros Hseg Hct Hr Hr' H. unfold ResolveUpload in H. case_bool_decide; [by eapply rewrite_counted|].
  destruct (appendEventsFile _ _ _ _) as [fs1 w] eqn:Ha. apply quarantine_append_segments in Ha.
  assert (counted s fs1) as Hct1 by (unfold counted, class_sum; by rewrite Ha).
  assert (roomy fs1) as Hr1 by (unfold roomy, class_sum; by rewrite Ha).
  destruct w; [by eapply rewrite_counted|by simplify_eq].
Qed.

(** ** Well-formed segments *)

Lemma well_formed_ext fs fs' : (∀ n, is_segment n = true → fs' !! n = fs !! n) → well_formed fs → well_formed fs'.
Proof. intros H Hwf n c Hn Hc. rewrite H in Hc by done. by eapply Hwf. Qed.

Lemma well_formed_delete fs path : well_formed fs → well_formed (delete path fs).
Proof. intros Hwf n c Hn [_ Hc]%lookup_delete_Some. by eapply Hwf. Qed.

Lemma rewrite_well_formed s fs path events d s' fs' r :
  is_segment path = true → well_formed fs → rewriteLocked s fs path events d = (s', fs', r) → well_formed fs'.
Proof.
  intros Hseg Hwf H. apply rewrite_cases in H as [(_ & _ & _ & -> & _)|[(_ & _ & c & Hen & -> & _)|(_ & _ & Hsame)]]; [| | |done].
  - by apply well_formed_delete.
  - intros n c' Hn. rewrite lookup_insert_Some. intros [[<- <-]|[_ Hc']]; [by eexists|]. by eapply (well_formed_delete fs).
  - eapply well_formed_ext; [|done]. intros n Hn. by apply Hsame, segment_ne_tmp.
Qed.

Lemma resolve_well_formed s fs path retry perm d s' fs' r :
  is_segment path = true → well_formed fs → ResolveUpload s fs path retry perm d = (s', fs', r) → well_formed fs'.
Proof.
  intros Hseg Hwf H. unfold ResolveUpload in H. case_bool_decide; [by eapply rewrite_well_formed|].
  destruct (appendEventsFile _ _ _ _) as [fs1 w] eqn:Ha. apply quarantine_append in Ha as [Ha _].
  assert (well_formed fs1) by (eapply well_formed_ext; [|done]; intros n Hn; by apply Ha, segment_ne_quarantine).
  destruct w; [by eapply rewrite_well_formed|by simplify_eq].
Qed.

Lemma quarantine_well_formed s fs path d s' fs' r : well_formed fs → Quarantine s fs path d = (s', fs', r) → well_formed fs'.
Proof.
  intros Hwf H. unfold Quarantine, fs_rename in H. destruct (fileClassCounts fs path). destruct (io_rename d); [|by simplify_eq].
  destruct (fs !! path) as [c|]; [|by simplify_eq]. injection H as _ <- _. apply (well_formed_ext (delete path fs)); [|by apply well_formed_delete].
  intros n Hn. apply lookup_insert_ne. by apply not_eq_sym, segment_ne_quarantine.
Qed.

(** ** A new spool counts the files it finds *)

Lemma files_segments fs : Files fs ≡ₚ (map_to_list (segments fs)).*1.
Proof.
  apply NoDup_Permutation.
  - unfold Files, sort_strings. rewrite merge_sort_Permutation. apply NoDup_filter, NoDup_fst_map_to_list.
  - apply NoDup_fst_map_to_list.
  - intros n. unfold Files. rewrite sort_strings_elem, list_elem_of_filter, !list_elem_of_fmap. split.
    + intros (Hn & [k c] & -> & Hk%elem_of_map_to_list). exists (k, c). split; [done|]. by apply elem_of_map_to_list, map_lookup_filter_Some.
    + intros ([k c] & -> & [Hk Hn]%elem_of_map_to_list%map_lookup_filter_Some). split; [done|]. exists (k, c). by rewrite elem_of_map_to_list.
Qed.

Lemma class_sum_files pr fs : class_sum pr fs = sum_list_Z (λ n, pr (fileClassCounts fs n)) (Files fs).
Proof.
  transitivity (sum_list_Z (λ n, pr (fileClassCounts fs n)) (map_to_list (segments fs)).*1).
  2: { by rewrite files_segments. }
  unfold class_sum, map_sum. assert (∀ n c, (n, c) ∈ map_to_list (segments fs) → fileClassCounts fs n = counts_of c) as Hin.
  { intros n c [Hc _]%elem_of_map_to_list%map_lookup_filter_Some. by rewrite file_counts, Hc. }
  induction (map_to_list (segments fs)) as [|[n c] l IH]; [done|]. simpl. rewrite (Hin n c) by set_solver. f_equal. apply IH. set_solver.
Qed.

Lemma read_counts fs n : well_formed fs → is_segment n = true → is_Some (fs !! n) →
  ∃ evs, ReadEvents fs n = Ok evs ∧ eventClassCounts evs = fileClassCounts fs n.
Proof.
  intros Hwf Hn [c Hc]. destruct (Hwf _ _ Hn Hc) as [es Hes]. exists (Some <$> es). unfold ReadEvents. rewrite Hc, file_counts, Hc.
  split; [by apply read_encoded|]. unfold counts_of. by rewrite (decoded_encoded _ _ Hes).
Qed.

Lemma count_files fs l s :
  well_formed fs → (∀ n, n ∈ l → is_segment n = true ∧ is_Some (fs !! n)) →
  bufferedCritical (foldl (count_file fs) s l) mod 2 ^ 64 = (bufferedCritical s + sum_list_Z (λ n, (fileClassCounts fs n).1) l) mod 2 ^ 64
  ∧ bufferedOrdinary (foldl (count_file fs) s l) mod 2 ^ 64 = (bufferedOrdinary s + sum_list_Z (λ n, (fileClassCounts fs n).2) l) mod 2 ^ 64
  ∧ (0 ≤ bufferedCritical s < 2 ^ 64 ∧ 0 ≤ bufferedOrdinary s < 2 ^ 64 →
     0 ≤ bufferedCritical (foldl (count_file fs) s l) < 2 ^ 64 ∧ 0 ≤ bufferedOrdinary (foldl (count_file fs) s l) < 2 ^ 64).
Proof.
  intros Hwf. revert s. induction l as [|n l IH]; intros s Hl; [simpl; rewrite !Z.add_0_r; tauto|]. cbn [foldl].
  destruct (Hl n) as [Hn Hs]; [set_solver|]. destruct (read_counts fs n Hwf Hn Hs) as (evs & Hr & Hc).
  destruct (IH (count_file fs s n)) as (H1 & H2 & H3); [set_solver|]. rewrite H1, H2.
  assert (count_file fs s n = add_buffered s (fileClassCounts fs n).1 (fileClassCounts fs n).2) as Hcf.
  { unfold count_file. rewrite Hr, <- Hc. by destruct (eventClassCounts evs). }
  rewrite Hcf in *. unfold add_buffered in *. cbn [bufferedCritical bufferedOrdinary set_buffered sum_list_Z foldr] in *. unfold wrap_u in *.
  rewrite !Zplus_mod_idemp_l. split_and!; [f_equal; unfold sum_list_Z; lia..|].
  intros _. apply H3. split; apply Z.mod_pos_bound; lia.
Qed.

Lemma new_spool_counted fs : well_formed fs → roomy fs → counted (NewSpool fs) fs.
Proof.
  intros Hwf [Hr1 Hr2]. unfold NewSpool. set (s0 := mkSpool _ _ _ _ _ _ _ _).
  destruct (count_files fs (Files fs) s0 Hwf) as (H1 & H2 & H3).
  { intros n Hn. unfold Files in Hn. rewrite sort_strings_elem, list_elem_of_filter, list_elem_of_fmap in Hn.
    destruct Hn as (? & [k c] & -> & Hk%elem_of_map_to_list). split; [done|by exists c]. }
  destruct H3 as [H3 H4]; [done|]. rewrite (Z.mod_small _ _ H3) in H1. rewrite (Z.mod_small _ _ H4) in H2.
  rewrite (class_sum_files fst), (class_sum_files snd) in *.
  assert (∀ pr, (∀ p, 0 ≤ (eventClassCounts p).1 ∧ 0 ≤ (eventClassCounts p).2) → (pr = fst ∨ pr = snd) →
            0 ≤ sum_list_Z (λ n, pr (fileClassCounts fs n)) (Files fs)) as Hpos.
  { intros pr Hp Hpr. apply sum_list_Z_nonneg. intros n _. rewrite file_counts. destruct (fs !! n) as [c|]; [|by destruct Hpr as [->| ->]].
    unfold counts_of. destruct (Hp (decoded c)), Hpr as [->| ->]; done. }
  assert (∀ p, 0 ≤ (eventClassCounts p).1 ∧ 0 ≤ (eventClassCounts p).2) as Hp by (intros p; pose proof (class_counts_range p); lia).
  pose proof (Hpos fst Hp (or_introl eq_refl)). pose proof (Hpos snd Hp (or_intror eq_refl)).
  unfold counted. rewrite (class_sum_files fst), (class_sum_files snd). simpl in H1, H2. rewrite Z.mod_small in H1, H2 by lia. by rewrite H1, H2.
Qed.

(** ** Histories *)

(** Operations on a spool, with any disk failure except a torn append. *)
Inductive spool_step : Spool → files → Spool → files → Prop :=
  | step_append s fs e now s' fs' r : Append s fs e now DiskOk = (s', fs', r) → spool_step s fs s' fs'
  | step_remove s fs path d s' fs' r : is_segment path = true → Remove s fs path d = (s', fs', r) → spool_step s fs s' fs'
  | step_rewrite s fs path evs d s' fs' r : is_segment path = true → Rewrite s fs path evs d = (s', fs', r) → spool_step s fs s' fs'
  | step_resolve s fs path retry perm d s' fs' r :
      is_segment path = true → ResolveUpload s fs path retry perm d = (s', fs', r) → spool_step s fs s' fs'
  | step_quarantine s fs path d s' fs' r : is_segment path = true → Quarantine s fs path d = (s', fs', r) → spool_step s fs s' fs'
  | step_restart s fs : spool_step s fs (NewSpool fs) fs.

Inductive spool_reachable : Spool → files → Prop :=
  | reachable_new fs : well_formed fs → roomy fs → spool_reachable (NewSpool fs) fs
  | reachable_step s fs s' fs' : spool_reachable s fs → spool_step s fs s' fs' → roomy fs' → spool_reachable s' fs'.

Lemma spool_reachable_ok s fs : spool_reachable s fs → well_formed fs ∧ roomy fs ∧ counted s fs.
Proof.
  induction 1 as [fs Hwf Hr|s fs s' fs' _ (Hwf & Hr & Hct) Hstep Hr']; [auto using new_spool_counted|].
  split_and!; [|done|].
  - destruct Hstep; [by eapply append_well_formed|..|done]; [|by eapply rewrite_well_formed|by eapply resolve_well_formed|by eapply quarantine_well_formed].
    match goal with H : Remove _ _ _ _ = _ |- _ => apply remove_loses in H as [[_ ->]| ->] end; auto using well_formed_delete.
  - destruct Hstep; [by eapply append_counted|by eapply remove_counted|by eapply rewrite_counted|by eapply resolve_counted
                    |by eapply quarantine_counted|by apply new_spool_counted].
Qed.

(** In every history of appends, uploads, quarantines and restarts, whatever the disk does short of tearing an
    append, every segment can be read and the counters of the spool are the numbers of critical and ordinary events the
    segments hold. *)
Theorem spool_counts_exact s fs :
  spool_reachable s fs →
  (∀ n, n ∈ Files fs → ∃ evs, ReadEvents fs n = Ok evs ∧ eventClassCounts evs = fileClassCounts fs n)
  ∧ bufferedCritical s = sum_list_Z (λ n, (fileClassCounts fs n).1) (Files fs)
  ∧ bufferedOrdinary s = sum_list_Z (λ n, (fileClassCounts fs n).2) (Files fs).
Proof.
  intros (Hwf & _ & Hc & Ho)%spool_reachable_ok. rewrite Hc, Ho, !class_sum_files. split_and!; [|done..].
  intros n Hn. unfold Files in Hn. rewrite sort_strings_elem, list_elem_of_filter, list_elem_of_fmap in Hn.
  destruct Hn as (Hseg & [k c] & -> & Hk%elem_of_map_to_list). apply read_counts; [done..|by exists c].
Qed.
End proofs.

(** ** Two events *)

Module Demo.

Definition e1 : Event := mkEvent "1" VERDICT_ALLOW [] false OBSERVATION_STATE_SYNC_NO_DETECTION "".
Definition e2 : Event := mkEvent "2" VERDICT_BLOCK ["d"] false OBSERVATION_STATE_SYNC_DETECTED "".

#[global] Instance wire : EventWire := {|
  marshal_event e := if bool_decide (e = e1) then Ok "{1}" else if bool_decide (e = e2) then Ok "{2}" else Err "unsupported";
  unmarshal_event s := if bool_decide (s = "{1}") then Ok e1 else if bool_decide (s = "{2}") then Ok e2 else Err "syntax";
|}.

#[global] Instance wire_laws : EventWireLaws wire.
Proof.
  split; intros e raw; simpl; repeat case_bool_decide; intros [= <-]; subst; try done; [by exists "1"|by exists "2"].
Qed.

#[global] Instance unicode : Unicode := ascii_only_unicode.

Definition file : string := segment_name 0.
Definition fs : files := {[ file := "{1}" +:+ NL ]}.

Lemma fs_well_formed : well_formed fs.
Proof. intros n c _ H. unfold fs in H. apply lookup_singleton_Some in H as [<- <-]. exists [e1]. by apply encoded_one. Qed.

Lemma fs_roomy : roomy fs.
Proof. split; vm_compute; reflexivity. Qed.

(** The server keeps the first event. *)
Definition accepts : list (option Event) → result (option UploadEventsResponse) := λ _, Ok (Some []).
Definition retries : list (option Event) → result (option UploadEventsResponse) := λ _, Ok (Some [Some (mkRejected "1" "busy")]).

Definition st (x : Spool * files * result unit) : Spool := fst (fst x).
Definition fl (x : Spool * files * result unit) : files := snd (fst x).
End Demo.

Lemma upload_keeps_unacknowledged_witness :
  kept_in Demo.fs Demo.file Demo.e1
  ∧ let x := upload_file Demo.fs (NewSpool Demo.fs) Demo.fs Demo.file (Some Demo.retries) io_fine in
    acknowledged Demo.retries Demo.e1 ∨ kept_in (Demo.fl x) Demo.file Demo.e1 ∨ quarantined (Demo.fl x) Demo.file Demo.e1.
Proof.
  assert (kept_in Demo.fs Demo.file Demo.e1) as Hk.
  { exists [Some Demo.e1]. split; [vm_compute; reflexivity|constructor]. }
  split; [exact Hk|].
  cbv zeta. set (x := upload_file _ _ _ _ _ _).
  apply (upload_keeps_unacknowledged (NewSpool Demo.fs) Demo.fs Demo.file Demo.retries io_fine (Demo.st x) (Demo.fl x) (snd x));
    [exact Demo.fs_well_formed|apply segment_name_segment| |exact Hk].
  fold x. rewrite (surjective_pairing x) at 1. rewrite (surjective_pairing (fst x)) at 1. reflexivity.
Defined.

Lemma upload_race_drops_event_witness :
  let a := Append (NewSpool Demo.fs) Demo.fs Demo.e2 0 DiskOk in
  let x := upload_file Demo.fs (Demo.st a) (Demo.fl a) Demo.file (Some Demo.accepts) io_fine in
  snd a = Ok tt ∧ snd x = Ok tt ∧ kept_in (Demo.fl a) Demo.file Demo.e2 ∧ ¬ kept_in (Demo.fl x) Demo.file Demo.e2.
Proof.
  cbv zeta. set (a := Append _ _ _ _ _). set (x := upload_file _ _ _ _ _ _).
  assert (snd a = Ok tt) as Ha by (vm_compute; reflexivity). assert (snd x = Ok tt) as Hx by (vm_compute; reflexivity).
  split; [exact Ha|]. split; [exact Hx|].
  destruct (upload_race_drops_event (NewSpool Demo.fs) Demo.fs 0 [Some Demo.e1] Demo.e2 (Demo.st a) (Demo.fl a) Demo.accepts [] io_fine (Demo.st x) (Demo.fl x))
    as (H1 & H2 & _).
  - exact Demo.fs_well_formed.
  - vm_compute. reflexivity.
  - discriminate.
  - vm_compute. lia.
  - reflexivity.
  - intros [H|H%elem_of_nil]%elem_of_cons; [discriminate H|done].
  - fold a. rewrite (surjective_pairing a), (surjective_pairing (fst a)), Ha. reflexivity.
  - change (segment_name 0) with Demo.file. fold x. rewrite (surjective_pairing x), (surjective_pairing (fst x)), Hx. reflexivity.
  - split; [exact H1|exact H2].
Defined.

Lemma spool_counts_exact_witness :
  bufferedOrdinary (NewSpool Demo.fs) = 1
  ∧ bufferedOrdinary (NewSpool Demo.fs) = sum_list_Z (λ n, (fileClassCounts Demo.fs n).2) (Files Demo.fs).
Proof.
  split; [vm_compute; reflexivity|].
  exact (proj2 (proj2 (spool_counts_exact (NewSpool Demo.fs) Demo.fs (reachable_new Demo.fs Demo.fs_well_formed Demo.fs_roomy)))).
Defined.
