(* ===== verification/EvidenceRing.v ===== *)
(** * The local evidence ring

    [lib/edgecore/evidence.go]: raw evidence kept in memory for a limited time, within a
    number of entries and of bytes, the oldest entries evicted first.  The order in which Go
    walks the map is an argument of the operations that do. *)

From S2P Require Import Prelude GoStrings.

Record evidenceItem := mkEvidence { ei_raw : string; ei_exp : time }.

Record EvidenceRing := mkRing {
  er_ttl : duration; er_maxEntries : Z; er_maxBytes : Z; er_bytes : Z; er_order : list string; er_items : gmap string evidenceItem }.

Definition EvidenceRingTTL : duration := 15 * Minute.
Definition EvidenceRingMaxEntries : Z := 1024.
Definition EvidenceRingMaxBytes : Z := 32 * 2 ^ 20.

Definition NewEvidenceRing : EvidenceRing := mkRing EvidenceRingTTL EvidenceRingMaxEntries EvidenceRingMaxBytes 0 [] ∅.

Definition set_ring (r : EvidenceRing) (bytes : Z) (order : list string) (items : gmap string evidenceItem) : EvidenceRing :=
  mkRing (er_ttl r) (er_maxEntries r) (er_maxBytes r) bytes order items.

(** The first occurrence is removed. *)
Fixpoint remove_first (id : string) (order : list string) : list string :=
  match order with
  | [] => []
  | k :: order => if bool_decide (k = id) then order else k :: remove_first id order
  end.

Definition removeOrder (r : EvidenceRing) (id : string) : EvidenceRing :=
  set_ring r (er_bytes r) (remove_first id (er_order r)) (er_items r).

Definition gc_key (now : time) (r : EvidenceRing) (k : string) : EvidenceRing :=
  match er_items r !! k with
  | None => r
  | Some it =>
      if negb (time_after (ei_exp it) now)
      then removeOrder (set_ring r (er_bytes r - str_len (ei_raw it)) (er_order r) (delete k (er_items r))) k
      else r
  end.

Definition gc (r : EvidenceRing) (walk : list string) (now : time) : EvidenceRing := foldl (gc_key now) r walk.

Definition ring_over (r : EvidenceRing) : bool :=
  ((0 <? er_maxEntries r) && (er_maxEntries r <? Z.of_nat (size (er_items r)))) || ((0 <? er_maxBytes r) && (er_maxBytes r <? er_bytes r)).

Fixpoint evict (order : list string) (r : EvidenceRing) : EvidenceRing :=
  if ring_over r then
    match order with
    | [] => r
    | oldest :: order' =>
        match er_items r !! oldest with
        | Some it => evict order' (set_ring r (er_bytes r - str_len (ei_raw it)) order' (delete oldest (er_items r)))
        | None => evict order' (set_ring r (er_bytes r) order' (er_items r))
        end
    end
  else r.

Definition Put (r : EvidenceRing) (walk : list string) (id raw : string) (now : time) : EvidenceRing :=
  if bool_decide (id = "") then r else
  let r := gc r walk now in
  let r := match er_items r !! id with
           | Some old => removeOrder (set_ring r (er_bytes r - str_len (ei_raw old)) (er_order r) (er_items r)) id
           | None => r
           end in
  let r := set_ring r (er_bytes r + str_len raw) (er_order r ++ [id]) (<[id := mkEvidence raw (now + er_ttl r)]> (er_items r)) in
  evict (er_order r) r.

Definition Get (r : EvidenceRing) (walk : list string) (id : string) (now : time) : EvidenceRing * option string :=
  let r := gc r walk now in
  match er_items r !! id with
  | None => (r, None)
  | Some it => (r, if negb (time_after (ei_exp it) now) then None else Some (ei_raw it))
  end.

(** ** Consistency *)

Record ring_ok (r : EvidenceRing) : Prop := {
  rok_nodup : NoDup (er_order r);
  rok_order k : k ∈ er_order r ↔ is_Some (er_items r !! k);
  rok_bytes : er_bytes r = map_sum (λ it, str_len (ei_raw it)) (er_items r) }.

Lemma remove_first_filter id order : NoDup order → remove_first id order = filter (λ k, k ≠ id) order.
Proof.
  induction 1 as [|k order Hk Hn IH]; [done|]. simpl. case_bool_decide as E.
  - subst. rewrite filter_cons_False by tauto. symmetry. apply filter_Forall, Forall_forall. intros x Hx ->. done.
  - rewrite filter_cons_True by done. by f_equal.
Qed.

(** Dropping one entry. *)
Lemma ring_drop_ok r k it :
  ring_ok r → er_items r !! k = Some it →
  ring_ok (removeOrder (set_ring r (er_bytes r - str_len (ei_raw it)) (er_order r) (delete k (er_items r))) k).
Proof.
  intros [Hn Ho Hb] Hk. split; simpl; rewrite ?remove_first_filter by done.
  - by apply NoDup_filter.
  - intros x. rewrite list_elem_of_filter, Ho, lookup_delete_is_Some. naive_solver.
  - rewrite (map_sum_delete _ _ _ it Hk). by rewrite Hb.
Qed.

Lemma gc_key_ok now r k : ring_ok r → ring_ok (gc_key now r k).
Proof. intros Hr. unfold gc_key. destruct (er_items r !! k) eqn:Hk; [|done]. destruct (negb _); [by apply ring_drop_ok|done]. Qed.

Lemma gc_ok walk now r : ring_ok r → ring_ok (gc r walk now).
Proof. unfold gc. revert r. induction walk as [|k walk IH]; intros r Hr; [done|]. apply IH. by apply gc_key_ok. Qed.

(** The limits never change; what is kept and not expired is not touched by [gc]. *)
Definition same_limits (r r' : EvidenceRing) : Prop := er_ttl r' = er_ttl r ∧ er_maxEntries r' = er_maxEntries r ∧ er_maxBytes r' = er_maxBytes r.

Lemma gc_same walk now r : same_limits r (gc r walk now).
Proof.
  unfold gc. revert r. induction walk as [|k walk IH]; intros r; [done|]. simpl. destruct (IH (gc_key now r k)) as (H1 & H2 & H3).
  assert (same_limits r (gc_key now r k)) as (?&?&?).
  { unfold gc_key. destruct (er_items r !! k); [|done]. by destruct (negb _). }
  split_and!; congruence.
Qed.

Lemma gc_lookup walk now r id it :
  er_items (gc r walk now) !! id = Some it → er_items r !! id = Some it.
Proof.
  unfold gc. revert r. induction walk as [|k walk IH]; intros r H; [done|]. apply IH in H. unfold gc_key in H.
  destruct (er_items r !! k); [|done]. destruct (negb _); [|done]. simpl in H. by apply lookup_delete_Some in H as [_ H].
Qed.

Lemma gc_keeps walk now r id it :
  er_items r !! id = Some it → now < ei_exp it → er_items (gc r walk now) !! id = Some it.
Proof.
  unfold gc. revert r. induction walk as [|k walk IH]; intros r H Hexp; [done|]. simpl. apply IH; [|done]. unfold gc_key.
  destruct (er_items r !! k) as [it'|] eqn:Hk; [|done]. destruct (time_after (ei_exp it') now) eqn:Ht; [done|]. simpl.
  rewrite lookup_delete_ne; [done|]. intros ->. simplify_eq. unfold time_after in Ht. lia.
Qed.

(** With every key walked, nothing expired is left. *)
Lemma gc_fresh walk now r id it :
  (∀ k, is_Some (er_items r !! k) → k ∈ walk) → er_items (gc r walk now) !! id = Some it → now < ei_exp it.
Proof.
  assert (∀ walk r, er_items (gc r walk now) !! id = Some it → id ∈ walk → now < ei_exp it) as Hw.
  { clear walk r. intros walk r. unfold gc. revert r. induction walk as [|k walk IH]; intros r H Hin; [by apply elem_of_nil in Hin|].
    destruct (decide (id ∈ walk)) as [Hw|Hw]; [by eapply IH|]. apply elem_of_cons in Hin as [<-|]; [|done].
    simpl in H. fold (gc (gc_key now r id) walk now) in H. apply gc_lookup in H. unfold gc_key in H.
    destruct (er_items r !! id) as [it'|] eqn:Hk; [|congruence]. destruct (time_after (ei_exp it') now) eqn:Ht; simpl in H.
    - simplify_eq. unfold time_after in Ht. lia.
    - by rewrite lookup_delete_eq in H. }
  intros Hall H. eapply Hw; [done|]. apply Hall. eexists. by eapply gc_lookup.
Qed.

Lemma evict_ok order r : ring_ok r → er_order r = order → ring_ok (evict order r).
Proof.
  revert r. induction order as [|k order IH]; intros r Hr Ho; simpl; destruct (ring_over r); try done.
  destruct (er_items r !! k) as [it|] eqn:Hk.
  - apply IH; [|done]. pose proof (ring_drop_ok r k it Hr Hk) as H. unfold removeOrder in H. simpl in H. rewrite Ho in H. simpl in H.
    by rewrite bool_decide_eq_true_2 in H by done.
  - exfalso. assert (is_Some (er_items r !! k)) as [? ?] by (apply (rok_order _ Hr); rewrite Ho; set_solver). congruence.
Qed.

Lemma evict_within order r :
  ring_ok r → er_order r = order → ring_over (evict order r) = false.
Proof.
  revert r. induction order as [|k order IH]; intros r Hr Ho; simpl; destruct (ring_over r) eqn:Hov; try done.
  - assert (er_items r = ∅) as Hi.
    { apply map_eq. intros k. rewrite lookup_empty. apply eq_None_not_Some. rewrite <- (rok_order _ Hr), Ho. set_solver. }
    unfold ring_over in Hov. rewrite (rok_bytes _ Hr), Hi, map_sum_empty in Hov. rewrite map_size_empty in Hov. breflect. lia.
  - destruct (er_items r !! k) as [it|] eqn:Hk.
    + apply IH; [|done]. pose proof (ring_drop_ok r k it Hr Hk) as H. unfold removeOrder in H. simpl in H. rewrite Ho in H. simpl in H.
      by rewrite bool_decide_eq_true_2 in H by done.
    + exfalso. assert (is_Some (er_items r !! k)) as [? ?] by (apply (rok_order _ Hr); rewrite Ho; set_solver). congruence.
Qed.

Lemma evict_same order r : same_limits r (evict order r).
Proof.
  revert r. induction order as [|k order IH]; intros r; simpl; destruct (ring_over r); try done.
  destruct (er_items r !! k); [destruct (IH (set_ring r (er_bytes r - str_len (ei_raw e)) order (delete k (er_items r)))) as (?&?&?)
    |destruct (IH (set_ring r (er_bytes r) order (er_items r))) as (?&?&?)]; by split_and!.
Qed.

Lemma evict_keeps_last pre id r it :
  ring_ok r → er_order r = pre ++ [id] → er_items r !! id = Some it → 0 < er_maxEntries r → str_len (ei_raw it) ≤ er_maxBytes r →
  er_items (evict (er_order r) r) !! id = Some it.
Proof.
  intros Hr Ho Hit He Hb. rewrite Ho. revert r Hr Ho Hit He Hb. induction pre as [|k pre IH]; intros r Hr Ho Hit He Hb; simpl.
  - assert (er_items r = {[id := it]}) as Hi.
    { apply map_eq. intros k. destruct (decide (k = id)) as [->|Hne]; [by rewrite lookup_singleton_eq|]. rewrite lookup_singleton_ne by done.
      apply eq_None_not_Some. rewrite <- (rok_order _ Hr), Ho. set_solver. }
    assert (ring_over r = false) as ->; [|done]. unfold ring_over. rewrite (rok_bytes _ Hr), Hi, map_size_singleton.
    assert (map_sum (λ it, str_len (ei_raw it)) ({[id := it]} : gmap string evidenceItem) = str_len (ei_raw it)) as ->.
    { rewrite <- insert_empty, map_sum_insert, map_sum_empty by apply lookup_empty. lia. }
    apply orb_false_iff. rewrite !andb_false_iff, !Z.ltb_ge. lia.
  - destruct (ring_over r); [|done]. pose proof (rok_nodup _ Hr) as Hn. rewrite Ho in Hn. simpl in Hn.
    apply NoDup_cons in Hn as [Hk _]. assert (k ≠ id) by set_solver.
    destruct (er_items r !! k) as [it'|] eqn:Hk'.
    + apply IH; try done.
      * pose proof (ring_drop_ok r k it' Hr Hk') as H'. unfold removeOrder in H'. simpl in H'. rewrite Ho in H'. simpl in H'.
        by rewrite bool_decide_eq_true_2 in H' by done.
      * simpl. by rewrite lookup_delete_ne.
    + exfalso. assert (is_Some (er_items r !! k)) as [? ?] by (apply (rok_order _ Hr); rewrite Ho; set_solver). congruence.
Qed.

(** The ring just before [Put] evicts. *)
Definition put_entry (r : EvidenceRing) (walk : list string) (id raw : string) (now : time) : EvidenceRing :=
  let r := gc r walk now in
  let r := match er_items r !! id with
           | Some old => removeOrder (set_ring r (er_bytes r - str_len (ei_raw old)) (er_order r) (er_items r)) id
           | None => r
           end in
  set_ring r (er_bytes r + str_len raw) (er_order r ++ [id]) (<[id := mkEvidence raw (now + er_ttl r)]> (er_items r)).

Lemma put_unfold r walk id raw now :
  id ≠ "" → Put r walk id raw now = evict (er_order (put_entry r walk id raw now)) (put_entry r walk id raw now).
Proof. intros H. unfold Put. by rewrite bool_decide_eq_false_2. Qed.

Lemma put_entry_same r walk id raw now : same_limits r (put_entry r walk id raw now).
Proof.
  unfold put_entry. destruct (gc_same walk now r) as (?&?&?). destruct (er_items (gc r walk now) !! id); by split_and!.
Qed.

Lemma put_entry_ok r walk id raw now : ring_ok r → ring_ok (put_entry r walk id raw now).
Proof.
  intros Hr. unfold put_entry. pose proof (gc_ok walk now r Hr) as [Hn Ho Hb]. set (g := gc r walk now) in *.
  destruct (er_items g !! id) as [old|] eqn:Hold.
  - split; simpl; rewrite ?remove_first_filter by done.
    + apply NoDup_app. split_and!; [by apply NoDup_filter| |apply NoDup_singleton]. intros x. rewrite list_elem_of_filter. set_solver.
    + intros x. rewrite elem_of_app, list_elem_of_filter, list_elem_of_singleton, Ho, lookup_insert_is_Some.
      destruct (decide (x = id)) as [->|]; naive_solver.
    + rewrite (map_sum_update _ _ _ old) by done. rewrite Hb. simpl. lia.
  - split; simpl.
    + apply NoDup_app. split_and!; [done| |apply NoDup_singleton]. intros x Hx ->%list_elem_of_singleton. apply Ho in Hx as [? ?]. congruence.
    + intros x. rewrite elem_of_app, list_elem_of_singleton, Ho, lookup_insert_is_Some. destruct (decide (x = id)) as [->|]; naive_solver.
    + rewrite map_sum_insert by done. rewrite Hb. simpl. lia.
Qed.

Lemma put_entry_last r walk id raw now :
  ∃ pre, er_order (put_entry r walk id raw now) = pre ++ [id]
         ∧ er_items (put_entry r walk id raw now) !! id = Some (mkEvidence raw (now + er_ttl r)).
Proof.
  unfold put_entry. destruct (gc_same walk now r) as (Ht & _).
  destruct (er_items (gc r walk now) !! id); eexists; (split; [done|]); simpl; by rewrite lookup_insert_eq, Ht.
Qed.

Definition ring_limits (r : EvidenceRing) : Prop :=
  er_ttl r = EvidenceRingTTL ∧ er_maxEntries r = EvidenceRingMaxEntries ∧ er_maxBytes r = EvidenceRingMaxBytes.

Inductive ring_reachable : EvidenceRing → Prop :=
  | ring_new : ring_reachable NewEvidenceRing
  | ring_put r walk id raw now : ring_reachable r → ring_reachable (Put r walk id raw now)
  | ring_get r walk id now : ring_reachable r → ring_reachable (Get r walk id now).1.

Lemma get_ring r walk id now : (Get r walk id now).1 = gc r walk now.
Proof. unfold Get. by destruct (er_items _ !! id). Qed.

Lemma same_limits_trans r s t : same_limits r s → same_limits s t → same_limits r t.
Proof. intros (?&?&?) (?&?&?). split_and!; congruence. Qed.

Lemma gc_key_within now r k : ring_ok r → ring_over r = false → ring_over (gc_key now r k) = false.
Proof.
  intros Hr Hov. unfold gc_key. destruct (er_items r !! k) as [it|] eqn:Hk; [|done]. destruct (negb _); [|done].
  unfold ring_over in *. simpl. rewrite map_size_delete_Some by (by eexists). pose proof (str_len_nonneg (ei_raw it)).
  apply orb_false_iff in Hov. rewrite !andb_false_iff, !Z.ltb_ge in Hov. apply orb_false_iff. rewrite !andb_false_iff, !Z.ltb_ge. lia.
Qed.

Lemma gc_within walk now r : ring_ok r → ring_over r = false → ring_over (gc r walk now) = false.
Proof.
  unfold gc. revert r. induction walk as [|k walk IH]; intros r Hr Hov; [done|]. simpl. apply IH; [by apply gc_key_ok|by apply gc_key_within].
Qed.

Lemma ring_reachable_ok r : ring_reachable r → ring_ok r ∧ ring_limits r ∧ ring_over r = false.
Proof.
  induction 1 as [|r walk id raw now _ (Hr & Hlim & Hov)|r walk id now _ (Hr & Hlim & Hov)].
  - split_and!; try done. split; simpl; [constructor|intros k; rewrite lookup_empty; split; [by intros ?%elem_of_nil|by intros [??]]|by rewrite map_sum_empty].
  - destruct (decide (id = "")) as [->|Hid]; [done|]. rewrite put_unfold by done.
    pose proof (put_entry_ok r walk id raw now Hr) as Hp. split_and!; [by apply evict_ok| |by apply evict_within].
    destruct (same_limits_trans _ _ _ (put_entry_same r walk id raw now) (evict_same (er_order (put_entry r walk id raw now)) _)) as (?&?&?).
    destruct Hlim as (?&?&?). split_and!; congruence.
  - rewrite get_ring. destruct (gc_same walk now r) as (?&?&?). destruct Hlim as (?&?&?).
    split; [by apply gc_ok|]. split; [split_and!; congruence|]. by apply gc_within.
Qed.

(** After any writes and reads, in whatever order Go walks the map, the ring holds at most 1024 entries and 32 MiB,
    its byte count is that of the entries, and its eviction order lists each entry once. *)
Theorem evidence_ring_bounded r :
  ring_reachable r →
  Z.of_nat (size (er_items r)) ≤ EvidenceRingMaxEntries ∧ er_bytes r ≤ EvidenceRingMaxBytes
  ∧ er_bytes r = map_sum (λ it, str_len (ei_raw it)) (er_items r)
  ∧ NoDup (er_order r) ∧ ∀ k, k ∈ er_order r ↔ is_Some (er_items r !! k).
Proof.
  intros ([Hn Ho Hb] & (_ & He & Hm) & Hov)%ring_reachable_ok. unfold ring_over in Hov. rewrite He, Hm in Hov.
  apply orb_false_iff in Hov. rewrite !andb_false_iff, !Z.ltb_ge in Hov. unfold EvidenceRingMaxEntries, EvidenceRingMaxBytes in *.
  split_and!; [lia|lia|done|done|apply Ho].
Qed.

(** Evidence that fits is readable from the moment it is put until its time to live ends, and not after. *)
Theorem evidence_latest_readable r walk id raw now walk' now' :
  ring_reachable r → id ≠ "" → str_len raw ≤ EvidenceRingMaxBytes →
  (Get (Put r walk id raw now) walk' id now').2 = if now' <? now + EvidenceRingTTL then Some raw else None.
Proof.
  intros (Hr & (Ht & He & Hm) & _)%ring_reachable_ok Hid Hraw. rewrite put_unfold by done.
  destruct (put_entry_last r walk id raw now) as (pre & Ho & Hi). destruct (put_entry_same r walk id raw now) as (_ & E1 & E2).
  pose proof (evict_keeps_last pre id (put_entry r walk id raw now) _ (put_entry_ok r walk id raw now Hr) Ho Hi) as Hk.
  rewrite E1, E2, He, Hm in Hk. specialize (Hk ltac:(done) Hraw). rewrite Ht in Hk. set (p := evict _ _) in *.
  unfold Get. destruct (Z.ltb_spec now' (now + EvidenceRingTTL)) as [Hlt|Hge].
  - rewrite (gc_keeps walk' now' p id _ Hk) by done. simpl. unfold time_after. by rewrite (proj2 (Z.ltb_lt _ _) Hlt).
  - destruct (er_items (gc p walk' now') !! id) as [it|] eqn:Hg; [|done]. apply gc_lookup in Hg. simplify_eq. simpl. unfold time_after.
    by rewrite (proj2 (Z.ltb_ge _ _) Hge).
Qed.

Lemma evidence_ring_bounded_witness :
  let r := Put (Put NewEvidenceRing [] "a" "x" 0) ["a"] "b" "yz" 1 in
  er_bytes r = 3 ∧ Z.of_nat (size (er_items r)) ≤ EvidenceRingMaxEntries.
Proof.
  split; [vm_compute; reflexivity|]. apply evidence_ring_bounded. apply ring_put, ring_put, ring_new.
Defined.

Lemma evidence_latest_readable_witness :
  (Get (Put NewEvidenceRing [] "a" "q=1" 0) ["a"] "a" Minute).2 = Some "q=1"
  ∧ (Get (Put NewEvidenceRing [] "a" "q=1" 0) [] "a" Hour).2 = None.
Proof.
  split.
  - rewrite (evidence_latest_readable NewEvidenceRing [] "a" "q=1" 0 ["a"] Minute ring_new); [vm_compute; reflexivity|discriminate|vm_compute; discriminate].
  - rewrite (evidence_latest_readable NewEvidenceRing [] "a" "q=1" 0 [] Hour ring_new); [vm_compute; reflexivity|discriminate|vm_compute; discriminate].
Defined.
