(* ===== verification/EdgeProxy.v ===== *)
(** * The edge request handlers

    [lib/edgecore/source.go], [proxy.go] and [release_proxy.go]: where a request comes from,
    how its body is read for inspection and put back, and the handlers that canonicalise,
    inspect, gate, record and then answer or forward a request, with the rewriting of what is
    forwarded.

    A handler is one function from the proxy state and a request to the new state and an
    outcome; the clock, the request identifier, the order of map walks and slice capacities of
    one call are its [call].  The state is read once per call.  [None] is a panic (of the model
    ingress queue).  Address parsing is the parameter class [NetAddr]; which headers and query
    parameters [httputil.ReverseProxy] leaves out of the outgoing copy is the class
    [OutboundCopy]. *)

From stdpp Require Import pretty.
From S2P Require Import Prelude GoStrings Contracts Signing Canonical Shape Policy Rules Gate ModelContracts ListenPlan ReleaseSet ModelIngress EvidenceRing.

(** ** HTTP requests *)

(** A body is read from the connection: the bytes that arrive, and whether they end with an
    error (which later reads repeat) instead of the end of the body. *)
Record BodyReader := mkBody { body_data : string; body_error : bool }.
Record HttpRequest := mkHttpRequest {
  r_Method : string; r_Path : string; r_RawQuery : string; r_Header : headers; r_Host : string; r_ContentLength : Z;
  r_Body : option BodyReader; r_RemoteAddr : string; r_TLS : bool }.

(** The upstream's URL, and the request sent there. *)
Record Url := mkUrl { u_Scheme : string; u_Host : string; u_Path : string; u_RawQuery : string }.
Record OutRequest := mkOutRequest {
  o_URL : Url; o_Method : string; o_Header : headers; o_Host : string; o_ContentLength : Z; o_Body : option BodyReader }.

(** A response, or the request sent to the upstream; both after the response headers set so far. *)
Inductive Outcome :=
  | Respond (code : Z) (h : list (string * string)) (body : string)
  | Upstream (h : list (string * string)) (r : OutRequest).

Definition EdgeInFlight : Z := 4096.

(** [headers.Values(name)] for a canonical name. *)
Definition header_values (h : headers) (name : string) : list string := default [] (h !! name).

(** ** The source of a request (source.go) *)

(** [netip.ParseAddr]: the unmapped address, printed, and its zone; [netip.Prefix.Contains]. *)
Class NetAddr := {
  parse_addr : string → option (string * string);
  prefix_contains : string → string → bool;
}.

Section source.
Context {N : NetParse} {A : NetAddr}.

Record ClientSourceResolver := mkResolver { trusted : list string }.

Fixpoint parse_prefixes (raws : list string) : result (list string) :=
  match raws with
  | [] => Ok []
  | raw :: raws =>
      match parse_prefix raw with
      | None => Err "parse normalized trusted proxy cidr"
      | Some (_, p) => let! ps := parse_prefixes raws in Ok (p :: ps)
      end
  end.

Definition NewClientSourceResolver (cidrs : list string) : result ClientSourceResolver :=
  let! normalized := NormalizeTrustedProxyCIDRs cidrs in
  let! ps := parse_prefixes normalized in
  Ok (mkResolver ps).

(** The zero address is the empty string. *)
Definition source_contains (r : option ClientSourceResolver) (addr : string) : bool :=
  match r with
  | None => false
  | Some r => if bool_decide (addr = "") then false else existsb (λ p, prefix_contains p addr) (trusted r)
  end.

Definition parsePeerAddress (raw : string) : string * bool :=
  let raw := trim_space raw in
  let via_port :=
    match split_host_port raw with
    | None => (EmptyString, false)
    | Some (host, _) =>
        match parse_addr host with
        | Some (addr, zone) => if bool_decide (zone = "") then (addr, true) else (EmptyString, false)
        | None => (EmptyString, false)
        end
    end in
  match parse_addr raw with
  | Some (addr, zone) => if bool_decide (zone = "") then (addr, true) else via_port
  | None => via_port
  end.

(** The hops of the header, or [None] when one of them is not an address. *)
Definition parse_hop (part : string) : option string :=
  let part := trim_space part in
  match parse_addr part with
  | Some (addr, zone) => if bool_decide (part = "") || negb (bool_decide (zone = "")) then None else Some addr
  | None => None
  end.

Definition forwarded_chain (values : list string) : option (list string) :=
  mapM parse_hop (values ≫= split_byte ","%char).

(** From the last hop backwards, the first that is not trusted; the first of the chain when all are. *)
Fixpoint last_untrusted (r : option ClientSourceResolver) (rev_chain : list string) (source : string) : string :=
  match rev_chain with
  | [] => source
  | hop :: rest => if source_contains r hop then last_untrusted r rest hop else hop
  end.

Definition Resolve (r : option ClientSourceResolver) (remoteAddress : string) (h : headers) : string :=
  let '(direct, ok) := parsePeerAddress remoteAddress in
  if negb ok || negb (source_contains r direct) then direct
  else
    match header_values h "X-Forwarded-For" with
    | [] => direct
    | values =>
        match forwarded_chain values with
        | None => direct
        | Some chain => last_untrusted r (reverse chain) direct
        end
    end.
End source.

(** ** Reading the body (proxy.go) *)

(** The inspected bytes, whether the body exceeds the limit, the known total, and the request
    with its body put back.  The error of [io.ReadAll] is ignored: of a body that breaks off
    within the limit the part that arrived is inspected. *)
Definition readInspectionBody (r : HttpRequest) : string * bool * Z * HttpRequest :=
  match r_Body r with
  | None => (EmptyString, false, 0, r)
  | Some (mkBody raw failing) =>
      let limit := EngineBodyLimitBytes in
      let oversize := limit <? r_ContentLength r in
      let total := if oversize then r_ContentLength r else 0 in
      let buf := str_take (Z.to_nat (limit + 1)) raw in
      let rest := str_drop (Z.to_nat (limit + 1)) raw in
      let r' := mkHttpRequest (r_Method r) (r_Path r) (r_RawQuery r) (r_Header r) (r_Host r) (r_ContentLength r)
                  (Some (mkBody (buf +:+ rest) failing)) (r_RemoteAddr r) (r_TLS r) in
      let n := str_len buf in
      if limit <? n then (str_take (Z.to_nat limit) buf, true, if total =? 0 then n else total, r')
      else (buf, oversize, if total =? 0 then n else total, r')
  end.

Definition flattenHeaders (h : headers) : gmap string string := omap (M := gmap string) hd_error h.

(** ** What is sent to the upstream (the [Rewrite] of both proxies) *)

(** The copy that [httputil.ReverseProxy] gives to [Rewrite] lacks the hop-by-hop headers, and
    a query that does not parse is encoded again. *)
Class OutboundCopy := {
  drop_hop_by_hop : headers → headers;
  clean_query : string → string;
}.

(** [singleJoiningSlash], by which [SetURL] joins the paths. *)
Definition join_slash (a b : string) : string :=
  match has_suffix a "/", has_prefix b "/" with
  | true, true => a +:+ str_drop 1 b
  | false, false => a +:+ "/" +:+ b
  | _, _ => a +:+ b
  end.

Section rewrite.
Context {N : NetParse} {O : OutboundCopy}.

Definition SetURL (target : Url) (path query : string) : Url :=
  mkUrl (u_Scheme target) (u_Host target) (join_slash (u_Path target) path)
    (if bool_decide (u_RawQuery target = "") || bool_decide (query = "") then u_RawQuery target +:+ query
     else u_RawQuery target +:+ "&" +:+ query).

(** The client's forwarding headers are gone from the copy, so [SetXForwarded] sets them anew. *)
Definition without_forwarded (h : headers) : headers :=
  delete "Forwarded" (delete "X-Forwarded-For" (delete "X-Forwarded-Host" (delete "X-Forwarded-Proto" h))).
Definition SetXForwarded (r : HttpRequest) (h : headers) : headers :=
  let h := match split_host_port (r_RemoteAddr r) with
           | Some (host, _) => <["X-Forwarded-For" := [host]]> h
           | None => delete "X-Forwarded-For" h
           end in
  <["X-Forwarded-Proto" := [if r_TLS r then "https" else "http"]]> (<["X-Forwarded-Host" := [r_Host r]]> h).

Definition Rewrite (upstream : Url) (r : HttpRequest) : OutRequest :=
  mkOutRequest (SetURL upstream (r_Path r) (clean_query (r_RawQuery r))) (r_Method r)
    (SetXForwarded r (without_forwarded (drop_hop_by_hop (r_Header r)))) (u_Host upstream) (r_ContentLength r)
    (if r_ContentLength r =? 0 then None else r_Body r).
End rewrite.

(** ** One call *)

Record call := mkCall {
  c_inflight : Z;                                  (* requests in flight, this one included *)
  c_requestID : option string;                     (* [None]: no randomness *)
  c_now : time;
  c_elapsed : Z;                                   (* microseconds *)
  c_releases : list (string * managedRelease);     (* the walk over the releases *)
  c_headers : nat → header_order;                  (* walks over the headers *)
  c_view_headers : header_order;
  c_evidence : list string;                        (* the walk over the evidence *)
  c_grow : nat → Z; c_bodyCap : Z; c_profileCap : Z }.

Section proxy.
Context {U : Unicode} {D : HttpDecoders} {C : Crypto} {R : Regexp} {P : Payloads} {SW : ShapeWire} {IC : InspectorCompiler} {N : NetParse} {A : NetAddr} {O : OutboundCopy}.

(** ** The release proxy (release_proxy.go) *)

Record ReleaseProxy := mkReleaseProxy {
  rp_set : ReleaseSet; rp_assetID : string; rp_unitID : string; rp_source : option ClientSourceResolver; rp_upstream : option Url;
  rp_observing : bool; rp_seen : list (Request * Decision * string); rp_telemetry : option (list (Request * list Verdict * Action));
  rp_evidence : option EvidenceRing; rp_modelQueue : option ModelIngressQueue; rp_winReqs : Z; rp_winRoutes : list string }.

Definition WindowSnapshot (p : ReleaseProxy) : ReleaseProxy * (Z * list string) :=
  (mkReleaseProxy (rp_set p) (rp_assetID p) (rp_unitID p) (rp_source p) (rp_upstream p) (rp_observing p) (rp_seen p) (rp_telemetry p)
     (rp_evidence p) (rp_modelQueue p) 0 [], (rp_winReqs p, rp_winRoutes p)).

Definition noteWindow (p : ReleaseProxy) (method path : string) : ReleaseProxy :=
  mkReleaseProxy (rp_set p) (rp_assetID p) (rp_unitID p) (rp_source p) (rp_upstream p) (rp_observing p) (rp_seen p) (rp_telemetry p)
    (rp_evidence p) (rp_modelQueue p) (u64 (rp_winReqs p + 1))
    (if (length (rp_winRoutes p) <? 32)%nat then rp_winRoutes p ++ [method +:+ " " +:+ path] else rp_winRoutes p).

Definition with_set (p : ReleaseProxy) (s : ReleaseSet) : ReleaseProxy :=
  mkReleaseProxy s (rp_assetID p) (rp_unitID p) (rp_source p) (rp_upstream p) (rp_observing p) (rp_seen p) (rp_telemetry p)
    (rp_evidence p) (rp_modelQueue p) (rp_winReqs p) (rp_winRoutes p).
Definition with_logs (p : ReleaseProxy) (seen : list (Request * Decision * string)) (tel : option (list (Request * list Verdict * Action)))
    (ring : option EvidenceRing) (q : option ModelIngressQueue) : ReleaseProxy :=
  mkReleaseProxy (rp_set p) (rp_assetID p) (rp_unitID p) (rp_source p) (rp_upstream p) (rp_observing p) seen tel ring q
    (rp_winReqs p) (rp_winRoutes p).

Definition without_body (req : Request) : Request :=
  mkRequest (req_AssetID req) (req_UnitID req) (req_Method req) (req_Path req) (req_Query req) (req_Headers req) "" (req_ClientAddress req).

Definition DecideRequest (p : ReleaseProxy) (c : call) (req : Request) (requestID : string) (view : CanonicalView)
    : option (ReleaseProxy * Decision) :=
  let '(dec, set') := InspectThenGate (rp_set p) (c_releases c) req view (c_now c) in
  let p := noteWindow (with_set p set') (req_Method req) (req_Path req) in
  let ring := (λ r, Put r (c_evidence c) requestID (req_Query req) (c_now c)) <$> rp_evidence p in
  match
    match rp_modelQueue p with
    | None => Some (None, req)
    | Some q =>
        let profile := (λ mp, mkHeldProfile mp (c_profileCap c)) <$> modelProfile (rp_set p) in
        match NewNormalizedModelTraffic (c_grow c) (c_bodyCap c) (c_view_headers c) requestID (req_UnitID req) (rp_assetID p)
                (dec_GenerationID dec) (dec_GenerationSeq dec) profile (modelDigest (rp_set p)) view (c_now c) with
        | None => Some (Some q, req)
        | Some item => '(q', _) ← Offer q (Some item) (c_now c); Some (Some q', without_body req)
        end
    end
  with
  | None => None
  | Some (queue, req') =>
      Some (with_logs p (if rp_observing p then rp_seen p ++ [(req', dec, requestID)] else rp_seen p) (rp_telemetry p) ring queue, dec)
  end.

Definition json_header : string * string := ("Content-Type", "application/json").

Definition status_input (posture : IngressPosture) (action : Action) (view : CanonicalView) (oversize present crash : bool) : StatusInput :=
  mkStatusInput posture action view oversize present crash false false false.
Definition empty_view : CanonicalView := mkCanonicalView "" "" None ∅ "" "" false [] "".

(** The request, the canonical view and what is known of the body. *)
Definition proxy_request (p : ReleaseProxy) (c : call) (r : HttpRequest) : Request * CanonicalView * bool * bool * HttpRequest :=
  let '(body, oversize, total, r') := readInspectionBody r in
  let headers := flattenHeaders (r_Header r) in
  let headers := if bool_decide (r_Host r = "") then headers else <["Host" := r_Host r]> headers in
  let req := mkRequest (rp_assetID p) (rp_unitID p) (r_Method r) (r_Path r) (r_RawQuery r) headers body (Resolve (rp_source p) (r_RemoteAddr r) (r_Header r)) in
  let hdr := if bool_decide (r_Host r = "") then r_Header r else <["Host" := [r_Host r]]> (r_Header r) in
  let view := CanonicalizeHTTP (r_Method r) (r_Path r) (r_RawQuery r) hdr (c_headers c) body (Some (profileOrDefault (rp_set p))) in
  let view := if oversize then default view (MarkBodyPartial (Some view) (str_len body) total) else view in
  (req, view, oversize, (0 <? r_ContentLength r) || (0 <? str_len body), r').

Definition too_many (p : ReleaseProxy) : option (ReleaseProxy * Outcome) :=
  match (match rp_modelQueue p with None => Some None | Some q => Some <$> DropOldest q end) with
  | None => None
  | Some queue =>
      let p := with_logs p (rp_seen p) (rp_telemetry p) (rp_evidence p) queue in
      let posture := Posture (rp_set p) in
      let code := (HTTPStatus (mkStatusInput posture ActionAllow empty_view false false false false true false)).1 in
      Some (p, if Observes posture then Respond 200 [] "" else Respond code [json_header] "too many in-flight requests")
  end.

Definition record_latencies (s : ReleaseSet) (obs : list ReleaseObservation) (elapsed : Z) : ReleaseSet :=
  foldl (λ s o, RecordLatency s (ro_ReleaseID o) elapsed) s obs.

Definition generation_headers (dec : Decision) : list (string * string) :=
  if bool_decide (dec_GenerationID dec = "") then []
  else [("X-Yufeng-Generation-Id", dec_GenerationID dec); ("X-Yufeng-Generation-Seq", pretty (dec_GenerationSeq dec))].

Definition ServeHTTP (p : ReleaseProxy) (c : call) (r : HttpRequest) : option (ReleaseProxy * Outcome) :=
  if EdgeInFlight <? c_inflight c then too_many p
  else
    let '(req, view, oversize, present, r') := proxy_request p c r in
    match c_requestID c with
    | None =>
        let code := (HTTPStatus (mkStatusInput (Posture (rp_set p)) ActionAllow empty_view false false false true false false)).1 in
        Some (p, Respond code [json_header] "request id unavailable")
    | Some requestID =>
        '(p1, dec) ← DecideRequest p c req requestID view;
        let h := ("X-Request-Id", requestID) :: generation_headers dec in
        let posture := Posture (rp_set p1) in
        let crash := coverageHasError (insp_Coverage (dec_Inspection dec)) && bool_decide (Detections dec = []) && negb (v_Rejected view)
                     && negb oversize in
        let '(code, would) := HTTPStatus (status_input posture (dec_Action dec) view oversize present crash) in
        let action := if Observes posture then ActionAllow else dec_Action dec in
        let code := if Observes posture then 200 else code in
        let elapsed := if c_elapsed c =? 0 then 1 else c_elapsed c in
        let p2 := with_set p1 (record_latencies (rp_set p1) (Observations dec) elapsed) in
        let p3 := with_logs p2 (rp_seen p2) ((λ log, log ++ [(req, Verdicts dec, action)]) <$> rp_telemetry p2) (rp_evidence p2) (rp_modelQueue p2) in
        Some (p3,
          if negb (code =? 200) then Respond code (h ++ [json_header]) (if code =? 403 then "blocked" else "inspection incomplete")
          else if Observes posture then Respond 200 h ""
          else match rp_upstream p3 with
               | None => Respond 200 h ""
               | Some u => Upstream h (Rewrite u r')
               end)
    end.

(** ** The single-mode proxy (proxy.go) *)

Record Proxy := mkProxy {
  px_engine : option Engine; px_mode : ReleaseMode; px_telemetry : option (list (Request * list Verdict * Action)); px_assetID : string;
  px_posture : IngressPosture; px_upstream : Url }.

Definition Proxy_SetPosture (p : Proxy) (posture : IngressPosture) : Proxy :=
  mkProxy (px_engine p) (px_mode p) (px_telemetry p) (px_assetID p) (ResolvePosture posture) (px_upstream p).

Definition Proxy_ServeHTTP (p : Proxy) (c : call) (r : HttpRequest) : Proxy * Outcome :=
  let posture := px_posture p in
  if EdgeInFlight <? c_inflight c then
    let code := (HTTPStatus (mkStatusInput posture ActionAllow empty_view false false false false true false)).1 in
    (p, if Observes posture then Respond 200 [] "" else Respond code [json_header] "too many in-flight requests")
  else
    let '(body, oversize, total, r') := readInspectionBody r in
    let headers := flattenHeaders (r_Header r) in
    let req := mkRequest (px_assetID p) "" (r_Method r) (r_Path r) (r_RawQuery r) headers body (parsePeerAddress (r_RemoteAddr r)).1 in
    let view := Canonicalize (r_Method r) (r_Path r) (r_RawQuery r) headers (c_headers c) body (Some DefaultInspectionProfile) in
    let view := if oversize then default view (MarkBodyPartial (Some view) (str_len body) total) else view in
    let '(v, matched) := MatchRules (px_engine p) req in
    let verdicts := if matched then [v] else [] in
    let action := if matched then actionForMode (px_mode p) true true else ActionAllow in
    let action := if Observes posture && bool_decide (action = ActionBlock) then ActionAllow else action in
    let code := (HTTPStatus (status_input posture action view oversize ((0 <? r_ContentLength r) || (0 <? str_len body)) false)).1 in
    let p := mkProxy (px_engine p) (px_mode p) ((λ log, log ++ [(req, verdicts, action)]) <$> px_telemetry p) (px_assetID p) (px_posture p) (px_upstream p) in
    (p, if negb (code =? 200) then Respond code [json_header] (if code =? 403 then "matched detection rule" else "inspection incomplete")
        else if Observes posture then Respond 200 [] ""
        else Upstream [] (Rewrite (px_upstream p) r')).

(** ** Facts *)

(** The body is put back whole. *)
Lemma body_restored r : (readInspectionBody r).2 = r.
Proof.
  unfold readInspectionBody. destruct (r_Body r) as [[raw failing]|] eqn:Hb; [|done]. rewrite str_take_drop.
  destruct (_ <? _); simpl; destruct r; simpl in *; by subst.
Qed.

Lemma proxy_request_restores p c r : (proxy_request p c r).2 = r.
Proof.
  unfold proxy_request. pose proof (body_restored r) as H. destruct (readInspectionBody r) as [[[body oversize] total] r'].
  simpl in *. by subst.
Qed.

Lemma decide_request_decision p c req id view p' dec :
  DecideRequest p c req id view = Some (p', dec) →
  dec = (InspectThenGate (rp_set p) (c_releases c) req view (c_now c)).1 ∧ rp_upstream p' = rp_upstream p
  ∧ Posture (rp_set p') = Posture (rp_set p).
Proof.
  unfold DecideRequest. destruct (InspectThenGate _ _ _ _ _) as [d s'] eqn:E. intros H.
  assert (Posture s' = Posture (rp_set p)) as Hs.
  { unfold InspectThenGate in E. destruct (gateWith _ _ _ _ _ _). injection E as _ E. by rewrite <- E. }
  match type of H with match ?x with _ => _ end = _ => destruct x as [[q req']|]; [|done] end. injection H as <- <-. by split_and!.
Qed.

(** What the release proxy answers once the decision is taken. *)
Lemma serve_cases p c r p' out :
  ServeHTTP p c r = Some (p', out) → c_inflight c ≤ EdgeInFlight → ∀ id, c_requestID c = Some id →
  let '(req, view, oversize, present, _) := proxy_request p c r in
  let dec := (InspectThenGate (rp_set p) (c_releases c) req view (c_now c)).1 in
  let posture := Posture (rp_set p) in
  let crash := coverageHasError (insp_Coverage (dec_Inspection dec)) && bool_decide (Detections dec = []) && negb (v_Rejected view) && negb oversize in
  let code := if Observes posture then 200 else (HTTPStatus (status_input posture (dec_Action dec) view oversize present crash)).1 in
  let h := ("X-Request-Id", id) :: generation_headers dec in
  out = if negb (code =? 200) then Respond code (h ++ [json_header]) (if code =? 403 then "blocked" else "inspection incomplete")
        else if Observes posture then Respond 200 h ""
        else match rp_upstream p with None => Respond 200 h "" | Some u => Upstream h (Rewrite u r) end.
Proof.
  intros H Hin id Hid. unfold ServeHTTP in H. rewrite (proj2 (Z.ltb_ge _ _) Hin), Hid in H.
  pose proof (proxy_request_restores p c r) as Hr. destruct (proxy_request p c r) as [[[[req view] oversize] present] r'].
  simpl in Hr. subst r'. destruct (DecideRequest p c req id view) as [[p1 dec]|] eqn:Hd; [|done]. cbn [mbind option_bind] in H.
  apply decide_request_decision in Hd as (-> & Hup & Hpost). rewrite Hpost in H.
  cbv zeta. set (dec := (InspectThenGate _ _ _ _ _).1) in *. set (crash := _ && _ && _ && _) in *.
  destruct (HTTPStatus _) as [code would] eqn:Hs. injection H as _ <-. cbn [fst snd rp_upstream with_set with_logs]. rewrite Hup. by destruct (rp_upstream p).
Qed.

Lemma observes_status i : Observes (ResolvePosture (si_Posture i)) = true → (HTTPStatus i).1 = 200.
Proof. intros H. unfold HTTPStatus. by rewrite H. Qed.


(** An error while a body is read is not noticed: what is inspected, and whether the body
    counts as complete, is the same as if the body ended there. *)
Lemma read_error_ignored r data :
  r_Body r = Some (mkBody data true) →
  let ended := mkHttpRequest (r_Method r) (r_Path r) (r_RawQuery r) (r_Header r) (r_Host r) (r_ContentLength r)
                 (Some (mkBody data false)) (r_RemoteAddr r) (r_TLS r) in
  (readInspectionBody r).1 = (readInspectionBody ended).1.
Proof.
  intros Hb ended. unfold readInspectionBody, ended. rewrite Hb. cbn [r_Body r_ContentLength]. cbv zeta.
  destruct (EngineBodyLimitBytes <? str_len _); reflexivity.
Qed.


(** An observing proxy never gets in the way: it answers 200 to every request and forwards none. *)
Theorem observing_proxy_answers_ok p c r p' out :
  ServeHTTP p c r = Some (p', out) → Observes (Posture (rp_set p)) = true → ∃ h b, out = Respond 200 h b.
Proof.
  intros H Hobs. assert (∀ q, Observes (Posture q) = true → Observes (ResolvePosture (Posture q)) = true) as Hres.
  { intros q. unfold Posture. by destruct (posture q). }
  destruct (Z.le_gt_cases (c_inflight c) EdgeInFlight) as [Hle|Hgt].
  - destruct (c_requestID c) as [id|] eqn:Hid.
    + pose proof (serve_cases p c r p' out H Hle id Hid) as Hout. destruct (proxy_request p c r) as [[[[req view] oversize] present] r0].
      cbv zeta in Hout. rewrite Hobs in Hout. simpl in Hout. eauto.
    + unfold ServeHTTP in H. rewrite (proj2 (Z.ltb_ge _ _) Hle), Hid in H. destruct (proxy_request p c r) as [[[[req view] oversize] present] r0].
      injection H as _ <-. rewrite observes_status by (simpl; by apply Hres). eauto.
  - unfold ServeHTTP in H. rewrite (proj2 (Z.ltb_lt _ _)) in H by lia.
    unfold too_many in H. destruct (match rp_modelQueue p with None => _ | Some _ => _ end); [|done]. injection H as _ <-. simpl. rewrite Hobs. eauto.
Qed.

(** ** Where requests come from *)

Lemma last_untrusted_spec r rev_chain x left source :
  Forall (λ h, source_contains r h = true) rev_chain → source_contains r x = false → last_untrusted r (rev_chain ++ x :: left) source = x.
Proof.
  intros Hall Hx. revert source. induction Hall as [|h rev_chain Hh _ IH]; intros source; simpl; [by rewrite Hx|by rewrite Hh].
Qed.

Lemma last_untrusted_all r rev_chain source :
  Forall (λ h, source_contains r h = true) rev_chain → last_untrusted r rev_chain source = default source (last rev_chain).
Proof.
  intros Hall. revert source. induction Hall as [|h rev_chain Hh _ IH]; intros source; [done|]. cbn [last_untrusted]. rewrite Hh, IH, last_cons. by destruct (last rev_chain).
Qed.

Lemma mapM_parts {X Y} (f : X → option Y) lp xp rp x right :
  f xp = Some x → mapM f rp = Some right →
  mapM f (lp ++ xp :: rp) = (left ← mapM f lp; Some (left ++ x :: right)).
Proof.
  intros Hx Hr. induction lp as [|l lp IH]; simpl; [by rewrite Hx, Hr|]. rewrite IH. destruct (f l); [|done]. simpl. by destruct (mapM f lp).
Qed.

Lemma Resolve_trusted r remote h direct :
  parsePeerAddress remote = (direct, true) → source_contains r direct = true →
  Resolve r remote h = match forwarded_chain (header_values h "X-Forwarded-For") with
                       | None => direct
                       | Some chain => last_untrusted r (reverse chain) direct
                       end.
Proof. intros Hd Ht. unfold Resolve. rewrite Hd, Ht. cbn [negb orb]. by destruct (header_values h "X-Forwarded-For"). Qed.

(** C31: whose address counts as the source of a request.  From a peer that is not a trusted proxy, or without the
    forwarding header, it is the direct peer.  From a trusted one, let [x] be the last hop that is not trusted: the source is
    [x] when everything before it parses, and the direct peer otherwise, so that what a sender writes before the hop its
    proxies added cannot name any other source.  Any hop that is not an address makes it the direct peer; only when
    every hop is a trusted proxy is it the first one. *)
Theorem source_not_forgeable r remote h direct :
  parsePeerAddress remote = (direct, true) →
  let values := header_values h "X-Forwarded-For" in
  let hops := values ≫= split_byte ","%char in
  (source_contains r direct = false ∨ values = [] → Resolve r remote h = direct) ∧
  (source_contains r direct = true →
   (∀ before xp after x right, hops = before ++ xp :: after → parse_hop xp = Some x → mapM parse_hop after = Some right →
      source_contains r x = false → Forall (λ hop, source_contains r hop = true) right →
      Resolve r remote h = match mapM parse_hop before with Some _ => x | None => direct end) ∧
   (∀ hop, hop ∈ hops → parse_hop hop = None → Resolve r remote h = direct) ∧
   (∀ first rest, forwarded_chain values = Some (first :: rest) →
      Forall (λ hop, source_contains r hop = true) (first :: rest) → Resolve r remote h = first)).
Proof.
  intros Hd values hops. split.
  { intros Hc. unfold Resolve. rewrite Hd. fold values. destruct Hc as [-> | ->]; [done|by destruct (_ || _)]. }
  intros Ht. rewrite (Resolve_trusted r remote h direct Hd Ht). fold values. split_and!.
  - intros before xp after x right Hh Hx Hr Hu Hall. unfold forwarded_chain. fold hops.
    rewrite Hh, (mapM_parts parse_hop before xp after x right Hx Hr). destruct (mapM parse_hop before) as [left|]; [|done]. simpl.
    rewrite reverse_app, reverse_cons, <- app_assoc. apply last_untrusted_spec; [by apply Forall_reverse|done].
  - intros hop Hin Hbad. unfold forwarded_chain. fold hops.
    replace (mapM parse_hop hops) with (@None (list string)); [done|]. symmetry. apply mapM_None.
    apply Exists_exists. by exists hop.
  - intros first rest -> Hall. rewrite last_untrusted_all by (by apply Forall_reverse). by rewrite last_reverse.
Qed.
End proxy.

(** ** A request through an empty release set *)

Module Demo.
#[local] Existing Instance ascii_only_unicode.
#[local] Existing Instance Canonical.Demo.decoders.
#[local] Existing Instance toy_crypto.
#[local] Existing Instance ListenPlan.Demo.net.

(** Addresses are their own text; the prefix ["10."] holds those that start with it. *)
Definition addrs : NetAddr := {| parse_addr s := if bool_decide (s = "") then None else Some (s, EmptyString); prefix_contains p a := has_prefix a p |}.
#[local] Existing Instance addrs.

Definition resolver : option ClientSourceResolver := Some (mkResolver ["10."]).
Definition set0 : ReleaseSet := NewReleaseSet "v1.3.1".
Definition outbound : OutboundCopy := {| drop_hop_by_hop h := delete "Connection" h; clean_query q := q |}.
#[local] Existing Instance outbound.
Definition upstream : Url := mkUrl "http" "app:8080" "" "".
Definition proxy (s : ReleaseSet) : ReleaseProxy := mkReleaseProxy s "asset" "unit" resolver (Some upstream) true [] None (Some NewEvidenceRing) None 0 [].
Definition tap : ReleaseSet := SetPosture set0 INGRESS_POSTURE_TAP_ALERT.
Definition hdrs : headers := {[ "X-Forwarded-For" := ["6.6.6.6, 1.2.3.4, 10.0.0.2"] ]}.
Definition req : HttpRequest := mkHttpRequest "POST" "/a" "q=1" hdrs "host" 2 (Some (mkBody "hi" false)) "10.0.0.1" false.
Definition call1 : call := mkCall 1 (Some "id") 0 5 [] (λ _, map_to_list (<["Host" := ["host"]]> hdrs)) [] [] (λ _, 0) 0 0.

Definition served (s : ReleaseSet) : option (ReleaseProxy * Outcome) := ServeHTTP (proxy s) call1 req.
Definition served_proxy (s : ReleaseSet) : ReleaseProxy := from_option fst (proxy s) (served s).
Definition served_out (s : ReleaseSet) : Outcome := from_option snd (Respond 0 [] "") (served s).

Lemma tapped_ok : ServeHTTP (proxy tap) call1 req = Some (served_proxy tap, served_out tap).
Proof.
  assert (match ServeHTTP (proxy tap) call1 req with Some _ => true | None => false end = true) as H by (vm_compute; reflexivity).
  unfold served_proxy, served_out, served. destruct (ServeHTTP (proxy tap) call1 req) as [[??]|]; [done|discriminate H].
Qed.

End Demo.


Lemma observing_proxy_answers_ok_witness : ∃ h b, Demo.served_out Demo.tap = Respond 200 h b.
Proof.
  refine (@observing_proxy_answers_ok ascii_only_unicode Canonical.Demo.decoders toy_crypto ListenPlan.Demo.net Demo.addrs Demo.outbound
    (Demo.proxy Demo.tap) Demo.call1 Demo.req (Demo.served_proxy Demo.tap) _ Demo.tapped_ok _). vm_compute. reflexivity.
Defined.

Lemma source_not_forgeable_witness :
  Resolve (N := ListenPlan.Demo.net) (A := Demo.addrs) Demo.resolver "10.0.0.1" Demo.hdrs = "1.2.3.4" ∧
  Resolve (N := ListenPlan.Demo.net) (A := Demo.addrs) Demo.resolver "10.0.0.1" {[ "X-Forwarded-For" := [", 1.2.3.4, 10.0.0.2"] ]} = "10.0.0.1".
Proof.
  split.
  - refine (proj1 (proj2 (@source_not_forgeable ListenPlan.Demo.net Demo.addrs Demo.resolver "10.0.0.1" Demo.hdrs "10.0.0.1" _) _)
      ["6.6.6.6"] " 1.2.3.4" [" 10.0.0.2"] "1.2.3.4" ["10.0.0.2"] _ _ _ _ _); try (vm_compute; reflexivity). repeat constructor.
  - refine (proj1 (proj2 (@source_not_forgeable ListenPlan.Demo.net Demo.addrs Demo.resolver "10.0.0.1" {[ "X-Forwarded-For" := [", 1.2.3.4, 10.0.0.2"] ]}
      "10.0.0.1" _) _) [""] " 1.2.3.4" [" 10.0.0.2"] "1.2.3.4" ["10.0.0.2"] _ _ _ _ _); try (vm_compute; reflexivity). repeat constructor.
Defined.
