(* ===== verification/ExtAuthz.v ===== *)
(** * External authorization

    [lib/edgecore/external_authorization.go]: the handler Envoy asks about every request, and
    its circuit breaker.  A check that times out is let through; when too many do, the handler
    answers 503 and lets single requests through to find out whether it can recover.

    A critical section of the code is one function.  The gate is an argument: [None] when it
    does not answer before the deadline of the check or the departure of the caller, and a
    panic of it is the answer [ActionAllow]. *)

From stdpp Require Import sorting.
From S2P Require Import Prelude GoStrings Contracts Signing Canonical Shape Policy Rules Gate ModelContracts ListenPlan ReleaseSet ModelIngress EvidenceRing EdgeProxy.

Definition ExtAuthzTimeoutRateWindow : duration := 10 * Second.
Definition ExtAuthzTimeoutRateTrip : f64 := SpecFloat.S754_finite false 7205759403792794 (-57).      (* 0.05 *)
Definition ExtAuthzTimeoutRateRecover : f64 := SpecFloat.S754_finite false 5764607523034235 (-59).   (* 0.01 *)
Definition ExtAuthzTimeoutRateRecoverHold : duration := 30 * Second.
Definition ExtAuthzHalfOpenPerSec : nat := 1.
Definition minSamples : Z := 20.
Definition envoyAuthPartialBodyHeader : string := "X-Envoy-Auth-Partial-Body".

Record timeoutSample := mkSample { ts_at : time; ts_timeout : bool }.

Record ExtAuthz := mkExtAuthz {
  ea_assetID : string; ea_unitID : string; ea_source : option ClientSourceResolver; ea_events : list timeoutSample; ea_tripped : bool;
  ea_belowSince : option time; ea_halfOpen : list time; ea_Timeouts : Z; ea_Checks : Z; ea_Trips : Z; ea_LastSkipReason : string }.

Definition NewExtAuthz (assetID : string) : ExtAuthz := mkExtAuthz assetID "" (Some (mkResolver [])) [] false None [] 0 0 0 "".

Definition SetClientSourceResolver (e : ExtAuthz) (r : option ClientSourceResolver) : ExtAuthz :=
  match r with
  | None => e
  | Some _ => mkExtAuthz (ea_assetID e) (ea_unitID e) r (ea_events e) (ea_tripped e) (ea_belowSince e) (ea_halfOpen e) (ea_Timeouts e)
                (ea_Checks e) (ea_Trips e) (ea_LastSkipReason e)
  end.
Definition SetUnitID (e : ExtAuthz) (unitID : string) : ExtAuthz :=
  mkExtAuthz (ea_assetID e) (trim_space unitID) (ea_source e) (ea_events e) (ea_tripped e) (ea_belowSince e) (ea_halfOpen e) (ea_Timeouts e)
    (ea_Checks e) (ea_Trips e) (ea_LastSkipReason e).

(** ** The breaker *)

Definition half_open_kept (halfOpen : list time) (now : time) : list time := filter (λ t, time_before t (now - Second) = false) halfOpen.

Definition tryHalfOpenLocked (e : ExtAuthz) (now : time) : ExtAuthz * bool :=
  let kept := half_open_kept (ea_halfOpen e) now in
  let full := (ExtAuthzHalfOpenPerSec <=? length kept)%nat in
  (mkExtAuthz (ea_assetID e) (ea_unitID e) (ea_source e) (ea_events e) (ea_tripped e) (ea_belowSince e) (if full then kept else kept ++ [now])
     (ea_Timeouts e) (ea_Checks e) (ea_Trips e) (ea_LastSkipReason e), negb full).

Definition window_events (events : list timeoutSample) (now : time) : list timeoutSample :=
  filter (λ s, time_before (ts_at s) (now - ExtAuthzTimeoutRateWindow) = false) events.
Definition timeout_rate (events : list timeoutSample) : f64 :=
  if (0 <? Z.of_nat (length events))
  then f64_div (f64_of_Z (Z.of_nat (length (filter (λ s, ts_timeout s = true) events)))) (f64_of_Z (Z.of_nat (length events)))
  else f64_zero.

Definition with_breaker (e : ExtAuthz) (events : list timeoutSample) (tripped : bool) (below : option time) (timeouts trips : Z) : ExtAuthz :=
  mkExtAuthz (ea_assetID e) (ea_unitID e) (ea_source e) events tripped below (ea_halfOpen e) timeouts (ea_Checks e) trips (ea_LastSkipReason e).

(** The instant since which the rate has been low, which may be this one. *)
Definition below_since (e : ExtAuthz) (now : time) : time := default now (ea_belowSince e).

Definition record (e : ExtAuthz) (now : time) (timeout : bool) : ExtAuthz :=
  let timeouts := if timeout then ea_Timeouts e + 1 else ea_Timeouts e in
  let events := window_events (ea_events e ++ [mkSample now timeout]) now in
  let rate := timeout_rate events in
  if negb (ea_tripped e) && (minSamples <=? Z.of_nat (length events)) && f64_leb ExtAuthzTimeoutRateTrip rate
  then with_breaker e events true None timeouts (ea_Trips e + 1)
  else if ea_tripped e then
    if f64_leb rate ExtAuthzTimeoutRateRecover then
      let since := below_since e now in
      if ExtAuthzTimeoutRateRecoverHold <=? time_sub now since
      then with_breaker e events false None timeouts (ea_Trips e)
      else with_breaker e events true (Some since) timeouts (ea_Trips e)
    else with_breaker e events true None timeouts (ea_Trips e)
  else with_breaker e events false (ea_belowSince e) timeouts (ea_Trips e).

(** ** The handler *)

Section handler.
Context {U : Unicode} {D : HttpDecoders} {C : Crypto} {N : NetParse} {A : NetAddr}.

Definition envoyAuthBodyPartial (h : headers) : bool :=
  existsb (λ v, existsb (λ part, equal_fold (trim_space part) "true") (split_byte ","%char v)) (header_values h envoyAuthPartialBodyHeader).

Definition absent_body (cov : list Coverage) : list Coverage :=
  (λ c, if bool_decide (cov_Target c = INSPECTION_SURFACE_BODY) then mkCoverage (cov_Target c) COVERAGE_STATUS_ABSENT 0 (cov_Total c) else c) <$> cov.

(** The request and the view of a check, whether the body is oversize, and whether it was announced but not sent. *)
Definition check_request (e : ExtAuthz) (order : nat → header_order) (r : HttpRequest) : Request * CanonicalView * bool * bool :=
  let '(body, oversize, total, _) := readInspectionBody r in
  let partial := envoyAuthBodyPartial (r_Header r) in
  let total := if partial && (total <=? str_len body) then str_len body + 1 else total in
  let oversize := oversize || partial in
  let flat := delete envoyAuthPartialBodyHeader (flattenHeaders (r_Header r)) in
  let flat := if bool_decide (r_Host r = "") then flat else <["Host" := r_Host r]> flat in
  let hdr := delete envoyAuthPartialBodyHeader (r_Header r) in
  let hdr := if bool_decide (r_Host r = "") then hdr else <["Host" := [r_Host r]]> hdr in
  let view := CanonicalizeHTTP (r_Method r) (r_Path r) (r_RawQuery r) hdr order body (Some DefaultInspectionProfile) in
  let view := if oversize then default view (MarkBodyPartial (Some view) (str_len body) total) else view in
  let skipped := (0 <? r_ContentLength r) && (str_len body =? 0) in
  let view := if skipped then mkCanonicalView (v_Method view) (v_Path view) (v_Query view) (v_Headers view) (v_Body view) (v_Host view)
                                (v_Rejected view) (absent_body (v_Coverage view)) (v_ProfileDigest view) else view in
  (mkRequest (ea_assetID e) (ea_unitID e) (r_Method r) (r_Path r) (r_RawQuery r) flat body (Resolve (ea_source e) (r_RemoteAddr r) (r_Header r)),
   view, oversize, skipped).

Definition ext_input (action : Action) (view : CanonicalView) (oversize present timeout : bool) : StatusInput :=
  mkStatusInput INGRESS_POSTURE_EXT_AUTHZ action view oversize present false false false timeout.

Definition note_check (e : ExtAuthz) : ExtAuthz :=
  mkExtAuthz (ea_assetID e) (ea_unitID e) (ea_source e) (ea_events e) (ea_tripped e) (ea_belowSince e) (ea_halfOpen e) (ea_Timeouts e)
    (ea_Checks e + 1) (ea_Trips e) (ea_LastSkipReason e).
Definition note_skip (e : ExtAuthz) : ExtAuthz :=
  mkExtAuthz (ea_assetID e) (ea_unitID e) (ea_source e) (ea_events e) (ea_tripped e) (ea_belowSince e) (ea_halfOpen e) (ea_Timeouts e)
    (ea_Checks e) (ea_Trips e) "coverage".

(** The first critical section: is the check admitted? *)
Definition admission (e : ExtAuthz) (now : time) : ExtAuthz * bool :=
  let e := note_check e in
  if ea_tripped e then tryHalfOpenLocked e now else (e, true).

(** A check that starts at [start] and records its outcome at [finish]: the state, the status code and the body. *)
Definition ExtAuthz_ServeHTTP (gate : CanonicalView → Request → option Action) (e : ExtAuthz) (order : nat → header_order) (start finish : time)
    (r : HttpRequest) : ExtAuthz * (Z * string) :=
  let '(e, admitted) := admission e start in
  if negb admitted then (e, (503, "ext_authz circuit open"))
  else
    let '(req, view, oversize, skipped) := check_request e order r in
    let e := if skipped then note_skip e else e in
    if oversize && (0 <? str_len (req_Body req)) then
      (record e finish false, ((HTTPStatus (ext_input ActionAllow view true true false)).1, "oversize"))
    else if v_Rejected view then (record e finish false, ((HTTPStatus (ext_input ActionAllow view false false false)).1, "rejected"))
    else
      match gate view req with
      | None => (record e finish true, ((HTTPStatus (ext_input ActionAllow view false false true)).1, EmptyString))
      | Some action =>
          (record e finish false, ((HTTPStatus (ext_input action view false false false)).1, if bool_decide (action = ActionBlock) then "blocked" else EmptyString))
      end.
End handler.

(** ** Half-open probes *)

(** The times at which a tripped breaker lets a check through. *)
Fixpoint probes (e : ExtAuthz) (ts : list time) : list time :=
  match ts with
  | [] => []
  | t :: ts => let '(e', admitted) := tryHalfOpenLocked e t in (if admitted : bool then [t] else []) ++ probes e' ts
  end.

Lemma probes_spaced e ts h :
  ea_halfOpen e = [] ∨ ea_halfOpen e = [h] →
  StronglySorted (λ a b, a + Second < b) (probes e ts) ∧ (ea_halfOpen e = [h] → Forall (λ t, h + Second < t) (probes e ts)).
Proof.
  revert e h. induction ts as [|t ts IH]; intros e h Hh; [split; [constructor|intros; constructor]|].
  cbn [probes tryHalfOpenLocked]. set (kept := half_open_kept (ea_halfOpen e) t).
  assert (kept = [] ∨ kept = [h] ∧ ea_halfOpen e = [h]) as [Hk|[Hk Hhe]].
  { subst kept. destruct Hh as [->| ->]; [by left|]. unfold half_open_kept. rewrite filter_cons. case_decide; auto. }
  - rewrite Hk. cbn [length Nat.leb ExtAuthzHalfOpenPerSec negb app]. set (e' := mkExtAuthz _ _ _ _ _ _ _ _ _ _ _).
    destruct (IH e' t) as [Hs Hf]; [by right|]. specialize (Hf eq_refl). split; [by constructor|].
    intros Hhe. assert (h + Second < t) as Hlt.
    { subst kept. rewrite Hhe in Hk. unfold half_open_kept in Hk. rewrite filter_cons in Hk. case_decide as Hb; [done|].
      unfold time_before in Hb. apply not_false_iff_true, Z.ltb_lt in Hb. lia. }
    constructor; [done|]. eapply Forall_impl; [exact Hf|]. unfold Second in *. intros x Hx. simpl in Hx. lia.
  - rewrite Hk. cbn [length Nat.leb ExtAuthzHalfOpenPerSec negb app]. set (e' := mkExtAuthz _ _ _ _ _ _ _ _ _ _ _).
    destruct (IH e' h) as [Hs Hf]; [by right|]. split; [done|]. intros _. by apply Hf.
Qed.

(** A tripped breaker lets at most one check through per second: any two probes are more than a second apart,
    whenever the checks arrive. *)
Theorem half_open_probes_spaced e ts : ea_halfOpen e = [] → StronglySorted (λ a b, a + Second < b) (probes e ts).
Proof. intros H. apply (probes_spaced e ts 0). by left. Qed.

(** ** Tripping and recovering *)

Definition sample_rate (e : ExtAuthz) (now : time) (timeout : bool) : f64 := timeout_rate (window_events (ea_events e ++ [mkSample now timeout]) now).
Definition run (e : ExtAuthz) (rs : list (time * bool)) : ExtAuthz := foldl (λ e r, record e r.1 r.2) e rs.

(** Every sample of the run sees a rate at which the breaker may recover. *)
Fixpoint all_low (e : ExtAuthz) (rs : list (time * bool)) : Prop :=
  match rs with
  | [] => True
  | (now, timeout) :: rs => f64_leb (sample_rate e now timeout) ExtAuthzTimeoutRateRecover = true ∧ all_low (record e now timeout) rs
  end.

Lemma hold_iff now since : (ExtAuthzTimeoutRateRecoverHold <=? time_sub now since) = (ExtAuthzTimeoutRateRecoverHold <=? now - since).
Proof.
  apply eq_true_iff_eq. rewrite !Z.leb_le. unfold time_sub, max_duration, min_duration, ExtAuthzTimeoutRateRecoverHold, Second. lia.
Qed.

Lemma record_tripped e now timeout :
  ea_tripped e = true →
  let low := f64_leb (sample_rate e now timeout) ExtAuthzTimeoutRateRecover in
  let since := below_since e now in
  let held := ExtAuthzTimeoutRateRecoverHold <=? now - since in
  ea_tripped (record e now timeout) = negb (low && held)
  ∧ ea_belowSince (record e now timeout) = if low && negb held then Some since else None.
Proof.
  intros Ht. unfold record, sample_rate. rewrite Ht, hold_iff. cbn [negb andb]. by destruct (f64_leb _ _), (_ <=? _).
Qed.

Lemma stays_tripped e rs t0 :
  ea_tripped e = true → (∀ s, ea_belowSince e = Some s → t0 ≤ s) → Forall (λ r, t0 ≤ r.1 < t0 + ExtAuthzTimeoutRateRecoverHold) rs →
  ea_tripped (run e rs) = true.
Proof.
  intros Ht Hb Hrs. revert e Ht Hb. induction Hrs as [|[now timeout] rs Hr _ IH]; intros e Ht Hb; [done|]. simpl in *.
  pose proof (record_tripped e now timeout Ht) as [E1 E2]; cbv zeta in E1, E2.
  assert (t0 ≤ below_since e now) as Hs by (unfold below_since; destruct (ea_belowSince e); [by apply Hb|simpl; lia]).
  revert E1 E2. destruct (Z.leb_spec ExtAuthzTimeoutRateRecoverHold (now - below_since e now)) as [Hh|Hh]; [lia|].
  rewrite andb_false_r. intros E1 E2. apply IH; [done|]. rewrite E2. intros s. destruct (f64_leb _ _); intros [= <-]; done.
Qed.

Lemma recovers e rs now timeout s0 :
  ea_tripped e = true → all_low e (rs ++ [(now, timeout)]) → (ea_belowSince e = Some s0 ∨ ea_belowSince e = None ∧ ∃ r rs', rs = r :: rs' ∧ r.1 = s0) →
  s0 + ExtAuthzTimeoutRateRecoverHold ≤ now → ∃ k, ea_tripped (run e (take k (rs ++ [(now, timeout)]))) = false.
Proof.
  revert e. induction rs as [|[t b] rs IH]; intros e Ht Hlow Hb Hnow.
  - destruct Hb as [Hb|(_ & ? & ? & ? & _)]; [|done]. simpl in Hlow. destruct Hlow as [Hlow _]. exists 1%nat. simpl.
    destruct (record_tripped e now timeout Ht) as [-> _]. unfold below_since. rewrite Hlow, Hb. simpl. rewrite (proj2 (Z.leb_le _ _)) by lia. done.
  - simpl in Hlow. destruct Hlow as [Hl Hlow]. pose proof (record_tripped e t b Ht) as [E1 E2]; cbv zeta in E1, E2.
    rewrite Hl in E1, E2. revert E1 E2. destruct (Z.leb_spec ExtAuthzTimeoutRateRecoverHold (t - below_since e t)) as [Hh|Hh]; intros E1 E2.
    + exists 1%nat. simpl. by rewrite E1.
    + simpl in E1, E2. destruct (IH (record e t b)) as [k Hk]; [done|done| |done|by exists (S k)].
      left. rewrite E2. f_equal. unfold below_since. destruct Hb as [->|(-> & r & rs' & [= <- <-] & <-)]; done.
Qed.

(** A closed breaker opens exactly on a sample that sees at least 20 checks in the last ten seconds of which a
    twentieth or more timed out.  An open breaker stays open for 30 seconds, and closes once every sample of 30 seconds has
    seen at most a hundredth of timeouts. *)
Theorem breaker_opens_and_closes e :
  (ea_tripped e = false → ∀ now timeout,
     ea_tripped (record e now timeout) = (minSamples <=? Z.of_nat (length (window_events (ea_events e ++ [mkSample now timeout]) now)))
                                         && f64_leb ExtAuthzTimeoutRateTrip (sample_rate e now timeout))
  ∧ (ea_tripped e = true → ea_belowSince e = None → ∀ t0 rs,
       Forall (λ r, t0 ≤ r.1 < t0 + ExtAuthzTimeoutRateRecoverHold) rs → ea_tripped (run e rs) = true)
  ∧ (ea_tripped e = true → ea_belowSince e = None → ∀ t0 b0 rs now timeout,
       all_low e ((t0, b0) :: rs ++ [(now, timeout)]) → t0 + ExtAuthzTimeoutRateRecoverHold ≤ now →
       ∃ k, ea_tripped (run e (take k ((t0, b0) :: rs ++ [(now, timeout)]))) = false).
Proof.
  split_and!.
  - intros Ht now timeout. unfold record, sample_rate. rewrite Ht. cbn [negb andb]. by destruct (_ && _).
  - intros Ht Hb t0 rs Hrs. apply (stays_tripped e rs t0); [done|congruence|done].
  - intros Ht Hb t0 b0 rs now timeout Hlow Hnow. apply (recovers e ((t0, b0) :: rs) now timeout t0); [done..| |done].
    right. split; [done|]. by exists (t0, b0), rs.
Qed.

(** ** Answers *)

Section answers.
Context {U : Unicode} {D : HttpDecoders} {C : Crypto} {N : NetParse} {A : NetAddr}.

Ltac refused := split; [split; discriminate|]; split; [split; [intros _; split; [reflexivity|]|reflexivity]|]; eauto 8.
Ltac let_through := split; [split; discriminate|]; split; [split; [discriminate|]|by left];
  intros [_ [[? ?]|[?|(? & ? & [?|?])]]]; congruence.

(** External authorization answers 503 exactly when the open breaker refuses the check; an admitted request is
    refused with 403 exactly when its body is too large, its view is rejected, or the gate answers in time and blocks or the
    inspection failed; everything else, a gate that does not answer included, is let through. *)
Theorem ext_authz_answers gate e order start finish r :
  let '(e1, admitted) := admission e start in
  let '(req, view, oversize, _) := check_request e1 order r in
  let code := (ExtAuthz_ServeHTTP gate e order start finish r).2.1 in
  (code = 503 ↔ admitted = false)
  ∧ (code = 403 ↔ admitted = true ∧
       ((oversize = true ∧ req_Body req ≠ "") ∨ v_Rejected view = true
        ∨ ∃ a, gate view req = Some a ∧ (a = ActionBlock ∨ coverageHasError (v_Coverage view) = true)))
  ∧ (code = 200 ∨ code = 403 ∨ code = 503).
Proof.
  unfold ExtAuthz_ServeHTTP. destruct (admission e start) as [e1 admitted]. destruct (check_request e1 order r) as [[[req view] oversize] skipped].
  destruct admitted; simpl; [|naive_solver].
  assert ((0 <? str_len (req_Body req)) = negb (bool_decide (req_Body req = ""))) as ->.
  { case_bool_decide as Hb; [by rewrite Hb|]. apply Z.ltb_lt. pose proof (str_len_nonneg (req_Body req)).
    destruct (decide (str_len (req_Body req) = 0)) as [H0%str_len_0|]; [done|lia]. }
  unfold HTTPStatus. cbn -[gate_status bool_decide coverageHasError].
  destruct oversize, (bool_decide_reflect (req_Body req = "")) as [Hb|Hb]; cbn -[gate_status coverageHasError]; [|by refused|..];
    (destruct (v_Rejected view) eqn:Hr; cbn -[gate_status coverageHasError]; [by refused|]);
    (destruct (gate view req) as [a|] eqn:Hg; cbn -[gate_status coverageHasError]; [|by let_through]);
    rewrite ?Hr; (destruct (coverageHasError (v_Coverage view)) eqn:Hc; cbn -[gate_status]; [by refused|]);
    unfold gate_status; case_bool_decide; simpl; first [by refused|by let_through].
Qed.
End answers.

(** ** A breaker that trips and recovers *)

Module Demo.
Definition closed : ExtAuthz := NewExtAuthz "asset".
Definition busy : list (time * bool) := (λ i, (Z.of_nat i * Millisecond, true)) <$> seq 0 20.
Definition opened : ExtAuthz := run closed busy.
Definition quiet : list (time * bool) := (λ i, (12 * Second + Z.of_nat i * Second, false)) <$> seq 1 29.
End Demo.

Lemma half_open_probes_spaced_witness :
  probes Demo.opened [0; Second; Second + 1; 3 * Second] = [0; Second + 1; 3 * Second]
  ∧ StronglySorted (λ a b, a + Second < b) (probes Demo.opened [0; Second; Second + 1; 3 * Second]).
Proof.
  split; [vm_compute; reflexivity|]. apply half_open_probes_spaced. vm_compute. reflexivity.
Defined.

Lemma breaker_opens_and_closes_witness :
  ea_tripped Demo.closed = false ∧ ea_tripped Demo.opened = true ∧ ea_tripped (run Demo.opened Demo.quiet) = true
  ∧ ∃ k, ea_tripped (run Demo.opened (take k ((12 * Second, false) :: Demo.quiet ++ [(42 * Second, false)]))) = false.
Proof.
  assert (ea_tripped Demo.opened = true) as Ho by (vm_compute; reflexivity).
  assert (ea_belowSince Demo.opened = None) as Hb by (vm_compute; reflexivity).
  split; [reflexivity|]. split; [exact Ho|]. split.
  - apply (proj1 (proj2 (breaker_opens_and_closes Demo.opened)) Ho Hb (12 * Second)). apply (bool_decide_unpack _). vm_compute. exact I.
  - apply (proj2 (proj2 (breaker_opens_and_closes Demo.opened)) Ho Hb); [|vm_compute; discriminate].
    vm_compute. repeat split.
Defined.
