(* ===== verification/AuditChain.v ===== *)
(** * The audit chain

    [lib/brain/audit.go]: audit entries are appended under one advisory lock, each carrying the
    hash of the one before it, and [verifyAuditRange] recomputes the hashes of a range.  The
    table [audit_entries] is a list of rows in no particular order; a query sorts.  The clock,
    the sequence number the database draws (they increase, with gaps) and the answer of the
    database to the insertion are arguments.  Formatting a time, encoding the details and the
    passage of a text through a [jsonb] column are the parameter class [AuditWire]. *)

From stdpp Require Import pretty sorting.
From S2P Require Import Prelude GoStrings Contracts Signing SignerService.

(** ** Sorted queries *)

Section order_by.
Context {A : Type} (key : A → Z).

Fixpoint order_insert (x : A) (l : list A) : list A :=
  match l with
  | [] => [x]
  | y :: l' => if key x <=? key y then x :: l else y :: order_insert x l'
  end.
Definition order_by (l : list A) : list A := foldr order_insert [] l.

Definition key_lt (x y : A) : Prop := key x < key y.
Abbreviation increasing := (StronglySorted key_lt).

Lemma order_insert_perm x l : order_insert x l ≡ₚ x :: l.
Proof. induction l as [|y l IH]; simpl; [done|]. case_match; [done|]. by rewrite IH, Permutation_swap. Qed.

Lemma order_by_perm l : order_by l ≡ₚ l.
Proof. induction l as [|x l IH]; simpl; [done|]. by rewrite order_insert_perm, IH. Qed.

Lemma order_by_increasing l : increasing l → order_by l = l.
Proof.
  induction 1 as [|x l Hl IH Hx]; simpl; [done|]. rewrite IH. destruct l as [|y l]; [done|]. simpl.
  apply Forall_cons in Hx as [Hx _]. unfold key_lt in Hx. destruct (Z.leb_spec (key x) (key y)); [done|lia].
Qed.

Lemma increasing_filter (P : A → Prop) `{∀ x, Decision (P x)} l : increasing l → increasing (filter P l).
Proof.
  induction 1 as [|x l Hl IH Hx]; [constructor|]. rewrite filter_cons. case_decide; [|done]. constructor; [done|].
  apply Forall_forall. intros y [_ Hy]%list_elem_of_filter. rewrite Forall_forall in Hx. by apply Hx.
Qed.

Lemma increasing_app l1 l2 : increasing (l1 ++ l2) ↔ increasing l1 ∧ increasing l2 ∧ ∀ x y, x ∈ l1 → y ∈ l2 → key x < key y.
Proof.
  induction l1 as [|x l1 IH]; simpl.
  - split; [intros; repeat split; try constructor; set_solver|by intros (_ & ? & _)].
  - split.
    + intros [Hl Hx]%StronglySorted_inv. apply IH in Hl as (H1 & H2 & H3). rewrite Forall_app in Hx. destruct Hx as [Hx1 Hx2].
      split_and!; [by constructor|done|]. intros a b [->|Ha]%elem_of_cons Hb; [|by apply H3].
      rewrite Forall_forall in Hx2. by apply Hx2.
    + intros ([H1 Hx]%StronglySorted_inv & H2 & H3). constructor.
      * apply IH. split_and!; [done..|]. intros a b ??. apply H3; [by right|done].
      * apply Forall_app. split; [done|]. apply Forall_forall. intros b Hb. apply H3; [by left|done].
Qed.

Lemma increasing_snoc l x : increasing l → (∀ y, y ∈ l → key y < key x) → increasing (l ++ [x]).
Proof.
  intros Hl Hx. apply increasing_app. split_and!; [done|by repeat constructor|].
  intros a b Ha ->%list_elem_of_singleton. by apply Hx.
Qed.

Definition key_le (x y : A) : Prop := key x ≤ key y.

Lemma order_by_sorted l : StronglySorted key_le (order_by l).
Proof.
  induction l as [|x l IH]; simpl; [constructor|]. induction IH as [|y l' Hl IHl Hy]; simpl; [by repeat constructor|].
  destruct (Z.leb_spec (key x) (key y)).
  - constructor; [by constructor|]. constructor; [done|]. eapply Forall_impl; [exact Hy|]. unfold key_le. simpl. lia.
  - constructor; [done|]. rewrite order_insert_perm. constructor; [unfold key_le; lia|done].
Qed.

(** In a sorted list the least value comes first. *)
Lemma sorted_least_first l m :
  StronglySorted key_le l → (∀ x, x ∈ l → m ≤ key x) → l = filter (λ x, key x = m) l ++ filter (λ x, key x ≠ m) l.
Proof.
  induction 1 as [|x l Hl IH Hx]; intros Hm; [done|]. rewrite !filter_cons. destruct (decide (key x = m)) as [E|E].
  - destruct (decide (key x ≠ m)); [done|]. simpl. f_equal. apply IH. intros y Hy. apply Hm. by right.
  - destruct (decide (key x ≠ m)); [|done]. rewrite Forall_forall in Hx.
    assert (∀ y, y ∈ l → m < key y) as Hge.
    { intros y Hy. specialize (Hx y Hy). specialize (Hm x ltac:(left)). unfold key_le in Hx. lia. }
    assert (filter (λ y, key y = m) l = []) as ->.
    { clear -Hge. induction l as [|y l IH]; [done|]. pose proof (Hge y ltac:(left)).
      rewrite filter_cons, decide_False by lia. apply IH. intros z Hz. apply Hge. by right. }
    rewrite filter_Forall; [done|]. apply Forall_forall. intros y Hy. specialize (Hge y Hy). lia.
Qed.

Lemma filter_none (P : A → Prop) `{∀ x, Decision (P x)} l : (∀ x, x ∈ l → ¬ P x) → filter P l = [].
Proof.
  intros Hl. induction l as [|x l IH]; [done|]. rewrite filter_cons, decide_False by (apply Hl; left).
  apply IH. intros y Hy. apply Hl. by right.
Qed.

(** A sorted list is what is below a bound followed by what is not. *)
Lemma increasing_split l s :
  increasing l → l = filter (λ x, key x < s) l ++ filter (λ x, s ≤ key x) l.
Proof.
  induction 1 as [|x l Hl IH Hx]; [done|]. rewrite !filter_cons. destruct (decide (key x < s)).
  - destruct (decide (s ≤ key x)); [lia|]. simpl. by f_equal.
  - destruct (decide (s ≤ key x)); [|lia]. rewrite Forall_forall in Hx.
    assert (∀ y, y ∈ l → s ≤ key y) as Hge by (intros y Hy; specialize (Hx y Hy); unfold key_lt in Hx; lia).
    assert (filter (λ y, key y < s) l = []) as ->.
    { apply filter_none. intros y Hy. specialize (Hge y Hy). lia. }
    rewrite filter_Forall; [done|by apply Forall_forall].
Qed.
End order_by.

(** ** Data *)

Record auditCoordinates := mkCoordinates {
  RunID : string; TurnID : string; LeaseEpoch : Z; BudgetID : string; PayloadDigest : string }.

Record AuditEntry := mkAuditEntry {
  ae_Sequence : Z; ae_OccurredAt : time; ae_ActorType : string; ae_ActorId : string; ae_Action : string;
  ae_ObjectType : string; ae_ObjectId : string; ae_Details : string; ae_PreviousHash : string; ae_EntryHash : string;
  ae_Coordinates : auditCoordinates; ae_SchemaVersion : string }.

(** A row of [audit_partition_anchors]. *)
Record partition_anchor := mkAnchor {
  an_Partition : Z; an_FirstSequence : Z; an_LastSequence : Z; an_PreviousHash : string; an_LastHash : string;
  an_CheckpointRef : string; an_Signature : string }.

Record audit_db := mkAuditDb {
  audit_entries : list AuditEntry; audit_anchors : list partition_anchor }.

Record VerifyChainResponse := mkVerifyChain {
  vc_Valid : bool; vc_StartHash : string; vc_EndHash : string; vc_EntriesChecked : Z }.

#[global] Instance auditCoordinates_eq_dec : EqDecision auditCoordinates. Proof. solve_decision. Defined.
#[global] Instance AuditEntry_eq_dec : EqDecision AuditEntry. Proof. solve_decision. Defined.
#[global] Instance partition_anchor_eq_dec : EqDecision partition_anchor. Proof. solve_decision. Defined.
#[global] Instance VerifyChainResponse_eq_dec : EqDecision VerifyChainResponse. Proof. solve_decision. Defined.

Definition auditSchemaVersion : string := "audit/v2".
Definition newline : ascii := of_byte 10.
Definition no_coordinates : auditCoordinates := mkCoordinates "" "" 0 "" "".

(** [format_time] is [Format(time.RFC3339Nano)] of a time in UTC; [json_canonical] decodes a
    text ([null] where it cannot) and encodes the value; [jsonb_text] is the text of a [jsonb]
    column a text was written to, if the database takes it. *)
Class AuditWire := {
  format_time : time → string;
  details_t : Type;
  marshal_details : details_t → option string;
  json_canonical : string → string;
  jsonb_text : string → option string;
}.

(** A [jsonb] column keeps the JSON value; an encoded value has no raw line break; formatted
    times have none either and tell instants apart. *)
Class AuditWireLaws (A : AuditWire) : Prop := {
  jsonb_canonical raw t : jsonb_text raw = Some t → json_canonical t = json_canonical raw;
  canonical_one_line raw : str_mem newline (json_canonical raw) = false;
  format_one_line t : str_mem newline (format_time t) = false;
  format_time_inj t u : format_time t = format_time u → t = u;
}.

Section audit.
Context {C : Crypto} {A : AuditWire}.

(** ** Hashes *)

Definition lines (fields : list string) : string := join (String newline "") fields.

Definition fields_v1 (at_ : time) (actorType actorID action objectType objectID detailsJSON prev : string) : list string :=
  [format_time at_; actorType; actorID; action; objectType; objectID; json_canonical detailsJSON; prev].

Definition auditEntryHash (at_ : time) (actorType actorID action objectType objectID detailsJSON prev : string) : string :=
  hex_encode (sha256 (lines (fields_v1 at_ actorType actorID action objectType objectID detailsJSON prev))).

Definition fields_v2 (at_ : time) (actorType actorID action objectType objectID detailsJSON prev : string)
    (coordinates : auditCoordinates) : list string :=
  [auditSchemaVersion; format_time at_; actorType; actorID; action; objectType; objectID;
   RunID coordinates; TurnID coordinates; pretty (LeaseEpoch coordinates);
   BudgetID coordinates; PayloadDigest coordinates; json_canonical detailsJSON; prev].

Definition auditEntryHashV2 (at_ : time) (actorType actorID action objectType objectID detailsJSON prev : string)
    (coordinates : auditCoordinates) : string :=
  hex_encode (sha256 (lines (fields_v2 at_ actorType actorID action objectType objectID detailsJSON prev coordinates))).

(** The hash [verifyAuditRange] expects of a row. *)
Definition want_hash (e : AuditEntry) : string :=
  if bool_decide (ae_SchemaVersion e = auditSchemaVersion)
  then auditEntryHashV2 (ae_OccurredAt e) (ae_ActorType e) (ae_ActorId e) (ae_Action e) (ae_ObjectType e) (ae_ObjectId e)
         (ae_Details e) (ae_PreviousHash e) (ae_Coordinates e)
  else auditEntryHash (ae_OccurredAt e) (ae_ActorType e) (ae_ActorId e) (ae_Action e) (ae_ObjectType e) (ae_ObjectId e)
         (ae_Details e) (ae_PreviousHash e).

(** ** Appending *)

Definition latest (db : audit_db) : option AuditEntry := last (order_by ae_Sequence (audit_entries db)).

Definition truncate_micro (t : time) : time := t - t mod Microsecond.

(** [seq] is the number the database draws; [stored] is false when it refuses the insertion. *)
Definition appendAuditRecordTx (db : audit_db) (clock : time) (seq : Z) (stored : bool)
    (actorType actorID action objectType objectID : string) (coordinates : auditCoordinates) (details : details_t)
    : audit_db * result unit :=
  let prev := default "" (ae_EntryHash <$> latest db) in
  let now := truncate_micro clock in
  match marshal_details details with
  | None => (db, Err "json: unsupported value")
  | Some detailJSON =>
      let entryHash := auditEntryHashV2 now actorType actorID action objectType objectID detailJSON prev coordinates in
      match jsonb_text detailJSON, stored with
      | Some text, true =>
          (mkAuditDb (audit_entries db ++
             [mkAuditEntry seq now actorType actorID action objectType objectID text prev entryHash coordinates
                auditSchemaVersion]) (audit_anchors db), Ok tt)
      | _, _ => (db, Err "insert audit entry")
      end
  end.

Definition appendAuditTx (db : audit_db) (clock : time) (seq : Z) (stored : bool)
    (actorType actorID action objectType objectID : string) (details : details_t) : audit_db * result unit :=
  appendAuditRecordTx db clock seq stored actorType actorID action objectType objectID no_coordinates details.

Definition appendAgentAuditTx (db : audit_db) (clock : time) (seq : Z) (stored : bool)
    (actorType actorID action objectType objectID : string) (coordinates : auditCoordinates) (details : details_t)
    : audit_db * result unit :=
  appendAuditRecordTx db clock seq stored actorType actorID action objectType objectID coordinates details.

(** [appendAudit] runs in a transaction of its own: [committed] is false when it cannot commit. *)
Definition appendAudit (db : audit_db) (clock : time) (seq : Z) (stored committed : bool)
    (actorType actorID action objectType objectID : string) (details : details_t) : audit_db * result unit :=
  let '(db', r) := appendAuditTx db clock seq stored actorType actorID action objectType objectID details in
  match r with
  | Err e => (db, Err e)
  | Ok _ => if committed then (db', Ok tt) else (db, Err "commit")
  end.

(** ** Verifying *)

(** The hash the entry at [startSequence] has to point to. *)
Definition hash_before (db : audit_db) (startSequence : Z) : string :=
  match last (order_by ae_Sequence (filter (λ e, ae_Sequence e < startSequence) (audit_entries db))) with
  | Some e => ae_EntryHash e
  | None =>
      default "" (an_LastHash <$> last (order_by an_LastSequence
        (filter (λ a, an_LastSequence a < startSequence) (audit_anchors db))))
  end.

Record walk := mkWalk { w_prev : string; w_start : string; w_checked : Z; w_valid : bool }.

Definition verify_row (w : walk) (e : AuditEntry) : walk :=
  mkWalk (ae_EntryHash e) (if w_checked w =? 0 then ae_EntryHash e else w_start w) (i32 (w_checked w + 1))
    (w_valid w && bool_decide (ae_PreviousHash e = w_prev w) && bool_decide (want_hash e = ae_EntryHash e)).

Definition range_rows (db : audit_db) (startSequence endSequence : Z) : list AuditEntry :=
  order_by ae_Sequence (filter (λ e, startSequence ≤ ae_Sequence e ≤ endSequence) (audit_entries db)).

Definition verifyAuditRange (db : audit_db) (startSequence endSequence : Z) : result VerifyChainResponse :=
  let w := foldl verify_row (mkWalk (hash_before db startSequence) "" 0 true) (range_rows db startSequence endSequence) in
  if w_checked w =? 0 then Err "no audit entries in range"
  else Ok (mkVerifyChain (w_valid w) (w_start w) (w_prev w) (w_checked w)).

Definition LatestAuditHead (db : audit_db) : Z * string :=
  match latest db with Some e => (ae_Sequence e, ae_EntryHash e) | None => (0, "") end.

(** ** Digest of a payload *)

Fixpoint hex_pairs (s : string) : bool :=
  match s with
  | "" => true
  | String a (String b rest) => is_hex a && is_hex b && hex_pairs rest
  | _ => false
  end.

Definition auditPayloadDigest (value : string) : string :=
  let value := trim_space value in
  if (str_len value =? str_len "sha256:" + 32 * 2) && has_prefix value "sha256:" && hex_pairs (trim_prefix value "sha256:")
  then value
  else if bool_decide (value = "") then ""
  else "sha256:" +:+ hex_encode (sha256 value).
End audit.

(** ** Lines and hashes tell their parts apart *)

Lemma lines_inj l1 l2 :
  l1 ≠ [] → l2 ≠ [] → (∀ x, x ∈ l1 → str_mem newline x = false) → (∀ x, x ∈ l2 → str_mem newline x = false) →
  lines l1 = lines l2 → l1 = l2.
Proof.
  intros ?? H1 H2 E. unfold lines in E.
  rewrite <- (split_join newline l1) by (done || by apply Forall_forall).
  rewrite <- (split_join newline l2) by (done || by apply Forall_forall). by rewrite E.
Qed.

Definition hex_pair (c : ascii) : ascii * ascii := (hex_digit false (byte c / 16), hex_digit false (byte c mod 16)).
Definition unhex_pair (p : ascii * ascii) : ascii := of_byte (16 * unhex p.1 + unhex p.2).

Lemma hex_pair_inv c : unhex_pair (hex_pair c) = c.
Proof.
  assert (bool_decide (unhex_pair (hex_pair c) = c) = true) as H; [|by apply bool_decide_eq_true in H].
  revert c. apply (byte_forall (λ c, bool_decide (unhex_pair (hex_pair c) = c))). vm_compute. reflexivity.
Qed.

#[global] Instance hex_encode_inj : Inj (=) (=) hex_encode.
Proof.
  intros s. induction s as [|c s IH]; intros [|d t] E; try done. simpl in E. injection E as E1 E2 E3.
  f_equal; [|by apply IH]. rewrite <- (hex_pair_inv c), <- (hex_pair_inv d). unfold hex_pair. by rewrite E1, E2.
Qed.

Lemma pretty_N_go_one_line x s : str_mem newline s = false → str_mem newline (pretty_N_go x s) = false.
Proof.
  revert s. induction (N.lt_wf_0 x) as [x _ IH]. intros s Hs. destruct (decide (0 < x)%N) as [Hx|Hx].
  - rewrite pretty_N_go_step by done. apply IH; [by apply N.div_lt|].
    unfold pretty_N_char. cbn [str_mem]. rewrite Hs, orb_false_r. by repeat case_match.
  - by replace x with 0%N by lia.
Qed.

Lemma pretty_Z_one_line (z : Z) : str_mem newline (pretty z) = false.
Proof.
  assert (∀ n : N, str_mem newline (pretty n) = false) as Hn.
  { intros n. unfold pretty, pretty_N. case_decide; [done|]. by apply pretty_N_go_one_line. }
  destruct z as [|p|p]; [done|apply (Hn (N.pos p))|]. change (str_mem newline ("-" +:+ pretty (N.pos p)) = false).
  rewrite str_mem_app, Hn. done.
Qed.

(** ** Linked rows *)

Section chain.
Context {C : Crypto} {A : AuditWire}.

Fixpoint linked (prev : string) (l : list AuditEntry) : Prop :=
  match l with
  | [] => True
  | e :: l' => ae_PreviousHash e = prev ∧ want_hash e = ae_EntryHash e ∧ linked (ae_EntryHash e) l'
  end.

Definition end_hash (prev : string) (l : list AuditEntry) : string := default prev (ae_EntryHash <$> last l).

Lemma end_hash_cons prev e l : end_hash prev (e :: l) = end_hash (ae_EntryHash e) l.
Proof. unfold end_hash. rewrite last_cons. by destruct (last l). Qed.

Lemma end_hash_app prev l1 l2 : end_hash prev (l1 ++ l2) = end_hash (end_hash prev l1) l2.
Proof. revert prev. induction l1 as [|e l1 IH]; intros prev; [done|]. simpl. by rewrite !end_hash_cons. Qed.

Lemma linked_app prev l1 l2 : linked prev (l1 ++ l2) ↔ linked prev l1 ∧ linked (end_hash prev l1) l2.
Proof.
  revert prev. induction l1 as [|e l1 IH]; intros prev; simpl; [by firstorder|]. rewrite IH, end_hash_cons. tauto.
Qed.

Lemma verify_rows_prev w l : w_prev (foldl verify_row w l) = end_hash (w_prev w) l.
Proof. revert w. induction l as [|e l IH]; intros w; [done|]. simpl. rewrite IH, end_hash_cons. done. Qed.

Lemma verify_rows_valid w l : w_valid (foldl verify_row w l) = true ↔ w_valid w = true ∧ linked (w_prev w) l.
Proof.
  revert w. induction l as [|e l IH]; intros w; simpl; [tauto|]. rewrite IH. simpl. rewrite !andb_true_iff, !bool_decide_eq_true. tauto.
Qed.

Lemma count_step n k : 0 ≤ n → n + Z.of_nat (S k) < 2 ^ 31 → i32 (n + 1) = n + 1.
Proof. intros ??. apply wrap_s_id; [lia|]. unfold in_s. change (32 - 1) with 31. lia. Qed.

Lemma verify_rows_count w l :
  0 ≤ w_checked w → w_checked w + Z.of_nat (length l) < 2 ^ 31 → w_checked (foldl verify_row w l) = w_checked w + Z.of_nat (length l).
Proof.
  revert w. induction l as [|e l IH]; intros w Hw Hl; [simpl; lia|]. pose proof (count_step _ _ Hw Hl) as E.
  cbn [foldl length]. cbn [length] in Hl. rewrite IH; cbn [verify_row w_checked]; rewrite E; lia.
Qed.

Lemma verify_rows_start w l :
  0 < w_checked w → w_checked w + Z.of_nat (length l) < 2 ^ 31 → w_start (foldl verify_row w l) = w_start w.
Proof.
  revert w. induction l as [|e l IH]; intros w Hw Hl; [done|].
  assert (i32 (w_checked w + 1) = w_checked w + 1) as E by (eapply count_step; [lia|exact Hl]).
  cbn [foldl]. cbn [length] in Hl. rewrite IH; cbn [verify_row w_checked w_start]; rewrite ?E; [|lia..].
  by destruct (Z.eqb_spec (w_checked w) 0); [lia|].
Qed.

(** What verification answers, as long as the counter of 32 bits does not wrap. *)
Lemma verifyAuditRange_spec db s e :
  Z.of_nat (length (range_rows db s e)) < 2 ^ 31 →
  verifyAuditRange db s e =
    match range_rows db s e with
    | [] => Err "no audit entries in range"
    | x :: l => Ok (mkVerifyChain (w_valid (foldl verify_row (mkWalk (hash_before db s) "" 0 true) (x :: l)))
                 (ae_EntryHash x) (end_hash (ae_EntryHash x) l) (Z.of_nat (S (length l))))
    end.
Proof.
  intros Hlen. unfold verifyAuditRange. destruct (range_rows db s e) as [|x l] eqn:El; [done|].
  set (w := foldl _ _ _). assert (w_checked w = Z.of_nat (length (x :: l))) as Hc by (unfold w; rewrite verify_rows_count; simpl in *; lia).
  rewrite Hc. destruct (Z.eqb_spec (Z.of_nat (length (x :: l))) 0); [simpl in *; lia|]. f_equal. f_equal.
  - unfold w. cbn [foldl length] in *. change (i32 (0 + 1)) with 1.
    rewrite verify_rows_start; [done|done|]. change (w_checked _) with 1. lia.
  - unfold w. by rewrite verify_rows_prev, end_hash_cons.
Qed.

Lemma verify_valid_iff db s e x l :
  range_rows db s e = x :: l →
  w_valid (foldl verify_row (mkWalk (hash_before db s) "" 0 true) (x :: l)) = true ↔ linked (hash_before db s) (x :: l).
Proof. intros _. rewrite verify_rows_valid. simpl. tauto. Qed.

Lemma verifyAuditRange_single e anchors :
  verifyAuditRange (mkAuditDb [e] anchors) (ae_Sequence e) (ae_Sequence e) =
    let prev := hash_before (mkAuditDb [] anchors) (ae_Sequence e) in
    Ok (mkVerifyChain (w_valid (verify_row (mkWalk prev "" 0 true) e)) (ae_EntryHash e) (ae_EntryHash e) 1).
Proof.
  set (db := mkAuditDb [e] anchors). set (s := ae_Sequence e).
  assert (range_rows db s s = [e]) as Er.
  { unfold range_rows. simpl. by rewrite filter_cons, decide_True by (unfold s; lia). }
  rewrite verifyAuditRange_spec, Er; [|by rewrite Er]. simpl.
  assert (hash_before db s = hash_before (mkAuditDb [] anchors) s) as ->; [|done].
  unfold hash_before. simpl. by rewrite filter_cons, decide_False by (unfold s; lia).
Qed.

(** ** Tampering *)

(** The texts of a row that enter its hash, apart from those the program formats itself. *)
Definition hashed_texts (e : AuditEntry) : list string :=
  [ae_ActorType e; ae_ActorId e; ae_Action e; ae_ObjectType e; ae_ObjectId e; ae_PreviousHash e;
   RunID (ae_Coordinates e); TurnID (ae_Coordinates e); BudgetID (ae_Coordinates e); PayloadDigest (ae_Coordinates e)].
Definition one_line (e : AuditEntry) : bool := forallb (λ x, negb (str_mem newline x)) (hashed_texts e).

(** Two rows that say the same: all but the sequence number, the spelling of the details and,
    in rows older than the schema [audit/v2], the coordinates. *)
Record same_entry (e1 e2 : AuditEntry) : Prop := {
  same_hash : ae_EntryHash e1 = ae_EntryHash e2;
  same_previous : ae_PreviousHash e1 = ae_PreviousHash e2;
  same_time : ae_OccurredAt e1 = ae_OccurredAt e2;
  same_actor : (ae_ActorType e1, ae_ActorId e1) = (ae_ActorType e2, ae_ActorId e2);
  same_action : ae_Action e1 = ae_Action e2;
  same_object : (ae_ObjectType e1, ae_ObjectId e1) = (ae_ObjectType e2, ae_ObjectId e2);
  same_details : json_canonical (ae_Details e1) = json_canonical (ae_Details e2);
  same_coordinates : ae_SchemaVersion e1 = auditSchemaVersion →
    ae_SchemaVersion e2 = auditSchemaVersion ∧ ae_Coordinates e1 = ae_Coordinates e2;
}.

Definition sha256_collision : Prop := ∃ x y, x ≠ y ∧ sha256 x = sha256 y.

Definition entry_fields (e : AuditEntry) : list string :=
  if bool_decide (ae_SchemaVersion e = auditSchemaVersion)
  then fields_v2 (ae_OccurredAt e) (ae_ActorType e) (ae_ActorId e) (ae_Action e) (ae_ObjectType e) (ae_ObjectId e)
         (ae_Details e) (ae_PreviousHash e) (ae_Coordinates e)
  else fields_v1 (ae_OccurredAt e) (ae_ActorType e) (ae_ActorId e) (ae_Action e) (ae_ObjectType e) (ae_ObjectId e)
         (ae_Details e) (ae_PreviousHash e).

Lemma want_hash_fields e : want_hash e = hex_encode (sha256 (lines (entry_fields e))).
Proof. unfold want_hash, entry_fields. by case_bool_decide. Qed.

Context {L : AuditWireLaws A}.

Lemma entry_fields_one_line e x : one_line e = true → x ∈ entry_fields e → str_mem newline x = false.
Proof.
  unfold one_line. rewrite forallb_forall. intros He Hx.
  assert (∀ y, y ∈ hashed_texts e → str_mem newline y = false) as Hy.
  { intros y Hy%list_elem_of_In. apply He in Hy. by apply negb_true_iff in Hy. }
  pose proof (canonical_one_line (ae_Details e)). pose proof (format_one_line (ae_OccurredAt e)).
  pose proof (pretty_Z_one_line (LeaseEpoch (ae_Coordinates e))).
  unfold entry_fields in Hx. case_bool_decide; unfold fields_v1, fields_v2 in Hx;
    repeat (apply elem_of_cons in Hx as [->|Hx]; [done || apply Hy; unfold hashed_texts; set_solver|]); by apply elem_of_nil in Hx.
Qed.

Lemma range_one_line db s e : forallb one_line (audit_entries db) = true → forallb one_line (range_rows db s e) = true.
Proof.
  rewrite !forallb_forall. intros H x Hx%list_elem_of_In. unfold range_rows in Hx. rewrite order_by_perm in Hx.
  apply list_elem_of_filter in Hx as [_ Hx]. by apply H, list_elem_of_In.
Qed.

(** What a positive verdict says of the rows of the range. *)
Lemma verified_range db s e r :
  Z.of_nat (length (audit_entries db)) < 2 ^ 31 → forallb one_line (audit_entries db) = true →
  verifyAuditRange db s e = Ok r → vc_Valid r = true →
  ∃ x l, range_rows db s e = x :: l ∧ linked (hash_before db s) (x :: l) ∧ vc_EntriesChecked r = Z.of_nat (S (length l)) ∧
    vc_EndHash r = end_hash (ae_EntryHash x) l ∧ forallb one_line (x :: l) = true.
Proof.
  intros Hb Ho Er Hv.
  assert (Z.of_nat (length (range_rows db s e)) < 2 ^ 31) as Hlen.
  { unfold range_rows. rewrite order_by_perm. pose proof (length_filter (λ x, s ≤ ae_Sequence x ≤ e) (audit_entries db)). lia. }
  rewrite verifyAuditRange_spec in Er by done. pose proof (range_one_line db s e Ho) as Hr.
  destruct (range_rows db s e) as [|x l] eqn:El; [done|]. injection Er as <-. exists x, l. split_and!; try done.
  by apply (verify_valid_iff db s e).
Qed.

(** Rows with the same hash say the same, or exhibit a collision. *)
Lemma same_hash_same_entry e1 e2 :
  one_line e1 = true → one_line e2 = true → want_hash e1 = ae_EntryHash e1 → want_hash e2 = ae_EntryHash e2 →
  ae_EntryHash e1 = ae_EntryHash e2 → same_entry e1 e2 ∨ sha256_collision.
Proof.
  intros Ho1 Ho2 Hw1 Hw2 E. rewrite want_hash_fields in Hw1, Hw2.
  assert (sha256 (lines (entry_fields e1)) = sha256 (lines (entry_fields e2))) as Es by (apply (inj hex_encode); congruence).
  destruct (decide (lines (entry_fields e1) = lines (entry_fields e2))) as [El|Hne]; [left|right; by do 2 eexists].
  apply lines_inj in El; [|(unfold entry_fields; by case_bool_decide) || eauto using entry_fields_one_line..].
  unfold entry_fields, fields_v1, fields_v2 in El. repeat case_bool_decide; try discriminate El; injection El; intros;
    split; try congruence; try (by apply format_time_inj).
  intros _. split; [done|]. destruct (ae_Coordinates e1), (ae_Coordinates e2); simpl in *. f_equal; try done. by apply (inj pretty).
Qed.

Lemma linked_same l1 l2 p1 p2 :
  length l1 = length l2 → forallb one_line l1 = true → forallb one_line l2 = true → linked p1 l1 → linked p2 l2 →
  end_hash p1 l1 = end_hash p2 l2 → Forall2 same_entry l1 l2 ∨ sha256_collision.
Proof.
  revert l2. induction l1 as [|e1 l1 IH] using rev_ind; intros l2 Hlen Ho1 Ho2 H1 H2 E.
  { destruct l2; [by left; constructor|done]. }
  destruct l2 as [|e2 l2 _] using rev_ind; [rewrite length_app in Hlen; simpl in Hlen; lia|].
  rewrite !length_app in Hlen. simpl in Hlen. rewrite forallb_app in Ho1, Ho2. simpl in Ho1, Ho2.
  apply andb_true_iff in Ho1 as [Ho1 [He1 _]%andb_true_iff], Ho2 as [Ho2 [He2 _]%andb_true_iff].
  apply linked_app in H1 as [H1 (Hp1 & Hw1 & _)], H2 as [H2 (Hp2 & Hw2 & _)].
  rewrite !end_hash_app in E. unfold end_hash in E at 1 3. simpl in E.
  destruct (same_hash_same_entry e1 e2) as [Hs|]; try done; [|by right].
  destruct (IH l2) as [Hl|]; try done; [lia|by rewrite <- Hp1, <- Hp2; apply Hs| |by right].
  left. apply Forall2_app; [done|]. constructor; [done|constructor].
Qed.
End chain.

(** ** Ledgers the program writes *)

Section ledger.
Context {C : Crypto} {A : AuditWire}.

(** The hash the oldest retained row points to. *)
Definition chain_base (db : audit_db) : string :=
  default "" (an_LastHash <$> last (order_by an_LastSequence (audit_anchors db))).

(** [last_anchored] is 0 without anchors: sequence numbers start at 1. *)
Definition last_anchored (db : audit_db) : Z :=
  default 0 (an_LastSequence <$> last (order_by an_LastSequence (audit_anchors db))).

Record chain_inv (db : audit_db) : Prop := {
  chain_sorted : StronglySorted (key_lt ae_Sequence) (audit_entries db);
  chain_linked : linked (chain_base db) (audit_entries db);
  chain_anchors : StronglySorted (key_lt an_LastSequence) (audit_anchors db);
  chain_after : Forall (λ e, last_anchored db < ae_Sequence e) (audit_entries db);
}.

Lemma last_filter_below {B} (key : B → Z) l s :
  StronglySorted (key_lt key) l → (∀ x, last l = Some x → key x < s) → filter (λ x, key x < s) l = l.
Proof.
  intros Hl Hlast. apply filter_Forall, Forall_forall. intros x Hx. destruct l as [|y l _] using rev_ind; [by apply elem_of_nil in Hx|].
  rewrite last_snoc in Hlast. specialize (Hlast y eq_refl). apply elem_of_app in Hx as [Hx| ->%list_elem_of_singleton]; [|done].
  apply increasing_app in Hl as (_ & _ & Hlt). specialize (Hlt x y Hx ltac:(by left)). lia.
Qed.

(** The boundary a verification starts from is right unless it lies among the entries that
    were dropped. *)
Lemma hash_before_spec db s :
  chain_inv db → last_anchored db < s ∨ audit_anchors db = [] ∨ (∃ e, e ∈ audit_entries db ∧ ae_Sequence e < s) →
  hash_before db s = end_hash (chain_base db) (filter (λ e, ae_Sequence e < s) (audit_entries db)).
Proof.
  intros [Hs _ Ha _] Hcase. unfold hash_before, end_hash. rewrite order_by_increasing by by apply increasing_filter.
  destruct (last _) as [x|] eqn:El; [done|]. apply last_None in El. simpl. unfold chain_base.
  rewrite !order_by_increasing by (done || by apply increasing_filter). f_equal. f_equal.
  destruct Hcase as [Hcase|[->|(e & He & Hlt)]]; [|done|].
  - rewrite last_filter_below; [done..|]. intros x Hx. unfold last_anchored in Hcase.
    rewrite order_by_increasing, Hx in Hcase by done. done.
  - exfalso. by eapply (filter_nil_not_elem_of _ _ e El).
Qed.

Lemma range_split db s e :
  chain_inv db → s ≤ e + 1 →
  audit_entries db = filter (λ x, ae_Sequence x < s) (audit_entries db) ++ range_rows db s e
    ++ filter (λ x, e < ae_Sequence x) (audit_entries db).
Proof.
  intros [Hs _ _ _] Hse. unfold range_rows. rewrite order_by_increasing by by apply increasing_filter.
  rewrite (increasing_split ae_Sequence (audit_entries db) s Hs) at 1. f_equal.
  rewrite (increasing_split ae_Sequence (filter (λ x, s ≤ ae_Sequence x) (audit_entries db)) (e + 1)) by by apply increasing_filter.
  f_equal; rewrite list_filter_filter; apply list_filter_iff; intros; lia.
Qed.

(** The verdict on any range of a ledger the program wrote. *)
Lemma chain_verifies db s e x l :
  chain_inv db → range_rows db s e = x :: l → Z.of_nat (length (x :: l)) < 2 ^ 31 →
  last_anchored db < s ∨ audit_anchors db = [] ∨ (∃ e, e ∈ audit_entries db ∧ ae_Sequence e < s) →
  verifyAuditRange db s e =
    Ok (mkVerifyChain true (ae_EntryHash x) (end_hash (ae_EntryHash x) l) (Z.of_nat (S (length l)))).
Proof.
  intros Hi El Hlen Hcase. rewrite verifyAuditRange_spec, El by by rewrite El. do 2 f_equal.
  apply (verify_valid_iff db s e); [done|]. rewrite hash_before_spec by done.
  assert (x ∈ range_rows db s e) as Hx by (rewrite El; left).
  unfold range_rows in Hx. rewrite order_by_perm in Hx. apply list_elem_of_filter in Hx as [Hx _].
  pose proof (chain_linked _ Hi) as Hl. rewrite (range_split db s e Hi) in Hl by lia.
  rewrite !linked_app, El in Hl. apply Hl.
Qed.

Context {L : AuditWireLaws A}.

Definition append_row (db db' : audit_db) (seq : Z) (now : time) : Prop :=
  ∃ e, db' = mkAuditDb (audit_entries db ++ [e]) (audit_anchors db) ∧ ae_Sequence e = seq ∧ ae_OccurredAt e = truncate_micro now ∧
    ae_PreviousHash e = default "" (ae_EntryHash <$> latest db) ∧ want_hash e = ae_EntryHash e.

Lemma append_cases db now seq stored at_ ai ac ot oi co d db' r :
  appendAuditRecordTx db now seq stored at_ ai ac ot oi co d = (db', r) →
  (is_ok r = false ∧ db' = db) ∨ (r = Ok tt ∧ append_row db db' seq now).
Proof.
  unfold appendAuditRecordTx. destruct (marshal_details d) as [raw|]; [|intros [= <- <-]; by left].
  destruct (jsonb_text raw) as [text|] eqn:Et, stored; intros [= <- <-]; try by left. right. split; [done|].
  eexists. split; [done|]. split_and!; try done. unfold want_hash. simpl. unfold auditEntryHashV2, fields_v2.
  by rewrite (jsonb_canonical raw text Et).
Qed.

(** Appending keeps the chain as long as it continues from a retained row, or nothing was
    ever dropped. *)
Lemma append_chain_inv db db' seq now :
  chain_inv db → append_row db db' seq now → (∀ e, e ∈ audit_entries db → ae_Sequence e < seq) → last_anchored db < seq →
  audit_entries db ≠ [] ∨ audit_anchors db = [] → chain_inv db'.
Proof.
  intros [Hs Hl Ha Hf] (x & -> & Hx & _ & Hp & Hw) Hseq Hanch Hcont. split; simpl.
  - apply increasing_snoc; [done|]. rewrite Hx. done.
  - apply linked_app. split; [done|]. simpl. split; [|done]. rewrite Hp. unfold latest. rewrite order_by_increasing by done.
    unfold end_hash, chain_base. simpl. destruct (audit_entries db) as [|y l] eqn:El; simpl; [|by rewrite last_cons; destruct (last l)].
    destruct Hcont as [|Hn]; [done|]. by rewrite Hn.
  - done.
  - apply Forall_app. split; [done|]. constructor; [|done]. by rewrite Hx.
Qed.
End ledger.

(** C24: tamper evidence.  Take two states of the database whose rows are arbitrary
    except that no text field holds a line break (entries are hashed as lines:
    [audit_newline_ambiguous]) and that each has fewer than 2^31 rows (the count is an int32).
    If verification finds a range of each valid with the same number of
    entries and the same end hash (for instance the head of a signed checkpoint), then, unless
    the two exhibit a collision of SHA-256, the ranges say the same, entry by entry: times,
    actors, actions, objects, decoded details, coordinates and links agree. *)
Theorem audit_tamper_evident {C : Crypto} {A : AuditWire} {L : AuditWireLaws A} db1 db2 s1 e1 s2 e2 r1 r2 :
  Z.of_nat (length (audit_entries db1)) < 2 ^ 31 → Z.of_nat (length (audit_entries db2)) < 2 ^ 31 →
  forallb one_line (audit_entries db1) = true → forallb one_line (audit_entries db2) = true →
  verifyAuditRange db1 s1 e1 = Ok r1 → verifyAuditRange db2 s2 e2 = Ok r2 →
  vc_Valid r1 = true → vc_Valid r2 = true → vc_EntriesChecked r1 = vc_EntriesChecked r2 → vc_EndHash r1 = vc_EndHash r2 →
  Forall2 same_entry (range_rows db1 s1 e1) (range_rows db2 s2 e2) ∨ sha256_collision.
Proof.
  intros Hb1 Hb2 Ho1 Ho2 E1 E2 Hv1 Hv2 Hn Hh.
  destruct (verified_range db1 s1 e1 r1) as (x1 & l1 & El1 & Hl1 & Hc1 & Hh1 & Hf1); [done..|].
  destruct (verified_range db2 s2 e2 r2) as (x2 & l2 & El2 & Hl2 & Hc2 & Hh2 & Hf2); [done..|].
  rewrite El1, El2. eapply linked_same; [simpl; lia|exact Hf1|exact Hf2|exact Hl1|exact Hl2|]. rewrite !end_hash_cons. congruence.
Qed.

(** Entries are hashed as lines joined by line breaks, so a line break inside a
    field can move between two fields: a row whose object type starts with a line [b] has the
    same hash as the row in which [b] is the second line of the action, and verification
    answers the same for either. *)
Theorem audit_newline_ambiguous {C : Crypto} {A : AuditWire} seq t at_ ai a b c oi d prev hash co anchors :
  let row action otype := mkAuditEntry seq t at_ ai action otype oi d prev hash co auditSchemaVersion in
  let db action otype := mkAuditDb [row action otype] anchors in
  let nl := String newline "" in
  verifyAuditRange (db a (b +:+ nl +:+ c)) seq seq = verifyAuditRange (db (a +:+ nl +:+ b) c) seq seq.
Proof.
  intros row db nl.
  transitivity (verifyAuditRange (db a (b +:+ nl +:+ c)) (ae_Sequence (row a (b +:+ nl +:+ c))) (ae_Sequence (row a (b +:+ nl +:+ c)))); [done|].
  transitivity (verifyAuditRange (db (a +:+ nl +:+ b) c) (ae_Sequence (row (a +:+ nl +:+ b) c)) (ae_Sequence (row (a +:+ nl +:+ b) c))); [|done].
  unfold db. rewrite !verifyAuditRange_single. unfold verify_row. simpl.
  assert (want_hash (row a (b +:+ nl +:+ c)) = want_hash (row (a +:+ nl +:+ b) c)) as ->; [|done].
  rewrite !want_hash_fields. unfold entry_fields. simpl. unfold fields_v2, lines. simpl join. do 2 f_equal.
  by rewrite !str_app_assoc.
Qed.
