(* ===== verification/Ledger.v ===== *)
(** * Retention of events and audit entries

    [lib/brain/ledger_maintenance.go] and the checkpoint file of [lib/brain/audit.go].  The two
    ledgers are tables partitioned by time, events by day and audit entries by month, with a
    default partition for the rest.  A partition is known by the number of its day or month;
    its name is fixed-width digits, so names sort as their days and months do, and the pattern
    a name must match asks for a year of four digits.  A row lies in the partition of its time
    if that is attached, else in the default one; attaching a partition moves the rows there,
    which no query on the parent can see.  Each function of one transaction is one step; an
    argument says which of the transactions the database refuses. *)

From stdpp Require Import pretty sorting.
From S2P Require Import Prelude GoStrings Contracts Signing SignerService AuditChain.

(** ** Base 64, as [base64.StdEncoding] writes it *)

Definition base64_char (n : Z) : ascii :=
  of_byte (if n <? 26 then 65 + n else if n <? 52 then 71 + n else if n <? 62 then n - 4 else if n =? 62 then 43 else 47).

Fixpoint base64_std (s : string) : string :=
  match s with
  | String a (String b (String c rest)) =>
      let v := byte a * 65536 + byte b * 256 + byte c in
      String (base64_char (v / 262144)) (String (base64_char (v / 4096 mod 64))
        (String (base64_char (v / 64 mod 64)) (String (base64_char (v mod 64)) (base64_std rest))))
  | String a (String b EmptyString) =>
      let v := byte a * 65536 + byte b * 256 in
      String (base64_char (v / 262144)) (String (base64_char (v / 4096 mod 64)) (String (base64_char (v / 64 mod 64)) "="))
  | String a EmptyString =>
      let v := byte a * 65536 in String (base64_char (v / 262144)) (String (base64_char (v / 4096 mod 64)) "==")
  | EmptyString => ""
  end.

(** ** The calendar

    Days are counted from 1970-01-01, months from January of the year 0. *)

Definition Day : Z := 24 * Hour.
Definition day_of (t : time) : Z := t / Day.

(** The first day of a month counted from March of the year 0, in days from the first of that month. *)
Definition march_start (march : Z) : Z :=
  let year := march / 12 in
  let yoe := year mod 400 in
  year / 400 * 146097 + (yoe * 365 + yoe / 4 - yoe / 100) + (153 * (march mod 12) + 2) / 5.

Definition month_start_day (month : Z) : Z := march_start (month - 2) - 719468.

(** The month of a day: the mean length of a month gives it up to one. *)
Definition month_of_day (day : Z) : Z :=
  let z := day + 719468 in
  let est := 4800 * z / 146097 in
  (if z <? march_start est then est - 1 else if march_start (est + 1) <=? z then est + 1 else est) + 2.

Definition month_of (t : time) : Z := month_of_day (day_of t).
Definition month_start (month : Z) : time := month_start_day month * Day.
Definition day_start (day : Z) : time := day * Day.

Lemma march_parts march :
  ∃ era c q y m, 0 ≤ c < 4 ∧ 0 ≤ q < 25 ∧ 0 ≤ y < 4 ∧ 0 ≤ m < 12 ∧ march = 12 * (400 * era + 100 * c + 4 * q + y) + m.
Proof.
  exists (march / 12 / 400), (march / 12 mod 400 / 100), (march / 12 mod 100 / 4), (march / 12 mod 4), (march mod 12).
  Z.to_euclidean_division_equations. lia.
Qed.

Lemma march_start_parts era c q y m :
  0 ≤ c < 4 → 0 ≤ q < 25 → 0 ≤ y < 4 → 0 ≤ m < 12 →
  march_start (12 * (400 * era + 100 * c + 4 * q + y) + m)
  = 146097 * era + 36524 * c + 1461 * q + 365 * y + (153 * m + 2) / 5.
Proof.
  intros. unfold march_start. cbv zeta. set (year := 400 * era + 100 * c + 4 * q + y).
  replace ((12 * year + m) / 12) with year by (Z.to_euclidean_division_equations; lia).
  replace ((12 * year + m) mod 12) with m by (Z.to_euclidean_division_equations; lia). unfold year.
  replace ((400 * era + 100 * c + 4 * q + y) / 400) with era by (Z.to_euclidean_division_equations; lia).
  replace ((400 * era + 100 * c + 4 * q + y) mod 400) with (100 * c + 4 * q + y) by (Z.to_euclidean_division_equations; lia).
  replace ((100 * c + 4 * q + y) / 4) with (25 * c + q) by (Z.to_euclidean_division_equations; lia).
  replace ((100 * c + 4 * q + y) / 100) with c by (Z.to_euclidean_division_equations; lia). lia.
Qed.

Lemma march_linear march : - 8 * 4800 ≤ 4800 * march_start march - 146097 * march ≤ 8 * 4800.
Proof.
  destruct (march_parts march) as (era & c & q & y & m & ? & ? & ? & ? & ->). rewrite march_start_parts by done.
  Z.to_euclidean_division_equations. lia.
Qed.

Lemma month_start_step month : month_start_day month < month_start_day (month + 1).
Proof.
  unfold month_start_day. replace (month + 1 - 2) with (month - 2 + 1) by lia.
  destruct (march_parts (month - 2)) as (era & c & q & y & m & ? & ? & ? & ? & ->). rewrite march_start_parts by done.
  destruct (march_parts (12 * (400 * era + 100 * c + 4 * q + y) + m + 1)) as (era' & c' & q' & y' & m' & ? & ? & ? & ? & E).
  rewrite E, march_start_parts by done. Z.to_euclidean_division_equations. lia.
Qed.

(** Every day lies within its month. *)
Lemma month_bounds day : month_start_day (month_of_day day) ≤ day < month_start_day (month_of_day day + 1).
Proof.
  unfold month_start_day, month_of_day. cbv zeta. set (est := 4800 * (day + 719468) / 146097).
  pose proof (march_linear (est - 1)). pose proof (march_linear (est + 2)).
  assert (146097 * est ≤ 4800 * (day + 719468) < 146097 * est + 146097) as He.
  { unfold est. pose proof (Z.div_mod (4800 * (day + 719468)) 146097). pose proof (Z.mod_pos_bound (4800 * (day + 719468)) 146097). lia. }
  clearbody est.
  destruct (Z.ltb_spec (day + 719468) (march_start est)); [|destruct (Z.leb_spec (march_start (est + 1)) (day + 719468))].
  - replace (est - 1 + 2 - 2) with (est - 1) by lia. replace (est - 1 + 2 + 1 - 2) with est by lia. lia.
  - replace (est + 1 + 2 - 2) with (est + 1) by lia. replace (est + 1 + 2 + 1 - 2) with (est + 2) by lia. lia.
  - replace (est + 2 - 2) with est by lia. replace (est + 2 + 1 - 2) with (est + 1) by lia. lia.
Qed.

Lemma month_start_mono a b : a ≤ b → month_start_day a ≤ month_start_day b.
Proof.
  intros H. replace b with (a + Z.of_nat (Z.to_nat (b - a))) by lia. induction (Z.to_nat (b - a)) as [|n IH]; [by rewrite Z.add_0_r|].
  pose proof (month_start_step (a + Z.of_nat n)). replace (a + Z.of_nat (S n)) with (a + Z.of_nat n + 1) by lia. lia.
Qed.

Lemma month_start_lt a b : month_start_day a < month_start_day b ↔ a < b.
Proof.
  split; intros H.
  - destruct (decide (a < b)); [done|]. pose proof (month_start_mono b a). lia.
  - pose proof (month_start_step a). pose proof (month_start_mono (a + 1) b). lia.
Qed.

Lemma month_start_time_le a b : month_start a ≤ month_start b ↔ a ≤ b.
Proof.
  unfold month_start. pose proof (month_start_lt b a). assert (0 < Day) by done.
  destruct (decide (a ≤ b)); nia.
Qed.

Lemma month_of_bounds t : month_start (month_of t) ≤ t < month_start (month_of t + 1).
Proof.
  unfold month_start, month_of, day_of. pose proof (month_bounds (t / Day)) as Hb. assert (0 < Day) by done.
  pose proof (Z.div_mod t Day). pose proof (Z.mod_pos_bound t Day). nia.
Qed.

Lemma month_of_mono t u : t ≤ u → month_of t ≤ month_of u.
Proof.
  intros H. destruct (decide (month_of t ≤ month_of u)); [done|].
  pose proof (month_of_bounds t). pose proof (month_of_bounds u). pose proof (proj2 (month_start_time_le (month_of u + 1) (month_of t))). lia.
Qed.

(** ** State *)

(** A row of [events] or [event_receipts]. *)
Record event_row := mkEventRow { er_EventID : string; er_OccurredAt : time }.

Record ledger_state := mkLedgerState {
  ls_audit : audit_db;
  ls_months : list Z;
  ls_events : list event_row;
  ls_days : list Z;
  ls_receipts : list event_row;
  ls_tickets : gset string;
  ls_inferences : gset string;
  ls_checkpoints : string;
}.

Record LedgerMaintenanceResult := mkMaintenanceResult { Events : Z; AuditEntries : Z; AuditPartitions : Z }.

#[global] Instance event_row_eq_dec : EqDecision event_row. Proof. solve_decision. Defined.

Definition set_audit (s : ledger_state) (db : audit_db) (months : list Z) : ledger_state :=
  mkLedgerState db months (ls_events s) (ls_days s) (ls_receipts s) (ls_tickets s) (ls_inferences s) (ls_checkpoints s).
Definition set_events (s : ledger_state) (events : list event_row) (days : list Z) (receipts : list event_row) : ledger_state :=
  mkLedgerState (ls_audit s) (ls_months s) events days receipts (ls_tickets s) (ls_inferences s) (ls_checkpoints s).
Definition set_checkpoints (s : ledger_state) (file : string) : ledger_state :=
  mkLedgerState (ls_audit s) (ls_months s) (ls_events s) (ls_days s) (ls_receipts s) (ls_tickets s) (ls_inferences s) file.

(** ** Partitions *)

(** The name of a partition has four digits for the year. *)
Definition month_named (month : Z) : bool := (0 <=? month) && (month <? 120000).
Definition day_named (day : Z) : bool := month_named (month_of_day day).

Definition ensureLedgerPartition (named : Z → bool) (attached : list Z) (start : Z) (committed : bool) : result (list Z) :=
  guard! named start else "invalid ledger partition name" in
  guard! committed else "ensure ledger partition" in
  Ok (if bool_decide (start ∈ attached) then attached else attached ++ [start]).

(** The partitions a run creates one after the other. *)
Fixpoint ensure_partitions (named committed : Z → bool) (attached starts : list Z) : list Z * result unit :=
  match starts with
  | [] => (attached, Ok tt)
  | start :: rest =>
      match ensureLedgerPartition named attached start (committed start) with
      | Err e => (attached, Err e)
      | Ok attached' => ensure_partitions named committed attached' rest
      end
  end.

(** ** Events *)

Definition drop_event_partition (cutoff : time) (acc : list event_row * list Z * Z) (day : Z) : list event_row * list Z * Z :=
  let '(events, days, removed) := acc in
  if time_after (day_start (day + 1)) (day_start (day_of cutoff)) then acc
  else (filter (λ r, day_of (er_OccurredAt r) ≠ day) events, filter (λ d, d ≠ day) days,
        removed + Z.of_nat (length (filter (λ r, day_of (er_OccurredAt r) = day) events))).

Definition dropEventPartitions (events : list event_row) (days : list Z) (cutoff : time) : list event_row * list Z * Z :=
  foldl (drop_event_partition cutoff) (events, days, 0) (filter (λ d, day_named d = true) days).

Definition receipt_kept (s : ledger_state) (cutoff : time) (r : event_row) : bool :=
  (cutoff <=? er_OccurredAt r) || bool_decide (er_EventID r ∈ ls_tickets s) || bool_decide (er_EventID r ∈ ls_inferences s).

(** How the transaction on the events ends: it commits, or fails before the partitions are
    gone, before the older rows are deleted, or after; a failed one is undone, while the count
    it reports is not. *)
Inductive events_tx := TxCommitted | TxFailsFirst | TxFailsDelete | TxFailsLast.
#[global] Instance events_tx_eq_dec : EqDecision events_tx. Proof. solve_decision. Defined.

(** The transaction that retires events; it counts what it removes. *)
Definition retain_events (s : ledger_state) (cutoff : time) (tx : events_tx) : ledger_state * Z * result unit :=
  let '(events, days, removed) := dropEventPartitions (ls_events s) (ls_days s) cutoff in
  let deleted := removed + Z.of_nat (length (filter (λ r, er_OccurredAt r < cutoff) events)) in
  match tx with
  | TxFailsFirst => (s, 0, Err "retain events")
  | TxFailsDelete => (s, removed, Err "retain events")
  | TxFailsLast => (s, deleted, Err "retain events")
  | TxCommitted =>
      (set_events s (filter (λ r, cutoff ≤ er_OccurredAt r) events) days
         (filter (λ r, receipt_kept s cutoff r = true) (ls_receipts s)), deleted, Ok tt)
  end.

Section ledger_maintenance.
Context {C : Crypto} {W : Wire}.

(** ** The checkpoint file *)

(** [torn] is the number of bytes a failing write still leaves in the file. *)
Definition append_file (file line : string) (torn : option nat) : string * result unit :=
  match torn with
  | None => (file +:+ line, Ok tt)
  | Some n => (file +:+ str_take n line, Err "write checkpoint")
  end.

Definition appendSignedCheckpoint (file : string) (cp : option AuditCheckpoint) (torn : option nat) : string * result unit :=
  match WriteSignedAuditCheckpoint cp with
  | Err e => (file, Err e)
  | Ok line => append_file file line torn
  end.

Definition WriteAuditCheckpoint (seq : Z) (head : string) : result string :=
  guard! negb (bool_decide (trim_space head = "")) else "empty checkpoint hash" in
  Ok (pretty seq +:+ " " +:+ head +:+ String newline "").

Definition appendAuditCheckpointFile (db : audit_db) (file path : string) (signer : option Signer) (now : time) (torn : option nat)
    : string * result unit :=
  if bool_decide (trim_space path = "") then (file, Err "audit checkpoint path is required") else
  let '(seq, head) := LatestAuditHead db in
  if bool_decide (head = "") then (file, Ok tt) else
  match signer with
  | None =>
      match WriteAuditCheckpoint seq head with
      | Err e => (file, Err e)
      | Ok line => append_file file line torn
      end
  | Some _ =>
      let '(cp, r) := SignAuditCheckpointWithSigner (Some (mkAuditCheckpoint seq head (Some now) "" "")) signer now in
      match r with
      | Err e => (file, Err e)
      | Ok _ => appendSignedCheckpoint file cp torn
      end
  end.

Definition AppendSignedAuditCheckpointFile (db : audit_db) (file path : string) (signer : option Signer) (now : time)
    (torn : option nat) : string * result unit :=
  match signer with
  | None => (file, Err "audit checkpoint signer is required")
  | Some _ => appendAuditCheckpointFile db file path signer now torn
  end.

(** ** Audit entries *)

Definition partition_rows (db : audit_db) (month : Z) : list AuditEntry :=
  order_by ae_Sequence (filter (λ e, month_of (ae_OccurredAt e) = month) (audit_entries db)).

Definition upsert_anchor (a : partition_anchor) (anchors : list partition_anchor) : list partition_anchor :=
  filter (λ b, an_Partition b ≠ an_Partition a) anchors ++ [a].

Definition drop_partition (s : ledger_state) (month : Z) (anchors : list partition_anchor) : ledger_state :=
  set_audit s (mkAuditDb (filter (λ e, month_of (ae_OccurredAt e) ≠ month) (audit_entries (ls_audit s))) anchors)
    (filter (λ m, m ≠ month) (ls_months s)).

Definition checkpointAndDropAuditPartition (s : ledger_state) (month : Z) (path : string) (signer : option Signer)
    (now : time) (torn : option nat) (committed : bool) : ledger_state * result Z :=
  if negb (month_named month) then (s, Err "invalid audit partition name") else
  let db := ls_audit s in
  match head (partition_rows db month), last (partition_rows db month) with
  | Some first, Some final =>
      let '(cp, r) := SignAuditCheckpointWithSigner
        (Some (mkAuditCheckpoint (ae_Sequence final) (ae_EntryHash final) (Some now) "" "")) signer now in
      match r, cp with
      | Ok _, Some cp =>
          let '(file, w) := appendSignedCheckpoint (ls_checkpoints s) (Some cp) torn in
          let s1 := set_checkpoints s file in
          match w with
          | Err e => (s1, Err e)
          | Ok _ =>
              let anchor := mkAnchor month (ae_Sequence first) (ae_Sequence final) (ae_PreviousHash first) (ae_EntryHash final)
                (path +:+ "#" +:+ pretty (ae_Sequence final)) (base64_std (cp_Signature cp)) in
              if committed
              then (drop_partition s1 month (upsert_anchor anchor (audit_anchors db)),
                    Ok (Z.of_nat (length (partition_rows db month))))
              else (s1, Err "commit")
          end
      | Err e, _ => (s, Err e)
      | _, None => (s, Err "checkpoint and signer are required")
      end
  | _, _ => if committed then (drop_partition s month (audit_anchors db), Ok 0) else (s, Err "commit")
  end.

(** What the disk and the database do while a partition is dropped. *)
Record drop_outcome := mkDropOutcome { do_clock : Z → time; do_torn : Z → option nat; do_committed : Z → bool }.

Fixpoint drop_months (s : ledger_state) (months : list Z) (cutoff : time) (path : string) (signer : option Signer)
    (o : drop_outcome) (removed partitions : Z) : ledger_state * (Z * Z) * result unit :=
  match months with
  | [] => (s, (removed, partitions), Ok tt)
  | month :: rest =>
      if time_after (month_start (month + 1)) (month_start (month_of cutoff))
      then drop_months s rest cutoff path signer o removed partitions
      else
        let '(s', r) := checkpointAndDropAuditPartition s month path signer (do_clock o month) (do_torn o month)
          (do_committed o month) in
        match r with
        | Err e => (s', (removed, partitions), Err e)
        | Ok count => drop_months s' rest cutoff path signer o (removed + count) (partitions + 1)
        end
  end.

Definition dropAuditPartitions (s : ledger_state) (cutoff : time) (path : string) (signer : option Signer) (o : drop_outcome)
    : ledger_state * (Z * Z) * result unit :=
  drop_months s (order_by id (filter (λ m, month_named m = true) (ls_months s))) cutoff path signer o 0 0.

(** ** One run of the maintenance *)

Record run_outcome := mkRunOutcome {
  ro_day : Z → bool; ro_month : Z → bool; ro_events : events_tx; ro_drop : drop_outcome }.

Definition MaintainLedgerData (s : ledger_state) (now : time) (path : string) (signer : option Signer) (o : run_outcome)
    : ledger_state * LedgerMaintenanceResult * result unit :=
  let none := mkMaintenanceResult 0 0 0 in
  let day := day_of now in
  let '(days, r) := ensure_partitions day_named (ro_day o) (ls_days s) [day - 1; day; day + 1; day + 2] in
  let s := set_events s (ls_events s) days (ls_receipts s) in
  match r with
  | Err e => (s, none, Err e)
  | Ok _ =>
      let month := month_of now in
      let '(months, r) := ensure_partitions month_named (ro_month o) (ls_months s) [month - 1; month; month + 1] in
      let s := set_audit s (ls_audit s) months in
      match r with
      | Err e => (s, none, Err e)
      | Ok _ =>
          let '(s, removed, r) := retain_events s (now - 30 * Day) (ro_events o) in
          let result := mkMaintenanceResult removed 0 0 in
          if negb (is_ok r) then (s, result, r) else
          if bool_decide (signer = None) || bool_decide (trim_space path = "") then (s, result, Ok tt) else
          let '(s, (entries, partitions), r) := dropAuditPartitions s (now - 180 * Day) path signer (ro_drop o) in
          match r with
          | Err e => (s, result, Err e)
          | Ok _ => (s, mkMaintenanceResult removed entries partitions, Ok tt)
          end
      end
  end.
End ledger_maintenance.

(** ** Events: what is retained *)

Lemma filter_split {B} (P Q : B → Prop) `{∀ x, Decision (P x), ∀ x, Decision (Q x)} (l : list B) :
  (∀ x, x ∈ l → Q x → P x) →
  length (filter P l) = (length (filter Q l) + length (filter P (filter (λ x, ¬ Q x) l)))%nat.
Proof.
  induction l as [|x l IH]; intros HQ; [done|]. specialize (IH (λ y Hy, HQ y (list_elem_of_further _ _ _ Hy))).
  pose proof (HQ x ltac:(left)) as Hx. rewrite !filter_cons. destruct (decide (Q x)), (decide (P x)); simpl.
  - rewrite decide_False by tauto. lia.
  - tauto.
  - rewrite decide_True by tauto. rewrite filter_cons, decide_True by done. simpl. lia.
  - rewrite decide_True by tauto. rewrite filter_cons, decide_False by done. lia.
Qed.

Lemma filter_count {B} (P : B → Prop) `{∀ x, Decision (P x)} (l : list B) :
  length l = (length (filter P l) + length (filter (λ x, ¬ P x) l))%nat.
Proof.
  induction l as [|x l IH]; [done|]. rewrite !filter_cons. destruct (decide (P x)).
  - rewrite decide_False by tauto. simpl. lia.
  - rewrite decide_True by tauto. simpl. lia.
Qed.

Section events.
Context (cutoff : time) (events : list event_row).

Definition events_acc (acc : list event_row * list Z * Z) : Prop :=
  filter (λ r, cutoff ≤ er_OccurredAt r) acc.1.1 = filter (λ r, cutoff ≤ er_OccurredAt r) events ∧
  acc.2 + Z.of_nat (length (filter (λ r, er_OccurredAt r < cutoff) acc.1.1))
    = Z.of_nat (length (filter (λ r, er_OccurredAt r < cutoff) events)).

Lemma old_day t day : day + 1 ≤ day_of cutoff → day_of t = day → t < cutoff.
Proof.
  unfold day_of. intros H <-. assert (0 < Day) by done. pose proof (Z.div_mod t Day). pose proof (Z.mod_pos_bound t Day).
  pose proof (Z.div_mod cutoff Day). pose proof (Z.mod_pos_bound cutoff Day). nia.
Qed.

Lemma drop_event_partition_acc acc day : events_acc acc → events_acc (drop_event_partition cutoff acc day).
Proof.
  destruct acc as [[ev days] removed]. intros [H1 H2]. unfold drop_event_partition.
  destruct (time_after _ _) eqn:Et; [done|]. unfold time_after, day_start in Et. breflect.
  assert (day + 1 ≤ day_of cutoff) as Hd by (assert (0 < Day) by done; nia).
  split; simpl in *.
  - rewrite <- H1, list_filter_filter. apply list_filter_iff. intros r. pose proof (old_day (er_OccurredAt r) day Hd). lia.
  - rewrite (filter_split (λ r, er_OccurredAt r < cutoff) (λ r, day_of (er_OccurredAt r) = day) ev) in H2
      by (intros; by eapply old_day). lia.
Qed.

Lemma drop_event_partitions_acc days acc : events_acc acc → events_acc (foldl (drop_event_partition cutoff) acc days).
Proof. revert acc. induction days as [|d days IH]; intros acc H; [done|]. apply IH. by apply drop_event_partition_acc. Qed.
End events.

Lemma retain_events_spec s cutoff tx s' n r :
  retain_events s cutoff tx = (s', n, r) →
  (tx ≠ TxCommitted ∧ s' = s ∧ is_ok r = false) ∨
  (r = Ok tt ∧ ls_events s' = filter (λ x, cutoff ≤ er_OccurredAt x) (ls_events s) ∧
   ls_receipts s' = filter (λ x, receipt_kept s cutoff x = true) (ls_receipts s) ∧
   n = Z.of_nat (length (filter (λ x, er_OccurredAt x < cutoff) (ls_events s))) ∧
   ls_audit s' = ls_audit s ∧ ls_months s' = ls_months s ∧ ls_checkpoints s' = ls_checkpoints s).
Proof.
  unfold retain_events. destruct (dropEventPartitions _ _ _) as [[ev days] removed] eqn:Ed.
  assert (events_acc cutoff (ls_events s) (ev, days, removed)) as [H1 H2].
  { rewrite <- Ed. apply drop_event_partitions_acc. split; simpl; [done|lia]. }
  simpl in *. destruct tx; intros [= <- <- <-]; [right|left; done..]. by rewrite H2.
Qed.

(** Dropping audit partitions leaves the events alone. *)
Lemma drop_months_events {W : Wire} months s cutoff path signer o n k s' m r :
  drop_months s months cutoff path signer o n k = (s', m, r) → ls_events s' = ls_events s ∧ ls_receipts s' = ls_receipts s.
Proof.
  revert s n k. induction months as [|month rest IH]; intros s n k; simpl; [by intros [= <- _ _]|].
  destruct (time_after _ _); [apply IH|].
  destruct (checkpointAndDropAuditPartition _ _ _ _ _ _ _) as [s1 r1] eqn:Ed.
  assert (ls_events s1 = ls_events s ∧ ls_receipts s1 = ls_receipts s) as [E1 E2].
  { clear IH. revert Ed. unfold checkpointAndDropAuditPartition. repeat (case_match; try (intros [= <- <-]; done)). }
  destruct r1; [|intros [= <- _ _]; done]. intros Hr. apply IH in Hr. by rewrite E1, E2 in Hr.
Qed.

Lemma maintain_events {W : Wire} s now path signer o s' res :
  MaintainLedgerData s now path signer o = (s', res, Ok tt) →
  ls_events s' = filter (λ x, now - 30 * Day ≤ er_OccurredAt x) (ls_events s) ∧
  ls_receipts s' = filter (λ x, receipt_kept s (now - 30 * Day) x = true) (ls_receipts s) ∧
  Events res = Z.of_nat (length (filter (λ x, er_OccurredAt x < now - 30 * Day) (ls_events s))).
Proof.
  unfold MaintainLedgerData. destruct (ensure_partitions day_named _ _ _) as [days [[]|e]]; [|by intros [=]]. cbn zeta iota beta.
  destruct (ensure_partitions month_named _ _ _) as [months [[]|e]]; [|by intros [=]]. cbn zeta iota beta.
  destruct (retain_events _ _ _) as [[s1 removed] r1] eqn:Er. apply retain_events_spec in Er as [(_ & _ & Hr)|(-> & He & Hr & Hn & _)].
  { rewrite Hr. simpl. destruct r1; [done|by intros [=]]. }
  simpl. destruct (_ || _); [intros [= <- <-]; by rewrite He, Hr, Hn|].
  destruct (dropAuditPartitions _ _ _ _ _) as [[s2 [n k]] [[]|e]] eqn:Ed; intros [= <- <-].
  unfold dropAuditPartitions in Ed. apply drop_months_events in Ed as [E1 E2]. rewrite E1, E2, He, Hr, Hn. done.
Qed.

(** ** Audit entries: nothing is dropped without its checkpoint *)

Section dropping.
Context {C : Crypto} {W : Wire} (signer : option Signer).

(** The checkpoint of an anchor: signed by the signer and complete in the file. *)
Definition checkpoint_on_file (file : string) (seq : Z) (hash : string) : Prop :=
  ∃ clock cp line pre post,
    SignAuditCheckpointWithSigner (Some (mkAuditCheckpoint seq hash (Some clock) "" "")) signer clock = (Some cp, Ok tt) ∧
    WriteSignedAuditCheckpoint (Some cp) = Ok line ∧ file = pre +:+ line +:+ post.

Definition checkpointed (s : ledger_state) (e : AuditEntry) : Prop :=
  ∃ a, a ∈ audit_anchors (ls_audit s) ∧ an_Partition a = month_of (ae_OccurredAt e) ∧
    ae_Sequence e ≤ an_LastSequence a ∧ checkpoint_on_file (ls_checkpoints s) (an_LastSequence a) (an_LastHash a).

Lemma checkpoint_on_file_app file more seq hash :
  checkpoint_on_file file seq hash → checkpoint_on_file (file +:+ more) seq hash.
Proof.
  intros (clock & cp & line & pre & post & H1 & H2 & ->). exists clock, cp, line, pre, (post +:+ more).
  split_and!; [done..|]. by rewrite <- !str_app_assoc.
Qed.

Lemma appendSignedCheckpoint_cases file cp torn file' r :
  appendSignedCheckpoint file cp torn = (file', r) →
  ∃ more, file' = file +:+ more ∧ (r = Ok tt → WriteSignedAuditCheckpoint cp = Ok more).
Proof.
  unfold appendSignedCheckpoint, append_file. destruct (WriteSignedAuditCheckpoint cp) as [line|]; [destruct torn|]; intros [= <- <-];
    [by eexists|by eexists|exists ""]. by rewrite str_app_nil_r.
Qed.

(** How one call of [checkpointAndDropAuditPartition] can end. *)
Inductive drop_case (s : ledger_state) (month : Z) (s' : ledger_state) : result Z → Prop :=
  | drop_failed more e :
      ls_audit s' = ls_audit s → ls_months s' = ls_months s → ls_checkpoints s' = ls_checkpoints s +:+ more → drop_case s month s' (Err e)
  | drop_empty :
      partition_rows (ls_audit s) month = [] → s' = drop_partition s month (audit_anchors (ls_audit s)) → drop_case s month s' (Ok 0)
  | drop_done a first final more :
      head (partition_rows (ls_audit s) month) = Some first → last (partition_rows (ls_audit s) month) = Some final →
      an_Partition a = month → an_LastSequence a = ae_Sequence final → an_LastHash a = ae_EntryHash final →
      ls_audit s' = mkAuditDb (filter (λ e, month_of (ae_OccurredAt e) ≠ month) (audit_entries (ls_audit s)))
        (upsert_anchor a (audit_anchors (ls_audit s))) →
      ls_months s' = filter (λ m, m ≠ month) (ls_months s) → ls_checkpoints s' = ls_checkpoints s +:+ more →
      checkpoint_on_file (ls_checkpoints s') (an_LastSequence a) (an_LastHash a) →
      drop_case s month s' (Ok (Z.of_nat (length (partition_rows (ls_audit s) month)))).

Lemma drop_cases s month path now torn committed s' r :
  checkpointAndDropAuditPartition s month path signer now torn committed = (s', r) → drop_case s month s' r.
Proof.
  unfold checkpointAndDropAuditPartition.
  assert (∀ e, drop_case s month s (Err e)) as Hsame.
  { intros e. apply (drop_failed _ _ _ ""); [done..|by rewrite str_app_nil_r]. }
  destruct (month_named month); [|intros [= <- <-]; apply Hsame]. cbn [negb].
  destruct (head _) as [first|] eqn:Eh; [destruct (last _) as [final|] eqn:El|].
  - set (cp0 := mkAuditCheckpoint _ _ _ _ _).
    destruct (SignAuditCheckpointWithSigner (Some cp0) signer now) as [[cp|] [[]|e]] eqn:Es; cbn beta iota; try (intros [= <- <-]; apply Hsame).
    destruct (appendSignedCheckpoint _ _ _) as [file w] eqn:Ef. apply appendSignedCheckpoint_cases in Ef as (more & -> & Hw).
    destruct w as [[]|e]; [|intros [= <- <-]; by eapply drop_failed].
    destruct committed; intros [= <- <-]; [|by eapply drop_failed].
    set (a := mkAnchor _ _ _ _ _ _ _). apply (drop_done s month _ a first final more); [done..|]. exists now, cp, more, (ls_checkpoints s), "".
    split_and!; [done|by apply Hw|]. by rewrite str_app_nil_r.
  - apply last_None in El. rewrite El in Eh. done.
  - assert (partition_rows (ls_audit s) month = []) by by destruct (partition_rows (ls_audit s) month).
    destruct committed; intros [= <- <-]; [by apply drop_empty|apply Hsame].
Qed.

Lemma partition_rows_elem db month e :
  e ∈ partition_rows db month ↔ e ∈ audit_entries db ∧ month_of (ae_OccurredAt e) = month.
Proof. unfold partition_rows. rewrite order_by_perm, list_elem_of_filter. tauto. Qed.

Lemma partition_rows_last db month e x :
  last (partition_rows db month) = Some x → e ∈ audit_entries db → month_of (ae_OccurredAt e) = month → ae_Sequence e ≤ ae_Sequence x.
Proof.
  intros Hl He Hm. assert (e ∈ partition_rows db month) as Hin by by apply partition_rows_elem.
  pose proof (order_by_sorted ae_Sequence (filter (λ e, month_of (ae_OccurredAt e) = month) (audit_entries db))) as Hs.
  fold (partition_rows db month) in Hs. clear He Hm. induction Hs as [|y l Hs IH Hy]; [done|].
  rewrite last_cons in Hl. apply elem_of_cons in Hin as [->|Hin].
  - destruct (last l) as [z|] eqn:El; [|by injection Hl as ->]. injection Hl as ->. apply last_Some in El as [l' ->].
    rewrite Forall_forall in Hy. apply Hy. set_solver.
  - destruct (last l) as [z|] eqn:El; [by apply IH|]. apply last_None in El as ->. by apply elem_of_nil in Hin.
Qed.

(** The rows of [s0] that [s] has lost are those of the months [D], each under a checkpoint. *)
Definition lost (s0 s : ledger_state) (D : list Z) : Prop :=
  audit_entries (ls_audit s) = filter (λ e, month_of (ae_OccurredAt e) ∉ D) (audit_entries (ls_audit s0)) ∧
  ∀ e, e ∈ audit_entries (ls_audit s0) → month_of (ae_OccurredAt e) ∈ D → checkpointed s e.

Lemma lost_refl s : lost s s [].
Proof. split; [symmetry; apply filter_Forall, Forall_forall; set_solver|set_solver]. Qed.

Lemma checkpointed_more s s' e more :
  audit_anchors (ls_audit s') = audit_anchors (ls_audit s) → ls_checkpoints s' = ls_checkpoints s +:+ more → checkpointed s e → checkpointed s' e.
Proof.
  intros Ha Hf (a & Hin & Hp & Hs & Hc). exists a. rewrite Ha, Hf. split_and!; [done..|]. by apply checkpoint_on_file_app.
Qed.

Lemma lost_drop s0 s D month s' r :
  lost s0 s D → drop_case s month s' r → ∃ D', lost s0 s' D' ∧ (∀ m, m ∈ D' → m ∈ D ∨ m = month).
Proof.
  intros [He Hc] Hd. destruct Hd as [more e Ha _ Hf|Hr ->|a first final more Hh Hl Hp Hseq Hhash Ha _ Hf Hcp].
  - exists D. split; [|tauto]. split; [by rewrite Ha|]. intros x Hx Hm. apply (checkpointed_more s _ _ more); [by rewrite Ha|done|by apply Hc].
  - exists D. split; [|tauto]. split; simpl.
    + rewrite <- He. apply filter_Forall, Forall_forall. intros x Hx Hm.
      assert (x ∈ partition_rows (ls_audit s) month) as Hin by by apply partition_rows_elem. rewrite Hr in Hin. by apply elem_of_nil in Hin.
    + intros x Hx Hm. apply (checkpointed_more s _ _ ""); [done|by rewrite str_app_nil_r|by apply Hc].
  - exists (month :: D). split; [|set_solver]. split.
    + rewrite Ha. simpl. rewrite He, list_filter_filter. apply list_filter_iff. set_solver.
    + intros x Hx Hm. destruct (decide (month_of (ae_OccurredAt x) ∈ D)) as [HD|HD].
      * destruct (Hc x Hx HD) as (b & Hb & Hbp & Hbs & Hbc). exists b. rewrite Ha, Hf. split_and!; [|done..|by apply checkpoint_on_file_app].
        simpl. unfold upsert_anchor. apply elem_of_app. left. apply list_elem_of_filter. split; [|done]. rewrite Hbp, Hp. intros Eq.
        assert (first ∈ partition_rows (ls_audit s) month) as Hf1 by (destruct (partition_rows (ls_audit s) month); [done|injection Hh as ->; left]).
        apply partition_rows_elem in Hf1 as [Hf1 Hfm]. rewrite He in Hf1. apply list_elem_of_filter in Hf1 as [Hf1 _]. congruence.
      * assert (month_of (ae_OccurredAt x) = month) as Hxm by set_solver. exists a. rewrite Ha. split_and!; [|congruence| |done].
        { simpl. unfold upsert_anchor. set_solver. }
        rewrite Hseq. apply (partition_rows_last (ls_audit s) month); [done| |done]. rewrite He. apply list_elem_of_filter. tauto.
Qed.

Lemma lost_drop_months s0 months s D cutoff path o n k s' m r :
  lost s0 s D → drop_months s months cutoff path signer o n k = (s', m, r) →
  ∃ D', lost s0 s' D' ∧ ∀ m, m ∈ D' → m ∈ D ∨ m + 1 ≤ month_of cutoff.
Proof.
  revert s D n k. induction months as [|month rest IH]; intros s D n k Hl; simpl.
  { intros [= <- _ _]. exists D. tauto. }
  destruct (time_after _ _) eqn:Et; [by apply IH|]. unfold time_after in Et. breflect. apply (proj1 (month_start_time_le _ _)) in Et.
  destruct (checkpointAndDropAuditPartition _ _ _ _ _ _ _) as [s1 [count|e]] eqn:Ed; apply drop_cases in Ed;
    destruct (lost_drop _ _ _ _ _ _ Hl Ed) as (D1 & Hl1 & HD1).
  - intros Hr. destruct (IH _ _ _ _ Hl1 Hr) as (D2 & Hl2 & HD2). exists D2. split; [done|]. intros m1 [Hm|Hm]%HD2; [|by right].
    apply HD1 in Hm as [Hm| ->]; [by left|by right].
  - intros [= <- _ _]. exists D1. split; [done|]. intros m1 [Hm| ->]%HD1; [by left|by right].
Qed.

(** The parts of a run. *)
Lemma maintain_cases s now path o s' res r :
  MaintainLedgerData s now path signer o = (s', res, r) →
  ∃ months s1, ensure_partitions month_named (ro_month o) (ls_months s) [month_of now - 1; month_of now; month_of now + 1] = (months, Ok tt)
      ∧ ls_audit s1 = ls_audit s ∧ ls_months s1 = months ∧ ls_checkpoints s1 = ls_checkpoints s
      ∧ (ls_audit s' = ls_audit s1 ∧ ls_months s' = ls_months s1 ∧ ls_checkpoints s' = ls_checkpoints s1 ∨
         signer ≠ None ∧ trim_space path ≠ "" ∧ ∃ m r, dropAuditPartitions s1 (now - 180 * Day) path signer (ro_drop o) = (s', m, r))
    ∨ ls_audit s' = ls_audit s ∧ ls_checkpoints s' = ls_checkpoints s ∧ is_ok r = false ∧
      ls_months s' ∈ [ls_months s; (ensure_partitions month_named (ro_month o) (ls_months s) [month_of now - 1; month_of now; month_of now + 1]).1].
Proof.
  unfold MaintainLedgerData. destruct (ensure_partitions day_named _ _ _) as [days [[]|e]]; cbn zeta iota beta.
  2: { intros [= <- _ <-]. exists [], s. right. split_and!; try done. simpl. set_solver. }
  set (sd := set_events _ _ _ _). change (ls_months sd) with (ls_months s).
  destruct (ensure_partitions month_named _ _ _) as [months [[]|e]] eqn:Em; cbn zeta iota beta.
  2: { intros [= <- _ <-]. exists [], s. right. split_and!; try done. simpl. set_solver. }
  set (sm := set_audit _ _ _). destruct (retain_events sm _ _) as [[s1 removed] r1] eqn:Er. intros H. exists months, s1. left.
  assert (ls_audit s1 = ls_audit s ∧ ls_months s1 = months ∧ ls_checkpoints s1 = ls_checkpoints s) as (H1 & H2 & H3).
  { apply retain_events_spec in Er as [(_ & -> & _)|(_ & _ & _ & _ & -> & -> & ->)]; done. }
  split_and!; try done. destruct (is_ok r1); simpl in H; [|injection H as <- _ _; by left].
  destruct (_ || _) eqn:Eg; [injection H as <- _ _; by left|]. right.
  apply orb_false_iff in Eg as [Eg1 Eg2]. apply bool_decide_eq_false in Eg1, Eg2. split_and!; [done..|].
  destruct (dropAuditPartitions _ _ _ _ _) as [[s2 [n k]] [[]|e]] eqn:Ed; injection H as <- _ _; by do 2 eexists.
Qed.

Lemma maintain_lost s now path o s' res r :
  MaintainLedgerData s now path signer o = (s', res, r) →
  ∃ D, lost s s' D ∧ ∀ m, m ∈ D → m + 1 ≤ month_of (now - 180 * Day) ∧ signer ≠ None ∧ trim_space path ≠ "".
Proof.
  intros H. apply maintain_cases in H as (months & s1 & [(_ & Ha & _ & Hf & Hcase)|(Ha & Hf & _)]).
  2: { exists []. split; [|set_solver]. destruct (lost_refl s) as [H1 _]. split; [by rewrite Ha|set_solver]. }
  assert (lost s s1 []) as Hl.
  { destruct (lost_refl s) as [H1 _]. split; [by rewrite Ha|set_solver]. }
  destruct Hcase as [(Ha' & _ & Hf')|(Hs & Hp & m & r' & Hd)].
  - exists []. split; [|set_solver]. destruct Hl as [H1 _]. split; [by rewrite Ha'|set_solver].
  - unfold dropAuditPartitions in Hd. destruct (lost_drop_months s _ s1 [] _ _ _ _ _ _ _ _ Hl Hd) as (D & HD & Hm).
    exists D. split; [done|]. intros x [Hx|Hx]%Hm; [by apply elem_of_nil in Hx|done].
Qed.
End dropping.

(** C25: the retention job never removes an audit entry unless it is older than 180
    days, a signer and a checkpoint file are configured, the anchor of its month is stored, and
    the file holds, complete, a checkpoint of the last entry of that month which every key
    holder of the signer's public key accepts.  This holds whatever fails on the way: signing,
    the file (torn writes included), any transaction. *)
Theorem audit_dropped_checkpointed {C : Crypto} {W : Wire} s now path signer o s' res r e :
  MaintainLedgerData s now path signer o = (s', res, r) →
  e ∈ audit_entries (ls_audit s) → e ∉ audit_entries (ls_audit s') →
  ae_OccurredAt e < now - 180 * Day ∧ trim_space path ≠ "" ∧
  ∃ sg a cp line pre post, signer = Some sg ∧ a ∈ audit_anchors (ls_audit s') ∧
    an_Partition a = month_of (ae_OccurredAt e) ∧ ae_Sequence e ≤ an_LastSequence a ∧
    WriteSignedAuditCheckpoint (Some cp) = Ok line ∧ ls_checkpoints s' = pre +:+ line +:+ post ∧
    ∀ pub, SoundSigner sg pub → VerifySignedAuditCheckpoint (Some cp) pub (an_LastSequence a) (an_LastHash a) = Ok tt.
Proof.
  intros H He Hn. destruct (maintain_lost signer _ _ _ _ _ _ _ H) as (D & [Hl Hc] & HD).
  destruct (decide (month_of (ae_OccurredAt e) ∈ D)) as [Hm|Hm]; [|exfalso; apply Hn; rewrite Hl; by apply list_elem_of_filter].
  destruct (HD _ Hm) as (Hmo & Hs & Hp), (Hc e He Hm) as (a & Ha & Hpa & Hseq & clock & cp & line & pre & post & Hsign & Hw & Hf).
  destruct signer as [sg|]; [|done]. split_and!; [|done|].
  - pose proof (month_of_bounds (ae_OccurredAt e)). pose proof (month_of_bounds (now - 180 * Day)).
    pose proof (proj2 (month_start_time_le _ _) Hmo). lia.
  - exists sg, a, cp, line, pre, post. split_and!; try done. intros pub Hpub.
    apply (checkpoint_sign_verify sg pub _ clock (Some cp) Hpub Hsign).
Qed.

(** A successful run leaves exactly the events of the last 30 days, whatever days
    have a partition of their own, keeps of the older receipts those a check ticket or a model
    inference refers to, and reports the number of events it removed. *)
Theorem events_retained_exactly {W : Wire} s now path signer o s' res :
  MaintainLedgerData s now path signer o = (s', res, Ok tt) →
  ls_events s' = filter (λ x, now - 30 * Day ≤ er_OccurredAt x) (ls_events s) ∧
  Events res = Z.of_nat (length (ls_events s)) - Z.of_nat (length (ls_events s')) ∧
  ∀ x, x ∈ ls_receipts s' ↔ x ∈ ls_receipts s ∧
    (now - 30 * Day ≤ er_OccurredAt x ∨ er_EventID x ∈ ls_tickets s ∨ er_EventID x ∈ ls_inferences s).
Proof.
  intros H. destruct (maintain_events _ _ _ _ _ _ _ H) as (He & Hr & Hc). split_and!; [done| |].
  - rewrite Hc, He. pose proof (filter_count (λ x, now - 30 * Day ≤ er_OccurredAt x) (ls_events s)) as E.
    rewrite (list_filter_iff (λ x, ¬ now - 30 * Day ≤ er_OccurredAt x) (λ x, er_OccurredAt x < now - 30 * Day)) in E by lia. lia.
  - intros x. rewrite Hr, list_elem_of_filter. unfold receipt_kept. rewrite !orb_true_iff, !bool_decide_eq_true, Z.leb_le. tauto.
Qed.

(** ** The chain over appends and retention *)

Section history.
Context {C : Crypto} {W : Wire} {A : AuditWire} {L : AuditWireLaws A}.

Definition empty_ledger : ledger_state := mkLedgerState (mkAuditDb [] []) [] [] [] [] ∅ ∅ "".

(** Histories in which the sequence increases, an entry is stored in the attached partition of
    its month, the clock never goes back to an earlier month (within a month it may), and no
    entry is appended after retention has removed every one: that entry gets an empty link
    ([audit_retention_breaks_verification]). *)
Inductive ledger_history : ledger_state → Prop :=
  | history_start : ledger_history empty_ledger
  | history_append s clock seq stored at_ ai ac ot oi co d db' r :
      ledger_history s →
      (∀ e, e ∈ audit_entries (ls_audit s) → ae_Sequence e < seq ∧ month_of (ae_OccurredAt e) ≤ month_of (truncate_micro clock)) →
      last_anchored (ls_audit s) < seq →
      month_of (truncate_micro clock) ∈ ls_months s →
      audit_entries (ls_audit s) ≠ [] ∨ audit_anchors (ls_audit s) = [] →
      appendAuditRecordTx (ls_audit s) clock seq stored at_ ai ac ot oi co d = (db', r) →
      ledger_history (set_audit s db' (ls_months s))
  | history_maintain s now path signer o s' res r :
      ledger_history s → MaintainLedgerData s now path signer o = (s', res, r) → ledger_history s'.

Record ledger_inv (s : ledger_state) : Prop := {
  li_chain : chain_inv (ls_audit s);
  li_times : StronglySorted (key_le (λ e, month_of (ae_OccurredAt e))) (audit_entries (ls_audit s));
  li_attached : ∀ e, e ∈ audit_entries (ls_audit s) → month_of (ae_OccurredAt e) ∈ ls_months s;
  li_named : ∀ m, m ∈ ls_months s → month_named m = true;
}.

Lemma ensure_partitions_incl named ok starts : ∀ attached,
  (∀ m, m ∈ attached → named m = true) →
  (∀ m, m ∈ attached → m ∈ (ensure_partitions named ok attached starts).1) ∧
  (∀ m, m ∈ (ensure_partitions named ok attached starts).1 → named m = true).
Proof.
  induction starts as [|x starts IH]; intros attached Hn; simpl; [done|]. unfold ensureLedgerPartition.
  destruct (named x) eqn:Ex; [|done]. destruct (ok x); [|done]. simpl. destruct (IH (if bool_decide (x ∈ attached) then attached else attached ++ [x])) as [H1 H2].
  { case_bool_decide; [done|]. intros m [Hm| ->%list_elem_of_singleton]%elem_of_app; [by apply Hn|done]. }
  split; [|done]. intros m Hm. apply H1. case_bool_decide; [done|]. set_solver.
Qed.

Lemma sorted_le_filter {B} (key : B → Z) (P : B → Prop) `{∀ x, Decision (P x)} l :
  StronglySorted (key_le key) l → StronglySorted (key_le key) (filter P l).
Proof.
  induction 1 as [|x l Hl IH Hx]; [constructor|]. rewrite filter_cons. case_decide; [|done]. constructor; [done|].
  apply Forall_forall. intros y [_ Hy]%list_elem_of_filter. rewrite Forall_forall in Hx. by apply Hx.
Qed.

(** Upserting the anchor of rows that come after every anchor puts it last. *)
Lemma upsert_last a anchors :
  StronglySorted (key_lt an_LastSequence) anchors →
  default 0 (an_LastSequence <$> last (order_by an_LastSequence anchors)) < an_LastSequence a →
  StronglySorted (key_lt an_LastSequence) (upsert_anchor a anchors) ∧ last (order_by an_LastSequence (upsert_anchor a anchors)) = Some a.
Proof.
  intros Hs Hl. rewrite order_by_increasing in Hl by done.
  assert (StronglySorted (key_lt an_LastSequence) (upsert_anchor a anchors)) as Hu.
  { unfold upsert_anchor. apply increasing_snoc; [by apply increasing_filter|]. intros b [_ Hb]%list_elem_of_filter.
    destruct anchors as [|c anchors _] using rev_ind; [by apply elem_of_nil in Hb|]. rewrite last_snoc in Hl. simpl in Hl.
    apply elem_of_app in Hb as [Hb| ->%list_elem_of_singleton]; [|done].
    apply increasing_app in Hs as (_ & _ & Hs). specialize (Hs b c Hb ltac:(by left)). lia. }
  split; [done|]. rewrite order_by_increasing by done. unfold upsert_anchor. apply last_snoc.
Qed.

(** Dropping the oldest month keeps the chain: its anchor is what the rest hangs on. *)
Lemma drop_ledger_inv s month s' r signer :
  ledger_inv s → (∀ e, e ∈ audit_entries (ls_audit s) → month ≤ month_of (ae_OccurredAt e)) → drop_case signer s month s' r → ledger_inv s'.
Proof.
  intros [Hc Ht Ha Hn] Hm Hd. destruct Hd as [more e Ea Em _|Hr ->|a first final more _ Hl Hp Hseq Hhash Ea Em _ _].
  - split; by rewrite ?Ea, ?Em.
  - assert (filter (λ e, month_of (ae_OccurredAt e) ≠ month) (audit_entries (ls_audit s)) = audit_entries (ls_audit s)) as E.
    { apply filter_Forall, Forall_forall. intros x Hx Hxm.
      assert (x ∈ partition_rows (ls_audit s) month) as Hin by by apply partition_rows_elem. rewrite Hr in Hin. by apply elem_of_nil in Hin. }
    split; simpl; rewrite ?E.
    + destruct (ls_audit s). exact Hc.
    + done.
    + intros e He. rewrite <- E in He. apply list_elem_of_filter in He as [He1 He2]. apply list_elem_of_filter. split; [done|by apply Ha].
    + intros m [_ Hm']%list_elem_of_filter. by apply Hn.
  - destruct Hc as [Hs Hk Hanch Hafter].
    pose proof (sorted_least_first _ _ month Ht Hm) as Hsplit.
    unfold partition_rows in Hl. rewrite order_by_increasing in Hl by by apply increasing_filter.
    set (gone := filter (λ e, month_of (ae_OccurredAt e) = month) (audit_entries (ls_audit s))) in *.
    set (kept := filter (λ e, month_of (ae_OccurredAt e) ≠ month) (audit_entries (ls_audit s))) in *.
    assert (final ∈ gone) as Hfin by (apply last_Some in Hl as [l ->]; set_solver).
    assert (final ∈ audit_entries (ls_audit s)) as Hfin' by by apply list_elem_of_filter in Hfin as [_ ?].
    rewrite Forall_forall in Hafter. specialize (Hafter final Hfin') as Hlt.
    destruct (upsert_last a (audit_anchors (ls_audit s)) Hanch) as [Hu Hlast]; [rewrite Hseq; exact Hlt|].
    rewrite Hsplit in Hs, Hk. apply increasing_app in Hs as (_ & Hs & Hgk). apply linked_app in Hk as [_ Hk].
    split; rewrite ?Ea, ?Em.
    + split; simpl; [done| |done|].
      * unfold chain_base. simpl. rewrite Hlast. simpl. rewrite Hhash. unfold end_hash in Hk. by rewrite Hl in Hk.
      * unfold last_anchored. simpl. rewrite Hlast. simpl. apply Forall_forall. intros e He. rewrite Hseq. by apply Hgk.
    + by apply sorted_le_filter.
    + simpl. intros e He. apply list_elem_of_filter in He as [He1 He2]. apply list_elem_of_filter. split; [done|by apply Ha].
    + intros m [_ Hm']%list_elem_of_filter. by apply Hn.
Qed.

Lemma drop_months_skip months s cutoff path signer o n k :
  (∀ m, m ∈ months → month_of cutoff < m + 1) → drop_months s months cutoff path signer o n k = (s, (n, k), Ok tt).
Proof.
  induction months as [|m months IH]; intros Hm; [done|]. simpl. destruct (time_after _ _) eqn:Et; [apply IH; set_solver|].
  exfalso. unfold time_after in Et. breflect. apply (proj1 (month_start_time_le _ _)) in Et. specialize (Hm m ltac:(left)). lia.
Qed.

Lemma drop_months_inv months s cutoff path signer o n k s' m r :
  ledger_inv s → StronglySorted (key_le id) months → (∀ e, e ∈ audit_entries (ls_audit s) → month_of (ae_OccurredAt e) ∈ months) →
  drop_months s months cutoff path signer o n k = (s', m, r) → ledger_inv s'.
Proof.
  revert s n k. induction months as [|month rest IH]; intros s n k Hi Hs Hin; simpl; [by intros [= <- _ _]|].
  apply StronglySorted_inv in Hs as [Hs Hle]. rewrite Forall_forall in Hle. unfold key_le, id in Hle.
  destruct (time_after _ _) eqn:Et.
  { unfold time_after in Et. breflect. rewrite drop_months_skip; [by intros [= <- _ _]|]. intros x Hx. specialize (Hle x Hx).
    destruct (decide (month + 1 ≤ month_of cutoff)) as [Hm|]; [|lia]. apply (month_start_time_le) in Hm. lia. }
  destruct (checkpointAndDropAuditPartition _ _ _ _ _ _ _) as [s1 r1] eqn:Ed. apply drop_cases in Ed.
  assert (ledger_inv s1) as Hi1.
  { eapply drop_ledger_inv; [done| |exact Ed]. intros e He. apply Hin in He as [->|He]%elem_of_cons; [done|by apply Hle]. }
  destruct r1 as [count|e]; [|by intros [= <- _ _]]. apply IH; [done..|].
  assert (∀ e, e ∈ audit_entries (ls_audit s1) → e ∈ audit_entries (ls_audit s) ∧ month_of (ae_OccurredAt e) ≠ month) as Hk.
  { intros e. inversion Ed as [|? Hs1|? ? ? ? ? ? ? ? ? Ea]; subst; [simpl|rewrite Ea; simpl]; rewrite list_elem_of_filter; tauto. }
  intros e [He Hne]%Hk. apply Hin in He. by apply elem_of_cons in He as [|].
Qed.

Lemma set_months_inv s s' :
  ledger_inv s → ls_audit s' = ls_audit s → (∀ m, m ∈ ls_months s → m ∈ ls_months s') → (∀ m, m ∈ ls_months s' → month_named m = true) → ledger_inv s'.
Proof. intros [Hc Ht Ha Hn] E H1 H2. split; rewrite ?E; try done. intros e He. by apply H1, Ha. Qed.

Lemma ledger_history_inv s : ledger_history s → ledger_inv s.
Proof.
  induction 1 as [|s clock seq stored at_ ai ac ot oi co d db' r _ IH Hseq Hanch Hmonth Hcont Happ|s now path signer o s' res r _ IH H].
  - split; simpl; [|constructor|set_solver..]. split; simpl; try constructor.
  - destruct (append_cases _ _ _ _ _ _ _ _ _ _ _ _ _ Happ) as [[_ ->]|[_ Hrow]]; [by destruct s|]. pose proof IH as [Hc Ht Ha Hn].
    assert (chain_inv db') as Hc' by (eapply append_chain_inv; [done|exact Hrow| |done|done]; intros e He; by apply Hseq).
    destruct Hrow as (x & -> & _ & Hx & _ & _). split; simpl; [done| | |done].
    + clear -Ht Hseq Hx. induction Ht as [|y l Hl IHl Hy]; simpl; [by repeat constructor|]. constructor.
      * apply IHl. intros e He. apply Hseq. by right.
      * apply Forall_app. split; [done|]. constructor; [|done]. unfold key_le. rewrite Hx. apply Hseq. left.
    + intros e [He| ->%list_elem_of_singleton]%elem_of_app; [by apply Ha|]. by rewrite Hx.
  - destruct (ensure_partitions_incl month_named (ro_month o) [month_of now - 1; month_of now; month_of now + 1] (ls_months s) (li_named _ IH)) as [H1 H2].
    apply maintain_cases in H as (months & s1 & [(Em & Ea & Emo & _ & Hcase)|(Ea & _ & _ & Hmo)]).
    + rewrite Em in H1, H2. simpl in H1, H2. assert (ledger_inv s1) as Hi1 by (apply (set_months_inv s); rewrite ?Emo; done).
      destruct Hcase as [(Ea' & Em' & _)|(_ & _ & m & r' & Hd)].
      * apply (set_months_inv s1); rewrite ?Em'; [done..|apply Hi1].
      * unfold dropAuditPartitions in Hd. eapply drop_months_inv; [exact Hi1|apply order_by_sorted| |exact Hd].
        intros e He. rewrite order_by_perm. apply list_elem_of_filter. split; [apply Hi1|]; by apply Hi1.
    + apply elem_of_cons in Hmo as [Hmo|Hmo%list_elem_of_singleton].
      * apply (set_months_inv s); rewrite ?Hmo; [done..|apply IH].
      * apply (set_months_inv s); rewrite ?Hmo; done.
Qed.
End history.


Lemma verify_bad_start {C : Crypto} {A : AuditWire} db from to x l r :
  range_rows db from to = x :: l → hash_before db from ≠ ae_PreviousHash x → verifyAuditRange db from to = Ok r → vc_Valid r = false.
Proof.
  intros Hr Hh. unfold verifyAuditRange. rewrite Hr. destruct (_ =? 0); [done|]. intros [= <-]. simpl vc_Valid.
  apply not_true_iff_false. intros Hv. change (w_valid (foldl verify_row (mkWalk (hash_before db from) "" 0 true) (x :: l)) = true) in Hv.
  apply verify_rows_valid in Hv as [_ [Hp _]]. simpl in Hp. congruence.
Qed.

(** Where verification goes wrong after retention.  Once entries were dropped, a
    range that starts at or before them is reported broken although nothing was changed; and
    when retention has removed every entry, the next one is appended with an empty link, so
    that the range from it on is reported broken too. *)
Theorem audit_retention_breaks_verification {C : Crypto} {W : Wire} {A : AuditWire} {L : AuditWireLaws A} s from to r :
  ledger_history s → chain_base (ls_audit s) ≠ "" →
  (Forall (λ a, from ≤ an_LastSequence a) (audit_anchors (ls_audit s)) →
   verifyAuditRange (ls_audit s) from to = Ok r → vc_Valid r = false) ∧
  (audit_entries (ls_audit s) = [] → ∀ clock seq at_ ai ac ot oi co d db',
   last_anchored (ls_audit s) < seq → appendAuditRecordTx (ls_audit s) clock seq true at_ ai ac ot oi co d = (db', Ok tt) →
   verifyAuditRange db' seq seq = Ok r → vc_Valid r = false).
Proof.
  intros Hh Hbase. destruct (li_chain _ (ledger_history_inv _ Hh)) as [Hs Hl Ha Hafter]. set (db := ls_audit s) in *. split.
  - intros Hfrom Hv. rewrite Forall_forall in Hfrom. destruct (range_rows db from to) as [|x l] eqn:Er; [unfold verifyAuditRange in Hv; by rewrite Er in Hv|].
    assert (∀ e, e ∈ audit_entries db → from < ae_Sequence e) as Hgt.
    { rewrite Forall_forall in Hafter. intros e He. specialize (Hafter e He). unfold last_anchored, chain_base in *.
      rewrite order_by_increasing in Hafter, Hbase by done. destruct (last (audit_anchors db)) as [a|] eqn:El; [|done].
      apply last_Some in El as [l' El]. specialize (Hfrom a ltac:(rewrite El; set_solver)). simpl in Hafter. lia. }
    eapply verify_bad_start; [exact Er| |exact Hv].
    assert (hash_before db from = "") as ->.
    { unfold hash_before. rewrite (filter_none _ (audit_entries db)) by (intros e He; specialize (Hgt e He); lia). simpl.
      rewrite filter_none; [done|]. intros a Hin. specialize (Hfrom a Hin). lia. }
    unfold range_rows in Er. rewrite order_by_increasing in Er by by apply increasing_filter.
    destruct (audit_entries db) as [|y l'] eqn:Ee; [done|]. simpl in Hl. destruct Hl as [Hp _].
    rewrite filter_cons in Er. case_decide as Hd; [injection Er as <- _; congruence|].
    exfalso. assert (x ∈ filter (λ e, from ≤ ae_Sequence e ≤ to) l') as [Hx Hin]%list_elem_of_filter by (rewrite Er; left).
    apply StronglySorted_inv in Hs as [_ Hs]. rewrite Forall_forall in Hs. specialize (Hs x Hin). unfold key_lt in Hs.
    specialize (Hgt y ltac:(left)). lia.
  - intros He clock seq at_ ai ac ot oi co d db' Hseq Happ Hv.
    apply append_cases in Happ as [[Hf _]|[_ (x & -> & Hx & _ & Hp & _)]]; [done|]. rewrite He in Hv. simpl in Hv.
    rewrite <- Hx in Hv. eapply verify_bad_start; [|  |exact Hv].
    + unfold range_rows. simpl. by rewrite filter_cons, decide_True by lia.
    + rewrite Hp. unfold latest. rewrite He. simpl. unfold hash_before. simpl.
      rewrite filter_cons, decide_False by lia. simpl. rewrite last_filter_below; [exact Hbase|done|].
      intros a Hlast. unfold last_anchored in Hseq. rewrite order_by_increasing, Hlast in Hseq by done. simpl in Hseq. lia.
Qed.

(** ** A concrete ledger *)
Module LedgerDemo.

Definition crypto : Crypto := {|
  sha256 s := s;
  ed25519_public := ed25519_public (Crypto := toy_crypto);
  ed25519_sign := ed25519_sign (Crypto := toy_crypto);
  ed25519_verify := ed25519_verify (Crypto := toy_crypto);
  marshal_artifact := marshal_artifact (Crypto := toy_crypto);
  marshal_generation := marshal_generation (Crypto := toy_crypto);
  marshal_listen_plan := marshal_listen_plan (Crypto := toy_crypto);
|}.

Definition audit : AuditWire := {|
  format_time t := pretty t;
  details_t := string;
  marshal_details d := Some d;
  json_canonical d := if str_mem newline d then "null" else d;
  jsonb_text d := Some d;
|}.

Lemma audit_laws : AuditWireLaws audit.
Proof.
  split; simpl.
  - by intros ?? [= ->].
  - intros raw. by destruct (str_mem newline raw) eqn:E.
  - apply pretty_Z_one_line.
  - intros t u. apply (inj pretty).
Defined.

(** Two entries of January 2026, one of September; the run of September drops January. *)
Definition january : time := month_start (12 * 2026) + Day.
Definition september : time := month_start (12 * 2026 + 8) + Day.

Definition append (db : audit_db) (t : time) (seq : Z) (action : string) : audit_db :=
  (appendAuditRecordTx (C := crypto) (A := audit) db t seq true "user" "u" action "asset" "a" no_coordinates "{}").1.
Definition db2 : audit_db := append (append (mkAuditDb [] []) january 1 "x") (january + 1) 2 "y".
Definition db3 : audit_db := append db2 september 4 "z".
Definition no_entry : AuditEntry := mkAuditEntry 0 0 "" "" "" "" "" "" "" "" no_coordinates "".
Definition row3 : AuditEntry := default no_entry (latest db3).
Definition head2 : string := (LatestAuditHead db2).2.

Definition unsigned : AuditCheckpoint := mkAuditCheckpoint 2 head2 (Some 7) "" "".
Definition signature : string := ed25519_sign (Crypto := crypto) toy_key "C".
Definition signed : AuditCheckpoint :=
  mkAuditCheckpoint 2 head2 (Some 7) (KeyID (C := crypto) (ed25519_public (Crypto := crypto) toy_key)) signature.
Definition checkpoints : list (AuditCheckpoint * string) := [(unsigned, "C"); (signed, "D")].

Definition wire : Wire := {|
  unmarshal_artifact _ := None;
  unmarshal_generation _ := None;
  unmarshal_listen_plan _ := None;
  json_request _ := "";
  json_parse_request _ := None;
  json_response _ := "";
  json_parse_response _ := None;
  json_checkpoint := table_encode checkpoints;
  json_parse_checkpoint := table_decode checkpoints;
|}.
Definition signer : Signer := memory_signer (C := crypto) (mkMemorySigner toy_key false).

Definition outcome : run_outcome :=
  mkRunOutcome (λ _, true) (λ _, true) TxCommitted (mkDropOutcome (λ _, 7) (λ _, None) (λ _, true)).
Definition maintain (s : ledger_state) (now : time) (sg : option Signer) : ledger_state :=
  (MaintainLedgerData (W := wire) s now "f" sg outcome).1.1.
Definition start : ledger_state :=
  mkLedgerState (mkAuditDb [] []) [] [mkEventRow "e" january; mkEventRow "g" september] [day_of january] [mkEventRow "e" january] {["e"]} ∅ "".
Definition with_db (s : ledger_state) (db : audit_db) : ledger_state := set_audit s db (ls_months s).

Definition s0 : ledger_state := maintain empty_ledger january None.
Definition s3 : ledger_state := with_db (maintain (with_db s0 db2) september None) db3.
Definition s4 : ledger_state := maintain s3 september (Some signer).

Definition broken : VerifyChainResponse := mkVerifyChain false (ae_EntryHash row3) (ae_EntryHash row3) 1.

Lemma history_step s t seq action months :
  ledger_history (C := crypto) (W := wire) (A := audit) s →
  bool_decide (Forall (λ e, ae_Sequence e < seq ∧ month_of (ae_OccurredAt e) ≤ month_of (truncate_micro t)) (audit_entries (ls_audit s))) = true →
  (last_anchored (ls_audit s) <? seq) = true → bool_decide (month_of (truncate_micro t) ∈ ls_months s) = true →
  bool_decide (audit_anchors (ls_audit s) = []) = true → months = ls_months s →
  ledger_history (C := crypto) (W := wire) (A := audit) (set_audit s (append (ls_audit s) t seq action) months).
Proof.
  intros Hh H1%bool_decide_eq_true H2%Z.ltb_lt H3%bool_decide_eq_true H4%bool_decide_eq_true ->. unfold append.
  eapply (history_append (A := audit) s t seq true "user" "u" action "asset" "a" no_coordinates "{}"); [done| |done|done|by right|done].
  intros e He. rewrite Forall_forall in H1. by apply H1.
Defined.

Lemma maintain_history s now sg :
  ledger_history (C := crypto) (W := wire) (A := audit) s → ledger_history (C := crypto) (W := wire) (A := audit) (maintain s now sg).
Proof.
  intros Hh. unfold maintain. destruct (MaintainLedgerData _ _ _ _ _) as [[s' res] r] eqn:E. by eapply history_maintain.
Defined.

Lemma history_s3 : ledger_history (C := crypto) (W := wire) (A := audit) s3.
Proof.
  unfold s3, with_db, db3.
  apply (history_step (maintain (set_audit s0 db2 (ls_months s0)) september None) september 4 "z"); [|by vm_compute..].
  apply maintain_history. unfold db2.
  apply (history_step (set_audit s0 (append (mkAuditDb [] []) january 1 "x") (ls_months s0)) (january + 1) 2 "y"); [|by vm_compute..].
  apply (history_step s0 january 1 "x"); [|by vm_compute..]. apply maintain_history. constructor.
Defined.

Lemma history_s4 : ledger_history (C := crypto) (W := wire) (A := audit) s4.
Proof. apply maintain_history, history_s3. Defined.
End LedgerDemo.

Lemma audit_tamper_evident_witness :
  Forall2 (same_entry (A := LedgerDemo.audit)) (range_rows LedgerDemo.db3 1 2) (range_rows LedgerDemo.db2 1 2)
  ∨ sha256_collision (C := LedgerDemo.crypto).
Proof.
  eapply (@audit_tamper_evident LedgerDemo.crypto LedgerDemo.audit LedgerDemo.audit_laws LedgerDemo.db3 LedgerDemo.db2 1 2 1 2);
    vm_compute; reflexivity.
Defined.

Lemma audit_dropped_checkpointed_witness : ∃ a, a ∈ audit_anchors (ls_audit LedgerDemo.s4) ∧ 1 ≤ an_LastSequence a.
Proof.
  destruct (audit_entries LedgerDemo.db2) as [|e l] eqn:El; [by vm_compute in El|].
  destruct (@audit_dropped_checkpointed LedgerDemo.crypto LedgerDemo.wire LedgerDemo.s3 LedgerDemo.september "f" (Some LedgerDemo.signer)
    LedgerDemo.outcome LedgerDemo.s4 (mkMaintenanceResult 0 2 3) (Ok tt) e) as (_ & _ & sg & a & _ & _ & _ & _ & _ & Ha & _ & Hs & _).
  - vm_compute. reflexivity.
  - vm_compute in El. injection El as <- _. vm_compute. left.
  - vm_compute in El. injection El as <- _. apply (bool_decide_unpack _). vm_compute. reflexivity.
  - exists a. split; [done|]. vm_compute in El. injection El as <- _. exact Hs.
Defined.

Lemma events_retained_exactly_witness :
  ls_events (LedgerDemo.maintain LedgerDemo.start LedgerDemo.september None) = [mkEventRow "g" LedgerDemo.september].
Proof.
  destruct (@events_retained_exactly LedgerDemo.wire LedgerDemo.start LedgerDemo.september "f" None LedgerDemo.outcome
    (LedgerDemo.maintain LedgerDemo.start LedgerDemo.september None) (mkMaintenanceResult 1 0 0)) as (He & _); [vm_compute; reflexivity|].
  rewrite He. vm_compute. reflexivity.
Defined.


Lemma audit_retention_breaks_verification_witness :
  verifyAuditRange (C := LedgerDemo.crypto) (A := LedgerDemo.audit) (ls_audit LedgerDemo.s4) 1 9 = Ok LedgerDemo.broken ∧
  vc_Valid LedgerDemo.broken = false.
Proof.
  assert (verifyAuditRange (C := LedgerDemo.crypto) (A := LedgerDemo.audit) (ls_audit LedgerDemo.s4) 1 9 = Ok LedgerDemo.broken) as E.
  { apply (bool_decide_unpack _). vm_compute. reflexivity. }
  split; [exact E|].
  refine (proj1 (@audit_retention_breaks_verification LedgerDemo.crypto LedgerDemo.wire LedgerDemo.audit LedgerDemo.audit_laws LedgerDemo.s4
    1 9 LedgerDemo.broken LedgerDemo.history_s4 _) _ E).
  - apply (bool_decide_unpack _). vm_compute. reflexivity.
  - apply (bool_decide_unpack _). vm_compute. reflexivity.
Defined.
