(* ===== verification/Govern.v ===== *)
(** * Release governance

    [lib/brain/govern.go], [govern_write.go] and [baseline_generation.go]: the tables of the
    control plane that hold releases and the generations published to the edges, and the
    transactions on them.  A function that runs in one transaction is one step that either
    takes effect as a whole or leaves the tables as they were; where a handler reads before its
    transaction, the reading and the writing are separate functions.  A message column holds
    the message; [json_artifact] and [json_generation] say which messages can be encoded
    (protojson refuses invalid UTF-8).  New identifiers are arguments, checked against the
    primary keys of the tables; the clock is an argument.  Whether the caller holds the grant
    for a tool, and the response stored for a repeated request, are arguments too. *)

From stdpp Require Import sorting.
From S2P Require Import Prelude GoStrings Contracts Signing SignerService AuditChain GenerationStore ReleaseLifecycle.

(** ** Tables *)

Record release_row := mkReleaseRow {
  rw_State : string; rw_Artifact : Artifact; rw_ArtifactID : string; rw_CanaryPercent : Z; rw_RetireReason : string;
  rw_CreatedBy : string; rw_ScopeRisk : string; rw_EvidenceClass : string;
  rw_SignedAt : option time; rw_ShadowAt : option time; rw_CanaryAt : option time; rw_EnforcedAt : option time;
  rw_RetiredAt : option time; rw_UpdatedAt : time; rw_ReviewAt : option time; rw_HardExpiresAt : option time }.

Record feed_row := mkFeedRow {
  fd_UnitID : string; fd_AssetID : string; fd_ReleaseID : string; fd_Mode : string; fd_CanaryPercent : Z; fd_Retired : bool;
  fd_RetireReason : string; fd_Artifact : Artifact }.

Record timeline_row := mkTimelineRow { tl_ReleaseID : string; tl_From : string; tl_To : string; tl_Actor : string; tl_Reason : string }.

Record guard_row := mkGuardRow {
  gw_Requests : Z; gw_Blocks : Z; gw_Denies : Z; gw_ConsecutiveBad : Z; gw_LastBadAt : option time; gw_Reasons : string; gw_P99 : Z }.

(** A row of [release_counters]; its key is the unit and the release. *)
Record counter_row := mkCounterRow {
  cw_Generation : Z; cw_Mode : string; cw_Requests : Z; cw_Blocks : Z; cw_Observes : Z; cw_Selected : Z; cw_5xx : Z;
  cw_LatencyMicros : Z; cw_LatencySamples : Z; cw_P99 : Z }.

Record setting_row := mkSettingRow { sr_Artifact : Artifact; sr_Digest : string; sr_UpdatedBy : string }.

Record gov_db := mkGovDb {
  gd_releases : gmap string release_row;
  gd_release_assets : list (string * string);
  gd_unit_assets : list (string * string);
  gd_feed : list feed_row;
  gd_timeline : list timeline_row;
  gd_settings : gmap string (gmap string setting_row);
  gd_generations : list AssetGeneration;
  gd_enrollments : gmap string (string * (string * Z));
  gd_guards : gmap string guard_row;
  gd_counters : gmap (string * string) counter_row;
  gd_denies : list (string * string);
  gd_audit : audit_db;
}.

Definition set_releases (db : gov_db) (x : gmap string release_row) : gov_db :=
  mkGovDb x (gd_release_assets db) (gd_unit_assets db) (gd_feed db) (gd_timeline db) (gd_settings db) (gd_generations db)
    (gd_enrollments db) (gd_guards db) (gd_counters db) (gd_denies db) (gd_audit db).
Definition set_release_assets (db : gov_db) (x : list (string * string)) : gov_db :=
  mkGovDb (gd_releases db) x (gd_unit_assets db) (gd_feed db) (gd_timeline db) (gd_settings db) (gd_generations db)
    (gd_enrollments db) (gd_guards db) (gd_counters db) (gd_denies db) (gd_audit db).
Definition set_feed (db : gov_db) (x : list feed_row) : gov_db :=
  mkGovDb (gd_releases db) (gd_release_assets db) (gd_unit_assets db) x (gd_timeline db) (gd_settings db) (gd_generations db)
    (gd_enrollments db) (gd_guards db) (gd_counters db) (gd_denies db) (gd_audit db).
Definition set_timeline (db : gov_db) (x : list timeline_row) : gov_db :=
  mkGovDb (gd_releases db) (gd_release_assets db) (gd_unit_assets db) (gd_feed db) x (gd_settings db) (gd_generations db)
    (gd_enrollments db) (gd_guards db) (gd_counters db) (gd_denies db) (gd_audit db).
Definition set_settings (db : gov_db) (x : gmap string (gmap string setting_row)) : gov_db :=
  mkGovDb (gd_releases db) (gd_release_assets db) (gd_unit_assets db) (gd_feed db) (gd_timeline db) x (gd_generations db)
    (gd_enrollments db) (gd_guards db) (gd_counters db) (gd_denies db) (gd_audit db).
Definition set_generations (db : gov_db) (x : list AssetGeneration) (e : gmap string (string * (string * Z))) : gov_db :=
  mkGovDb (gd_releases db) (gd_release_assets db) (gd_unit_assets db) (gd_feed db) (gd_timeline db) (gd_settings db) x e
    (gd_guards db) (gd_counters db) (gd_denies db) (gd_audit db).
Definition set_guards (db : gov_db) (x : gmap string guard_row) : gov_db :=
  mkGovDb (gd_releases db) (gd_release_assets db) (gd_unit_assets db) (gd_feed db) (gd_timeline db) (gd_settings db)
    (gd_generations db) (gd_enrollments db) x (gd_counters db) (gd_denies db) (gd_audit db).
Definition set_counters (db : gov_db) (x : gmap (string * string) counter_row) : gov_db :=
  mkGovDb (gd_releases db) (gd_release_assets db) (gd_unit_assets db) (gd_feed db) (gd_timeline db) (gd_settings db)
    (gd_generations db) (gd_enrollments db) (gd_guards db) x (gd_denies db) (gd_audit db).
Definition set_denies (db : gov_db) (x : list (string * string)) : gov_db :=
  mkGovDb (gd_releases db) (gd_release_assets db) (gd_unit_assets db) (gd_feed db) (gd_timeline db) (gd_settings db)
    (gd_generations db) (gd_enrollments db) (gd_guards db) (gd_counters db) x (gd_audit db).
Definition set_gov_audit (db : gov_db) (x : audit_db) : gov_db :=
  mkGovDb (gd_releases db) (gd_release_assets db) (gd_unit_assets db) (gd_feed db) (gd_timeline db) (gd_settings db)
    (gd_generations db) (gd_enrollments db) (gd_guards db) (gd_counters db) (gd_denies db) x.

(** ** Names of states, modes and reasons *)

Definition releaseStateString (s : ReleaseState) : string :=
  match s with
  | RELEASE_STATE_SIGNED => "signed" | RELEASE_STATE_SHADOW => "shadow" | RELEASE_STATE_CANARY => "canary"
  | RELEASE_STATE_ENFORCE => "enforce" | RELEASE_STATE_RETIRED => "retired" | _ => "draft"
  end.
Definition releaseStateEnum (s : string) : ReleaseState :=
  if bool_decide (s = "signed") then RELEASE_STATE_SIGNED else if bool_decide (s = "shadow") then RELEASE_STATE_SHADOW
  else if bool_decide (s = "canary") then RELEASE_STATE_CANARY else if bool_decide (s = "enforce") then RELEASE_STATE_ENFORCE
  else if bool_decide (s = "retired") then RELEASE_STATE_RETIRED else RELEASE_STATE_DRAFT.
Definition releaseModeForState (s : ReleaseState) : string :=
  match s with RELEASE_STATE_CANARY => "canary" | RELEASE_STATE_ENFORCE => "enforce" | _ => "shadow" end.
Definition releaseModeEnum (s : string) : ReleaseMode :=
  if bool_decide (s = "shadow") then RELEASE_MODE_SHADOW else if bool_decide (s = "canary") then RELEASE_MODE_CANARY
  else if bool_decide (s = "enforce") then RELEASE_MODE_ENFORCE else RELEASE_MODE_UNSPECIFIED.
Definition canaryPercent (r : Release) : Z := match r with RCanary c => CanaryPercent c | _ => 0 end.
Definition retireReasonEnum (s : string) : RetireReason :=
  if bool_decide (s = "rollback") then RETIRE_REASON_ROLLBACK else if bool_decide (s = "manual") then RETIRE_REASON_MANUAL
  else if bool_decide (s = "ttl") then RETIRE_REASON_TTL else if bool_decide (s = "superseded") then RETIRE_REASON_SUPERSEDED
  else RETIRE_REASON_UNSPECIFIED.
Definition retireReasonString (r : RetireReason) : result string :=
  match r with
  | RETIRE_REASON_ROLLBACK => Ok "rollback" | RETIRE_REASON_MANUAL => Ok "manual" | RETIRE_REASON_TTL => Ok "ttl"
  | RETIRE_REASON_SUPERSEDED => Ok "superseded" | _ => Err "unknown retire reason"
  end.

Definition active_state (s : string) : bool := bool_decide (s = "shadow") || bool_decide (s = "canary") || bool_decide (s = "enforce").

Definition releaseTransitionAllowed (from to : string) : bool :=
  if bool_decide (from = to) then true
  else if bool_decide (to = "signed") then bool_decide (from = "draft")
  else if bool_decide (to = "shadow") then bool_decide (from = "signed")
  else if bool_decide (to = "canary") then bool_decide (from = "shadow")
  else if bool_decide (to = "enforce") then bool_decide (from = "shadow") || bool_decide (from = "canary")
  else if bool_decide (to = "retired") then negb (bool_decide (from = "retired"))
  else false.

(** ** Loading *)

Definition releaseFromParts (id : string) (row : release_row) : result Release :=
  let a := rw_Artifact row in
  if bool_decide (rw_State row = "draft") then Ok (RDraft (mkDraft id a (CreatedBy a)))
  else if bool_decide (rw_State row = "signed") then Ok (RSigned (mkSigned id a))
  else if bool_decide (rw_State row = "shadow") then Ok (RShadow (mkShadow id a))
  else if bool_decide (rw_State row = "canary") then Ok (RCanary (mkCanary id a (rw_CanaryPercent row)))
  else if bool_decide (rw_State row = "enforce") then Ok (REnforce (mkEnforce id a))
  else if bool_decide (rw_State row = "retired") then Ok (RRetired (mkRetired id a (retireReasonEnum (rw_RetireReason row))))
  else Err "unknown release state".

Definition loadRelease (db : gov_db) (releaseID : string) : result Release :=
  match gd_releases db !! releaseID with
  | None => Err "release not found"
  | Some row => releaseFromParts releaseID row
  end.

Definition loadDraft (db : gov_db) (releaseID : string) : result Draft :=
  let! rel := loadRelease db releaseID in
  match rel with RDraft d => Ok d | _ => Err "release_state_conflict" end.

(** ** Guards *)

Definition release_counters (db : gov_db) (releaseID : string) : list counter_row :=
  (filter (λ kv, kv.1.2 = releaseID) (map_to_list (gd_counters db))).*2.

Definition count_denies (db : gov_db) (releaseID : string) : Z :=
  Z.of_nat (length (filter (λ d, d.1 = releaseID) (gd_denies db))).

Definition ensureGuardBaseline (db : gov_db) (releaseID : string) : gov_db :=
  match gd_guards db !! releaseID with
  | Some _ => db
  | None =>
      let rows := release_counters db releaseID in
      set_guards db (<[releaseID := mkGuardRow (sum_list_Z cw_Requests rows) (sum_list_Z cw_Blocks rows) (count_denies db releaseID) 0 None "" 0]>
        (gd_guards db))
  end.

(** The details of an audit entry, by what they record. *)
Class GovernDetails (A : AuditWire) := {
  det_none : details_t;
  det_created : string → details_t;
  det_corpus : string → details_t;
  det_percent : Z → details_t;
  det_reason : RetireReason → details_t;
  det_event : string → details_t;
  det_catalog : Kind → string → details_t;
  det_artifact : string → Kind → details_t;
  det_modes : Z → Z → string → details_t;
}.

Section govern.
Context {C : Crypto} {A : AuditWire} {G : GovernDetails A} (json_artifact : Artifact → bool) (json_generation : AssetGeneration → bool).

(** ** The steps of a transaction *)

Definition first_or (now : time) (t : option time) : option time := Some (default now t).

(** The columns [persistRelease] writes. *)
Definition updated_row (row : release_row) (rel : Release) (now : time) : result release_row :=
  let a := release_Artifact rel in
  let state := releaseStateString (State rel) in
  let put aid canary reason signed shadow can enf ret :=
    mkReleaseRow state a aid canary reason (rw_CreatedBy row) (rw_ScopeRisk row) (rw_EvidenceClass row) signed shadow can enf ret now
      (rw_ReviewAt row) (rw_HardExpiresAt row) in
  match rel with
  | RDraft _ => Ok (put (rw_ArtifactID row) (rw_CanaryPercent row) (rw_RetireReason row) (rw_SignedAt row) (rw_ShadowAt row) (rw_CanaryAt row)
      (rw_EnforcedAt row) (rw_RetiredAt row))
  | RSigned _ => Ok (put (Id a) (rw_CanaryPercent row) (rw_RetireReason row) (Some now) (rw_ShadowAt row) (rw_CanaryAt row)
      (rw_EnforcedAt row) (rw_RetiredAt row))
  | RShadow _ => Ok (put (Id a) (rw_CanaryPercent row) (rw_RetireReason row) (rw_SignedAt row) (first_or now (rw_ShadowAt row)) (rw_CanaryAt row)
      (rw_EnforcedAt row) (rw_RetiredAt row))
  | RCanary c => Ok (put (Id a) (CanaryPercent c) (rw_RetireReason row) (rw_SignedAt row) (rw_ShadowAt row) (first_or now (rw_CanaryAt row))
      (rw_EnforcedAt row) (rw_RetiredAt row))
  | REnforce _ => Ok (put (Id a) (rw_CanaryPercent row) (rw_RetireReason row) (rw_SignedAt row) (rw_ShadowAt row) (rw_CanaryAt row)
      (first_or now (rw_EnforcedAt row)) (rw_RetiredAt row))
  | RRetired r =>
      let! reason := retireReasonString (Reason r) in
      Ok (put (rw_ArtifactID row) (rw_CanaryPercent row) reason (rw_SignedAt row) (rw_ShadowAt row) (rw_CanaryAt row)
        (rw_EnforcedAt row) (Some now))
  end.

Definition guarded_state (rel : Release) : bool := match rel with RCanary _ | REnforce _ => true | _ => false end.

Definition persistRelease (db : gov_db) (rel : Release) (now : time) : result gov_db :=
  guard! json_artifact (release_Artifact rel) else "protojson" in
  let state := releaseStateString (State rel) in
  match gd_releases db !! ReleaseID rel with
  | None => Err "no rows in result set"
  | Some row =>
      let from := rw_State row in
      guard! releaseTransitionAllowed from state else "release state changed from expected predecessor" in
      let! row' := updated_row row rel now in
      let db := set_releases db (<[ReleaseID rel := row']> (gd_releases db)) in
      let db := if guarded_state rel then ensureGuardBaseline db (ReleaseID rel) else db in
      Ok (if existsb (λ t, bool_decide (tl_ReleaseID t = ReleaseID rel) && bool_decide (tl_To t = state)) (gd_timeline db) then db
          else set_timeline db (gd_timeline db ++ [mkTimelineRow (ReleaseID rel) from state "system" ""]))
  end.

Definition publishFeed (db : gov_db) (rel : Release) (retired : bool) (reason : RetireReason) : result gov_db :=
  guard! json_artifact (release_Artifact rel) else "protojson" in
  let mode := if retired then "retired" else releaseModeForState (State rel) in
  let reasonStr := match retireReasonString reason with Ok s => s | Err _ => "" end in
  let rows := (λ ua, mkFeedRow ua.1 ua.2 (ReleaseID rel) mode (canaryPercent rel) retired reasonStr (release_Artifact rel))
    <$> filter (λ ua, (ReleaseID rel, ua.2) ∈ gd_release_assets db) (gd_unit_assets db) in
  Ok (set_feed db (gd_feed db ++ rows)).

(** The active release of an artifact that was changed last. *)
Definition superseded (db : gov_db) (artifactID : string) : option (string * release_row) :=
  last (order_by (λ kv, rw_UpdatedAt kv.2)
    (filter (λ kv, rw_ArtifactID kv.2 = artifactID ∧ active_state (rw_State kv.2) = true) (map_to_list (gd_releases db)))).

Definition supersede (db : gov_db) (oldArtifactID actor : string) (now : time) : result gov_db :=
  match superseded db oldArtifactID with
  | None => Ok db
  | Some (id, row) =>
      let row' := mkReleaseRow "retired" (rw_Artifact row) (rw_ArtifactID row) (rw_CanaryPercent row) "superseded" (rw_CreatedBy row)
        (rw_ScopeRisk row) (rw_EvidenceClass row) (rw_SignedAt row) (rw_ShadowAt row) (rw_CanaryAt row) (rw_EnforcedAt row) (Some now) now
        (rw_ReviewAt row) (rw_HardExpiresAt row) in
      let db := set_releases db (<[id := row']> (gd_releases db)) in
      let db := set_timeline db (gd_timeline db ++ [mkTimelineRow id (rw_State row) "retired" actor "superseded"]) in
      let! rel := loadRelease db id in
      publishFeed db rel true RETIRE_REASON_SUPERSEDED
  end.

(** ** Generations *)

Definition signArtifactEnvelope (a : Artifact) (key : string) (signer : option Signer) (now : time) : option Artifact * result unit :=
  match signer with
  | Some s => SignArtifactWithSigner (Some a) (Some s) now
  | None => SignArtifact (Some a) key now
  end.

Definition signGenerationEnvelope (g : AssetGeneration) (key : string) (signer : option Signer) (now : time)
    : option AssetGeneration * result unit :=
  match signer with
  | Some s => SignGenerationWithSigner (Some g) (Some s) now
  | None => SignGeneration (Some g) key now
  end.

Definition MinimumEdgeVersion : string := "dev".

Definition release_member (assetID : string) (id : string) (row : release_row) : option ReleaseItem :=
  Some (mkReleaseItem id (Some (rw_Artifact row)) assetID (releaseModeEnum (rw_State row)) (rw_CanaryPercent row) false
    RETIRE_REASON_UNSPECIFIED None 0).

Definition active_on (db : gov_db) (assetID : string) (id : string) (row : release_row) : bool :=
  active_state (rw_State row) && bool_decide ((id, assetID) ∈ gd_release_assets db).

(** The releases in effect for an asset, by identifier. *)
Definition release_members (db : gov_db) (assetID : string) : list (option ReleaseItem) :=
  omap (λ id, row ← gd_releases db !! id; if active_on db assetID id row then Some (release_member assetID id row) else None)
    (sort_strings (map_to_list (gd_releases db)).*1).

Definition setting_members (db : gov_db) (assetID : string) : list (option ReleaseItem) :=
  let settings := default ∅ (gd_settings db !! assetID) in
  omap (λ kind, row ← settings !! kind;
    Some (Some (mkReleaseItem ("setting:" +:+ kind) (Some (sr_Artifact row)) assetID RELEASE_MODE_ENFORCE 0 false
      RETIRE_REASON_UNSPECIFIED None 0))) (sort_strings (map_to_list settings).*1).

Definition asset_generations (db : gov_db) (assetID : string) : list AssetGeneration :=
  filter (λ g, gen_AssetId g = assetID) (gd_generations db).

Definition latest_generation (db : gov_db) (assetID : string) : option AssetGeneration :=
  last (order_by GenerationSeq (asset_generations db assetID)).

(** The primary key and the unique sequence number of [asset_generations]. *)
Definition generation_fits (db : gov_db) (g : AssetGeneration) : bool :=
  forallb (λ h, negb (bool_decide (GenerationId h = GenerationId g))
    && negb (bool_decide (gen_AssetId h = gen_AssetId g) && (GenerationSeq h =? GenerationSeq g))) (gd_generations db).

Definition next_generation (db : gov_db) (assetID genID : string) (rollback : bool) (now : time) : AssetGeneration :=
  let seq := default 0 (GenerationSeq <$> latest_generation db assetID) in
  let parent := default "" (GenerationId <$> latest_generation db assetID) in
  mkAssetGeneration genID parent (i64 (seq + 1)) assetID (release_members db assetID ++ setting_members db assetID) MinimumEdgeVersion
    (Some now) (if rollback then seq else 0) None.

Definition publishAssetGeneration (db : gov_db) (assetID key : string) (signer : option Signer) (rollback : bool) (genID : string)
    (now : time) : result gov_db :=
  if bool_decide (assetID = "") || (bool_decide (key = "") && bool_decide (signer = None)) then Ok db else
  match signGenerationEnvelope (next_generation db assetID genID rollback now) key signer now with
  | (_, Err e) => Err e
  | (None, Ok _) => Err "generation is nil"
  | (Some gen, Ok _) =>
      guard! json_generation gen else "protojson" in
      guard! generation_fits db gen else "duplicate key value violates unique constraint" in
      Ok (set_generations db (gd_generations db ++ [gen])
        ((λ e, if bool_decide (e.1 = assetID) then (assetID, (GenerationId gen, GenerationSeq gen)) else e) <$> gd_enrollments db))
  end.

(** ** The transaction of a release change *)

Record releaseWrite := mkReleaseWrite {
  w_rel : Release; w_feed : bool; w_retired : bool; w_reason : RetireReason; w_supersede : string;
  w_actorType : string; w_actorID : string; w_action : string; w_details : details_t; w_key : string; w_signer : option Signer }.

(** What a transaction draws from its surroundings: the clock, the new generation identifiers,
    the sequence number of its audit entry and whether that is stored, whether the callback
    that stores the response succeeds, and whether it commits. *)
Record tx_env := mkTxEnv {
  tx_now : time; tx_genID : string → string; tx_auditSeq : Z; tx_audited : bool; tx_complete : bool; tx_committed : bool }.

Definition releaseAssetIDsTx (db : gov_db) (releaseID : string) : list string :=
  filter (λ a, a ≠ "") (filter (λ ra, ra.1 = releaseID) (gd_release_assets db)).*2.

Fixpoint publish_assets (db : gov_db) (ids : list string) (key : string) (signer : option Signer) (rollback : bool) (env : tx_env)
    : result gov_db :=
  match ids with
  | [] => Ok db
  | id :: rest =>
      let! db := publishAssetGeneration db id key signer rollback (tx_genID env id) (tx_now env) in
      publish_assets db rest key signer rollback env
  end.

Definition append_gov_audit (db : gov_db) (w : releaseWrite) (env : tx_env) : result gov_db :=
  let '(audit, r) := appendAuditTx (gd_audit db) (tx_now env) (tx_auditSeq env) (tx_audited env) (w_actorType w) (w_actorID w) (w_action w)
    "release" (ReleaseID (w_rel w)) (w_details w) in
  let! _ := r in Ok (set_gov_audit db audit).

Definition release_change (db : gov_db) (w : releaseWrite) (env : tx_env) : result gov_db :=
  let! db := persistRelease db (w_rel w) (tx_now env) in
  let! db := if w_feed w then publishFeed db (w_rel w) (w_retired w) (w_reason w) else Ok db in
  let! db := if bool_decide (w_supersede w = "") then Ok db else supersede db (w_supersede w) (w_actorID w) (tx_now env) in
  let! db := if bool_decide (w_action w = "") then Ok db else append_gov_audit db w env in
  let! db := if w_feed w
             then publish_assets db (releaseAssetIDsTx db (ReleaseID (w_rel w))) (w_key w) (w_signer w)
               (w_retired w && bool_decide (w_reason w = RETIRE_REASON_ROLLBACK)) env
             else Ok db in
  guard! tx_complete env else "complete" in
  guard! tx_committed env else "commit" in
  Ok db.

Definition in_tx (db : gov_db) (r : result gov_db) : gov_db * result unit :=
  match r with Ok db' => (db', Ok tt) | Err e => (db, Err e) end.

Definition commitReleaseChange (db : gov_db) (w : releaseWrite) (env : tx_env) : gov_db * result unit :=
  in_tx db (release_change db w env).

(** ** Proposals *)

Definition newID (prefix random : string) : string := prefix +:+ "_" +:+ hex_encode random.

Definition add_release_assets (db : gov_db) (releaseID : string) (assets : list string) : gov_db :=
  foldl (λ db a, if bool_decide ((releaseID, a) ∈ gd_release_assets db) then db
                 else set_release_assets db (gd_release_assets db ++ [(releaseID, a)])) db assets.

(** The transaction of a proposal: the row, its assets and the audit entry. *)
Definition insert_proposal (db : gov_db) (releaseID : string) (row : release_row) (assets : list string) (env : tx_env) : result gov_db :=
  guard! json_artifact (rw_Artifact row) else "protojson" in
  guard! bool_decide (gd_releases db !! releaseID = None) else "duplicate key value violates unique constraint" in
  let db := set_releases db (<[releaseID := row]> (gd_releases db)) in
  let db := add_release_assets db releaseID assets in
  let '(audit, r) := appendAuditTx (gd_audit db) (tx_now env) (tx_auditSeq env) (tx_audited env) "user" (rw_CreatedBy row) "release.propose"
    "release" releaseID (det_created (rw_CreatedBy row)) in
  let! _ := r in
  guard! tx_complete env else "complete" in
  guard! tx_committed env else "commit" in
  Ok (set_gov_audit db audit).

Record ProposeArtifactRequest := mkProposeRequest {
  pr_Kind : Kind; pr_Payload : string; pr_PayloadSchema : string; pr_Scope : option Scope; pr_Ttl : option PbDuration; pr_Supersedes : string;
  pr_EvidenceRefs : list string; pr_Intent : bool }.

Definition RulePayloadSchema : string := "rules/v1".

Definition rejectProductionRegexProposal (demo : bool) (msg : ProposeArtifactRequest) : result unit :=
  if demo then Ok tt
  else if bool_decide (pr_Kind msg = KIND_RULE) || bool_decide (pr_PayloadSchema msg = "rules/v1")
  then Err "production rejects KIND_RULE and rules/v1"
  else guard! pr_Intent msg else "production requires proposal intent" in Ok tt.

(** [writePropose] of a message without an intent; [rules] is the error of parsing and compiling
    the payload as demonstration rules, and [AsDuration] of a missing duration is 0. *)
Definition writePropose (db : gov_db) (createdBy : string) (msg : ProposeArtifactRequest) (rules : result unit) (random : string)
    (env : tx_env) : gov_db * result string :=
  let check :=
    guard! bool_decide (pr_Kind msg = KIND_RULE) else "only KIND_RULE is supported in L1" in
    guard! bool_decide (pr_PayloadSchema msg = RulePayloadSchema) else "payload_schema must be rules/v1" in
    let! _ := rules in
    let! scope := match pr_Scope msg with Some s => if bool_decide (scope_AssetIds s = []) then Err "scope.asset_ids is required" else Ok s
                  | None => Err "scope.asset_ids is required" end in
    let ttl := match pr_Ttl msg with Some t => AsDuration t | None => 0 end in
    guard! negb ((ttl <? 300 * Second) || (7 * 24 * Hour <? ttl)) else "ttl must be between 300s and 604800s" in
    let artifact := mkArtifact "" (pr_Kind msg) (pr_Payload msg) (pr_PayloadSchema msg) (Some scope) (Some (NewDuration ttl)) (pr_Supersedes msg)
      (pr_EvidenceRefs msg) None None None createdBy None None 0 0 0 in
    let releaseID := newID "rel" random in
    let! _ := NewDraft releaseID (Some artifact) createdBy in
    let! db' := insert_proposal db releaseID
      (mkReleaseRow "draft" artifact "" 0 "" createdBy "" "" None None None None None (tx_now env) None None) (scope_AssetIds scope) env in
    Ok (db', releaseID) in
  match check with Ok (db', id) => (db', Ok id) | Err e => (db, Err e) end.

Definition scopeRiskDB (v : Z) : string :=
  if v =? 2 then "route" else if v =? 3 then "prefix" else if v =? 4 then "asset_wide" else if v =? 5 then "class_only" else "exact".
Definition evidenceClassDB (v : Z) : string :=
  if v =? 2 then "crs_unmapped" else if v =? 3 then "human" else if v =? 4 then "replay" else if v =? 5 then "intel"
  else if v =? 6 then "model" else "crs_mapped".

(** A proposal the server derived itself: a compiled policy, or the source of a shape. *)
Record trustedProposal := mkTrustedProposal {
  tp_shape : bool; tp_scope : option Scope; tp_scopeRisk : Z; tp_evidence : Z; tp_evidenceRefs : list string }.

Definition PolicyPayloadSchema : string := "policy/v1".
Definition TTLDefault : Z := 24 * Hour.
Definition ReviewDefault : Z := 24 * Hour.

(** [payload] is what [compileProposalPayload] or [compilePolicyPayload] made of the intent. *)
Definition writeTrustedProposal (db : gov_db) (createdBy : string) (trusted : trustedProposal) (requestedTTL : option PbDuration)
    (payload : result string) (random : string) (env : tx_env) : gov_db * result string :=
  let kind := if tp_shape trusted then KIND_SHAPE else KIND_POLICY in
  let schema := if tp_shape trusted then "shape/v1" else PolicyPayloadSchema in
  match payload with
  | Err e => (db, Err e)
  | Ok payload =>
      let ttl := match requestedTTL with Some t => if 0 <? AsDuration t then AsDuration t else TTLDefault | None => TTLDefault end in
      let artifact := mkArtifact "" kind payload schema (tp_scope trusted) (Some (NewDuration ttl)) "" (tp_evidenceRefs trusted) None None None
        createdBy None None 0 (tp_scopeRisk trusted) (tp_evidence trusted) in
      let releaseID := newID "rel" random in
      let now := tx_now env in
      let row := mkReleaseRow "draft" artifact "" 0 "" createdBy (scopeRiskDB (tp_scopeRisk trusted)) (evidenceClassDB (tp_evidence trusted))
        None None None None None now (Some (now + ReviewDefault)) (Some (now + go_div ttl Second * Second)) in
      match insert_proposal db releaseID row (match tp_scope trusted with Some s => scope_AssetIds s | None => [] end) env with
      | Ok db' => (db', Ok releaseID)
      | Err e => (db, Err e)
      end
  end.

(** ** The gate *)

(** [read] is the state [writeGate] loads the draft from; [report] is the outcome of the replay. *)
Definition gate_release (read : gov_db) (releaseID : string) (report : result ReplayReport) (key : string) (signer : option Signer) (now : time)
    : result GateResult :=
  let! draft := loadDraft read releaseID in
  let! report := report in
  let '(res, r) := match signer with
                   | Some s => GateWithSigner draft (Some report) (Some s) now
                   | None => Gate draft (Some report) key now
                   end in
  let! _ := r in Ok res.

Definition writeGate (read db : gov_db) (actorType actorID releaseID : string) (report : result ReplayReport) (key : string)
    (signer : option Signer) (env : tx_env) : gov_db * result unit :=
  match gate_release read releaseID report key signer (tx_now env) with
  | Err e => (db, Err e)
  | Ok res =>
      if negb (gr_Passed res) then (db, if tx_complete env && tx_committed env then Ok tt else Err "complete") else
      match gr_Signed res with
      | None => (db, Err "nil dereference")
      | Some signed =>
          commitReleaseChange db (mkReleaseWrite (RSigned signed) false false RETIRE_REASON_UNSPECIFIED "" actorType actorID "release.gate"
            (det_corpus (match gr_Report res with Some r => CorpusRef r | None => "" end)) key signer) env
      end
  end.

Definition writeStartShadow (read db : gov_db) (actorType actorID releaseID key : string) (signer : option Signer) (env : tx_env)
    : gov_db * result unit :=
  match loadRelease read releaseID with
  | Err e => (db, Err e)
  | Ok (RSigned signed) =>
      commitReleaseChange db (mkReleaseWrite (RShadow (StartShadow signed)) true false RETIRE_REASON_UNSPECIFIED "" actorType actorID
        "release.start_shadow" det_none key signer) env
  | Ok _ => (db, Err "release_state_conflict")
  end.

(** ** Promotion *)

Definition durationThresholdMet (elapsed required : duration) : bool := (required <=? 0) || (required <=? elapsed).

Definition releaseAssetIDs (db : gov_db) (releaseID : string) : list string :=
  let scope := match loadRelease db releaseID with
               | Ok rel => match ArtScope (release_Artifact rel) with Some s => scope_AssetIds s | None => [] end
               | Err _ => []
               end in
  remove_dups (filter (λ a, a ≠ "") (scope ++ (filter (λ ra, ra.1 = releaseID) (gd_release_assets db)).*2)).

Definition releaseBoundUnitCount (db : gov_db) (releaseID : string) : Z :=
  let ids := releaseAssetIDs db releaseID in
  Z.of_nat (length (remove_dups (filter (λ ua, ua.2 ∈ ids) (gd_unit_assets db)).*1)).

Definition sumCounters (db : gov_db) (releaseID mode : string) : Z :=
  u64 (sum_list_Z cw_Requests (filter (λ c, cw_Mode c = mode) (release_counters db releaseID))).

Definition countDenies (db : gov_db) (releaseID : string) : Z := u64 (count_denies db releaseID).

Definition replayReportPassed (a : Artifact) : bool :=
  match art_ReplayReport a with Some r => Passed r && GatePassed r | None => false end.

Record GovernServer := mkGovernServer {
  shadowMinDuration : duration; shadowMinRequests : Z; canaryMinDuration : duration; canaryMinRequests : Z; demoTriage : bool }.

(** [granted]: the caller holds the tool on every asset of the release. *)
Definition authorizePromote (s : GovernServer) (db : gov_db) (granted : bool) (user releaseID : string) : result unit :=
  guard! granted else "grant_missing" in
  if demoTriage s then Ok tt else
  match gd_releases db !! releaseID with
  | None => Err "no rows in result set"
  | Some row =>
      guard! negb (negb (bool_decide (rw_CreatedBy row = "")) && bool_decide (rw_CreatedBy row = user))
      else "proposer cannot promote the same release" in Ok tt
  end.

(** The time a release entered a state, or now. *)
Definition releaseTime (db : gov_db) (releaseID : string) (column : release_row → option time) (now : time) : time :=
  default now (gd_releases db !! releaseID ≫= column).

Definition promote_canary_checks (s : GovernServer) (read : gov_db) (granted : bool) (user releaseID : string) (percent : Z) (now : time)
    : result Canary :=
  let! _ := authorizePromote s read granted user releaseID in
  let! rel := loadRelease read releaseID in
  match rel with
  | RShadow shadow =>
      let percent := if percent =? 0 then CanaryPercentDefault else percent in
      guard! negb (releaseBoundUnitCount read releaseID <? CanaryMinUnits percent) else "canary_cohort_too_small" in
      let shadowAge := time_sub now (releaseTime read releaseID rw_ShadowAt now) in
      guard! durationThresholdMet shadowAge (shadowMinDuration s) && (shadowMinRequests s <=? sumCounters read releaseID "shadow")
             && replayReportPassed (shadow_Envelope shadow) else "promotion gates not satisfied" in
      PromoteCanary shadow percent
  | _ => Err "release_state_conflict"
  end.

Definition Govern_PromoteCanary (s : GovernServer) (read db : gov_db) (granted : bool) (user releaseID : string) (percent : Z)
    (key : string) (signer : option Signer) (env : tx_env) : gov_db * result unit :=
  match promote_canary_checks s read granted user releaseID percent (tx_now env) with
  | Err e => (db, Err e)
  | Ok canary =>
      commitReleaseChange db (mkReleaseWrite (RCanary canary) true false RETIRE_REASON_UNSPECIFIED "" "user" user "release.promote_canary"
        (det_percent (CanaryPercent canary)) key signer) env
  end.

Definition promote_enforce_checks (s : GovernServer) (read : gov_db) (granted : bool) (user releaseID : string) (now : time)
    : result (Enforce * string) :=
  let! _ := authorizePromote s read granted user releaseID in
  let! rel := loadRelease read releaseID in
  match rel with
  | RShadow shadow =>
      guard! negb (CanaryMinUnits CanaryPercentMax <=? releaseBoundUnitCount read releaseID) else "release_state_conflict" in
      guard! replayReportPassed (shadow_Envelope shadow) else "promotion gates not satisfied" in
      Ok (Shadow_PromoteEnforce shadow, Supersedes (shadow_Envelope shadow))
  | RCanary canary =>
      let canaryAge := time_sub now (releaseTime read releaseID rw_CanaryAt now) in
      guard! durationThresholdMet canaryAge (canaryMinDuration s) && (canaryMinRequests s <=? sumCounters read releaseID "canary")
             && (countDenies read releaseID =? 0) else "promotion gates not satisfied" in
      Ok (Canary_PromoteEnforce canary, Supersedes (canary_Envelope canary))
  | _ => Err "release_state_conflict"
  end.

Definition Govern_PromoteEnforce (s : GovernServer) (read db : gov_db) (granted : bool) (user releaseID : string)
    (key : string) (signer : option Signer) (env : tx_env) : gov_db * result unit :=
  match promote_enforce_checks s read granted user releaseID (tx_now env) with
  | Err e => (db, Err e)
  | Ok (enforce, supersedes) =>
      commitReleaseChange db (mkReleaseWrite (REnforce enforce) true false RETIRE_REASON_UNSPECIFIED supersedes "user" user
        "release.promote_enforce" det_none key signer) env
  end.

(** ** Retirement *)

Definition retireReleaseAudit (read db : gov_db) (releaseID : string) (reason : RetireReason) (key : string) (signer : option Signer)
    (actorType actorID action : string) (env : tx_env) : gov_db * result unit :=
  match (let! rel := loadRelease read releaseID in ReleaseLifecycle.retireRelease rel reason) with
  | Err e => (db, Err e)
  | Ok retired =>
      commitReleaseChange db (mkReleaseWrite (RRetired retired) true true reason "" actorType actorID action (det_reason reason) key signer) env
  end.

Definition RollbackRelease (read db : gov_db) (granted : bool) (user releaseID key : string) (signer : option Signer) (env : tx_env)
    : gov_db * result unit :=
  if granted then retireReleaseAudit read db releaseID RETIRE_REASON_ROLLBACK key signer "user" user "release.rollback" env
  else (db, Err "grant_missing").
Definition RetireRelease (read db : gov_db) (granted : bool) (user releaseID key : string) (signer : option Signer) (env : tx_env)
    : gov_db * result unit :=
  if granted then retireReleaseAudit read db releaseID RETIRE_REASON_MANUAL key signer "user" user "release.retire" env
  else (db, Err "grant_missing").

Definition deny_feedback (db : gov_db) (user releaseID eventID : string) (env : tx_env) : result gov_db :=
  match gd_releases db !! releaseID with
  | None => Err "release not found"
  | Some row =>
      guard! bool_decide (rw_State row = "canary") || bool_decide (rw_State row = "enforce") else "release is not receiving traffic" in
      let db := ensureGuardBaseline db releaseID in
      let db := if bool_decide ((releaseID, eventID) ∈ gd_denies db) then db else set_denies db (gd_denies db ++ [(releaseID, eventID)]) in
      let '(audit, r) := appendAuditTx (gd_audit db) (tx_now env) (tx_auditSeq env) (tx_audited env) "user" user "release.deny_feedback"
        "release" releaseID (det_event eventID) in
      let! _ := r in
      guard! tx_complete env else "complete" in
      guard! tx_committed env else "commit" in
      Ok (set_gov_audit db audit)
  end.

Definition DenyFeedback (db : gov_db) (granted : bool) (user releaseID eventID : string) (env : tx_env) : gov_db * result unit :=
  if granted then in_tx db (deny_feedback db user releaseID eventID env) else (db, Err "grant_missing").

(** ** Settings *)

(** A setting with its encoded payload. *)
Record baselineSetting := mkBaselineSetting { bs_key : string; bs_kind : Kind; bs_schema : string; bs_payload : string }.

Definition baselineSettings (payload : string → string) : list baselineSetting :=
  let setting key kind schema := mkBaselineSetting key kind schema (payload key) in
  [setting "detector_manifest" KIND_DETECTOR_MANIFEST "detector-manifest/v1";
   setting "taxonomy_mapper" KIND_TAXONOMY_MAPPER "taxonomy/v1";
   setting "normalizer_profile" KIND_NORMALIZER_PROFILE "http-inspection-profile/v1";
   setting "evidence_digest" KIND_EVIDENCE_DIGEST "evidence-digest/v1";
   setting "forward_policy" KIND_FORWARD_POLICY "forward-policy/v1";
   setting "model_profile" KIND_MODEL_PROFILE "model-profile/v1"].

Definition put_setting (db : gov_db) (assetID key : string) (row : setting_row) : gov_db :=
  set_settings db (<[assetID := <[key := row]> (default ∅ (gd_settings db !! assetID))]> (gd_settings db)).

Fixpoint store_settings (db : gov_db) (assetID actor key : string) (signer : option Signer) (settings : list baselineSetting) (now : time)
    : result gov_db :=
  match settings with
  | [] => Ok db
  | st :: rest =>
      let payloadDigest := "sha256:" +:+ hex_encode (sha256 (bs_payload st)) in
      let stored := default ∅ (gd_settings db !! assetID) !! bs_key st in
      if match stored with
         | Some row => negb (bool_decide (bs_key st = "model_profile")) || bool_decide (sr_Digest row = payloadDigest)
         | None => false
         end
      then store_settings db assetID actor key signer rest now
      else
        let artifact := mkArtifact "" (bs_kind st) (bs_payload st) (bs_schema st) (Some (mkScope [assetID] "")) None "" [] None None
          (Some now) actor None None 0 0 0 in
        match signArtifactEnvelope artifact key signer now with
        | (_, Err e) => Err e
        | (None, Ok _) => Err "artifact is nil"
        | (Some a, Ok _) =>
            guard! json_artifact a else "protojson" in
            store_settings (put_setting db assetID (bs_key st) (mkSettingRow a payloadDigest actor)) assetID actor key signer rest now
        end
  end.

Definition firstNonEmpty (value fallback : string) : string := if bool_decide (trim_space value = "") then fallback else value.

(** [settings] is [baselineSettings] with its encoded payloads, the last that of the normalised model profile. *)
Definition publishBaselineGenerationTx (db : gov_db) (assetID createdBy key : string) (signer : option Signer)
    (settings : list baselineSetting) (env : tx_env) : result (gov_db * (string * Z)) :=
  guard! negb (bool_decide (trim_space assetID = "")) else "asset_id is required" in
  let! db := store_settings db assetID (firstNonEmpty createdBy "system") key signer settings (tx_now env) in
  let! db := publishAssetGeneration db assetID key signer false (tx_genID env assetID) (tx_now env) in
  match latest_generation db assetID with
  | None => Err "no rows in result set"
  | Some g => Ok (db, (GenerationId g, GenerationSeq g))
  end.

Definition publishBaselineGeneration (db : gov_db) (assetID createdBy key : string) (signer : option Signer)
    (settings : list baselineSetting) (env : tx_env) : gov_db * result unit :=
  in_tx db (let! r := publishBaselineGenerationTx db assetID createdBy key signer settings env in
            guard! tx_committed env else "commit" in Ok r.1).
End govern.
