(* ===== verification/Catalog.v ===== *)
(** * Catalog artifacts and the traffic-review setting

    [lib/brain/catalog_govern.go]: tool descriptors and skills are releases of their own
    kinds: an administrator signs and activates them, without a replay gate and without an
    asset.  [lib/brain/asset_traffic_review.go]: the setting that says how far the traffic of
    an asset may be reviewed, raised one level at a time, each change a new generation.

    What [validateToolDescriptor] and the skill validation make of a payload is an argument;
    so is the encoding of a policy.  The caller's role and grant are one boolean. *)

From S2P Require Import Prelude GoStrings Contracts Signing SignerService AuditChain GenerationStore ReleaseLifecycle ReleaseSet Govern.

Definition catalogTTLMax : duration := 365 * 24 * Hour.

Definition isCatalogKind (k : Kind) : bool := bool_decide (k = KIND_TOOL_DESCRIPTOR) || bool_decide (k = KIND_SKILL).

(** The readers of the two kinds of payload; the key identifier goes into a skill manifest. *)
Record catalog_readers := mkCatalogReaders {
  read_tool : string → result string;
  read_skill : string → string → result string;
  validate_skill : Artifact → result unit }.

Definition normalizeCatalogPayload (readers : catalog_readers) (keyID : string) (k : Kind) (schema payload : string) : result string :=
  if bool_decide (k = KIND_TOOL_DESCRIPTOR) && bool_decide (schema = "tool/v1") then read_tool readers payload
  else if bool_decide (k = KIND_SKILL) && bool_decide (schema = "skill/v1") then read_skill readers keyID payload
  else Err "catalog kind and payload schema do not match".

Definition catalogPublicKey {C : Crypto} (key : string) (signer : option Signer) : string :=
  match signer with Some s => signer_Public s | None => ed25519_public key end.

Definition catalogKeyID {C : Crypto} (key : string) (signer : option Signer) : string :=
  match signer with Some s => signer_KeyID s | None => KeyID (ed25519_public key) end.

Definition with_payload (a : Artifact) (payload : string) : Artifact :=
  mkArtifact (Id a) (ArtKind a) payload (PayloadSchema a) (ArtScope a) (Ttl a) (Supersedes a)
    (EvidenceRefs a) (art_ReplayReport a) (art_Signature a) (CreatedAt a) (CreatedBy a) (ReviewAt a)
    (HardExpiresAt a) (ExpiryBehavior a) (ScopeRisk a) (EvidenceClass a).

Section catalog.
Context {C : Crypto} {A : AuditWire} {G : GovernDetails A} (json_artifact : Artifact → bool) (json_generation : AssetGeneration → bool).
Context (readers : catalog_readers) (key : string) (signer : option Signer).

Definition ProposeCatalogArtifact (db : gov_db) (granted : bool) (user : string) (k : Kind) (schema payload : string) (ttl : option PbDuration)
    (random : string) (env : tx_env) : gov_db * result string :=
  let check :=
    guard! granted else "catalog management requires admin" in
    let! payload := normalizeCatalogPayload readers (catalogKeyID key signer) k schema payload in
    let ttl := match ttl with Some t => AsDuration t | None => 0 end in
    guard! negb ((ttl <? 300 * Second) || (catalogTTLMax <? ttl)) else "catalog ttl must be between 300s and 31536000s" in
    let releaseID := newID "rel" random in
    let artifact := mkArtifact "" k payload schema None (Some (NewDuration ttl)) "" [] None None (Some (tx_now env)) user None None 0 0 0 in
    let! _ := NewDraft releaseID (Some artifact) user in
    guard! json_artifact artifact else "protojson" in
    guard! bool_decide (gd_releases db !! releaseID = None) else "duplicate key value violates unique constraint" in
    let row := mkReleaseRow "draft" artifact "" 0 "" user "" "" None None None None None (tx_now env) None None in
    let db := set_releases db (<[releaseID := row]> (gd_releases db)) in
    let '(audit, r) := appendAuditTx (gd_audit db) (tx_now env) (tx_auditSeq env) (tx_audited env) "user" user "catalog.propose"
      "release" releaseID (det_catalog k schema) in
    let! _ := r in
    guard! tx_complete env else "complete" in
    guard! tx_committed env else "commit" in
    Ok (set_gov_audit db audit, releaseID) in
  match check with Ok (db', id) => (db', Ok id) | Err e => (db, Err e) end.

(** The envelope [SignCatalogArtifact] signs, from the draft it read. *)
Definition sign_catalog (read : gov_db) (releaseID : string) (now : time) : result Signed :=
  let! draft := loadDraft read releaseID in
  let a := draft_Envelope draft in
  let! payload := normalizeCatalogPayload readers (catalogKeyID key signer) (ArtKind a) (PayloadSchema a) (Payload a) in
  match signArtifactEnvelope (with_payload a payload) key signer now with
  | (_, Err e) => Err e
  | (None, Ok _) => Err "artifact is nil"
  | (Some envelope, Ok _) =>
      let! _ := if bool_decide (ArtKind envelope = KIND_SKILL) then validate_skill readers envelope else Ok tt in
      Ok (mkSigned (draft_ID draft) envelope)
  end.

Definition SignCatalogArtifact (read db : gov_db) (granted : bool) (user releaseID : string) (env : tx_env) : gov_db * result unit :=
  if negb granted then (db, Err "catalog management requires admin") else
  match sign_catalog read releaseID (tx_now env) with
  | Err e => (db, Err e)
  | Ok signed =>
      commitReleaseChange json_artifact json_generation db
        (mkReleaseWrite (RSigned signed) false false RETIRE_REASON_UNSPECIFIED "" "user" user "catalog.sign"
          (det_artifact (Id (signed_Envelope signed)) (ArtKind (signed_Envelope signed))) "" None) env
  end.

Definition ActivateCatalogArtifact (read db : gov_db) (granted : bool) (user releaseID : string) (env : tx_env) : gov_db * result unit :=
  if negb granted then (db, Err "catalog management requires admin") else
  match loadRelease read releaseID with
  | Err e => (db, Err e)
  | Ok (RSigned signed) =>
      if negb (isCatalogKind (ArtKind (signed_Envelope signed))) then (db, Err "release_state_conflict") else
      match VerifyArtifact (Some (signed_Envelope signed)) (catalogPublicKey key signer) with
      | Err _ => (db, Err "catalog artifact signature is invalid")
      | Ok _ =>
          let shadow := StartShadow signed in
          commitReleaseChange json_artifact json_generation db
            (mkReleaseWrite (RShadow shadow) false false RETIRE_REASON_UNSPECIFIED "" "user" user "catalog.activate"
              (det_artifact (Id (shadow_Envelope shadow)) (ArtKind (shadow_Envelope shadow))) "" None) env
      end
  | Ok _ => (db, Err "release_state_conflict")
  end.

Definition RevokeCatalogArtifact (read db : gov_db) (granted : bool) (user releaseID : string) (env : tx_env) : gov_db * result unit :=
  if negb granted then (db, Err "catalog management requires admin") else
  match loadRelease read releaseID with
  | Err e => (db, Err e)
  | Ok release =>
      if negb (isCatalogKind (ArtKind (release_Artifact release))) then (db, Err "release is not a catalog artifact") else
      match ActiveOf release with
      | Err _ => (db, Err "release_state_conflict")
      | Ok active =>
          match RetireActive active RETIRE_REASON_MANUAL with
          | Err e => (db, Err e)
          | Ok retired =>
              commitReleaseChange json_artifact json_generation db
                (mkReleaseWrite (RRetired retired) false true RETIRE_REASON_MANUAL "" "user" user "catalog.revoke"
                  (det_artifact (Id (retired_Envelope retired)) (ArtKind (retired_Envelope retired))) "" None) env
          end
      end
  end.

(** ** Traffic review *)

Definition trafficReviewSettingKind : string := "traffic_review_policy".

Definition DefaultTrafficReviewPolicy : TrafficReviewPolicy :=
  mkTrafficReviewPolicy TRAFFIC_REVIEW_MODE_OFF 300 32 4 8192 (256 * 2 ^ 20) 86400.

Definition with_mode (p : TrafficReviewPolicy) (mode : Z) : TrafficReviewPolicy :=
  mkTrafficReviewPolicy mode (trp_WindowSeconds p) (trp_TopRouteCells p) (trp_MaxCandidatesPerWindow p) (trp_MaxEvidenceBytes p)
    (trp_VaultMaxBytes p) (trp_EvidenceTtlSeconds p).

(** The parts of [loadTrafficReviewPolicyStatus] the update uses; [parse_over] merges a payload
    into the default policy. *)
Definition loadTrafficReviewPolicyStatus (parse_over : TrafficReviewPolicy → string → option TrafficReviewPolicy) (db : gov_db) (assetID : string)
    : result (TrafficReviewPolicy * string) :=
  let! policy := match default ∅ (gd_settings db !! assetID) !! trafficReviewSettingKind with
                 | None => Ok DefaultTrafficReviewPolicy
                 | Some row => match parse_over DefaultTrafficReviewPolicy (Payload (sr_Artifact row)) with
                               | Some p => Ok p
                               | None => Err "protojson"
                               end
                 end in
  Ok (policy, default "" (GenerationId <$> latest_generation db assetID)).

Definition update_traffic_review (parse_over : TrafficReviewPolicy → string → option TrafficReviewPolicy)
    (marshal_review : TrafficReviewPolicy → option string) (db : gov_db) (user assetID expected : string) (target : Z) (env : tx_env)
    : result gov_db :=
  let! status := loadTrafficReviewPolicyStatus parse_over db assetID in
  let '(current, generation) := status in
  guard! bool_decide (trim_space expected = "") || bool_decide (trim_space expected = generation) else "generation_mismatch" in
  guard! negb (i32 (trp_Mode current + 1) <? target) else "traffic review mode must be enabled one level at a time" in
  if target =? trp_Mode current then Ok db else
  let policy := with_mode DefaultTrafficReviewPolicy target in
  let! _ := ValidateTrafficReviewPolicy (Some policy) in
  match marshal_review policy with
  | None => Err "protojson"
  | Some payload =>
      let artifact := mkArtifact "" KIND_TRAFFIC_REVIEW_POLICY payload TrafficReviewPolicySchema (Some (mkScope [assetID] "")) None "" [] None None
        (Some (tx_now env)) user None None 0 0 0 in
      match signArtifactEnvelope artifact key signer (tx_now env) with
      | (_, Err e) => Err e
      | (None, Ok _) => Err "artifact is nil"
      | (Some a, Ok _) =>
          guard! json_artifact a else "protojson" in
          let db := put_setting db assetID trafficReviewSettingKind (mkSettingRow a (hex_encode (sha256 payload)) user) in
          let! db := publishAssetGeneration json_generation db assetID key signer false (tx_genID env assetID) (tx_now env) in
          let '(audit, r) := appendAuditTx (gd_audit db) (tx_now env) (tx_auditSeq env) (tx_audited env) "user" user
            "asset.traffic_review_policy.update" "asset" assetID (det_modes (trp_Mode current) target (Id a)) in
          let! _ := r in
          let db := set_gov_audit db audit in
          let! _ := loadTrafficReviewPolicyStatus parse_over db assetID in
          Ok db
      end
  end.

Definition UpdateTrafficReviewPolicy (parse_over : TrafficReviewPolicy → string → option TrafficReviewPolicy)
    (marshal_review : TrafficReviewPolicy → option string) (db : gov_db) (granted : bool) (user asset expected : string) (target : Z) (env : tx_env)
    : gov_db * result unit :=
  let assetID := trim_space asset in
  in_tx db (
    guard! negb (bool_decide (assetID = "")) else "asset_id is required" in
    guard! granted else "grant_missing" in
    guard! negb ((target <? TRAFFIC_REVIEW_MODE_OFF) || (TRAFFIC_REVIEW_MODE_SHADOW_CANDIDATES <? target)) else "traffic review mode is invalid" in
    let! db := update_traffic_review parse_over marshal_review db user assetID expected target env in
    guard! tx_complete env else "complete" in
    guard! tx_committed env else "commit" in
    Ok db).
End catalog.
