(* ===== verification/Scheduler.v ===== *)
(** * Counters, guard windows and automatic promotion

    [lib/brain/scheduler.go], [guard.go] and the counter bookkeeping of [registry.go]: what a
    unit reports about a release, the windows that decide whether a release is rolled back, and
    the rules by which a release moves on without a person.  One iteration of a scheduler loop
    is one step: it reads the tables, may write the snapshot of a guard, and changes a release
    by the transactions of [Govern]. *)

From S2P Require Import Prelude GoStrings Contracts Signing SignerService AuditChain GenerationStore ReleaseLifecycle Govern.

(** ** Counters *)

(** What a heartbeat reports about one release, with the epoch of the unit. *)
Record ReleaseCounter := mkReleaseCounter {
  rc_ReleaseId : string; rc_Mode : ReleaseMode; rc_Requests : Z; rc_Blocks : Z; rc_Observes : Z; rc_Selected : Z; rc_5xx : Z;
  rc_LatencyMicros : Z; rc_LatencySamples : Z; rc_P99 : Z }.

Definition releaseModeString (m : ReleaseMode) : string :=
  match m with RELEASE_MODE_CANARY => "canary" | RELEASE_MODE_ENFORCE => "enforce" | _ => "shadow" end.

(** [ON CONFLICT DO UPDATE] of [release_counters]: a newer epoch or another mode replaces the
    row, the same epoch keeps the larger totals, an older epoch changes nothing. *)
Definition merge_counter (old new : counter_row) : counter_row :=
  let replace := (cw_Generation old <? cw_Generation new)
                 || ((cw_Generation new =? cw_Generation old) && negb (bool_decide (cw_Mode new = cw_Mode old))) in
  let pick f := if replace then f new else if cw_Generation new =? cw_Generation old then Z.max (f old) (f new) else f old in
  mkCounterRow (Z.max (cw_Generation old) (cw_Generation new))
    (if replace then cw_Mode new else if cw_Generation old <=? cw_Generation new then cw_Mode new else cw_Mode old)
    (pick cw_Requests) (pick cw_Blocks) (pick cw_Observes) (pick cw_Selected) (pick cw_5xx) (pick cw_LatencyMicros) (pick cw_LatencySamples)
    (pick cw_P99).

Definition counter_of (generation : Z) (c : ReleaseCounter) : counter_row :=
  mkCounterRow generation (releaseModeString (rc_Mode c)) (i64 (rc_Requests c)) (i64 (rc_Blocks c)) (i64 (rc_Observes c)) (i64 (rc_Selected c))
    (i64 (rc_5xx c)) (i64 (rc_LatencyMicros c)) (i64 (rc_LatencySamples c)) (i64 (rc_P99 c)).

Definition report_counter (unitID : string) (generation : Z) (db : gov_db) (c : ReleaseCounter) : gov_db :=
  let k := (unitID, rc_ReleaseId c) in
  let row := counter_of generation c in
  set_counters db (<[k := match gd_counters db !! k with Some old => merge_counter old row | None => row end]> (gd_counters db)).

(** The counter part of the transaction of [Heartbeat]; [prevGen] is the epoch stored for the
    unit before.  A newer epoch drops the guards of every release the unit has counters for. *)
Definition heartbeat_counters (db : gov_db) (unitID : string) (prevGen generation : Z) (counters : list ReleaseCounter) : gov_db :=
  let db := if prevGen <? generation
            then set_guards db (filter (λ kv, gd_counters db !! (unitID, kv.1) = None) (gd_guards db))
            else db in
  foldl (report_counter unitID generation) db counters.

(** ** Guard windows *)

Record GuardSnapshot := mkGuardSnapshot {
  gs_Requests : Z; gs_Blocks : Z; gs_Denies : Z; gs_Upstream5xx : Z; gs_LatencyMicros : Z; gs_LatencySamples : Z; gs_P99Micros : Z }.

Definition f64_half : f64 := SpecFloat.S754_finite false 4503599627370496 (-53).
Definition badWindowBlockRateJump : f64 := f64_half.
Definition Guard5xxRateMultiple : f64 := SpecFloat.S754_finite false 4503599627370496 (-51).          (* 2.0 *)
Definition Guard5xxAbsDelta : f64 := SpecFloat.S754_finite false 5764607523034235 (-60).
Definition GuardP99Growth : f64 := SpecFloat.S754_finite false 4953959590107546 (-52).              (* 1 + 0.10 *)
Definition GuardP99AbsMicros : Z := 5000.

Definition block_rate_jump (dReq dBlk : Z) : bool :=
  (0 <? dReq) && (0 <? dBlk) && f64_ltb badWindowBlockRateJump (f64_div (f64_of_Z dBlk) (f64_of_Z dReq)).

Definition upstream_5xx_bad (prev : GuardSnapshot) (dReq d5 : Z) : bool :=
  (0 <? dReq) && (0 <? gs_Requests prev) &&
  let prevRate := f64_div (f64_of_Z (gs_Upstream5xx prev)) (f64_of_Z (gs_Requests prev)) in
  let curRate := f64_div (f64_of_Z d5) (f64_of_Z dReq) in
  f64_ltb (f64_mul prevRate Guard5xxRateMultiple) curRate && f64_leb Guard5xxAbsDelta (f64_sub curRate prevRate).

Definition p99_regression (prev cur : GuardSnapshot) : bool :=
  (0 <? gs_P99Micros cur) && (0 <? gs_P99Micros prev)
  && f64_ltb (f64_mul (f64_of_Z (gs_P99Micros prev)) GuardP99Growth) (f64_of_Z (gs_P99Micros cur))
  && (GuardP99AbsMicros <=? i64 (gs_P99Micros cur - gs_P99Micros prev)).

Definition guard_reasons (prev cur : GuardSnapshot) (denyThreshold : Z) : list string :=
  let dReq := i64 (gs_Requests cur - gs_Requests prev) in
  let dBlk := i64 (gs_Blocks cur - gs_Blocks prev) in
  let d5 := i64 (gs_Upstream5xx cur - gs_Upstream5xx prev) in
  (if (denyThreshold <=? u64 (i64 (gs_Denies cur - gs_Denies prev))) && (0 <? denyThreshold) then ["unexpected_deny"] else [])
  ++ (if block_rate_jump dReq dBlk then ["block_rate_jump"] else [])
  ++ (if upstream_5xx_bad prev dReq d5 then ["upstream_5xx"] else [])
  ++ (if p99_regression prev cur then ["p99_regression"] else []).

Definition GuardWindowBad (prev cur : GuardSnapshot) (denyThreshold : Z) : bool * string :=
  match guard_reasons prev cur denyThreshold with
  | [] => (false, "")
  | r :: rs => (true, foldl (λ out x, out +:+ "," +:+ x) r rs)
  end.

Record SchedulerConfig := mkSchedulerConfig {
  cfg_DenyThreshold : Z; cfg_GuardBadWindows : Z; cfg_ShadowMinDuration : duration; cfg_ShadowMinRequests : Z;
  cfg_CanaryMinDuration : duration; cfg_CanaryMinRequests : Z; cfg_CanaryPercent : Z; cfg_DemoTriage : bool;
  cfg_SigningKey : string; cfg_ArtifactSigner : option Signer }.

(** The defaults [StartScheduler] fills in. *)
Definition scheduler_defaults (c : SchedulerConfig) : SchedulerConfig :=
  mkSchedulerConfig (if cfg_DenyThreshold c =? 0 then 1 else cfg_DenyThreshold c) (if cfg_GuardBadWindows c =? 0 then 2 else cfg_GuardBadWindows c)
    (cfg_ShadowMinDuration c) (cfg_ShadowMinRequests c) (cfg_CanaryMinDuration c) (cfg_CanaryMinRequests c)
    (if cfg_CanaryPercent c =? 0 then 5 else cfg_CanaryPercent c) (cfg_DemoTriage c) (cfg_SigningKey c) (cfg_ArtifactSigner c).

(** A sum of the database is read into an [int64]. *)
Definition scan_i64 (x : Z) : option Z := if (- 2 ^ 63 <=? x) && (x <? 2 ^ 63) then Some x else None.

Definition mode_counters (db : gov_db) (releaseID mode : string) : list counter_row :=
  filter (λ c, cw_Mode c = mode) (release_counters db releaseID).

Definition guard_previous (db : gov_db) (id : string) : GuardSnapshot * Z :=
  match gd_guards db !! id with
  | Some g => (mkGuardSnapshot (gw_Requests g) (gw_Blocks g) (gw_Denies g) 0 0 0 (gw_P99 g), gw_ConsecutiveBad g)
  | None => (mkGuardSnapshot 0 0 0 0 0 0 0, 0)
  end.

Definition guard_current (db : gov_db) (id state : string) : option GuardSnapshot :=
  let rows := mode_counters db id state in
  match scan_i64 (sum_list_Z cw_Requests rows), scan_i64 (sum_list_Z cw_Blocks rows) with
  | Some requests, Some blocks =>
      let '(up5xx, latSum, latN, p99) :=
        match scan_i64 (sum_list_Z cw_5xx rows), scan_i64 (sum_list_Z cw_LatencyMicros rows), scan_i64 (sum_list_Z cw_LatencySamples rows) with
        | Some a, Some b, Some c => (a, b, c, match rows with [] => 0 | r :: rs => foldr (λ c, Z.max (cw_P99 c)) (cw_P99 r) rs end)
        | Some a, Some b, None => (a, b, 0, 0)
        | Some a, None, _ => (a, 0, 0, 0)
        | None, _, _ => (0, 0, 0, 0)
        end in
      Some (mkGuardSnapshot requests blocks (count_denies db id) up5xx latSum latN p99)
  | _, _ => None
  end.

(** One window of one release: what it finds, and the guard row it leaves. *)
Definition guard_window (cfg : SchedulerConfig) (db : gov_db) (id state : string) (now : time) : option (bool * guard_row) :=
  match guard_current db id state with
  | None => None
  | Some cur =>
      let '(prev, consecutive) := guard_previous db id in
      let '(bad, reasons) := GuardWindowBad prev cur (cfg_DenyThreshold cfg) in
      let consecutive := if bad then consecutive + 1 else 0 in
      Some (bad, mkGuardRow (gs_Requests cur) (gs_Blocks cur) (gs_Denies cur) consecutive (if bad then Some now else None) reasons
        (gs_P99Micros cur))
  end.

Section scheduler.
Context {C : Crypto} {A : AuditWire} {G : GovernDetails A} (json_artifact : Artifact → bool) (json_generation : AssetGeneration → bool).
Context (cfg : SchedulerConfig).

Definition scheduler_retire (db : gov_db) (id : string) (reason : RetireReason) (env : tx_env) : gov_db * result unit :=
  retireReleaseAudit json_artifact json_generation db db id reason (cfg_SigningKey cfg) (cfg_ArtifactSigner cfg) "system" "scheduler"
    "release.retire" env.

(** One iteration of [guardReleases]; [stored] says whether the snapshot could be written. *)
Definition guard_release (db : gov_db) (id state : string) (stored : bool) (env : tx_env) : gov_db :=
  match guard_window cfg db id state (tx_now env) with
  | None => db
  | Some (_, g) =>
      let db := if stored then set_guards db (<[id := g]> (gd_guards db)) else db in
      if cfg_GuardBadWindows cfg <=? gw_ConsecutiveBad g then (scheduler_retire db id RETIRE_REASON_ROLLBACK env).1 else db
  end.

Definition listReleases (db : gov_db) (p : release_row → bool) : list (string * release_row) :=
  filter (λ kv, p kv.2 = true) (map_to_list (gd_releases db)).

Definition guardReleases (db : gov_db) (stored : string → bool) (env : string → tx_env) : gov_db :=
  foldl (λ db kv, guard_release db kv.1 (rw_State kv.2) (stored kv.1) (env kv.1)) db
    (listReleases db (λ r, bool_decide (rw_State r = "canary") || bool_decide (rw_State r = "enforce"))).

Definition expireReleases (db : gov_db) (now : time) (env : string → tx_env) : gov_db :=
  foldl (λ db kv, (scheduler_retire db kv.1 RETIRE_REASON_TTL (env kv.1)).1) db
    (listReleases db (λ r, active_state (rw_State r) && match rw_HardExpiresAt r with Some t => t <? now | None => false end)).

(** The messages [enqueueDueReviews] puts into the outbox: topic, key and release. *)
Definition due_reviews (db : gov_db) (now : time) : list (string * string * string) :=
  (λ kv, ("yufeng.review.due", "review:" +:+ kv.1, kv.1)) <$>
    listReleases db (λ r, active_state (rw_State r) && match rw_ReviewAt r with Some t => t <? now | None => false end).

(** ** Automatic promotion *)

Definition autoPromoteBlocked (scopeRisk evidence : string) : bool :=
  negb ((bool_decide (scopeRisk = "exact") || bool_decide (scopeRisk = "route"))
        && (bool_decide (evidence = "crs_mapped") || bool_decide (evidence = "human") || bool_decide (evidence = "replay"))).

Definition skipAutoPromote (row : release_row) (demo : bool) : bool :=
  let kind := ArtKind (rw_Artifact row) in
  if bool_decide (kind = KIND_SHAPE) then true
  else if bool_decide (kind = KIND_RULE) then negb demo
  else if demo && bool_decide (rw_ScopeRisk row = "") && bool_decide (rw_EvidenceClass row = "") then false
  else if autoPromoteBlocked (rw_ScopeRisk row) (rw_EvidenceClass row) then true
  else negb demo && negb (replayReportPassed (rw_Artifact row)).

(** [known]: the identifiers of the [units] and [assets] tables. *)
Definition proposerUnitIDs (known : (string → bool) * (string → bool)) (db : gov_db) (createdBy : string) : list string :=
  if bool_decide (createdBy = "") then [] else
  (if known.1 createdBy then [createdBy] else [])
  ++ (if known.2 createdBy then (filter (λ ua, ua.2 = createdBy) (gd_unit_assets db)).*1 else []).

Definition sumCountersExcept (db : gov_db) (releaseID mode : string) (exclude : list string) : option Z :=
  u64 <$> scan_i64 (sum_list_Z (λ kv, cw_Requests kv.2)
    (filter (λ kv, kv.1.2 = releaseID ∧ cw_Mode kv.2 = mode ∧ kv.1.1 ∉ exclude) (map_to_list (gd_counters db)))).

Definition promotionGatesMet (known : (string → bool) * (string → bool)) (db : gov_db) (id mode : string) (minAge : duration) (minRequests : Z)
    (now : time) : bool :=
  match gd_releases db !! id with
  | None => false
  | Some row =>
      let column := if bool_decide (mode = "canary") then rw_CanaryAt else rw_ShadowAt in
      durationThresholdMet (time_sub now (releaseTime db id column now)) minAge
      && match sumCountersExcept db id mode (proposerUnitIDs known db (rw_CreatedBy row)) with
         | Some n => minRequests <=? n
         | None => false
         end
  end.

(** A change of the scheduler: no supersession and no action, so no audit entry. *)
Definition scheduler_write (rel : Release) : releaseWrite :=
  mkReleaseWrite rel true false RETIRE_REASON_UNSPECIFIED "" "" "" "" det_none (cfg_SigningKey cfg) (cfg_ArtifactSigner cfg).

Definition auto_canary (known : (string → bool) * (string → bool)) (db : gov_db) (id : string) (env : tx_env) : gov_db :=
  match gd_releases db !! id with
  | None => db
  | Some row =>
      if skipAutoPromote row (cfg_DemoTriage cfg) then db
      else if negb (cfg_DemoTriage cfg) && (releaseBoundUnitCount db id <? CanaryMinUnits (cfg_CanaryPercent cfg)) then db
      else if negb (promotionGatesMet known db id "shadow" (cfg_ShadowMinDuration cfg) (cfg_ShadowMinRequests cfg) (tx_now env)) then db
      else match loadRelease db id with
           | Ok (RShadow shadow) =>
               match PromoteCanary shadow (cfg_CanaryPercent cfg) with
               | Ok canary => (commitReleaseChange json_artifact json_generation db (scheduler_write (RCanary canary)) env).1
               | Err _ => db
               end
           | _ => db
           end
  end.

Definition auto_enforce (known : (string → bool) * (string → bool)) (db : gov_db) (id : string) (env : tx_env) : gov_db :=
  match gd_releases db !! id with
  | None => db
  | Some row =>
      if skipAutoPromote row (cfg_DemoTriage cfg) then db
      else if negb (promotionGatesMet known db id "canary" (cfg_CanaryMinDuration cfg) (cfg_CanaryMinRequests cfg) (tx_now env)) then db
      else match loadRelease db id with
           | Ok (RCanary canary) =>
               (commitReleaseChange json_artifact json_generation db (scheduler_write (REnforce (Canary_PromoteEnforce canary))) env).1
           | _ => db
           end
  end.

Definition autoPromoteReleases (known : (string → bool) * (string → bool)) (db : gov_db) (env env' : string → tx_env) : gov_db :=
  let db := foldl (λ db kv, auto_canary known db kv.1 (env kv.1)) db (listReleases db (λ r, bool_decide (rw_State r = "shadow"))) in
  foldl (λ db kv, auto_enforce known db kv.1 (env' kv.1)) db (listReleases db (λ r, bool_decide (rw_State r = "canary"))).
End scheduler.
