(* ===== verification/GovernProofs.v ===== *)
(** * What governance promises

    Over every history of the transactions of [Govern], interleaved in any way with the
    readings that precede them: what is published to the edges is gated and signed, the edges
    can follow the published generations, and releases only move forward. *)

From stdpp Require Import sorting.
From S2P Require Import Prelude GoStrings Contracts Signing SignerService AuditChain GenerationStore ReleaseLifecycle ReleaseSet Govern Catalog Scheduler.

(** ** Signing authorities

    What the control plane relies on when it signs, with a private key of its own or with a
    signer: what it signs verifies under one public key, and signing changes nothing else. *)
Class SigningAuthority {C : Crypto} (key : string) (signer : option Signer) (pub : string) : Prop := {
  authority_generation g g' now :
    signGenerationEnvelope g key signer now = (Some g', Ok tt) →
    (∃ s, g' = with_envelope_signature g s) ∧ VerifyGeneration (Some g') pub = Ok tt;
  authority_artifact a a' now :
    signArtifactEnvelope a key signer now = (Some a', Ok tt) →
    VerifyArtifact (Some a') pub = Ok tt ∧ art_ReplayReport a' = art_ReplayReport a ∧ ArtKind a' = ArtKind a;
  authority_payload a a' now : signArtifactEnvelope a key signer now = (Some a', Ok tt) → Payload a' = Payload a;
}.

Lemma verify_generation_filled {C : Crypto} g s c pub :
  generationCanonical g = Ok c → 0 < str_len (Sig s) → str_len pub = PublicKeySize → ed25519_verify pub c (Sig s) = true →
  VerifyGeneration (Some (with_envelope_signature g s)) pub = Ok tt.
Proof.
  intros Hc Hlen Hpub Hv. assert (generationCanonical (with_envelope_signature g s) = Ok c) as Hcanon by done.
  unfold VerifyGeneration. rewrite Hcanon. simpl. rewrite (proj2 (Z.ltb_lt _ _) Hlen), Hpub. simpl. by rewrite Hv.
Qed.

#[global] Instance key_authority {C : Crypto} {L : CryptoLaws C} key : SigningAuthority key None (ed25519_public key).
Proof.
  split.
  - intros g g' now. unfold signGenerationEnvelope, SignGeneration.
    destruct (Z.eqb_spec (str_len key) PrivateKeySize) as [Hk|]; [|done]. simpl.
    destruct (has_signature _); [done|]. destruct (generationCanonical g) as [c|] eqn:Hc; [|done]. intros [= <-].
    split; [by eexists|]. eapply verify_generation_filled; [done|..]; simpl.
    + rewrite signature_length by done. lia.
    + by apply public_length.
    + by apply sign_verifies.
  - intros a a' now Hs. split; [by eapply sign_then_verify_lemma|].
    apply SignArtifact_Ok in Hs as (art & art0 & c & [= <-] & -> & _ & _ & _ & [= ->]). by case_bool_decide.
  - intros a a' now Hs. apply SignArtifact_Ok in Hs as (art & art0 & c & [= <-] & -> & _ & _ & _ & [= ->]). by case_bool_decide.
Qed.

Lemma sound_signature {C : Crypto} {W : Wire} s pub c sig :
  SoundSigner s pub →
  match signer_SignTyped s with
  | Some t => ∃ op b, t op b = Ok sig ∧
      (∀ c', canonicalTypedSigningRequest (mkSigningRequest signingProtocolVersion op b) pub = Ok c' → c' = c)
  | None => signer_Sign s c = Ok sig
  end → 0 < str_len sig ∧ ed25519_verify pub c sig = true.
Proof.
  intros Hs H. destruct (signer_SignTyped s) as [t|] eqn:Ht; [|by apply sound_sign in H].
  destruct H as (op & b & Hok & Hc). destruct (sound_typed _ _ _ _ Ht Hok) as (c' & Hreq & ?). by rewrite <- (Hc c' Hreq).
Qed.

Lemma signer_fields {C : Crypto} a s now a' :
  SignArtifactWithSigner (Some a) (Some s) now = (Some a', Ok tt) →
  art_ReplayReport a' = art_ReplayReport a ∧ ArtKind a' = ArtKind a ∧ Payload a' = Payload a.
Proof.
  unfold SignArtifactWithSigner. destruct (has_signature _); [done|].
  destruct (ArtifactID (Some a)) as [want|]; [|done]. destruct (_ && _); [done|]. cbv zeta.
  set (art1 := if bool_decide _ then _ else _).
  assert (art_ReplayReport art1 = art_ReplayReport a ∧ ArtKind art1 = ArtKind a ∧ Payload art1 = Payload a) as (E1 & E2 & E3).
  { unfold art1. by case_bool_decide. }
  clearbody art1. destruct (canonicalBytes art1); [|done]. destruct (match signer_SignTyped s with Some _ => _ | None => _ end); [|done].
  intros H. injection H. intros <-. done.
Qed.

#[global] Instance signer_authority {C : Crypto} {W : Wire} {WL : WireLaws C W} key s pub :
  SoundSigner s pub → SigningAuthority key (Some s) pub.
Proof.
  intros Hs. split.
  - intros g g' now Hsign. apply SignGenerationWithSigner_Ok in Hsign as (c & sig & Hc & [= ->] & Hsig).
    split; [by eexists|]. destruct (sound_signature s pub c sig Hs) as [Hlen Hv].
    { destruct (signer_SignTyped s); [|done]. destruct Hsig as (b & Hm & Hok). do 2 eexists. split; [exact Hok|].
      intros c' Hreq. apply (typed_generation_Ok _ _ _ _ Hm) in Hreq as [Hc' _]. congruence. }
    eapply verify_generation_filled; [done..|apply sound_public|done].
  - intros a a' now Hsign. unfold signArtifactEnvelope in Hsign. pose proof Hsign as Hsign0.
    apply SignArtifactWithSigner_Ok in Hsign as (art & c & sig & Hc & Hid & [= ->] & Hsig).
    destruct (sound_signature s pub c sig Hs) as [Hlen Hv].
    { destruct (signer_SignTyped s); [|done]. destruct Hsig as (b & Hm & Hok). do 2 eexists. split; [exact Hok|].
      intros c' Hreq. apply (typed_artifact_Ok _ _ _ _ Hm) in Hreq. congruence. }
    split; [eapply verify_filled; [done..|apply sound_public|done]|].
    by apply signer_fields in Hsign0 as (-> & -> & _).
  - intros a a' now Hsign. by apply signer_fields in Hsign as (_ & _ & ->).
Qed.

(** ** Ranks of states *)

Definition state_rank (s : string) : Z :=
  if bool_decide (s = "signed") then 1 else if bool_decide (s = "shadow") then 2 else if bool_decide (s = "canary") then 3
  else if bool_decide (s = "enforce") then 4 else if bool_decide (s = "retired") then 5 else 0.

Definition state_names : list string := ["draft"; "signed"; "shadow"; "canary"; "enforce"; "retired"].

Lemma releaseStateString_named s : releaseStateString s ∈ state_names.
Proof. unfold state_names. destruct s; simpl; set_solver. Qed.

Lemma transition_forward from to : releaseTransitionAllowed from to = true → state_rank from ≤ state_rank to.
Proof.
  unfold releaseTransitionAllowed, state_rank. intros H.
  repeat (case_bool_decide; simplify_eq/=; try done; try lia).
Qed.

Lemma active_not_draft s : active_state s = true → s ≠ "draft".
Proof. intros H ->. done. Qed.

(** ** Tables that only grow *)

Record advances (db db' : gov_db) : Prop := {
  adv_rows id row : gd_releases db !! id = Some row →
    ∃ row', gd_releases db' !! id = Some row' ∧ state_rank (rw_State row) ≤ state_rank (rw_State row') ∧
      ArtKind (rw_Artifact row') = ArtKind (rw_Artifact row);
  adv_assets id row asset : gd_releases db !! id = Some row →
    ((id, asset) ∈ gd_release_assets db' ↔ (id, asset) ∈ gd_release_assets db);
  adv_generations : gd_generations db `prefix_of` gd_generations db';
}.

#[global] Instance advances_preorder : PreOrder advances.
Proof.
  split.
  - intros db. split; [|done..]. intros id row H. by exists row.
  - intros a b c [H1 A1 P1] [H2 A2 P2]. split; [..|by trans (gd_generations b)].
    + intros id row H. destruct (H1 _ _ H) as (r1 & Hr1 & ? & ?), (H2 _ _ Hr1) as (r2 & Hr2 & ? & ?). exists r2.
      split_and!; [done|lia|congruence].
    + intros id row asset H. destruct (H1 _ _ H) as (r1 & Hr1 & _). by rewrite (A2 _ _ asset Hr1), (A1 _ _ asset H).
Qed.

Lemma advances_insert db id row :
  (∀ old, gd_releases db !! id = Some old →
     state_rank (rw_State old) ≤ state_rank (rw_State row) ∧ ArtKind (rw_Artifact row) = ArtKind (rw_Artifact old)) →
  advances db (set_releases db (<[id := row]> (gd_releases db))).
Proof.
  intros Hold. split; [|done..]. intros id' row' H. simpl. destruct (decide (id' = id)) as [->|].
  - rewrite lookup_insert_eq. exists row. split; [done|by apply Hold].
  - rewrite lookup_insert_ne by done. by exists row'.
Qed.

Section promises.
Context {C : Crypto} {A : AuditWire} {G : GovernDetails A} (json_artifact : Artifact → bool) (json_generation : AssetGeneration → bool).
Context (key : string) (signer : option Signer) (pub : string) {SA : SigningAuthority key signer pub}.

(** ** The invariant *)

Definition passing (a : Artifact) : Prop := ∃ rep, art_ReplayReport a = Some rep ∧ Passed rep = true ∧ GatePassed rep = true.

(** Signed, and past the replay gate unless it is a catalog artifact. *)
Definition gated_artifact (a : Artifact) : Prop := VerifyArtifact (Some a) pub = Ok tt ∧ (isCatalogKind (ArtKind a) = true ∨ passing a).

(** Catalog artifacts belong to no asset. *)
Record row_ok (db : gov_db) (id : string) (row : release_row) : Prop := {
  ro_id : id ≠ "";
  ro_kind : ArtKind (rw_Artifact row) ≠ KIND_LISTEN_PLAN;
  ro_gated : rw_State row ≠ "draft" → gated_artifact (rw_Artifact row);
  ro_catalog : isCatalogKind (ArtKind (rw_Artifact row)) = true → ∀ asset, (id, asset) ∉ gd_release_assets db;
}.

(** A release a handler holds: it continues a row of the table. *)
Definition rel_ok (db : gov_db) (rel : Release) : Prop :=
  (∃ row, gd_releases db !! ReleaseID rel = Some row ∧ ArtKind (rw_Artifact row) = ArtKind (release_Artifact rel)) ∧
  (State rel ≠ RELEASE_STATE_DRAFT → gated_artifact (release_Artifact rel)).

(** A member of a generation: a gated release, or a signed setting. *)
Definition member_ok (m : option ReleaseItem) : Prop :=
  ∃ it a, m = Some it ∧ ri_Artifact it = Some a ∧ ri_ReleaseId it ≠ "" ∧ ArtKind a ≠ KIND_LISTEN_PLAN ∧
    VerifyArtifact (Some a) pub = Ok tt ∧ (has_prefix (ri_ReleaseId it) "setting:" = true ∨ passing a).

Record generation_ok (asset parent : string) (n : Z) (g : AssetGeneration) : Prop := {
  go_asset : gen_AssetId g = asset;
  go_seq : GenerationSeq g = n + 1;
  go_parent : ParentGenerationId g = parent;
  go_signed : VerifyGeneration (Some g) pub = Ok tt;
  go_members : Forall member_ok (Members g);
  go_rollback : RollbackOf g = 0 ∨ RollbackOf g = n;
}.

Fixpoint generations_chain (asset parent : string) (n : Z) (l : list AssetGeneration) : Prop :=
  match l with
  | [] => True
  | g :: l' => generation_ok asset parent n g ∧ generations_chain asset (GenerationId g) (n + 1) l'
  end.

Record gov_inv (db : gov_db) : Prop := {
  inv_rows : ∀ id row, gd_releases db !! id = Some row → row_ok db id row;
  inv_assets : ∀ id asset, (id, asset) ∈ gd_release_assets db → is_Some (gd_releases db !! id);
  inv_settings : ∀ asset settings kind row, gd_settings db !! asset = Some settings → settings !! kind = Some row →
    VerifyArtifact (Some (sr_Artifact row)) pub = Ok tt ∧ ArtKind (sr_Artifact row) ≠ KIND_LISTEN_PLAN;
  inv_generations : Z.of_nat (length (gd_generations db)) < 2 ^ 63 → ∀ asset, generations_chain asset "" 0 (asset_generations db asset);
}.

(** The invariant only looks at these tables. *)
Lemma gov_inv_ext db db' :
  gd_releases db' = gd_releases db → gd_settings db' = gd_settings db → gd_generations db' = gd_generations db →
  gd_release_assets db' = gd_release_assets db → gov_inv db → gov_inv db'.
Proof.
  intros E1 E2 E3 E4 [H1 HA H2 H3]. split; unfold asset_generations; rewrite ?E1, ?E2, ?E3, ?E4; [|done..].
  intros id row Hr. destruct (H1 _ _ Hr). split; rewrite ?E4; done.
Qed.

Lemma advances_ext db db' :
  gd_releases db' = gd_releases db → gd_generations db' = gd_generations db → gd_release_assets db' = gd_release_assets db → advances db db'.
Proof. intros E1 E2 E3. split; rewrite ?E1, ?E2, ?E3; [|done..]. intros id row H. by exists row. Qed.

(** Replacing one row of the table. *)
Lemma gov_inv_row db db' id row row' :
  gov_inv db → gd_releases db !! id = Some row → gd_releases db' = <[id := row']> (gd_releases db) →
  gd_settings db' = gd_settings db → gd_generations db' = gd_generations db → gd_release_assets db' = gd_release_assets db →
  ArtKind (rw_Artifact row') = ArtKind (rw_Artifact row) → state_rank (rw_State row) ≤ state_rank (rw_State row') →
  (rw_State row' ≠ "draft" → gated_artifact (rw_Artifact row')) → gov_inv db' ∧ advances db db'.
Proof.
  intros [H1 HA H2 H3] Er E1 E2 E3 E4 Hk Hrank Hg. split.
  - split; unfold asset_generations; rewrite ?E1, ?E2, ?E3, ?E4; [| |done..].
    2: { intros id' asset Hin%HA. rewrite lookup_insert_is_Some. destruct (decide (id = id')); auto. }
    intros id' r [[<- <-]|[Hne Hr]]%lookup_insert_Some.
    + destruct (H1 _ _ Er). split; rewrite ?Hk, ?E4; done.
    + destruct (H1 _ _ Hr). split; rewrite ?E4; done.
  - trans (set_releases db (<[id := row']> (gd_releases db))); [|by apply advances_ext; simpl].
    apply advances_insert. intros old Hold. by simplify_eq.
Qed.

Lemma rel_ok_advances old db rel : advances old db → rel_ok old rel → rel_ok db rel.
Proof.
  intros [H1 _ _] [(row & Hr & Hk) Hg]. split; [|done]. destruct (H1 _ _ Hr) as (row' & Hr' & _ & Hk'). exists row'. split; [done|congruence].
Qed.

Lemma rel_ok_continue db rel rel' :
  rel_ok db rel → State rel ≠ RELEASE_STATE_DRAFT → ReleaseID rel' = ReleaseID rel → release_Artifact rel' = release_Artifact rel → rel_ok db rel'.
Proof. intros [(row & Hr & Hk) Hg] Hs Hid Ha. split; rewrite ?Hid, ?Ha; [by exists row|auto]. Qed.

Lemma loadRelease_spec db id rel :
  gov_inv db → loadRelease db id = Ok rel →
  rel_ok db rel ∧ ReleaseID rel = id ∧ ∃ row, gd_releases db !! id = Some row ∧ releaseStateString (State rel) = rw_State row.
Proof.
  intros Hi. unfold loadRelease. destruct (gd_releases db !! id) as [row|] eqn:Er; [|done].
  destruct (inv_rows _ Hi _ _ Er) as [Hid Hk Hg _]. unfold releaseFromParts. intros H.
  destruct (bool_decide_reflect (rw_State row = "draft")) as [Hs|Hd].
  { injection H as <-. split; [split; [by exists row|done]|]. split; [done|]. by exists row. }
  specialize (Hg Hd).
  repeat (case_bool_decide as Hs;
    [injection H as <-; split; [split; [by exists row|intros _; exact Hg]|split; [done|exists row; split; [done|by rewrite Hs]]]|clear Hs]).
  discriminate H.
Qed.

(** ** Each step of a transaction *)

Lemma ensureGuardBaseline_same db id :
  gd_releases (ensureGuardBaseline db id) = gd_releases db ∧ gd_settings (ensureGuardBaseline db id) = gd_settings db ∧
  gd_generations (ensureGuardBaseline db id) = gd_generations db ∧ gd_release_assets (ensureGuardBaseline db id) = gd_release_assets db.
Proof. unfold ensureGuardBaseline. by destruct (gd_guards db !! id). Qed.

Lemma updated_row_state row rel now row' :
  updated_row row rel now = Ok row' → rw_State row' = releaseStateString (State rel) ∧ rw_Artifact row' = release_Artifact rel.
Proof. unfold updated_row. destruct rel; try (intros [= <-]; done). destruct (retireReasonString _); [|done]. by intros [= <-]. Qed.

Lemma persistRelease_tables db rel now db' :
  persistRelease json_artifact db rel now = Ok db' →
  ∃ row row', gd_releases db !! ReleaseID rel = Some row ∧ releaseTransitionAllowed (rw_State row) (releaseStateString (State rel)) = true ∧
    updated_row row rel now = Ok row' ∧ gd_releases db' = <[ReleaseID rel := row']> (gd_releases db) ∧
    gd_settings db' = gd_settings db ∧ gd_generations db' = gd_generations db ∧ gd_release_assets db' = gd_release_assets db.
Proof.
  unfold persistRelease. destruct (json_artifact _); [|done].
  destruct (gd_releases db !! ReleaseID rel) as [row|]; [|done]. destruct (releaseTransitionAllowed _ _) eqn:Et; [|done].
  destruct (updated_row row rel now) as [row'|] eqn:Eu; [|done]. simpl. intros [= <-]. exists row, row'.
  destruct (guarded_state rel); [|by case_match].
  set (d1 := set_releases _ _). destruct (ensureGuardBaseline_same d1 (ReleaseID rel)) as (E1 & E2 & E3 & E4).
  by case_match; simpl; rewrite E1, E2, E3, E4.
Qed.

Lemma persistRelease_inv db rel now db' :
  gov_inv db → rel_ok db rel → persistRelease json_artifact db rel now = Ok db' → gov_inv db' ∧ advances db db'.
Proof.
  intros Hi [(row0 & Hr0 & Hk) Hg] H. apply persistRelease_tables in H as (row & row' & Er & Et & Eu & E1 & E2 & E3 & E4).
  apply updated_row_state in Eu as [Es Ea]. simplify_eq. eapply gov_inv_row; try done.
  - by rewrite Ea.
  - rewrite Es. by apply transition_forward.
  - rewrite Ea, Es. intros Hst. apply Hg. intros HD. by rewrite HD in Hst.
Qed.

Lemma publishFeed_same db rel retired reason db' :
  publishFeed json_artifact db rel retired reason = Ok db' →
  gd_releases db' = gd_releases db ∧ gd_settings db' = gd_settings db ∧ gd_generations db' = gd_generations db ∧ gd_release_assets db' = gd_release_assets db.
Proof. unfold publishFeed. destruct (json_artifact _); [|done]. by intros [= <-]. Qed.

Lemma supersede_tables db old actor now db' :
  supersede json_artifact db old actor now = Ok db' →
  gd_settings db' = gd_settings db ∧ gd_generations db' = gd_generations db ∧ gd_release_assets db' = gd_release_assets db ∧
  (gd_releases db' = gd_releases db ∨
   ∃ id row row', gd_releases db !! id = Some row ∧ active_state (rw_State row) = true ∧ rw_ArtifactID row = old ∧
     rw_State row' = "retired" ∧ rw_Artifact row' = rw_Artifact row ∧ gd_releases db' = <[id := row']> (gd_releases db)).
Proof.
  unfold supersede. destruct (superseded db old) as [[id row]|] eqn:Es; [|intros [= <-]; tauto].
  destruct (loadRelease _ id) as [rel|]; [|done]. simpl. intros H. apply publishFeed_same in H as (-> & -> & -> & ->).
  split_and!; [done..|]. right. exists id, row. eexists. unfold superseded in Es.
  assert ((id, row) ∈ map_to_list (gd_releases db) ∧ rw_ArtifactID row = old ∧ active_state (rw_State row) = true) as (Hin & Ha & Hst).
  { apply last_Some in Es as [l Es].
    match type of Es with order_by ?k ?m = _ => assert ((id, row) ∈ order_by k m) as Hin by (rewrite Es; set_solver) end.
    rewrite order_by_perm in Hin. apply list_elem_of_filter in Hin as [[??] ?]. done. }
  apply elem_of_map_to_list in Hin. do 3 (split; [done|]). refine (conj _ (conj _ eq_refl)); done.
Qed.

Lemma supersede_inv db old actor now db' :
  gov_inv db → supersede json_artifact db old actor now = Ok db' → gov_inv db' ∧ advances db db'.
Proof.
  intros Hi H. apply supersede_tables in H as (E2 & E3 & E4 & [E1|(id & row & row' & Er & Hact & _ & Hs & Ha & E1)]).
  - split; [by eapply gov_inv_ext|by apply advances_ext].
  - eapply gov_inv_row; try done; rewrite ?Ha, ?Hs; [done| |].
    + unfold active_state in Hact. unfold state_rank. repeat (case_bool_decide; simplify_eq/=; try done; try lia).
    + intros _. by apply (ro_gated _ _ _ (inv_rows _ Hi _ _ Er)), active_not_draft.
Qed.

(** ** Publishing *)

Lemma generations_chain_app asset parent n l g :
  generations_chain asset parent n (l ++ [g]) ↔
  generations_chain asset parent n l ∧ generation_ok asset (default parent (GenerationId <$> last l)) (n + Z.of_nat (length l)) g.
Proof.
  clear json_artifact json_generation. revert parent n. induction l as [|h l IH]; intros parent n; simpl.
  - rewrite Z.add_0_r. tauto.
  - rewrite IH. assert (default (GenerationId h) (GenerationId <$> last l) = default parent (GenerationId <$> last (h :: l))) as ->.
    { rewrite last_cons. by destruct (last l). }
    replace (n + 1 + Z.of_nat (length l)) with (n + Z.of_nat (S (length l))) by lia. tauto.
Qed.

Lemma generations_chain_lookup asset parent n l k g :
  generations_chain asset parent n l → l !! k = Some g →
  ∃ parent', generation_ok asset parent' (n + Z.of_nat k) g ∧
    (∀ h, l !! S k = Some h → generation_ok asset (GenerationId g) (n + Z.of_nat k + 1) h).
Proof.
  revert parent n k. induction l as [|x l IH]; intros parent n [|k] Hc Hl; simplify_eq/=.
  - destruct Hc as [Hx Hc]. exists parent. rewrite Z.add_0_r. split; [done|]. intros h Hh. destruct l; simplify_eq/=. apply Hc.
  - destruct Hc as [_ Hc]. destruct (IH _ _ _ Hc Hl) as (p' & H1 & H2). exists p'.
    replace (n + Z.of_nat (S k)) with (n + 1 + Z.of_nat k) by lia. done.
Qed.

Lemma generations_chain_sorted asset parent n l :
  generations_chain asset parent n l → StronglySorted (key_lt GenerationSeq) l ∧ Forall (λ g, n < GenerationSeq g) l.
Proof.
  revert parent n. induction l as [|g l IH]; intros parent n; simpl; [split; constructor|]. intros [Hg Hl].
  destruct (IH _ _ Hl) as [Hs Hf]. pose proof (go_seq _ _ _ _ Hg). split.
  - constructor; [done|]. eapply Forall_impl; [exact Hf|]. unfold key_lt. simpl. lia.
  - constructor; [lia|]. eapply Forall_impl; [exact Hf|]. simpl. lia.
Qed.

Lemma latest_generation_last db asset :
  generations_chain asset "" 0 (asset_generations db asset) → latest_generation db asset = last (asset_generations db asset).
Proof. intros [Hs _]%generations_chain_sorted. unfold latest_generation. by rewrite order_by_increasing. Qed.

Lemma latest_generation_seq db asset :
  generations_chain asset "" 0 (asset_generations db asset) →
  default 0 (GenerationSeq <$> latest_generation db asset) = Z.of_nat (length (asset_generations db asset)).
Proof.
  intros Hc. rewrite latest_generation_last by done. destruct (asset_generations db asset) as [|g l _] using rev_ind; [done|].
  apply generations_chain_app in Hc as [_ Hg]. rewrite last_snoc, length_app. simpl. rewrite (go_seq _ _ _ _ Hg). lia.
Qed.

Lemma release_members_spec db asset m :
  m ∈ release_members db asset ↔
  ∃ id row, gd_releases db !! id = Some row ∧ active_on db asset id row = true ∧ m = release_member asset id row.
Proof.
  unfold release_members. rewrite list_elem_of_omap. split.
  - intros (id & _ & Hm). destruct (gd_releases db !! id) as [row|] eqn:Er; simplify_eq/=.
    destruct (active_on db asset id row) eqn:Ea; simplify_eq. by exists id, row.
  - intros (id & row & Er & Ea & ->). exists id. split.
    + apply sort_strings_elem. apply list_elem_of_fmap. exists (id, row). split; [done|]. by apply elem_of_map_to_list.
    + rewrite Er. simpl. by rewrite Ea.
Qed.

Lemma members_ok db asset : gov_inv db → Forall member_ok (release_members db asset ++ setting_members db asset).
Proof.
  intros Hi. apply Forall_forall. intros m [Hm|Hm]%elem_of_app.
  - apply release_members_spec in Hm as (id & row & Er & Ha & ->). destruct (inv_rows _ Hi _ _ Er) as [Hid Hk Hg Hc].
    unfold active_on in Ha. apply andb_true_iff in Ha as [Ha Hin%bool_decide_eq_true]. destruct (Hg (active_not_draft _ Ha)) as [Hv Hp].
    do 2 eexists. split_and!; [done..|]. right. destruct Hp as [Hp|]; [|done]. by destruct (Hc Hp asset).
  - unfold setting_members in Hm. apply list_elem_of_omap in Hm as (kind & _ & Hm).
    destruct (gd_settings db !! asset) as [settings|] eqn:Es; simplify_eq/=.
    + destruct (settings !! kind) as [row|] eqn:Ek; simplify_eq/=. destruct (inv_settings _ Hi _ _ _ _ Es Ek) as [Hv Hk].
      do 2 eexists. split_and!; try done. left. apply (has_prefix_app "setting:" kind).
Qed.

Lemma asset_generations_snoc db g e asset :
  asset_generations (set_generations db (gd_generations db ++ [g]) e) asset =
  asset_generations db asset ++ (if bool_decide (gen_AssetId g = asset) then [g] else []).
Proof. unfold asset_generations. simpl. rewrite filter_app. f_equal. rewrite filter_cons. by case_bool_decide; case_decide. Qed.

Lemma asset_generations_length db asset : (length (asset_generations db asset) ≤ length (gd_generations db))%nat.
Proof. unfold asset_generations. apply length_filter. Qed.

Definition signs : bool := negb (bool_decide (key = "")) || negb (bool_decide (signer = None)).

Lemma publish_spec db asset rollback genID now db' :
  publishAssetGeneration json_generation db asset key signer rollback genID now = Ok db' →
  db' = db ∧ (asset = "" ∨ signs = false) ∨
  asset ≠ "" ∧ ∃ g sig e, g = with_envelope_signature (next_generation db asset genID rollback now) sig ∧
    VerifyGeneration (Some g) pub = Ok tt ∧ db' = set_generations db (gd_generations db ++ [g]) e ∧ generation_fits db g = true.
Proof.
  unfold publishAssetGeneration, signs. case_bool_decide as Ha; [intros [= <-]; left; auto|].
  destruct (bool_decide (key = "") && bool_decide (signer = None)) eqn:Ek; simpl.
  { intros [= <-]. left. split; [done|]. right. apply andb_true_iff in Ek as [-> ->]. done. }
  destruct (signGenerationEnvelope _ _ _ _) as [[g|] [[]|e]] eqn:Es; try done.
  destruct (authority_generation _ _ _ Es) as [[sig ->] Hv]. destruct (json_generation _); [|done].
  destruct (generation_fits _ _) eqn:Ef; [|done]. intros [= <-]. right. split; [done|]. by do 3 eexists.
Qed.

Lemma publish_inv db asset rollback genID now db' :
  gov_inv db → publishAssetGeneration json_generation db asset key signer rollback genID now = Ok db' → gov_inv db' ∧ advances db db'.
Proof.
  intros Hi [[-> _]|(Hne & g & sig & e & Hg & Hv & -> & _)]%publish_spec; [done|]. split.
  - destruct Hi as [H1 HA H2 H3]. pose proof (Build_gov_inv _ H1 HA H2 H3) as Hi.
    split; [intros id row Hr; by destruct (H1 _ _ Hr)|done..|]. simpl. rewrite length_app. simpl. intros Hlen a.
    specialize (H3 ltac:(lia)). rewrite asset_generations_snoc. case_bool_decide as Ha; [|by rewrite app_nil_r].
    subst g. simpl in Ha. subst a. apply generations_chain_app. split; [by apply H3|].
    pose proof (latest_generation_seq db asset (H3 asset)) as Hseq. pose proof (asset_generations_length db asset).
    split; simpl; [done| | |done|by apply members_ok|].
    + rewrite Hseq, wrap_s_id; [lia..|]. unfold in_s. change (64 - 1) with 63. lia.
    + by rewrite latest_generation_last.
    + rewrite Hseq. destruct rollback; [right; lia|by left].
  - split; [|done|simpl; by eexists]. intros id row H. by exists row.
Qed.

Lemma publish_same db asset rollback genID now db' :
  publishAssetGeneration json_generation db asset key signer rollback genID now = Ok db' →
  gd_releases db' = gd_releases db ∧ gd_release_assets db' = gd_release_assets db ∧ gd_settings db' = gd_settings db.
Proof. intros [[-> _]|(_ & g & sig & e & _ & _ & -> & _)]%publish_spec; done. Qed.

Lemma publish_assets_inv ids env rollback : ∀ db db',
  gov_inv db → publish_assets json_generation db ids key signer rollback env = Ok db' → gov_inv db' ∧ advances db db'.
Proof.
  induction ids as [|id ids IH]; intros db db' Hi; simpl; [by intros [= <-]|].
  destruct (publishAssetGeneration _ _ _ _ _ _ _ _) as [d1|] eqn:Ep; [|done]. simpl. intros H.
  destruct (publish_inv _ _ _ _ _ _ Hi Ep) as [Hi1 Ha1], (IH _ _ Hi1 H) as [Hi2 Ha2]. split; [done|by trans d1].
Qed.

(** ** Transactions *)

Definition same_tables (db db' : gov_db) : Prop :=
  gd_releases db' = gd_releases db ∧ gd_settings db' = gd_settings db ∧ gd_generations db' = gd_generations db ∧
  gd_release_assets db' = gd_release_assets db.

Lemma same_tables_inv db db' : same_tables db db' → gov_inv db → gov_inv db' ∧ advances db db'.
Proof. intros (E1 & E2 & E3 & E4) Hi. split; [by eapply gov_inv_ext|by apply advances_ext]. Qed.

(** Two steps of a transaction in a row. *)
Lemma inv_bind (r : result gov_db) (k : gov_db → result gov_db) db db' :
  (∀ d, r = Ok d → gov_inv d ∧ advances db d) →
  (∀ d, r = Ok d → gov_inv d → advances db d → k d = Ok db' → gov_inv db' ∧ advances d db') →
  result_bind r k = Ok db' → gov_inv db' ∧ advances db db'.
Proof.
  intros H1 H2 (d & Hr & Hk)%result_bind_Ok. destruct (H1 _ Hr) as [Hi Ha], (H2 _ Hr Hi Ha Hk) as [Hi' Ha']. split; [done|by trans d].
Qed.

Lemma append_gov_audit_same db w env db' : append_gov_audit db w env = Ok db' → same_tables db db'.
Proof.
  unfold append_gov_audit. destruct (appendAuditTx _ _ _ _ _ _ _ _ _ _) as [au [u|]]; [|done]. by intros [= <-].
Qed.

Definition write_signed (w : releaseWrite) : Prop := w_feed w = true → w_key w = key ∧ w_signer w = signer.

Lemma release_change_inv db w env db' :
  gov_inv db → rel_ok db (w_rel w) → write_signed w →
  release_change json_artifact json_generation db w env = Ok db' → gov_inv db' ∧ advances db db'.
Proof.
  intros Hi Hrel Hsig. unfold release_change. apply inv_bind.
  { intros d. by apply persistRelease_inv. }
  intros d1 _ Hi1 _. apply inv_bind.
  { intros d. destruct (w_feed w); [intros H; apply publishFeed_same in H; by apply same_tables_inv|by intros [= <-]]. }
  intros d2 _ Hi2 _. apply inv_bind.
  { intros d. case_bool_decide; [by intros [= <-]|by apply supersede_inv]. }
  intros d3 _ Hi3 _. apply inv_bind.
  { intros d. case_bool_decide; [by intros [= <-]|]. intros Ha%append_gov_audit_same. by apply same_tables_inv. }
  intros d4 _ Hi4 _. apply inv_bind.
  { intros d. unfold write_signed in Hsig. destruct (w_feed w); [|by intros [= <-]]. destruct Hsig as [-> ->]; [done|]. by apply publish_assets_inv. }
  intros d5 _ Hi5 _. destruct (tx_complete env); [|done]. destruct (tx_committed env); [|done]. by intros [= <-].
Qed.

(** A handler that ends in a transaction on the current tables. *)
Definition preserves (db db' : gov_db) : Prop := gov_inv db' ∧ advances db db'.

Lemma preserves_refl db : gov_inv db → preserves db db.
Proof. done. Qed.

Lemma in_tx_preserves db r : gov_inv db → (∀ db', r = Ok db' → preserves db db') → preserves db (in_tx db r).1.
Proof. intros Hi H. destruct r as [db'|]; simpl; [by apply H|done]. Qed.

Lemma commit_preserves db w env :
  gov_inv db → rel_ok db (w_rel w) → write_signed w → preserves db (commitReleaseChange json_artifact json_generation db w env).1.
Proof. intros Hi Hrel Hsig. apply in_tx_preserves; [done|]. intros db'. by apply release_change_inv. Qed.

(** ** Proposals *)

Lemma add_release_assets_spec id assets : ∀ db, let db' := add_release_assets db id assets in
  gd_releases db' = gd_releases db ∧ gd_settings db' = gd_settings db ∧ gd_generations db' = gd_generations db ∧
  ∀ x, x.1 ≠ id → (x ∈ gd_release_assets db' ↔ x ∈ gd_release_assets db).
Proof.
  unfold add_release_assets. induction assets as [|a assets IH]; intros db; simpl; [done|].
  destruct (IH (if bool_decide ((id, a) ∈ gd_release_assets db) then db else set_release_assets db (gd_release_assets db ++ [(id, a)])))
    as (-> & -> & -> & Hx).
  case_bool_decide; simpl; split_and!; try done. intros x Hne. rewrite (Hx x Hne). simpl. rewrite elem_of_app, list_elem_of_singleton.
  split; [|tauto]. intros [?| ->]; [done|]. done.
Qed.

(** A new draft row, with assets unless it is a catalog artifact. *)
Lemma new_row_preserves db db' id row :
  gov_inv db → gd_releases db !! id = None → id ≠ "" → ArtKind (rw_Artifact row) ≠ KIND_LISTEN_PLAN → rw_State row = "draft" →
  gd_releases db' = <[id := row]> (gd_releases db) → gd_settings db' = gd_settings db → gd_generations db' = gd_generations db →
  (∀ x, x.1 ≠ id → (x ∈ gd_release_assets db' ↔ x ∈ gd_release_assets db)) →
  (isCatalogKind (ArtKind (rw_Artifact row)) = true → ∀ asset, (id, asset) ∉ gd_release_assets db') → preserves db db'.
Proof.
  intros [H1 HA H2 H3] Hnone Hid Hk Hs E1 E2 E3 Ha Hc. split.
  - split; unfold asset_generations; rewrite ?E1, ?E2, ?E3; [| |done..].
    2: { intros id' asset Hin. rewrite lookup_insert_is_Some. destruct (decide (id = id')) as [|Hne]; [by left|right].
         split; [done|]. apply (HA id' asset), (Ha (id', asset)); [simpl; congruence|done]. }
    intros id' r [[<- <-]|[Hne Hr]]%lookup_insert_Some; [by split|].
    destruct (H1 _ _ Hr) as [? ? ? Hcat]. split; [done..|]. intros Hk' asset Hin. apply (Hcat Hk' asset). by apply (Ha (id', asset)).
  - split; rewrite ?E1, ?E3; [| |done].
    + intros id' r Hr. exists r. rewrite lookup_insert_ne; [done|congruence].
    + intros id' r asset Hr. apply Ha. simpl. congruence.
Qed.

Lemma newID_ne prefix random : newID prefix random ≠ "".
Proof. unfold newID. by destruct prefix. Qed.

Lemma insert_proposal_preserves db id row assets env db' :
  gov_inv db → id ≠ "" → ArtKind (rw_Artifact row) ≠ KIND_LISTEN_PLAN → isCatalogKind (ArtKind (rw_Artifact row)) = false →
  rw_State row = "draft" → insert_proposal json_artifact db id row assets env = Ok db' → preserves db db'.
Proof.
  intros Hi Hid Hk Hc Hs. unfold insert_proposal. destruct (json_artifact _); [|done]. case_bool_decide as Hnone; [|done].
  set (d := add_release_assets _ _ _). pose proof (add_release_assets_spec id assets (set_releases db (<[id := row]> (gd_releases db)))) as (E1 & E2 & E3 & Ha).
  destruct (appendAuditTx _ _ _ _ _ _ _ _ _ _) as [au [u|]]; [|done]. simpl. destruct (tx_complete env); [|done]. destruct (tx_committed env); [|done].
  intros [= <-]. eapply new_row_preserves; try done. rewrite Hc. done.
Qed.

Lemma writePropose_preserves db createdBy msg rules random env :
  gov_inv db → preserves db (writePropose json_artifact db createdBy msg rules random env).1.
Proof.
  intros Hi. unfold writePropose. cbv zeta.
  match goal with |- context [match ?x with Ok _ => _ | Err _ => _ end] => destruct x as [[db' id]|] eqn:E end; [|done]. simpl. revert E.
  case_bool_decide as Hk; [|done]. case_bool_decide; [|done]. destruct rules; [|done]. simpl.
  destruct (match pr_Scope msg with Some s => _ | None => _ end) as [scope|]; [|done]. simpl.
  destruct (negb (_ || _)); [|done].
  destruct (insert_proposal _ _ _ _ _ _) as [d|] eqn:Ei; [|done]. simpl. intros [= <- <-].
  refine (insert_proposal_preserves _ _ _ _ _ _ Hi (newID_ne _ _) _ _ _ Ei); [by simpl; rewrite Hk..|done].
Qed.

Lemma writeTrustedProposal_preserves db createdBy trusted ttl payload random env :
  gov_inv db → preserves db (writeTrustedProposal json_artifact db createdBy trusted ttl payload random env).1.
Proof.
  intros Hi. unfold writeTrustedProposal. destruct payload as [payload|]; [|done].
  destruct (insert_proposal _ _ _ _ _ _) as [d|] eqn:Ei; [|done]. simpl.
  refine (insert_proposal_preserves _ _ _ _ _ _ Hi (newID_ne _ _) _ _ _ Ei); [by simpl; destruct (tp_shape trusted)..|done].
Qed.

(** ** Gate, promotion and retirement

    Each handler reads [old], an earlier state of the tables, and commits on [db]. *)

Lemma gate_with_signed sign d rep now res s :
  gate_with sign d (Some rep) now = (res, Ok tt) → gr_Signed res = Some s →
  Passed rep = true ∧ GatePassed rep = true ∧ signed_ID s = draft_ID d ∧
  sign (Some (with_creation (with_report (draft_Envelope d) rep) (draft_CreatedBy d) now)) = (Some (signed_Envelope s), Ok tt).
Proof.
  unfold gate_with. destruct (Passed rep && GatePassed rep) eqn:Epass; cbn [negb].
  - apply andb_true_iff in Epass as [? ?]. destruct (sign _) as [[e|] [[]|?]]; intros [= <-] Hs; simplify_eq/=; done.
  - destruct (NewDraft _ _ _); intros [= <-] Hs; done.
Qed.

Lemma gate_release_signed old id report now res signed :
  gov_inv old → gate_release old id report key signer now = Ok res → gr_Passed res = true → gr_Signed res = Some signed →
  rel_ok old (RSigned signed).
Proof.
  intros Hi. unfold gate_release, loadDraft. destruct (loadRelease old id) as [rel|] eqn:El; [|done]. cbn [result_bind].
  destruct rel as [d| | | | |]; try done. destruct (loadRelease_spec _ _ _ Hi El) as ([(row & Hr & Hk) _] & _ & _).
  destruct report as [rep|]; [|done]. cbn [result_bind]. intros Hg Hp Hsig.
  assert (Passed rep = true ∧ GatePassed rep = true ∧ signed_ID signed = draft_ID d ∧
    signArtifactEnvelope (with_creation (with_report (draft_Envelope d) rep) (draft_CreatedBy d) now) key signer now = (Some (signed_Envelope signed), Ok tt))
    as (H1 & H2 & Hid & Hs).
  { unfold signArtifactEnvelope. destruct signer as [sg|].
    - destruct (GateWithSigner _ _ _ _) as [r [[]|]] eqn:Eg; [|done]. injection Hg as ->. by apply (gate_with_signed _ _ _ _ _ _ Eg).
    - destruct (Gate _ _ _ _) as [r [[]|]] eqn:Eg; [|done]. injection Hg as ->. by apply (gate_with_signed _ _ _ _ _ _ Eg). }
  destruct (authority_artifact _ _ _ Hs) as (Hv & Hrep & Hkind). split.
  - exists row. simpl in *. rewrite Hid. split; [done|]. by rewrite Hkind.
  - intros _. split; [done|]. right. by exists rep.
Qed.

Context {old db : gov_db} (Hold : gov_inv old) (Hdb : gov_inv db) (Hadv : advances old db).

Lemma writeGate_preserves actorType actorID id report env :
  preserves db (writeGate json_artifact json_generation old db actorType actorID id report key signer env).1.
Proof.
  unfold writeGate. destruct (gate_release _ _ _ _ _ _) as [res|] eqn:Eg; [|done].
  destruct (gr_Passed res) eqn:Ep; simpl; [|done]. destruct (gr_Signed res) as [signed|] eqn:Es; [|done].
  apply commit_preserves; [done| |done]. apply (rel_ok_advances old); [done|]. by eapply gate_release_signed.
Qed.

Lemma loaded_ok id rel rel' :
  loadRelease old id = Ok rel → State rel ≠ RELEASE_STATE_DRAFT → ReleaseID rel' = ReleaseID rel → release_Artifact rel' = release_Artifact rel →
  rel_ok db rel'.
Proof.
  intros Hl Hs Hid Ha. apply (rel_ok_advances old); [done|]. destruct (loadRelease_spec _ _ _ Hold Hl) as [Hr _]. by eapply rel_ok_continue.
Qed.

Lemma writeStartShadow_preserves actorType actorID id env :
  preserves db (writeStartShadow json_artifact json_generation old db actorType actorID id key signer env).1.
Proof.
  unfold writeStartShadow. destruct (loadRelease old id) as [[]|] eqn:El; try done. apply commit_preserves; [done| |done]. by eapply loaded_ok.
Qed.

Lemma promote_canary_loaded s granted user id percent now canary :
  promote_canary_checks s old granted user id percent now = Ok canary →
  ∃ shadow, loadRelease old id = Ok (RShadow shadow) ∧ canary_ID canary = shadow_ID shadow ∧ canary_Envelope canary = shadow_Envelope shadow.
Proof.
  unfold promote_canary_checks. destruct (authorizePromote _ _ _ _ _); [|done]. simpl. destruct (loadRelease old id) as [[]|]; try done. simpl.
  destruct (negb _); [|done]. destruct (_ && _); [|done]. unfold PromoteCanary. destruct (_ || _); [done|]. intros [= <-]. by eexists.
Qed.

Lemma PromoteCanary_preserves s granted user id percent env :
  preserves db (Govern_PromoteCanary json_artifact json_generation s old db granted user id percent key signer env).1.
Proof.
  unfold Govern_PromoteCanary. destruct (promote_canary_checks _ _ _ _ _ _ _) as [canary|] eqn:Ep; [|done].
  apply promote_canary_loaded in Ep as (shadow & El & ? & ?). apply commit_preserves; [done| |done]. by eapply loaded_ok.
Qed.

Lemma PromoteEnforce_preserves s granted user id env :
  preserves db (Govern_PromoteEnforce json_artifact json_generation s old db granted user id key signer env).1.
Proof.
  unfold Govern_PromoteEnforce, promote_enforce_checks. destruct (authorizePromote _ _ _ _ _); [|done]. simpl.
  destruct (loadRelease old id) as [[| |shadow|canary| |]|] eqn:El; try done; simpl.
  - destruct (negb _); [|done]. destruct (replayReportPassed _); [|done]. apply commit_preserves; [done| |done]. by eapply loaded_ok.
  - destruct (_ && _); [|done]. apply commit_preserves; [done| |done]. by eapply loaded_ok.
Qed.

Lemma retired_loaded id rel reason retired :
  loadRelease old id = Ok rel → ReleaseLifecycle.retireRelease rel reason = Ok retired → rel_ok db (RRetired retired).
Proof.
  intros El Hr. unfold ReleaseLifecycle.retireRelease, ActiveOf, RetireActive in Hr.
  eapply loaded_ok; [done|..]; destruct rel; simpl in *; try done; destruct reason; by simplify_eq/=.
Qed.

Lemma retireReleaseAudit_preserves id reason actorType actorID action env :
  preserves db (retireReleaseAudit json_artifact json_generation old db id reason key signer actorType actorID action env).1.
Proof.
  unfold retireReleaseAudit. destruct (loadRelease old id) as [rel|] eqn:El; [|done]. cbn [result_bind].
  destruct (ReleaseLifecycle.retireRelease rel reason) as [retired|] eqn:Er; [|done].
  apply commit_preserves; [done| |done]. by eapply retired_loaded.
Qed.

Lemma DenyFeedback_preserves granted user id event env : preserves db (DenyFeedback db granted user id event env).1.
Proof.
  unfold DenyFeedback. destruct granted; [|done]. apply in_tx_preserves; [done|]. intros db'. unfold deny_feedback.
  destruct (gd_releases db !! id); [|done]. destruct (_ || _); [|done].
  destruct (ensureGuardBaseline_same db id) as (E1 & E2 & E3 & E4). set (d := ensureGuardBaseline db id) in *.
  destruct (appendAuditTx _ _ _ _ _ _ _ _ _ _) as [au [u|]]; [|done]. simpl. destruct (tx_complete env); [|done]. destruct (tx_committed env); [|done].
  intros [= <-]. apply same_tables_inv; [|done]. unfold same_tables. simpl. by case_bool_decide.
Qed.

(** ** Settings *)

Lemma preserves_trans a b c : preserves a b → preserves b c → preserves a c.
Proof. intros [_ H1] [H2 H3]. split; [done|by trans b]. Qed.

Lemma put_setting_preserves d asset kind row :
  gov_inv d → VerifyArtifact (Some (sr_Artifact row)) pub = Ok tt → ArtKind (sr_Artifact row) ≠ KIND_LISTEN_PLAN →
  preserves d (put_setting d asset kind row).
Proof.
  intros [H1 HA H2 H3] Hv Hk. split; [|by apply advances_ext]. split; [intros id r Hr; by destruct (H1 _ _ Hr)|done| |done].
  intros b settings k r. simpl. intros [[<- <-]|[Hne Hs]]%lookup_insert_Some; [|by eapply H2].
  intros [[<- <-]|[Hnk Hr]]%lookup_insert_Some; [done|]. destruct (gd_settings d !! asset) as [m|] eqn:Em; [by eapply H2|].
  simpl in Hr. by rewrite lookup_empty in Hr.
Qed.

Lemma store_settings_preserves asset actor settings now : Forall (λ st, bs_kind st ≠ KIND_LISTEN_PLAN) settings → ∀ d d',
  gov_inv d → store_settings json_artifact d asset actor key signer settings now = Ok d' → preserves d d'.
Proof.
  induction 1 as [|st settings Hk _ IH]; intros d d' Hi; simpl; [by intros [= <-]|].
  destruct (match _ !! bs_key st with Some _ => _ | None => _ end); [by apply IH|].
  destruct (signArtifactEnvelope _ _ _ _) as [[a|] [[]|?]] eqn:Es; try done.
  destruct (authority_artifact _ _ _ Es) as (Hv & _ & Hka). destruct (json_artifact a); [|done]. intros Hrest.
  assert (preserves d (put_setting d asset (bs_key st) (mkSettingRow a ("sha256:" +:+ hex_encode (sha256 (bs_payload st))) actor))) as Hp.
  { apply put_setting_preserves; [done..|]. simpl. by rewrite Hka. }
  eapply preserves_trans; [exact Hp|]. eapply IH; [apply Hp|done].
Qed.

Lemma publish_preserves d asset rollback genID now d' :
  gov_inv d → publishAssetGeneration json_generation d asset key signer rollback genID now = Ok d' → preserves d d'.
Proof. apply publish_inv. Qed.

Lemma publishBaselineGeneration_preserves asset createdBy payload env :
  preserves db (publishBaselineGeneration json_artifact json_generation db asset createdBy key signer (baselineSettings payload) env).1.
Proof using Hdb SA.
  apply in_tx_preserves; [done|]. intros db'. unfold publishBaselineGenerationTx. case_bool_decide; [done|]. cbn [negb].
  destruct (store_settings _ _ _ _ _ _ _ _) as [d1|] eqn:E1; [|done]. cbn [result_bind].
  destruct (publishAssetGeneration _ _ _ _ _ _ _ _) as [d2|] eqn:E2; [|done]. cbn [result_bind].
  destruct (latest_generation d2 asset); [|done]. simpl. destruct (tx_committed env); [|done]. intros [= <-].
  assert (preserves db d1) as Hp. { eapply store_settings_preserves; [|done..]. by repeat constructor. }
  eapply preserves_trans; [exact Hp|]. eapply publish_preserves; [apply Hp|done].
Qed.

Lemma UpdateTrafficReviewPolicy_preserves parse_over marshal_review granted user asset expected target env :
  preserves db (UpdateTrafficReviewPolicy json_artifact json_generation key signer parse_over marshal_review db granted user asset expected target env).1.
Proof using Hdb SA.
  apply in_tx_preserves; [done|]. intros db'. do 3 (destruct (_ : bool); [|done]).
  intros (d & Hu & Hc)%result_bind_Ok. destruct (tx_complete env); [|done]. destruct (tx_committed env); [|done]. injection Hc as <-.
  revert Hu. unfold update_traffic_review. destruct (loadTrafficReviewPolicyStatus _ db _) as [[cur gen]|]; [|done]. cbn [result_bind].
  do 2 (destruct (_ : bool); [|done]). destruct (_ =? _); [by intros [= <-]|].
  destruct (ValidateTrafficReviewPolicy _); [|done]. cbn [result_bind]. destruct (marshal_review _); [|done].
  destruct (signArtifactEnvelope _ _ _ _) as [[art|] [[]|?]] eqn:Es; try done. destruct (authority_artifact _ _ _ Es) as (Hv & _ & Hka).
  destruct (json_artifact art); [|done]. destruct (publishAssetGeneration _ _ _ _ _ _ _ _) as [d2|] eqn:E2; [|done]. cbn [result_bind].
  destruct (appendAuditTx _ _ _ _ _ _ _ _ _ _) as [au [u|]]; [|done]. cbn [result_bind].
  destruct (loadTrafficReviewPolicyStatus _ _ _); [|done]. intros [= <-].
  match type of E2 with publishAssetGeneration _ ?d _ _ _ _ _ _ = _ => assert (preserves db d) as Hput end.
  { apply put_setting_preserves; [done|exact Hv|by simpl; rewrite Hka]. }
  pose proof (publish_preserves _ _ _ _ _ _ (proj1 Hput) E2) as Hpub.
  eapply preserves_trans; [exact Hput|]. eapply preserves_trans; [exact Hpub|]. by apply same_tables_inv; [|apply Hpub].
Qed.

(** ** Catalog artifacts *)

Lemma normalize_kind readers keyID k schema payload out : normalizeCatalogPayload readers keyID k schema payload = Ok out → isCatalogKind k = true.
Proof. unfold normalizeCatalogPayload, isCatalogKind. repeat case_bool_decide; simplify_eq/=; done. Qed.

Lemma catalog_not_listen k : isCatalogKind k = true → k ≠ KIND_LISTEN_PLAN.
Proof. by destruct k. Qed.

Lemma ProposeCatalog_preserves readers granted user k schema payload ttl random env :
  preserves db (ProposeCatalogArtifact json_artifact readers key signer db granted user k schema payload ttl random env).1.
Proof using Hdb.
  unfold ProposeCatalogArtifact. cbv zeta.
  match goal with |- context [match ?x with Ok _ => _ | Err _ => _ end] => destruct x as [[db' id]|] eqn:E end; [|done]. simpl. revert E.
  destruct granted; [|done]. destruct (normalizeCatalogPayload _ _ _ _ _) as [out|] eqn:En; [|done]. cbn [result_bind].
  destruct (negb (_ || _)); [|done]. destruct (NewDraft _ _ _); [|done]. cbn [result_bind]. destruct (json_artifact _); [|done].
  case_bool_decide as Hnone; [|done]. destruct (appendAuditTx _ _ _ _ _ _ _ _ _ _) as [au [u|]]; [|done]. simpl.
  destruct (tx_complete env); [|done]. destruct (tx_committed env); [|done]. intros [= <- <-]. apply normalize_kind in En.
  eapply (new_row_preserves _ _ _ _ Hdb Hnone (newID_ne _ _)); [| |reflexivity|done..|]; [by apply catalog_not_listen|done|].
  intros _ asset Hin%(inv_assets _ Hdb). rewrite Hnone in Hin. by destruct Hin.
Qed.

Lemma sign_catalog_ok readers id now signed : sign_catalog readers key signer old id now = Ok signed → rel_ok db (RSigned signed).
Proof using Hold Hadv SA.
  unfold sign_catalog, loadDraft. destruct (loadRelease old id) as [rel|] eqn:El; [|done]. cbn [result_bind].
  destruct rel as [d| | | | |]; try done. cbn [result_bind]. destruct (loadRelease_spec _ _ _ Hold El) as ([(row & Hr & Hk) _] & _ & _).
  destruct (normalizeCatalogPayload _ _ _ _ _) as [out|] eqn:En; [|done]. cbn [result_bind]. apply normalize_kind in En.
  destruct (signArtifactEnvelope _ _ _ _) as [[e|] [[]|?]] eqn:Es; try done. destruct (authority_artifact _ _ _ Es) as (Hv & _ & Hke).
  intros (u & _ & [= <-])%result_bind_Ok. apply (rel_ok_advances old); [done|]. split.
  - exists row. split; [done|]. simpl. by rewrite Hke.
  - intros _. split; [done|]. left. simpl. by rewrite Hke.
Qed.

Lemma SignCatalog_preserves readers granted user id env :
  preserves db (SignCatalogArtifact json_artifact json_generation readers key signer old db granted user id env).1.
Proof.
  unfold SignCatalogArtifact. destruct granted; [|done]. cbn [negb]. destruct (sign_catalog _ _ _ _ _ _) as [signed|] eqn:Es; [|done].
  apply commit_preserves; [done| |done]. by eapply sign_catalog_ok.
Qed.

Lemma ActivateCatalog_preserves granted user id env :
  preserves db (ActivateCatalogArtifact json_artifact json_generation key signer old db granted user id env).1.
Proof.
  unfold ActivateCatalogArtifact. destruct granted; [|done]. cbn [negb]. destruct (loadRelease old id) as [[]|] eqn:El; try done.
  destruct (negb _); [done|]. destruct (VerifyArtifact _ _); [|done]. apply commit_preserves; [done| |done]. by eapply loaded_ok.
Qed.

Lemma RevokeCatalog_preserves granted user id env :
  preserves db (RevokeCatalogArtifact json_artifact json_generation old db granted user id env).1.
Proof.
  unfold RevokeCatalogArtifact. destruct granted; [|done]. cbn [negb]. destruct (loadRelease old id) as [rel|] eqn:El; [|done].
  destruct (negb _); [done|]. destruct (ActiveOf rel) as [active|] eqn:Ea; [|done]. destruct (RetireActive active _) as [retired|] eqn:Er; [|done].
  apply commit_preserves; [done| |done]. eapply (retired_loaded id rel RETIRE_REASON_MANUAL); [done|].
  unfold ReleaseLifecycle.retireRelease. by rewrite Ea.
Qed.
End promises.

(** ** The scheduler and the counters *)

Section scheduler_promises.
Context {C : Crypto} {A : AuditWire} {G : GovernDetails A} (json_artifact : Artifact → bool) (json_generation : AssetGeneration → bool).
Context (cfg : SchedulerConfig) (pub : string) {SA : SigningAuthority (cfg_SigningKey cfg) (cfg_ArtifactSigner cfg) pub}.
Context (db : gov_db) (Hdb : gov_inv pub db).

Lemma scheduler_write_preserves id rel rel' env :
  loadRelease db id = Ok rel → State rel ≠ RELEASE_STATE_DRAFT → ReleaseID rel' = ReleaseID rel → release_Artifact rel' = release_Artifact rel →
  preserves pub db (commitReleaseChange json_artifact json_generation db (scheduler_write cfg rel') env).1.
Proof.
  intros El Hs Hid Ha. apply (commit_preserves json_artifact json_generation (cfg_SigningKey cfg) (cfg_ArtifactSigner cfg) pub); [done| |done].
  by eapply (loaded_ok pub Hdb).
Qed.

Lemma auto_canary_preserves known id env : preserves pub db (auto_canary json_artifact json_generation cfg known db id env).
Proof.
  unfold auto_canary. destruct (gd_releases db !! id); [|done]. repeat (destruct (_ : bool); [done|]).
  destruct (loadRelease db id) as [[| |shadow| | |]|] eqn:El; try done. destruct (PromoteCanary _ _) as [canary|] eqn:Ep; [|done].
  unfold PromoteCanary in Ep. destruct (_ || _); [done|]. injection Ep as <-. by eapply scheduler_write_preserves.
Qed.

Lemma auto_enforce_preserves known id env : preserves pub db (auto_enforce json_artifact json_generation cfg known db id env).
Proof.
  unfold auto_enforce. destruct (gd_releases db !! id); [|done]. repeat (destruct (_ : bool); [done|]).
  destruct (loadRelease db id) as [[| | |canary| |]|] eqn:El; try done. by eapply scheduler_write_preserves.
Qed.

Lemma guard_release_preserves id state stored env : preserves pub db (guard_release json_artifact json_generation cfg db id state stored env).
Proof.
  unfold guard_release. destruct (guard_window _ _ _ _ _) as [[bad g]|]; [|done].
  set (d := if stored then _ else _). assert (preserves pub db d) as Hd by (by unfold d; destruct stored; [apply same_tables_inv|]).
  destruct (_ <=? _); [|done]. eapply preserves_trans; [exact Hd|]. destruct Hd as [Hi Ha].
  by apply (retireReleaseAudit_preserves json_artifact json_generation (cfg_SigningKey cfg) (cfg_ArtifactSigner cfg) pub Hi Hi).
Qed.
End scheduler_promises.

Lemma report_counters_same unitID generation counters : ∀ db, same_tables db (foldl (report_counter unitID generation) db counters).
Proof.
  unfold same_tables. induction counters as [|c counters IH]; intros db; simpl; [done|]. destruct (IH (report_counter unitID generation db c)) as (-> & -> & -> & ->). done.
Qed.

Lemma heartbeat_same db unitID prevGen generation counters : same_tables db (heartbeat_counters db unitID prevGen generation counters).
Proof.
  unfold same_tables, heartbeat_counters. set (d := if prevGen <? generation then _ else _). destruct (report_counters_same unitID generation counters d) as (-> & -> & -> & ->).
  by unfold d; destruct (_ <? _).
Qed.
