(* ===== verification/GovernHistory.v ===== *)
(** * Histories of the control plane

    Every transaction of [Govern], [Catalog] and [Scheduler], in any order.  A handler reads the
    tables at one moment and commits at a later one; between the two, other handlers commit.
    [history past db] says that the tables were in the states [past] (latest first) and are now
    [db]; each step reads any state of [db :: past] and changes [db]. *)

From stdpp Require Import sorting.
From S2P Require Import Prelude GoStrings Contracts Signing SignerService AuditChain GenerationStore ReleaseLifecycle ReleaseSet Govern Catalog Scheduler GovernProofs.

(** Before the first proposal there is no release, no setting and no generation. *)
Record fresh_db (db : gov_db) : Prop := {
  fresh_releases : gd_releases db = ∅;
  fresh_assets : gd_release_assets db = [];
  fresh_settings : gd_settings db = ∅;
  fresh_generations : gd_generations db = [];
}.

(** Onboarding and enrolment change which units serve which assets. *)
Definition set_inventory (db : gov_db) (ua : list (string * string)) (e : gmap string (string * (string * Z))) : gov_db :=
  mkGovDb (gd_releases db) (gd_release_assets db) ua (gd_feed db) (gd_timeline db) (gd_settings db) (gd_generations db) e
    (gd_guards db) (gd_counters db) (gd_denies db) (gd_audit db).

Section histories.
Context {C : Crypto} {A : AuditWire} {G : GovernDetails A} (json_artifact : Artifact → bool) (json_generation : AssetGeneration → bool).
Context (readers : catalog_readers) (parse_over : TrafficReviewPolicy → string → option TrafficReviewPolicy)
  (marshal_review : TrafficReviewPolicy → option string) (known : (string → bool) * (string → bool)).
Context (server : GovernServer) (cfg : SchedulerConfig).
Let key : string := cfg_SigningKey cfg.
Let signer : option Signer := cfg_ArtifactSigner cfg.

(** One step; the scheduler and the handlers sign with the same key. *)
Inductive gov_step (old db : gov_db) : gov_db → Prop :=
  | gs_propose createdBy msg rules random env : gov_step old db (writePropose json_artifact db createdBy msg rules random env).1
  | gs_trusted createdBy trusted ttl payload random env :
      gov_step old db (writeTrustedProposal json_artifact db createdBy trusted ttl payload random env).1
  | gs_gate actorType actorID id report env :
      gov_step old db (writeGate json_artifact json_generation old db actorType actorID id report key signer env).1
  | gs_shadow actorType actorID id env :
      gov_step old db (writeStartShadow json_artifact json_generation old db actorType actorID id key signer env).1
  | gs_canary granted user id percent env :
      gov_step old db (Govern_PromoteCanary json_artifact json_generation server old db granted user id percent key signer env).1
  | gs_enforce granted user id env :
      gov_step old db (Govern_PromoteEnforce json_artifact json_generation server old db granted user id key signer env).1
  | gs_rollback granted user id env :
      gov_step old db (RollbackRelease json_artifact json_generation old db granted user id key signer env).1
  | gs_retire granted user id env :
      gov_step old db (RetireRelease json_artifact json_generation old db granted user id key signer env).1
  | gs_expire id env : gov_step old db (scheduler_retire json_artifact json_generation cfg db id RETIRE_REASON_TTL env).1
  | gs_deny granted user id event env : gov_step old db (DenyFeedback db granted user id event env).1
  | gs_baseline asset createdBy payload env :
      gov_step old db (publishBaselineGeneration json_artifact json_generation db asset createdBy key signer (baselineSettings payload) env).1
  | gs_review granted user asset expected target env :
      gov_step old db
        (UpdateTrafficReviewPolicy json_artifact json_generation key signer parse_over marshal_review db granted user asset expected target env).1
  | gs_catalog_propose granted user k schema payload ttl random env :
      gov_step old db (ProposeCatalogArtifact json_artifact readers key signer db granted user k schema payload ttl random env).1
  | gs_catalog_sign granted user id env :
      gov_step old db (SignCatalogArtifact json_artifact json_generation readers key signer old db granted user id env).1
  | gs_catalog_activate granted user id env :
      gov_step old db (ActivateCatalogArtifact json_artifact json_generation key signer old db granted user id env).1
  | gs_catalog_revoke granted user id env :
      gov_step old db (RevokeCatalogArtifact json_artifact json_generation old db granted user id env).1
  | gs_auto_canary id env : gov_step old db (auto_canary json_artifact json_generation cfg known db id env)
  | gs_auto_enforce id env : gov_step old db (auto_enforce json_artifact json_generation cfg known db id env)
  | gs_guard id state stored env : gov_step old db (guard_release json_artifact json_generation cfg db id state stored env)
  | gs_heartbeat unitID prevGen generation counters : gov_step old db (heartbeat_counters db unitID prevGen generation counters)
  | gs_inventory ua e : gov_step old db (set_inventory db ua e).

Inductive history : list gov_db → gov_db → Prop :=
  | history_start db : fresh_db db → history [] db
  | history_step past db old db' : history past db → old ∈ db :: past → gov_step old db db' → history (db :: past) db'.

Context (pub : string) {SA : SigningAuthority key signer pub}.

Lemma gov_step_preserves old db db' : gov_inv pub old → gov_inv pub db → advances old db → gov_step old db db' → preserves pub db db'.
Proof using SA.
  intros Ho Hi Ha Hstep. destruct Hstep.
  - by apply writePropose_preserves.
  - by apply writeTrustedProposal_preserves.
  - by apply (writeGate_preserves _ _ _ _ pub Ho).
  - by apply (writeStartShadow_preserves _ _ _ _ pub Ho).
  - by apply (PromoteCanary_preserves _ _ _ _ pub Ho).
  - by apply (PromoteEnforce_preserves _ _ _ _ pub Ho).
  - unfold RollbackRelease. destruct granted; [|done]. by apply (retireReleaseAudit_preserves _ _ _ _ pub Ho).
  - unfold RetireRelease. destruct granted; [|done]. by apply (retireReleaseAudit_preserves _ _ _ _ pub Ho).
  - by apply (retireReleaseAudit_preserves _ _ _ _ pub Hi Hi).
  - by apply DenyFeedback_preserves.
  - by apply publishBaselineGeneration_preserves.
  - by apply UpdateTrafficReviewPolicy_preserves.
  - by apply ProposeCatalog_preserves.
  - by apply (SignCatalog_preserves _ _ _ _ pub Ho).
  - by apply (ActivateCatalog_preserves _ _ _ _ pub Ho).
  - by apply (RevokeCatalog_preserves _ _ key signer pub Ho).
  - by apply auto_canary_preserves.
  - by apply auto_enforce_preserves.
  - by apply guard_release_preserves.
  - by apply same_tables_inv, Hi; apply heartbeat_same.
  - by apply same_tables_inv.
Qed.

Lemma fresh_inv db : fresh_db db → gov_inv pub db.
Proof.
  intros [E1 E2 E3 E4]. split; unfold asset_generations; rewrite ?E1, ?E2, ?E3, ?E4; try done.
  - intros id asset Hin. set_solver.
Qed.

Lemma history_inv past db : history past db → gov_inv pub db ∧ Forall (λ old, gov_inv pub old ∧ advances old db) (db :: past).
Proof using SA.
  induction 1 as [db Hf|past db old db' _ [Hi Hall] Hin Hstep].
  - pose proof (fresh_inv db Hf). split; [done|]. constructor; [done|apply Forall_nil_2].
  - rewrite Forall_forall in Hall. destruct (Hall _ Hin) as [Ho Ha].
    destruct (gov_step_preserves old db db' Ho Hi Ha Hstep) as [Hi' Ha']. split; [done|].
    constructor; [done|]. apply Forall_forall. intros x Hx. destruct (Hall _ Hx) as [Hix Hax]. split; [done|by trans db].
Qed.
End histories.

(** ** What the edges see *)

Lemma generations_chain_at {C : Crypto} pub asset parent n l k g :
  generations_chain pub asset parent n l → l !! k = Some g →
  generation_ok pub asset match k with O => parent | S j => default "" (GenerationId <$> l !! j) end (n + Z.of_nat k) g.
Proof.
  revert parent n k. induction l as [|x l IH]; intros parent n [|k] Hc Hl; simplify_eq/=.
  - rewrite Z.add_0_r. apply Hc.
  - destruct Hc as [_ Hc]. specialize (IH _ _ _ Hc Hl). replace (n + Z.of_nat (S k)) with (n + 1 + Z.of_nat k) by lia.
    by destruct k.
Qed.

Lemma member_ok_checks {C : Crypto} pub ms : Forall (member_ok pub) ms → check_members ms pub = Ok tt.
Proof.
  induction 1 as [|m ms (it & a & -> & Ha & Hid & Hk & Hv & _) _ IH]; [done|].
  cbn -[VerifyArtifact]. rewrite Ha, !bool_decide_eq_false_2, Hv by done. exact IH.
Qed.

Lemma Load_published {C : Crypto} pub s asset parent n g now :
  generation_ok pub asset parent n g → asset ≠ "" → 0 ≤ n → (∀ nb, NotBefore g = Some nb → nb - now ≤ ClockSkew) → diskFull s = false →
  check_link (gs_current s) g = Ok true →
  Load s (Some g) pub now = (mkGenerationStore (Some g) match gs_current s with Some c => Some c | None => gs_prev s end (LoadErrors s) (diskFull s) (degraded s), Ok tt).
Proof.
  intros [Ha Hs Hp Hv Hm Hr] Hne Hn Hnb Hd Hl. unfold Load.
  rewrite bool_decide_eq_false_2 by congruence. assert ((GenerationSeq g <=? 0) = false) as -> by lia. cbn [orb].
  rewrite member_ok_checks, Hv, Hd, Hl by done. destruct (NotBefore g) as [nb|]; [|done]. specialize (Hnb nb eq_refl).
  assert ((ClockSkew <? time_sub nb now) = false) as ->; [|done]. apply Z.ltb_ge. unfold time_sub, max_duration, min_duration, ClockSkew, Second in *. lia.
Qed.

Lemma successor_links {C : Crypto} pub asset parent n g h :
  generation_ok pub asset parent n g → generation_ok pub asset (GenerationId g) (n + 1) h → 0 ≤ n → n + 2 < 2 ^ 63 →
  check_link (Some g) h = Ok true.
Proof.
  intros [Ga Gs Gp _ _ _] [Ha Hs Hp _ _ Hr] Hn Hb. unfold check_link.
  rewrite bool_decide_eq_true_2 by congruence. rewrite Gs, Hs, Hp, (bool_decide_eq_true_2 (GenerationId g = GenerationId g)) by done. cbn [negb].
  rewrite wrap_s_id by (unfold in_s; change (64 - 1) with 63; lia).
  rewrite (proj2 (Z.eqb_neq (n + 1 + 1) (n + 1))), (proj2 (Z.ltb_ge (n + 1 + 1) (n + 1))), (proj2 (Z.ltb_ge _ _)), Z.eqb_refl by lia.
  cbn [negb andb]. destruct Hr as [-> | ->]; [done|]. rewrite Z.eqb_refl. by rewrite andb_false_r.
Qed.

Section theorems.
Context {C : Crypto} {A : AuditWire} {G : GovernDetails A} (json_artifact : Artifact → bool) (json_generation : AssetGeneration → bool).
Context (readers : catalog_readers) (parse_over : TrafficReviewPolicy → string → option TrafficReviewPolicy)
  (marshal_review : TrafficReviewPolicy → option string) (known : (string → bool) * (string → bool)).
Context (server : GovernServer) (cfg : SchedulerConfig) (pub : string).
Context {SA : SigningAuthority (cfg_SigningKey cfg) (cfg_ArtifactSigner cfg) pub}.

Notation history := (history json_artifact json_generation readers parse_over marshal_review known server cfg).

Lemma history_chain past db asset :
  history past db → Z.of_nat (length (gd_generations db)) < 2 ^ 63 → generations_chain pub asset "" 0 (asset_generations db asset).
Proof using SA. intros [Hi _]%(history_inv _ _ _ _ _ _ _ _ pub) Hlen. by apply (inv_generations pub db Hi). Qed.

(** C3: whatever is proposed, gated, promoted, retired, catalogued or configured, in
    any interleaving, the generations published for an asset verify under the public key, are
    numbered 1, 2, 3, ... and name their predecessor as parent, and every member is signed and is
    either a setting of the asset or a release whose replay blocked every malicious sample and no
    benign or management sample. *)
Theorem published_generations past db asset k g :
  history past db → Z.of_nat (length (gd_generations db)) < 2 ^ 63 → asset_generations db asset !! k = Some g →
  VerifyGeneration (Some g) pub = Ok tt ∧ GenerationSeq g = Z.of_nat k + 1 ∧
  ParentGenerationId g = match k with O => "" | S j => default "" (GenerationId <$> asset_generations db asset !! j) end ∧
  ∀ m, m ∈ Members g → ∃ it a, m = Some it ∧ ri_Artifact it = Some a ∧ VerifyArtifact (Some a) pub = Ok tt ∧
    (has_prefix (ri_ReleaseId it) "setting:" = true ∨
     ∃ rep, art_ReplayReport a = Some rep ∧ 0 < MaliciousTotal rep ∧ MaliciousBlocked rep = MaliciousTotal rep ∧
       BenignBlocked rep = 0 ∧ ManagementBlocked rep = 0).
Proof using SA.
  intros Hh Hlen Hk. destruct (generations_chain_at pub asset "" 0 _ k g (history_chain past db asset Hh Hlen) Hk) as [_ Hs Hp Hv Hm _].
  split_and!; [done|lia|done|]. intros m Hin. rewrite Forall_forall in Hm.
  destruct (Hm _ Hin) as (it & a & -> & Ha & _ & _ & Hva & Hcase). exists it, a. split_and!; [done..|].
  destruct Hcase as [?|(rep & Hrep & _ & Hg)]; [by left|right]. exists rep. unfold GatePassed in Hg. breflect. naive_solver.
Qed.

(** C4: an edge that holds one published generation of an asset accepts the
    next one: the control plane never publishes a generation that [GenerationStore.Load] refuses,
    as long as the edge's clock is not more than a minute behind and its disk is not full. *)
Theorem edge_follows_published past db asset k g h s now :
  history past db → Z.of_nat (length (gd_generations db)) < 2 ^ 63 → asset ≠ "" →
  asset_generations db asset !! k = Some g → asset_generations db asset !! S k = Some h →
  (∀ nb, NotBefore h = Some nb → nb - now ≤ ClockSkew) → gs_current s = Some g → diskFull s = false →
  Load s (Some h) pub now = (mkGenerationStore (Some h) (Some g) (LoadErrors s) (diskFull s) (degraded s), Ok tt).
Proof using SA.
  intros Hh Hlen Hne Hk Hk' Hnb Hcur Hd. pose proof (history_chain past db asset Hh Hlen) as Hc.
  pose proof (generations_chain_at _ _ _ _ _ _ _ Hc Hk) as Hg. pose proof (generations_chain_at _ _ _ _ _ _ _ Hc Hk') as Hg'.
  simpl in Hg'. rewrite Hk in Hg'. simpl in Hg'. apply lookup_lt_Some in Hk'. pose proof (asset_generations_length db asset).
  rewrite Nat2Z.inj_succ in Hg'. erewrite (Load_published pub s asset _ _ h now); [by rewrite Hcur|exact Hg'|done|lia|done|done|].
  rewrite Hcur. eapply successor_links; [exact Hg| |lia..]. by replace (Z.of_nat k + 1) with (Z.succ (Z.of_nat k)) by lia.
Qed.

(** C12: a release seen in any earlier state of the tables is still there, has
    not gone back to an earlier state, keeps its kind, stays retired once retired, and is signed
    unless it is a draft; concurrent handlers that act on outdated readings do not break this. *)
Theorem releases_only_advance past db old id row :
  history past db → old ∈ past → gd_releases old !! id = Some row →
  ∃ row', gd_releases db !! id = Some row' ∧ state_rank (rw_State row) ≤ state_rank (rw_State row') ∧
    (rw_State row = "retired" → rw_State row' = "retired") ∧ ArtKind (rw_Artifact row') = ArtKind (rw_Artifact row) ∧
    (rw_State row' ≠ "draft" → VerifyArtifact (Some (rw_Artifact row')) pub = Ok tt).
Proof using SA.
  intros [Hi Hall]%(history_inv _ _ _ _ _ _ _ _ pub) Hin Hr. rewrite Forall_forall in Hall.
  destruct (Hall old ltac:(set_solver)) as [_ Ha]. destruct (adv_rows _ _ Ha _ _ Hr) as (row' & Hr' & Hrank & Hk).
  exists row'. split_and!; try done.
  - intros E. rewrite E in Hrank. revert Hrank. unfold state_rank. repeat (case_bool_decide; simplify_eq/=; try done; try lia).
  - intros Hd. by apply (ro_gated _ _ _ _ (inv_rows _ _ Hi _ _ Hr')).
Qed.

(** ** Retirement takes effect at the edges *)

Lemma publish_last d asset rollback genID now d' :
  publishAssetGeneration json_generation d asset (cfg_SigningKey cfg) (cfg_ArtifactSigner cfg) rollback genID now = Ok d' →
  asset ≠ "" → signs (cfg_SigningKey cfg) (cfg_ArtifactSigner cfg) = true →
  ∃ sig, last (asset_generations d' asset) = Some (with_envelope_signature (next_generation d asset genID rollback now) sig) ∧
    (length (gd_generations d) < length (gd_generations d'))%nat.
Proof using SA.
  intros [[_ [->|Hs]]|(Hne & g & sig & e & Hg & Hv & -> & _)]%(publish_spec json_generation _ _ pub) Ha Hsig; [done|congruence|].
  exists sig. simpl. rewrite asset_generations_snoc, length_app. subst g. simpl. rewrite bool_decide_eq_true_2 by done.
  rewrite last_snoc. split; [done|lia].
Qed.

Lemma publish_other d asset rollback genID now d' other :
  publishAssetGeneration json_generation d asset (cfg_SigningKey cfg) (cfg_ArtifactSigner cfg) rollback genID now = Ok d' →
  other ≠ asset → asset_generations d' other = asset_generations d other.
Proof using SA.
  intros [[-> _]|(_ & g & sig & e & Hg & _ & -> & _)]%(publish_spec json_generation _ _ pub) Hne; [done|].
  rewrite asset_generations_snoc. subst g. simpl. rewrite bool_decide_eq_false_2 by done. by rewrite app_nil_r.
Qed.

(** The tables a generation is built from. *)
Definition same_sources (d d' : gov_db) : Prop :=
  gd_releases d' = gd_releases d ∧ gd_release_assets d' = gd_release_assets d ∧ gd_settings d' = gd_settings d.

Lemma publish_assets_other ids rollback env other : other ∉ ids → ∀ d d',
  publish_assets json_generation d ids (cfg_SigningKey cfg) (cfg_ArtifactSigner cfg) rollback env = Ok d' →
  asset_generations d' other = asset_generations d other.
Proof using SA.
  intros Hn. induction ids as [|i ids IH]; intros d d'; simpl; [by intros [= <-]|].
  destruct (publishAssetGeneration _ _ _ _ _ _ _ _) as [d1|] eqn:Ep; [|done]. simpl. intros H.
  rewrite (IH ltac:(set_solver) _ _ H). eapply publish_other; [done|set_solver].
Qed.

Lemma publish_assets_last ids rollback env asset : asset ≠ "" → signs (cfg_SigningKey cfg) (cfg_ArtifactSigner cfg) = true → ∀ d d',
  gov_inv pub d → publish_assets json_generation d ids (cfg_SigningKey cfg) (cfg_ArtifactSigner cfg) rollback env = Ok d' →
  same_sources d d' ∧
  (asset ∈ ids → ∃ dm sig, gov_inv pub dm ∧ same_sources d dm ∧ (length (gd_generations dm) < length (gd_generations d'))%nat ∧
     last (asset_generations d' asset) = Some (with_envelope_signature (next_generation dm asset (tx_genID env asset) rollback (tx_now env)) sig)).
Proof using SA.
  intros Hne Hs. induction ids as [|i ids IH]; intros d d' Hi; simpl; [intros [= <-]; split; [done|set_solver]|].
  destruct (publishAssetGeneration _ _ _ _ _ _ _ _) as [d1|] eqn:Ep; [|done]. simpl. intros H.
  destruct (publish_inv json_generation _ _ pub _ _ _ _ _ _ Hi Ep) as [Hi1 Ha1]. destruct (publish_same json_generation _ _ pub _ _ _ _ _ _ Ep) as (E1 & E2 & E3).
  destruct (IH _ _ Hi1 H) as [(F1 & F2 & F3) Hin]. split; [by repeat split; congruence|]. intros Hmem.
  destruct (decide (asset ∈ ids)) as [Hr|Hr].
  - destruct (Hin Hr) as (dm & sig & ? & (? & ? & ?) & ? & ?). exists dm, sig.
    split; [done|]. split; [by repeat split; congruence|done].
  - apply elem_of_cons in Hmem as [->|]; [|done]. destruct (publish_last _ _ _ _ _ _ Ep Hne Hs) as (sig & Hl & Hlt). exists d, sig.
    split_and!; [done|done| |by rewrite (publish_assets_other _ _ _ _ Hr _ _ H)].
    destruct (publish_assets_inv json_generation _ _ pub _ _ _ _ _ Hi1 H) as [_ Ha].
    pose proof (prefix_length _ _ (adv_generations _ _ Ha)). lia.
Qed.

Lemma release_members_ids d asset it : Some it ∈ release_members d asset →
  ∃ row, gd_releases d !! ri_ReleaseId it = Some row ∧ active_on d asset (ri_ReleaseId it) row = true.
Proof. intros (id & row & Hr & Ha & [= ->])%release_members_spec. simpl. by exists row. Qed.

Lemma setting_members_ids d asset it : Some it ∈ setting_members d asset → has_prefix (ri_ReleaseId it) "setting:" = true.
Proof.
  unfold setting_members. intros (kind & _ & Hm)%list_elem_of_omap. destruct (_ !! kind); simplify_eq/=. apply (has_prefix_app "setting:" kind).
Qed.

(** What a committed retirement leaves in the tables. *)
Lemma retire_tables db rel reason retired at_ aid act env db' :
  ReleaseLifecycle.retireRelease rel reason = Ok retired → gov_inv pub db → rel_ok pub db (RRetired retired) →
  release_change json_artifact json_generation db
    (mkReleaseWrite (RRetired retired) true true reason "" at_ aid act (det_reason reason) (cfg_SigningKey cfg) (cfg_ArtifactSigner cfg)) env = Ok db' →
  ∃ d row, gov_inv pub d ∧ gd_releases d !! ReleaseID rel = Some row ∧ rw_State row = "retired" ∧
    gd_release_assets d = gd_release_assets db ∧
    publish_assets json_generation d (releaseAssetIDsTx d (ReleaseID rel)) (cfg_SigningKey cfg) (cfg_ArtifactSigner cfg)
      (bool_decide (reason = RETIRE_REASON_ROLLBACK)) env = Ok db'.
Proof using SA.
  intros Hret Hi Hrel. assert (retired_ID retired = ReleaseID rel) as Hid.
  { unfold ReleaseLifecycle.retireRelease, ActiveOf, RetireActive in Hret. destruct rel; try done; destruct reason; by simplify_eq/=. }
  unfold release_change. intros (d1 & E1 & H)%result_bind_Ok. apply result_bind_Ok in H as (d2 & E2 & H). apply result_bind_Ok in H as (d3 & E3 & H).
  apply result_bind_Ok in H as (d4 & E4 & H). apply result_bind_Ok in H as (d5 & E5 & H). simpl in *.
  destruct (tx_complete env), (tx_committed env); try done. injection H as <-.
  pose proof (persistRelease_inv json_artifact pub _ _ _ _ Hi Hrel E1) as [Hi1 _].
  apply persistRelease_tables in E1 as (r0 & row & _ & _ & Eu & F1 & _ & _ & F4). apply updated_row_state in Eu as [Es _].
  apply publishFeed_same in E2. injection E3 as <-.
  assert (same_tables d1 d4) as Hsame.
  { destruct (bool_decide (act = "")); [injection E4 as <-; exact E2|]. apply append_gov_audit_same in E4 as (? & ? & ? & ?). destruct E2 as (? & ? & ? & ?).
    repeat split; congruence. }
  exists d4, row. split_and!; [by eapply same_tables_inv| |done| |].
  - destruct Hsame as (-> & _). rewrite F1. simpl. rewrite Hid. apply lookup_insert_eq.
  - destruct Hsame as (_ & _ & _ & ->). done.
  - by rewrite Hid in E5.
Qed.

(** C13: when a retirement commits, the latest generation of every asset of the
    release verifies, no longer lists the release, still lists every release active there, and
    is marked as a rollback of its predecessor exactly when the reason is a rollback. *)
Theorem retirement_reaches_edges past db old id reason at_ aid act env db' asset :
  history past db → old ∈ db :: past → signs (cfg_SigningKey cfg) (cfg_ArtifactSigner cfg) = true →
  retireReleaseAudit json_artifact json_generation old db id reason (cfg_SigningKey cfg) (cfg_ArtifactSigner cfg) at_ aid act env = (db', Ok tt) →
  Z.of_nat (length (gd_generations db')) < 2 ^ 63 → has_prefix id "setting:" = false → (id, asset) ∈ gd_release_assets db → asset ≠ "" →
  ∃ g, last (asset_generations db' asset) = Some g ∧ VerifyGeneration (Some g) pub = Ok tt ∧
    (∀ it, Some it ∈ Members g → ri_ReleaseId it ≠ id) ∧
    (∀ id' row, gd_releases db' !! id' = Some row → active_on db' asset id' row = true → release_member asset id' row ∈ Members g) ∧
    RollbackOf g = (if bool_decide (reason = RETIRE_REASON_ROLLBACK) then GenerationSeq g - 1 else 0).
Proof using SA.
  intros [Hi Hall]%(history_inv _ _ _ _ _ _ _ _ pub) Hin Hs Hret Hlen Hpre Hmem Hne.
  rewrite Forall_forall in Hall. destruct (Hall _ Hin) as [Ho Ha].
  unfold retireReleaseAudit in Hret. destruct (loadRelease old id) as [rel|] eqn:El; [|done]. cbn [result_bind] in Hret.
  destruct (ReleaseLifecycle.retireRelease rel reason) as [retired|] eqn:Er; [|done].
  assert (rel_ok pub db (RRetired retired)) as Hrel by (by eapply (retired_loaded pub Ho Ha)).
  destruct (loadRelease_spec pub old id rel Ho El) as (_ & Hid & _).
  unfold commitReleaseChange, in_tx in Hret. destruct (release_change _ _ _ _ _) as [d'|] eqn:Ec; simplify_eq/=.
  destruct (retire_tables _ _ _ _ _ _ _ _ _ Er Hi Hrel Ec) as (d & row & Hd & Hrow & Hst & Has & Hp).
  destruct (publish_assets_last _ _ _ asset Hne Hs _ _ Hd Hp) as [Hsrc Hlast]. destruct Hlast as (dm & sig & Hdm & Hm & Hml & Hl).
  { unfold releaseAssetIDsTx. apply list_elem_of_filter. split; [done|]. apply list_elem_of_fmap. exists (ReleaseID rel, asset).
    split; [done|]. apply list_elem_of_filter. by rewrite Has. }
  pose proof (publish_assets_inv json_generation _ _ pub _ _ _ _ _ Hd Hp) as [Hi' _].
  pose proof (inv_generations _ _ Hi' Hlen asset) as Hc.
  assert (generations_chain pub asset "" 0 (asset_generations dm asset)) as Hcm by (apply (inv_generations _ _ Hdm); lia).
  destruct Hsrc as (S1 & S2 & S3), Hm as (M1 & M2 & M3).
  eexists. split; [exact Hl|]. apply last_Some in Hl as [l Hl]. rewrite Hl in Hc. apply generations_chain_app in Hc as [_ Hg].
  split_and!; [apply Hg|simpl|simpl|simpl].
  - intros it [Hit|Hit]%elem_of_app.
    + apply release_members_ids in Hit as (row' & Hr' & Hact). rewrite M1 in Hr'. intros Heq. rewrite Heq, Hrow in Hr'. simplify_eq.
      unfold active_on in Hact. by rewrite Hst in Hact.
    + apply setting_members_ids in Hit. congruence.
  - intros id' row' Hr' Hact. apply elem_of_app. left. apply release_members_spec. exists id', row'. unfold active_on in *. rewrite M1, M2.
    rewrite S1 in Hr'. by rewrite S2 in Hact.
  - rewrite (latest_generation_seq pub dm asset Hcm). pose proof (asset_generations_length dm asset).
    rewrite wrap_s_id by (unfold in_s; change (64 - 1) with 63; lia). case_bool_decide; lia.
Qed.
End theorems.

(** ** A concrete history *)
Module GovernDemo.
#[local] Existing Instance toy_crypto.
#[local] Existing Instance toy_crypto_laws.

Definition audit : AuditWire := {|
  format_time t := ""; details_t := string; marshal_details d := Some d; json_canonical d := d; jsonb_text d := Some d |}.
#[local] Existing Instance audit.
Definition details : GovernDetails audit := {|
  det_none := ""; det_created _ := ""; det_corpus _ := ""; det_percent _ := ""; det_reason _ := ""; det_event _ := "";
  det_catalog _ _ := ""; det_artifact _ _ := ""; det_modes _ _ _ := "" |}.
#[local] Existing Instance details.

Definition cfg : SchedulerConfig := mkSchedulerConfig 1 2 0 0 0 0 5 false toy_key None.
Definition server : GovernServer := mkGovernServer 0 0 0 0 false.
Definition readers : catalog_readers := mkCatalogReaders (λ p, Ok p) (λ _ p, Ok p) (λ _, Ok tt).
Definition parse_over (d : TrafficReviewPolicy) (s : string) : option TrafficReviewPolicy := Some (with_mode d (str_len s)).
Definition marshal_review (p : TrafficReviewPolicy) : option string :=
  if 0 <? trp_Mode p then Some (str_pad (Z.to_nat (trp_Mode p)) "m") else None.
Lemma parse_marshal p s : marshal_review p = Some s → trp_Mode <$> parse_over DefaultTrafficReviewPolicy s = Some (trp_Mode p).
Proof.
  unfold marshal_review. destruct (Z.ltb_spec 0 (trp_Mode p)); [|done]. intros [= <-]. simpl. rewrite str_pad_length. f_equal. lia.
Qed.
Definition known : (string → bool) * (string → bool) := (λ _, false, λ _, false).
Definition pub : string := ed25519_public toy_key.
Definition env (n : Z) (g : string) : tx_env := mkTxEnv n (λ _, g) n true true true.

Definition db0 : gov_db :=
  mkGovDb ∅ [] [("unit", "asset")] [] [] ∅ [] ∅ ∅ ∅ [] (mkAuditDb [] []).
Definition rid : string := newID "rel" "r".
Definition request : ProposeArtifactRequest :=
  mkProposeRequest KIND_RULE "[]" "rules/v1" (Some (mkScope ["asset"] "")) (Some (NewDuration Hour)) "" [] false.
Definition db1 : gov_db := (writePropose (λ _, true) db0 "alice" request (Ok tt) "r" (env 1 "g1")).1.
Definition db2 : gov_db := (writeGate (λ _, true) (λ _, true) db1 db1 "user" "bob" rid (Ok Demo.good_report) toy_key None (env 2 "g2")).1.
Definition db3 : gov_db := (writeStartShadow (λ _, true) (λ _, true) db2 db2 "user" "bob" rid toy_key None (env 3 "g3")).1.
Definition db4 : gov_db := (RollbackRelease (λ _, true) (λ _, true) db3 db3 true "bob" rid toy_key None (env 4 "g4")).1.

Abbreviation demo_history := (history (λ _, true) (λ _, true) readers parse_over marshal_review known server cfg).

Lemma db3_history : demo_history [db2; db1; db0] db3.
Proof.
  eapply (history_step _ _ _ _ _ _ _ _ _ db2 db2); [|by left|apply (gs_shadow _ _ _ _ _ _ _ cfg)].
  eapply (history_step _ _ _ _ _ _ _ _ _ db1 db1); [|by left|apply (gs_gate _ _ _ _ _ _ _ cfg)].
  eapply (history_step _ _ _ _ _ _ _ _ _ db0 db0); [|by left|apply (gs_propose _ _ _ _ _ _ _ cfg)].
  by apply history_start.
Defined.

Lemma db4_history : demo_history [db3; db2; db1; db0] db4.
Proof. eapply (history_step _ _ _ _ _ _ _ _ _ db3 db3); [apply db3_history|by left|apply (gs_rollback _ _ _ _ _ _ _ cfg)]. Defined.

Definition no_generation : AssetGeneration := mkAssetGeneration "" "" 0 "" [] "" None 0 None.
Definition g3 : AssetGeneration := default no_generation (asset_generations db4 "asset" !! 0%nat).
Definition g4 : AssetGeneration := default no_generation (asset_generations db4 "asset" !! 1%nat).

Definition row3 : release_row :=
  default (mkReleaseRow "" (sample_artifact "" "" None) "" 0 "" "" "" "" None None None None None 0 None None) (gd_releases db3 !! rid).

Lemma row3_lookup : gd_releases db3 !! rid = Some row3.
Proof. vm_compute. reflexivity. Qed.

Lemma generations : asset_generations db4 "asset" = [g3; g4].
Proof. vm_compute. reflexivity. Qed.
End GovernDemo.

Lemma published_generations_witness :
  VerifyGeneration (C := toy_crypto) (Some GovernDemo.g3) GovernDemo.pub = Ok tt ∧ GenerationSeq GovernDemo.g4 = 2.
Proof.
  pose proof (@published_generations toy_crypto GovernDemo.audit GovernDemo.details (λ _, true) (λ _, true) GovernDemo.readers
    GovernDemo.parse_over GovernDemo.marshal_review GovernDemo.known GovernDemo.server GovernDemo.cfg GovernDemo.pub
    (@key_authority toy_crypto toy_crypto_laws toy_key) [GovernDemo.db3; GovernDemo.db2; GovernDemo.db1; GovernDemo.db0] GovernDemo.db4 "asset") as H.
  split.
  - apply (H O GovernDemo.g3 GovernDemo.db4_history); [by vm_compute|]. by rewrite GovernDemo.generations.
  - apply (H 1%nat GovernDemo.g4 GovernDemo.db4_history); [by vm_compute|]. by rewrite GovernDemo.generations.
Defined.

Lemma edge_follows_published_witness :
  (Load (C := toy_crypto) (mkGenerationStore (Some GovernDemo.g3) None 0 false false) (Some GovernDemo.g4) GovernDemo.pub 0).2 = Ok tt.
Proof.
  erewrite (@edge_follows_published toy_crypto GovernDemo.audit GovernDemo.details (λ _, true) (λ _, true) GovernDemo.readers
    GovernDemo.parse_over GovernDemo.marshal_review GovernDemo.known GovernDemo.server GovernDemo.cfg GovernDemo.pub
    (@key_authority toy_crypto toy_crypto_laws toy_key) _ _ "asset" O GovernDemo.g3 GovernDemo.g4); [done|apply GovernDemo.db4_history|by vm_compute|done| | | |done|done].
  - by rewrite GovernDemo.generations.
  - by rewrite GovernDemo.generations.
  - intros nb Hnb. assert (NotBefore GovernDemo.g4 = Some 4) as E by (vm_compute; reflexivity). rewrite E in Hnb.
    injection Hnb as <-. by vm_compute.
Defined.

Lemma releases_only_advance_witness : ∃ row, gd_releases GovernDemo.db4 !! GovernDemo.rid = Some row ∧ 2 ≤ state_rank (rw_State row).
Proof.
  destruct (@releases_only_advance toy_crypto GovernDemo.audit GovernDemo.details (λ _, true) (λ _, true) GovernDemo.readers
    GovernDemo.parse_over GovernDemo.marshal_review GovernDemo.known GovernDemo.server GovernDemo.cfg GovernDemo.pub
    (@key_authority toy_crypto toy_crypto_laws toy_key) [GovernDemo.db3; GovernDemo.db2; GovernDemo.db1; GovernDemo.db0] GovernDemo.db4
    GovernDemo.db3 GovernDemo.rid GovernDemo.row3 GovernDemo.db4_history (list_elem_of_here _ _) GovernDemo.row3_lookup) as (row' & Hr & Hrank & _).
  exists row'. split; [exact Hr|]. etrans; [|exact Hrank]. vm_compute. discriminate.
Defined.

Lemma retirement_reaches_edges_witness :
  ∃ g, last (asset_generations GovernDemo.db4 "asset") = Some g ∧ (∀ it, Some it ∈ Members g → ri_ReleaseId it ≠ GovernDemo.rid) ∧ RollbackOf g = GenerationSeq g - 1.
Proof.
  destruct (@retirement_reaches_edges toy_crypto GovernDemo.audit GovernDemo.details (λ _, true) (λ _, true) GovernDemo.readers
    GovernDemo.parse_over GovernDemo.marshal_review GovernDemo.known GovernDemo.server GovernDemo.cfg GovernDemo.pub
    (@key_authority toy_crypto toy_crypto_laws toy_key) _ _ GovernDemo.db3 GovernDemo.rid RETIRE_REASON_ROLLBACK "user" "bob" "release.rollback"
    (GovernDemo.env 4 "g4") GovernDemo.db4 "asset" GovernDemo.db3_history) as (g & Hl & _ & Hm & _ & Hr);
    [apply list_elem_of_here|vm_compute; reflexivity| |vm_compute; reflexivity|vm_compute; reflexivity
    |apply (bool_decide_unpack _); vm_compute; exact I|discriminate|exists g; split; [exact Hl|split; [exact Hm|exact Hr]]].
  assert (∀ p : gov_db * result unit, snd p = Ok tt → p = (fst p, Ok tt)) as Hpair by (by intros [] [=->]).
  apply Hpair. vm_compute. reflexivity.
Defined.
