(* ===== verification/SchedulerProofs.v ===== *)
(** * Promotion, guard windows and the review ladder

    What [Scheduler] and [Catalog] promise: who may promote and on what evidence, what moves on
    by itself, when the guard rolls back, that the counters do not depend on the order in which
    heartbeats arrive, and that traffic review is only raised one level at a time. *)

From S2P Require Import Prelude GoStrings Contracts Signing SignerService AuditChain GenerationStore ReleaseLifecycle ReleaseSet Govern Catalog Scheduler GovernProofs GovernHistory.

(** ** Counters *)

(** Two reports of one unit about one release in the same epoch and mode. *)
Definition same_epoch (a b : counter_row) : Prop := cw_Generation a = cw_Generation b ∧ cw_Mode a = cw_Mode b.

Lemma merge_same_epoch a b : same_epoch a b →
  merge_counter a b = mkCounterRow (cw_Generation a) (cw_Mode a) (Z.max (cw_Requests a) (cw_Requests b)) (Z.max (cw_Blocks a) (cw_Blocks b))
    (Z.max (cw_Observes a) (cw_Observes b)) (Z.max (cw_Selected a) (cw_Selected b)) (Z.max (cw_5xx a) (cw_5xx b))
    (Z.max (cw_LatencyMicros a) (cw_LatencyMicros b)) (Z.max (cw_LatencySamples a) (cw_LatencySamples b)) (Z.max (cw_P99 a) (cw_P99 b)).
Proof.
  intros [Hg Hm]. unfold merge_counter. rewrite Hg, Hm, Z.ltb_irrefl, Z.eqb_refl, Z.leb_refl, bool_decide_eq_true_2, Z.max_id by done. done.
Qed.

(** The reports of one epoch and mode, folded into the stored row in the order of arrival. *)
Definition absorb (row : counter_row) (reports : list counter_row) : counter_row := foldl merge_counter row reports.

Lemma absorb_epoch reports : ∀ row, Forall (same_epoch row) reports →
  same_epoch row (absorb row reports) ∧ cw_Requests row ≤ cw_Requests (absorb row reports).
Proof.
  induction reports as [|r reports IH]; intros row; simpl; [split; [done|lia]|]. intros [Hr Hrs]%Forall_cons.
  assert (same_epoch row (merge_counter row r)) as Hm by (by rewrite merge_same_epoch).
  destruct (IH (merge_counter row r)) as [[H1 H2] H3].
  { eapply Forall_impl; [exact Hrs|]. intros x [??]. destruct Hm. split; congruence. }
  destruct Hm. split; [split; congruence|]. rewrite merge_same_epoch in H3 at 1 by done. simpl in H3. unfold absorb in *. lia.
Qed.

Lemma absorb_perm l1 l2 : l1 ≡ₚ l2 → ∀ row, Forall (same_epoch row) l1 → absorb row l1 = absorb row l2.
Proof.
  induction 1 as [|x l1 l2 _ IH|x y l|l1 l2 l3 H12 IH1 _ IH2]; intros row Hall; simpl; [done|..].
  - apply Forall_cons in Hall as [[Hg Hm] Hall]. apply IH. rewrite merge_same_epoch by done. exact Hall.
  - apply Forall_cons in Hall as [Hx Hall]. apply Forall_cons in Hall as [Hy _].
    assert (merge_counter (merge_counter row y) x = merge_counter (merge_counter row x) y) as E; [|unfold absorb; simpl; by rewrite E].
    rewrite (merge_same_epoch row x), (merge_same_epoch row y) by done.
    rewrite !merge_same_epoch by (destruct Hx, Hy; split; simpl; congruence). simpl. f_equal; lia.
  - rewrite IH1 by done. apply IH2. by rewrite <- H12.
Qed.

(** Heartbeats of one epoch and mode may arrive late, repeated or out of order:
    any permutation leaves the same row, absorbing them again changes nothing, no total ever
    decreases, and a report of an older epoch is ignored while one of a newer epoch replaces the
    row. *)
Theorem counters_order_free row l1 l2 new :
  Forall (same_epoch row) l1 → l1 ≡ₚ l2 →
  absorb row l1 = absorb row l2 ∧ absorb (absorb row l1) l2 = absorb row l1 ∧ cw_Requests row ≤ cw_Requests (absorb row l1) ∧
  (cw_Generation new < cw_Generation row → merge_counter row new = row) ∧
  (cw_Generation row < cw_Generation new → merge_counter row new = new).
Proof.
  intros Hall Hp. split; [by apply absorb_perm|]. split; [|split; [by apply absorb_epoch|split]].
  - assert (Forall (same_epoch (absorb row l1)) l1) as Hall'.
    { destruct (absorb_epoch _ _ Hall) as [[??] _]. eapply Forall_impl; [exact Hall|]. intros x [??]. split; congruence. }
    rewrite <- (absorb_perm _ _ Hp _ Hall'). clear Hp Hall' l2. revert row Hall.
    induction l1 as [|x l1 IH] using rev_ind; intros row Hall; [done|]. apply Forall_app in Hall as [Hl [Hx _]%Forall_cons].
    unfold absorb in *. rewrite !foldl_app. simpl.
    destruct (absorb_epoch _ _ Hl) as [[Hg Hm] _]. unfold absorb in *. set (r := foldl merge_counter row l1) in *.
    assert (same_epoch r x) as Hrx by (destruct Hx; split; congruence).
    assert (Forall (same_epoch r) l1) as Hr. { eapply Forall_impl; [exact Hl|]. intros y [??]. split; congruence. }
    assert (foldl merge_counter (merge_counter r x) l1 = merge_counter (foldl merge_counter r l1) x) as ->.
    { pose proof (absorb_perm (x :: l1) (l1 ++ [x])) as Hsw. unfold absorb in Hsw. specialize (Hsw ltac:(by rewrite Permutation_app_comm) r).
      rewrite foldl_app in Hsw. simpl in Hsw. by apply Hsw, Forall_cons. }
    pose proof (IH row Hl) as IHr. fold r in IHr. rewrite IHr. rewrite (merge_same_epoch (merge_counter r x)) by (rewrite merge_same_epoch by done; destruct Hrx; split; simpl; congruence).
    rewrite merge_same_epoch by done. simpl. f_equal; lia.
  - intros Hlt. unfold merge_counter. rewrite (proj2 (Z.ltb_ge _ _)), (proj2 (Z.eqb_neq _ _)), (proj2 (Z.leb_gt _ _)), Z.max_l by lia. by destruct row.
  - intros Hlt. unfold merge_counter. rewrite (proj2 (Z.ltb_lt _ _)), Z.max_r by lia. by destruct new.
Qed.

Lemma counters_order_free_witness :
  absorb (mkCounterRow 1 "canary" 5 0 0 0 0 0 0 0) [mkCounterRow 1 "canary" 9 2 0 0 0 0 0 0; mkCounterRow 1 "canary" 7 3 0 0 0 0 0 0] =
  absorb (mkCounterRow 1 "canary" 5 0 0 0 0 0 0 0) [mkCounterRow 1 "canary" 7 3 0 0 0 0 0 0; mkCounterRow 1 "canary" 9 2 0 0 0 0 0 0].
Proof.
  apply (counters_order_free _ _ [mkCounterRow 1 "canary" 7 3 0 0 0 0 0 0; mkCounterRow 1 "canary" 9 2 0 0 0 0 0 0] (mkCounterRow 0 "" 0 0 0 0 0 0 0 0));
    [by repeat constructor|apply Permutation_swap].
Defined.

(** ** Promotion by a person *)

Lemma commit_state {C : Crypto} {A : AuditWire} {G : GovernDetails A} ja jg db w env db' :
  commitReleaseChange ja jg db w env = (db', Ok tt) → w_supersede w = "" →
  ∃ row row', gd_releases db !! ReleaseID (w_rel w) = Some row ∧ updated_row row (w_rel w) (tx_now env) = Ok row' ∧
    releaseTransitionAllowed (rw_State row) (releaseStateString (State (w_rel w))) = true ∧
    ∃ d5, (if w_feed w then publish_assets jg d5 (releaseAssetIDsTx d5 (ReleaseID (w_rel w))) (w_key w) (w_signer w)
             (w_retired w && bool_decide (w_reason w = RETIRE_REASON_ROLLBACK)) env = Ok db' else db' = d5) ∧
      gd_releases d5 !! ReleaseID (w_rel w) = Some row'.
Proof.
  unfold commitReleaseChange, in_tx. destruct (release_change _ _ _ _ _) as [d|] eqn:Ec; [|done]. intros [= ->] Hs. revert Ec.
  unfold release_change. intros (d1 & E1 & H)%result_bind_Ok. apply result_bind_Ok in H as (d2 & E2 & H). apply result_bind_Ok in H as (d3 & E3 & H).
  apply result_bind_Ok in H as (d4 & E4 & H). apply result_bind_Ok in H as (d5 & E5 & H).
  destruct (tx_complete env), (tx_committed env); try done. injection H as ->. rewrite Hs in E3. simpl in E3. injection E3 as <-.
  apply persistRelease_tables in E1 as (row & row' & Hr & Ht & Hu & F1 & _). exists row, row'. do 3 (split; [done|]). exists d4.
  assert (gd_releases d4 = gd_releases d1) as ->.
  { assert (gd_releases d2 = gd_releases d1) as <- by (destruct (w_feed w); [by apply publishFeed_same in E2 as [-> _]|by injection E2 as ->]).
    destruct (bool_decide (w_action w = "")); [by injection E4 as ->|]. by apply append_gov_audit_same in E4 as [-> _]. }
  split; [destruct (w_feed w); [done|by injection E5]|]. rewrite F1. apply lookup_insert_eq.
Qed.

Lemma publish_assets_releases {C : Crypto} jg ids key signer rollback env pub {SA : SigningAuthority key signer pub} : ∀ d d',
  publish_assets jg d ids key signer rollback env = Ok d' → gd_releases d' = gd_releases d.
Proof.
  induction ids as [|i ids IH]; intros d d'; simpl; [by intros [= ->]|].
  destruct (publishAssetGeneration _ _ _ _ _ _ _ _) as [d1|] eqn:Ep; [|done]. simpl. intros H. rewrite (IH _ _ H).
  by apply (publish_same jg _ _ pub) in Ep as [-> _].
Qed.

(** A person who promotes a release to canary in production holds the grant and is
    not its proposer, the release is in shadow, passed its replay, has been there for the required
    time and seen the required requests, the percentage is between 1 and 25 and the units bound to
    the release are enough for one unit not to exceed it; afterwards the release is a canary with
    that percentage. *)
Theorem promote_canary_requires {C : Crypto} {A : AuditWire} {G : GovernDetails A} ja jg key signer pub {SA : SigningAuthority key signer pub}
    s read db granted user id percent env db' :
  Govern_PromoteCanary ja jg s read db granted user id percent key signer env = (db', Ok tt) → demoTriage s = false →
  let p := if percent =? 0 then CanaryPercentDefault else percent in
  granted = true ∧ 1 ≤ p ≤ 25 ∧ 100 ≤ releaseBoundUnitCount read id * p ∧
  (∃ row, gd_releases read !! id = Some row ∧ rw_State row = "shadow" ∧ (rw_CreatedBy row = "" ∨ rw_CreatedBy row ≠ user) ∧
     replayReportPassed (rw_Artifact row) = true ∧ shadowMinRequests s ≤ sumCounters read id "shadow" ∧
     (shadowMinDuration s ≤ 0 ∨ shadowMinDuration s ≤ time_sub (tx_now env) (default (tx_now env) (rw_ShadowAt row)))) ∧
  ∃ row', gd_releases db' !! id = Some row' ∧ rw_State row' = "canary" ∧ rw_CanaryPercent row' = p.
Proof.
  intros H Hdemo p. unfold Govern_PromoteCanary in H. destruct (promote_canary_checks _ _ _ _ _ _ _) as [canary|] eqn:Ec; [|done].
  unfold promote_canary_checks, authorizePromote in Ec. rewrite Hdemo in Ec. destruct granted; [|done]. cbn [result_bind] in Ec.
  unfold loadRelease in Ec. unfold releaseTime in Ec.
  destruct (gd_releases read !! id) as [row|] eqn:Er; [|done].
  destruct (negb (negb _ && _)) eqn:Eby; [|done]. cbn [result_bind] in Ec.
  destruct (releaseFromParts id row) as [rel|] eqn:Ep; [|done]. cbn [result_bind] in Ec. destruct rel as [| |shadow| | |]; try done.
  unfold releaseFromParts in Ep. do 2 (case_bool_decide; [done|]). case_bool_decide as Hst; [|repeat (case_bool_decide; [done|]); done].
  injection Ep as <-. fold p in Ec. destruct (negb (_ <? _)) eqn:Eu; [|done]. cbn [shadow_Envelope option_bind] in Ec.
  destruct (durationThresholdMet _ _ && _ && _) eqn:Eg; [|done]. unfold PromoteCanary in Ec. destruct (_ || _) eqn:Epct; [done|]. injection Ec as <-.
  unfold CanaryPercentMin, CanaryPercentMax in Epct. unfold durationThresholdMet in Eg. breflect.
  destruct (canary_units_ceil p 0) as [Hceil _]; [lia|].
  assert (1 ≤ p ≤ 25) as Hp by lia. split; [done|]. split; [done|]. split; [nia|]. split.
  - destruct Eg as [[Hage Hreq] Hrep]. exists row. split; [done|]. split; [done|]. split; [|split; [done|split; [done|]]].
    + destruct Eby as [E|E]; [left; by apply bool_decide_eq_true in E|right; by apply bool_decide_eq_false in E].
    + by destruct Hage; [left|right].
  - destruct (commit_state _ _ _ _ _ _ H eq_refl) as (r0 & row' & _ & Hu & _ & d5 & Hpub & Hr'). simpl in *.
    apply (publish_assets_releases _ _ _ _ _ _ pub) in Hpub. exists row'. rewrite Hpub. injection Hu as <-. done.
Qed.

Lemma promote_canary_requires_witness :
  100 ≤ releaseBoundUnitCount (set_inventory GovernDemo.db3 [("u1", "asset"); ("u2", "asset"); ("u3", "asset"); ("u4", "asset")] ∅) GovernDemo.rid * 25.
Proof.
  pose (units := set_inventory GovernDemo.db3 [("u1", "asset"); ("u2", "asset"); ("u3", "asset"); ("u4", "asset")] ∅).
  pose (run := @Govern_PromoteCanary toy_crypto GovernDemo.audit GovernDemo.details (λ _, true) (λ _, true) GovernDemo.server units units true "bob"
    GovernDemo.rid 25 toy_key None (GovernDemo.env 5 "g5")).
  destruct (@promote_canary_requires toy_crypto GovernDemo.audit GovernDemo.details (λ _, true) (λ _, true) toy_key None GovernDemo.pub
    (@key_authority toy_crypto toy_crypto_laws toy_key) GovernDemo.server units units true "bob" GovernDemo.rid 25 (GovernDemo.env 5 "g5") (fst run))
    as (_ & _ & Hunits & _); [|reflexivity|exact Hunits].
  assert (∀ p : gov_db * result unit, snd p = Ok tt → p = (fst p, Ok tt)) as Hpair by (by intros [] [=->]).
  apply Hpair. vm_compute. reflexivity.
Defined.

(** ** Tables a change leaves alone *)

(** [frame w db db']: the audit trail is untouched unless the change names an action, the guards
    unless the release starts to receive traffic. *)
Definition frame {A : AuditWire} (w : releaseWrite) (db db' : gov_db) : Prop :=
  (w_action w = "" → gd_audit db' = gd_audit db) ∧ (guarded_state (w_rel w) = false → gd_guards db' = gd_guards db).

#[global] Instance frame_preorder {A : AuditWire} w : PreOrder (frame w).
Proof. split; [done|]. intros a b c [H1 H2] [H3 H4]. split; intros H; [by rewrite H3, H1|by rewrite H4, H2]. Qed.

Lemma frame_bind {A : AuditWire} w (r : result gov_db) (k : gov_db → result gov_db) db db' :
  (∀ d, r = Ok d → frame w db d) → (∀ d, k d = Ok db' → frame w d db') → result_bind r k = Ok db' → frame w db db'.
Proof. intros H1 H2 (d & Hr & Hk)%result_bind_Ok. trans d; [by apply H1|by apply H2]. Qed.

Section frames.
Context {C : Crypto} {A : AuditWire} {G : GovernDetails A} (ja : Artifact → bool) (jg : AssetGeneration → bool).

Lemma ensureGuardBaseline_audit db id : gd_audit (ensureGuardBaseline db id) = gd_audit db.
Proof. unfold ensureGuardBaseline. by destruct (_ !! id). Qed.

Lemma persistRelease_frame w db now db' : persistRelease ja db (w_rel w) now = Ok db' → frame w db db'.
Proof.
  unfold persistRelease. destruct (ja _); [|done]. destruct (gd_releases db !! _) as [row|]; [|done]. destruct (releaseTransitionAllowed _ _); [|done].
  destruct (updated_row _ _ _) as [row'|]; [|done]. cbn [result_bind]. intros [= <-]. split; intros Hw; [|rewrite Hw; by case_match].
  destruct (guarded_state _); case_match; simpl; rewrite ?ensureGuardBaseline_audit; done.
Qed.

Lemma publishFeed_frame w db rel retired reason db' : publishFeed ja db rel retired reason = Ok db' → frame w db db'.
Proof. unfold publishFeed. destruct (ja _); [|done]. by intros [= <-]. Qed.

Lemma supersede_frame w db old actor now db' : supersede ja db old actor now = Ok db' → frame w db db'.
Proof.
  unfold supersede. destruct (superseded db old) as [[id row]|]; [|by intros [= <-]]. destruct (loadRelease _ id) as [rel|]; [|done].
  cbn [result_bind]. intros H%(publishFeed_frame w). etrans; [|exact H]. done.
Qed.

Lemma publish_assets_frame w ids key signer rollback env : ∀ db db', publish_assets jg db ids key signer rollback env = Ok db' → frame w db db'.
Proof.
  induction ids as [|id ids IH]; intros db db'; simpl; [by intros [= <-]|]. apply frame_bind; [|intros d; apply IH].
  intros d. unfold publishAssetGeneration. destruct (_ || _); [by intros [= <-]|]. destruct (signGenerationEnvelope _ _ _ _) as [[g|] [u|]]; try done.
  destruct (jg g); [|done]. destruct (generation_fits _ _); [|done]. by intros [= <-].
Qed.

Lemma commit_frame db w env : frame w db (commitReleaseChange ja jg db w env).1.
Proof.
  unfold commitReleaseChange, in_tx. destruct (release_change _ _ _ _ _) as [db'|] eqn:E; simpl; [|done]. revert E. unfold release_change.
  apply frame_bind; [intros d; apply persistRelease_frame|]. intros d1.
  apply frame_bind; [intros d; destruct (w_feed w); [apply publishFeed_frame|by intros [= <-]]|]. intros d2.
  apply frame_bind; [intros d; destruct (bool_decide (w_supersede w = "")); [by intros [= <-]|apply supersede_frame]|]. intros d3.
  apply frame_bind.
  { intros d. case_bool_decide; [by intros [= <-]|]. unfold append_gov_audit. destruct (appendAuditTx _ _ _ _ _ _ _ _ _ _) as [au [u|]]; [|done].
    intros [= <-]. by split. }
  intros d4. apply frame_bind; [intros d; destruct (w_feed w); [apply publish_assets_frame|by intros [= <-]]|].
  intros d5. destruct (tx_complete env); [|done]. destruct (tx_committed env); [|done]. by intros [= <-].
Qed.
End frames.

(** ** Automatic promotion *)

Lemma skip_production row :
  skipAutoPromote row false = false →
  ArtKind (rw_Artifact row) ≠ KIND_SHAPE ∧ ArtKind (rw_Artifact row) ≠ KIND_RULE ∧ (rw_ScopeRisk row = "exact" ∨ rw_ScopeRisk row = "route") ∧
  (rw_EvidenceClass row = "crs_mapped" ∨ rw_EvidenceClass row = "human" ∨ rw_EvidenceClass row = "replay") ∧
  replayReportPassed (rw_Artifact row) = true.
Proof.
  unfold skipAutoPromote, autoPromoteBlocked. case_bool_decide; [done|]. case_bool_decide; [done|]. cbn [andb negb].
  destruct (negb _) eqn:E; [done|]. intros Hr. breflect. rewrite !bool_decide_eq_true in E. destruct (replayReportPassed _); [tauto|done].
Qed.

Lemma gates_met known db id mode minAge minRequests now :
  promotionGatesMet known db id mode minAge minRequests now = true →
  ∃ row n, gd_releases db !! id = Some row ∧ sumCountersExcept db id mode (proposerUnitIDs known db (rw_CreatedBy row)) = Some n ∧ minRequests ≤ n.
Proof.
  unfold promotionGatesMet. destruct (gd_releases db !! id) as [row|]; [|done]. intros [_ H]%andb_true_iff.
  destruct (sumCountersExcept _ _ _ _) as [n|] eqn:E; [|done]. exists row, n. split_and!; [done..|by apply Z.leb_le].
Qed.

(** C29: in production nothing moves on by itself unless it is neither a request shape
    nor a demonstration rule, its scope is one path or one route, its evidence is mapped rules, a
    person or a replay, its own replay passed, and units other than its proposer's have seen the
    required number of requests. *)
Theorem auto_promotion_guarded {C : Crypto} {A : AuditWire} {G : GovernDetails A} ja jg cfg known db id env :
  cfg_DemoTriage cfg = false →
  auto_canary ja jg cfg known db id env ≠ db ∨ auto_enforce ja jg cfg known db id env ≠ db →
  ∃ row mode n, gd_releases db !! id = Some row ∧ rw_State row = mode ∧
    ArtKind (rw_Artifact row) ≠ KIND_SHAPE ∧ ArtKind (rw_Artifact row) ≠ KIND_RULE ∧ (rw_ScopeRisk row = "exact" ∨ rw_ScopeRisk row = "route") ∧
    (rw_EvidenceClass row = "crs_mapped" ∨ rw_EvidenceClass row = "human" ∨ rw_EvidenceClass row = "replay") ∧
    replayReportPassed (rw_Artifact row) = true ∧ sumCountersExcept db id mode (proposerUnitIDs known db (rw_CreatedBy row)) = Some n ∧
    (mode = "shadow" ∧ cfg_ShadowMinRequests cfg ≤ n ∨ mode = "canary" ∧ cfg_CanaryMinRequests cfg ≤ n).
Proof.
  intros Hd. unfold auto_canary, auto_enforce, loadRelease. rewrite Hd. destruct (gd_releases db !! id) as [row|] eqn:Er; [|intros [?|?]; done].
  destruct (skipAutoPromote row false) eqn:Es; [intros [?|?]; done|]. destruct (skip_production _ Es) as (K1 & K2 & K3 & K4 & K5).
  intros [H|H].
  - destruct (negb false && _); [done|]. destruct (promotionGatesMet _ _ _ _ _ _ _) eqn:Eg; [|done].
    apply gates_met in Eg as (row' & n & Er' & Hn & Hle). simplify_eq. exists row, "shadow", n. split_and!; try done; [|by left].
    unfold releaseFromParts in H. repeat (case_bool_decide; [done|]). done.
  - destruct (promotionGatesMet _ _ _ _ _ _ _) eqn:Eg; [|done].
    apply gates_met in Eg as (row' & n & Er' & Hn & Hle). simplify_eq. exists row, "canary", n. split_and!; try done; [|by right].
    unfold releaseFromParts in H. repeat (case_bool_decide; [done|]). done.
Qed.

(** A promotion the scheduler makes adds nothing to the audit trail. *)
Theorem auto_promotion_unaudited {C : Crypto} {A : AuditWire} {G : GovernDetails A} ja jg cfg known db env env' :
  gd_audit (autoPromoteReleases ja jg cfg known db env env') = gd_audit db.
Proof.
  assert (∀ db id e, gd_audit (auto_canary ja jg cfg known db id e) = gd_audit db) as H1.
  { intros d id e. unfold auto_canary. destruct (gd_releases d !! id); [|done]. repeat (destruct (_ : bool); [done|]).
    destruct (loadRelease d id) as [[]|]; try done. destruct (PromoteCanary _ _); [|done]. by apply commit_frame. }
  assert (∀ db id e, gd_audit (auto_enforce ja jg cfg known db id e) = gd_audit db) as H2.
  { intros d id e. unfold auto_enforce. destruct (gd_releases d !! id); [|done]. repeat (destruct (_ : bool); [done|]).
    destruct (loadRelease d id) as [[]|]; try done. by apply commit_frame. }
  assert (∀ f : gov_db → (string * release_row) → gov_db, (∀ d kv, gd_audit (f d kv) = gd_audit d) →
    ∀ l d, gd_audit (foldl f d l) = gd_audit d) as Hfold.
  { intros f Hf l. induction l as [|kv l IH]; intros d; simpl; [done|]. by rewrite IH, Hf. }
  unfold autoPromoteReleases. rewrite Hfold; [|intros d kv; apply H2]. apply Hfold. intros d kv. apply H1.
Qed.

(** ** Guard windows *)

(** The windows of one release, latest first, with what happens between them: heartbeats,
    feedback, changes of the inventory and the windows of other releases.  The snapshot of a
    good window is stored; that of a bad one may be lost. *)
Section guard_runs.
Context {C : Crypto} {A : AuditWire} {G : GovernDetails A} (ja : Artifact → bool) (jg : AssetGeneration → bool) (cfg : SchedulerConfig) (id : string).

Inductive guard_run : gov_db → list bool → Prop :=
  | run_start db : (∀ g, gd_guards db !! id = Some g → gw_ConsecutiveBad g = 0) → guard_run db []
  | run_window db ws state stored env bad g : guard_run db ws → guard_window cfg db id state (tx_now env) = Some (bad, g) →
      stored || bad = true → guard_run (guard_release ja jg cfg db id state stored env) (bad :: ws)
  | run_other db ws id' state stored env : guard_run db ws → id' ≠ id → guard_run (guard_release ja jg cfg db id' state stored env) ws
  | run_heartbeat db ws unitID prevGen generation counters : guard_run db ws → guard_run (heartbeat_counters db unitID prevGen generation counters) ws
  | run_feedback db ws granted user rid event env : guard_run db ws → guard_run (DenyFeedback db granted user rid event env).1 ws
  | run_inventory db ws ua e : guard_run db ws → guard_run (set_inventory db ua e) ws.

(** How many windows have been bad in a row. *)
Fixpoint bad_streak (ws : list bool) : Z := match ws with true :: ws' => 1 + bad_streak ws' | _ => 0 end.

Definition within_streak (db : gov_db) (ws : list bool) : Prop :=
  ∀ g, gd_guards db !! id = Some g → gw_ConsecutiveBad g ≤ bad_streak ws.

Lemma bad_streak_nonneg ws : 0 ≤ bad_streak ws.
Proof. induction ws as [|[] ws IH]; simpl; lia. Qed.

Lemma scheduler_retire_guards db rid reason env : gd_guards (scheduler_retire ja jg cfg db rid reason env).1 = gd_guards db.
Proof.
  unfold scheduler_retire, retireReleaseAudit. destruct (loadRelease db rid) as [rel|]; [|done]. cbn [result_bind].
  destruct (ReleaseLifecycle.retireRelease rel reason) as [retired|]; [|done]. by apply commit_frame.
Qed.

Lemma guard_release_guards db rid state stored env :
  gd_guards (guard_release ja jg cfg db rid state stored env) =
  match guard_window cfg db rid state (tx_now env) with
  | Some (_, g) => if stored then <[rid := g]> (gd_guards db) else gd_guards db
  | None => gd_guards db
  end.
Proof.
  unfold guard_release. destruct (guard_window _ _ _ _ _) as [[bad g]|]; [|done].
  destruct (_ <=? _); [rewrite scheduler_retire_guards|]; by destruct stored.
Qed.

Lemma guard_window_streak db ws state now bad g :
  within_streak db ws → guard_window cfg db id state now = Some (bad, g) → gw_ConsecutiveBad g ≤ bad_streak (bad :: ws).
Proof.
  intros Hw. unfold guard_window. destruct (guard_current _ _ _) as [cur|]; [|done]. destruct (guard_previous db id) as [prev c] eqn:Ep.
  destruct (GuardWindowBad _ _ _) as [b r]. intros [= -> <-]. simpl. destruct bad; [|lia]. pose proof (bad_streak_nonneg ws).
  unfold guard_previous in Ep. destruct (gd_guards db !! id) as [g0|] eqn:E; simplify_eq; [|lia]. specialize (Hw _ E). lia.
Qed.

Lemma ensure_guards db rid g : gd_guards (ensureGuardBaseline db rid) !! id = Some g → gd_guards db !! id = Some g ∨ gw_ConsecutiveBad g = 0.
Proof.
  unfold ensureGuardBaseline. destruct (gd_guards db !! rid); [by left|]. simpl. intros [[-> <-]|[_ ?]]%lookup_insert_Some; [by right|by left].
Qed.

Lemma heartbeat_guards unitID generation counters : ∀ db, gd_guards (foldl (report_counter unitID generation) db counters) = gd_guards db.
Proof. induction counters as [|c counters IH]; intros db; simpl; [done|]. by rewrite IH. Qed.

Lemma guard_run_streak db ws : guard_run db ws → within_streak db ws.
Proof.
  induction 1 as [db H|db ws state stored env bad g _ IH Hw Hst|db ws id' state stored env _ IH Hne|db ws u p n cs _ IH|db ws gr user rid ev env _ IH|db ws ua e _ IH];
    intros g'.
  - intros Hg. by rewrite (H _ Hg).
  - rewrite guard_release_guards, Hw. destruct stored; [rewrite lookup_insert_eq; intros [= <-]; by eapply guard_window_streak|].
    simpl in Hst. subst bad. intros Hg. specialize (IH _ Hg). simpl. lia.
  - rewrite guard_release_guards. destruct (guard_window _ _ id' _ _) as [[b g]|]; [|apply IH]. destruct stored; [|apply IH].
    rewrite lookup_insert_ne by done. apply IH.
  - unfold heartbeat_counters. rewrite heartbeat_guards. destruct (_ <? _); [|apply IH]. simpl. intros [? _]%map_lookup_filter_Some. by apply IH.
  - unfold DenyFeedback. destruct gr; [|apply IH]. unfold deny_feedback, in_tx. destruct (gd_releases db !! rid); [|apply IH].
    destruct (_ || _); [|apply IH]. destruct (appendAuditTx _ _ _ _ _ _ _ _ _ _) as [au [u|]]; [|apply IH]. cbn [result_bind].
    destruct (tx_complete env); [|apply IH]. destruct (tx_committed env); [|apply IH]. simpl.
    assert (∀ d, gd_guards (if bool_decide ((rid, ev) ∈ gd_denies d) then d else set_denies d (gd_denies d ++ [(rid, ev)])) = gd_guards d) as ->
      by (intros d; by case_bool_decide).
    intros [?|Hz]%ensure_guards; [by apply IH|]. rewrite Hz. apply bad_streak_nonneg.
  - apply IH.
Qed.
End guard_runs.

(** C28: provided the snapshot of every good window is stored ([lost_snapshot_misfires]
    shows why; that of a bad window may be lost), the guard retires a release only in a window
    that is bad and ends a row of at
    least [GuardBadWindows] bad windows of that release, whatever the units report and whatever
    feedback arrives in between. *)
Theorem rollback_needs_bad_windows {C : Crypto} {A : AuditWire} {G : GovernDetails A} ja jg cfg id db ws state stored env row row' :
  0 < cfg_GuardBadWindows cfg → guard_run ja jg cfg id db ws →
  gd_releases db !! id = Some row → gd_releases (guard_release ja jg cfg db id state stored env) !! id = Some row' → rw_State row' ≠ rw_State row →
  ∃ g, guard_window cfg db id state (tx_now env) = Some (true, g) ∧ cfg_GuardBadWindows cfg ≤ bad_streak (true :: ws) ∧
    Forall (λ b, b = true) (take (Z.to_nat (cfg_GuardBadWindows cfg)) (true :: ws)).
Proof.
  intros Hn Hrun Hr Hr' Hne. apply guard_run_streak in Hrun. unfold guard_release in Hr'.
  destruct (guard_window cfg db id state (tx_now env)) as [[bad g]|] eqn:Ew; [|congruence].
  pose proof (guard_window_streak cfg id db ws state _ bad g Hrun Ew) as Hle.
  destruct (Z.leb_spec (cfg_GuardBadWindows cfg) (gw_ConsecutiveBad g)); [|destruct stored; simpl in Hr'; congruence].
  destruct bad; [|simpl in Hle; lia]. exists g. assert (cfg_GuardBadWindows cfg ≤ bad_streak (true :: ws)) as Hs by lia.
  split_and!; [done..|]. clear -Hs Hn. revert Hs. generalize (true :: ws) as l. generalize (cfg_GuardBadWindows cfg) as n. intros n l.
  assert (∀ m : nat, Z.of_nat m ≤ bad_streak l → Forall (λ b, b = true) (take m l)) as Hm.
  { induction l as [|b l IH]; intros m Hm; [by rewrite take_nil; constructor|]. destruct m as [|m]; [constructor|].
    simpl in *. destruct b; [|lia]. constructor; [done|]. apply IH. lia. }
  intros Hs. apply Hm. pose proof (bad_streak_nonneg l). lia.
Qed.

(** ** Concrete guard windows *)
Module GuardDemo.
#[local] Existing Instance toy_crypto.
#[local] Existing Instance GovernDemo.audit.
#[local] Existing Instance GovernDemo.details.

Definition rid : string := "rel_1".
Definition row : release_row :=
  mkReleaseRow "enforce" (sample_artifact "" "p" None) "" 0 "" "alice" "exact" "human" None None None None None 0 None None.
Definition tables (guard : guard_row) (counter : counter_row) (denies : list (string * string)) : gov_db :=
  mkGovDb {[ rid := row ]} [(rid, "asset")] [("unit", "asset")] [] [] ∅ [] ∅ {[ rid := guard ]} {[ ("unit", rid) := counter ]} denies (mkAuditDb [] []).
Definition window (db : gov_db) (stored : bool) (now : Z) (g : string) : gov_db :=
  guard_release (λ _, true) (λ _, true) GovernDemo.cfg db rid "enforce" stored (GovernDemo.env now g).
Definition bad (db : gov_db) : option bool := fst <$> guard_window GovernDemo.cfg db rid "enforce" 0.
Definition state (db : gov_db) : option (string * string) := (λ r, (rw_State r, rw_RetireReason r)) <$> gd_releases db !! rid.
Definition failures (db : gov_db) : Z := sum_list_Z cw_5xx (release_counters db rid).
Definition feedback (db : gov_db) (event : string) (now : Z) : gov_db := (DenyFeedback db true "bob" rid event (GovernDemo.env now "")).1.
Definition report (db : gov_db) (requests errors : Z) : gov_db :=
  heartbeat_counters db "unit" 1 1 [mkReleaseCounter rid RELEASE_MODE_ENFORCE requests 0 0 0 errors 0 0 0].

(** A hundred failures of the upstream before the snapshot, none after it. *)
Definition old_failures : gov_db := tables (mkGuardRow 1000 0 0 0 None "" 0) (mkCounterRow 1 "enforce" 1000 0 0 0 100 0 0 0) [].
Definition quiet1 : gov_db := report old_failures 2000 100.
Definition quiet2 : gov_db := report (window quiet1 true 1 "g1") 3000 100.
Definition quiet3 : gov_db := window quiet2 true 2 "g2".

(** Feedback, a quiet window whose snapshot is lost, feedback. *)
Definition calm : gov_db := tables (mkGuardRow 0 0 0 0 None "" 0) (mkCounterRow 1 "enforce" 0 0 0 0 0 0 0 0) [].
Definition first : gov_db := feedback calm "e1" 1.
Definition second : gov_db := window first true 1 "g1".
Definition third : gov_db := feedback (window second false 2 "g2") "e2" 3.
Definition fourth : gov_db := window third true 3 "g3".
End GuardDemo.

(** The guard's snapshot does not keep the failures of the upstream, so a window
    compares all failures the release ever had with the requests of that window: a release
    whose upstream stopped failing before the first window is rolled back after two windows
    without a single new failure. *)
Theorem guard_counts_old_failures :
  GuardDemo.failures GuardDemo.quiet1 = GuardDemo.failures GuardDemo.old_failures ∧
  GuardDemo.failures GuardDemo.quiet2 = GuardDemo.failures GuardDemo.old_failures ∧
  GuardDemo.bad GuardDemo.quiet1 = Some true ∧ GuardDemo.bad GuardDemo.quiet2 = Some true ∧
  GuardDemo.state GuardDemo.quiet3 = Some ("retired", "rollback").
Proof. split_and!; vm_compute; reflexivity. Qed.

(** When the snapshot of a good window cannot be stored the count of bad windows is not
    reset: a bad, a good and a bad window roll the release back although two in a row are
    required. *)
Theorem lost_snapshot_misfires :
  cfg_GuardBadWindows GovernDemo.cfg = 2 ∧ GuardDemo.bad GuardDemo.first = Some true ∧ GuardDemo.bad GuardDemo.second = Some false ∧
  GuardDemo.bad GuardDemo.third = Some true ∧ GuardDemo.state GuardDemo.third = Some ("enforce", "") ∧
  GuardDemo.state GuardDemo.fourth = Some ("retired", "rollback").
Proof. split_and!; vm_compute; reflexivity. Qed.

Lemma rollback_needs_bad_windows_witness : 2 ≤ bad_streak [true; true].
Proof.
  pose (wdb := GuardDemo.feedback GuardDemo.second "e2" 2).
  assert (@guard_run toy_crypto GovernDemo.audit GovernDemo.details (λ _, true) (λ _, true) GovernDemo.cfg GuardDemo.rid wdb [true]) as Hrun.
  { apply run_feedback. pose (o := guard_window GovernDemo.cfg GuardDemo.first GuardDemo.rid "enforce" 1).
    apply (run_window _ _ _ _ _ [] "enforce" true (GovernDemo.env 1 "g1") true (default (mkGuardRow 0 0 0 0 None "" 0) (snd <$> o))).
    - apply run_feedback, run_start. intros g. change (gd_guards GuardDemo.calm) with ({[ GuardDemo.rid := mkGuardRow 0 0 0 0 None "" 0 ]} : gmap string guard_row).
      rewrite lookup_singleton_eq. by intros [= <-].
    - vm_compute. reflexivity.
    - reflexivity. }
  pose (after := GuardDemo.window wdb true 2 "g2").
  destruct (@rollback_needs_bad_windows toy_crypto GovernDemo.audit GovernDemo.details (λ _, true) (λ _, true) GovernDemo.cfg GuardDemo.rid wdb [true] "enforce" true
    (GovernDemo.env 2 "g2") GuardDemo.row (default GuardDemo.row (gd_releases after !! GuardDemo.rid))) as (g & _ & Hs & _);
    [reflexivity|exact Hrun|vm_compute; reflexivity|vm_compute; reflexivity|vm_compute; discriminate|exact Hs].
Defined.

Lemma auto_promotion_guarded_witness :
  ∃ row, gd_releases (set_releases GuardDemo.calm {[ GuardDemo.rid :=
    mkReleaseRow "canary" (with_report (mkArtifact "" KIND_POLICY "p" "policy/v1" None None "" [] None None None "" None None 0 0 0) Demo.good_report)
      "" 5 "" "alice" "exact" "human" None None None None None 0 None None ]}) !! GuardDemo.rid = Some row ∧ replayReportPassed (rw_Artifact row) = true.
Proof.
  pose (row := mkReleaseRow "canary" (with_report (mkArtifact "" KIND_POLICY "p" "policy/v1" None None "" [] None None None "" None None 0 0 0) Demo.good_report)
    "" 5 "" "alice" "exact" "human" None None None None None 0 None None).
  pose (db := set_releases GuardDemo.calm {[ GuardDemo.rid := row ]}).
  destruct (@auto_promotion_guarded toy_crypto GovernDemo.audit GovernDemo.details (λ _, true) (λ _, true) GovernDemo.cfg GovernDemo.known db GuardDemo.rid
    (GovernDemo.env 1 "g1")) as (r & mode & n & Hr & _ & _ & _ & _ & _ & Hp & _); [reflexivity| |exists r; split; [exact Hr|exact Hp]].
  right. intros E. apply (f_equal (λ d, rw_State <$> gd_releases d !! GuardDemo.rid)) in E. vm_compute in E. discriminate.
Defined.

(** ** Traffic review *)

Section review.
Context {C : Crypto} {A : AuditWire} {G : GovernDetails A} (ja : Artifact → bool) (jg : AssetGeneration → bool).
Context (key : string) (signer : option Signer) (pub : string) {SA : SigningAuthority key signer pub}.
Context (parse_over : TrafficReviewPolicy → string → option TrafficReviewPolicy) (marshal_review : TrafficReviewPolicy → option string).

(** Reading a policy back over the default gives its mode. *)
Hypothesis parse_marshal : ∀ p s, marshal_review p = Some s → trp_Mode <$> parse_over DefaultTrafficReviewPolicy s = Some (trp_Mode p).

Definition review_mode (db : gov_db) (asset : string) : option Z :=
  match loadTrafficReviewPolicyStatus parse_over db asset with Ok (p, _) => Some (trp_Mode p) | Err _ => None end.

Lemma status_mode db asset p gen : loadTrafficReviewPolicyStatus parse_over db asset = Ok (p, gen) →
  gen = default "" (GenerationId <$> latest_generation db asset) ∧
  match default ∅ (gd_settings db !! asset) !! trafficReviewSettingKind with
  | Some row => parse_over DefaultTrafficReviewPolicy (Payload (sr_Artifact row)) = Some p
  | None => p = DefaultTrafficReviewPolicy
  end.
Proof.
  unfold loadTrafficReviewPolicyStatus. destruct (_ !! trafficReviewSettingKind) as [row|]; simpl; [|by intros [= <- <-]].
  destruct (parse_over _ _); simpl; [by intros [= -> <-]|done].
Qed.

(** A successful change of the review mode of an asset goes to a mode between off and shadow
    candidates that is at most one level above the current one, made against the current
    generation when the caller names one; afterwards the mode is the requested one, and a real
    change publishes a signed generation that carries the new policy. *)
Theorem review_one_level db granted user asset expected target env db' :
  UpdateTrafficReviewPolicy ja jg key signer parse_over marshal_review db granted user asset expected target env = (db', Ok tt) →
  signs key signer = true →
  ∃ current gen, loadTrafficReviewPolicyStatus parse_over db (trim_space asset) = Ok (current, gen) ∧
    TRAFFIC_REVIEW_MODE_OFF ≤ target ≤ TRAFFIC_REVIEW_MODE_SHADOW_CANDIDATES ∧ target ≤ i32 (trp_Mode current + 1) ∧
    (trim_space expected = "" ∨ trim_space expected = gen) ∧ review_mode db' (trim_space asset) = Some target ∧
    (target ≠ trp_Mode current → ∃ g it, gd_generations db' = gd_generations db ++ [g] ∧ VerifyGeneration (Some g) pub = Ok tt ∧
       Some it ∈ Members g ∧ ri_ReleaseId it = "setting:traffic_review_policy").
Proof using SA parse_marshal.
  unfold UpdateTrafficReviewPolicy, in_tx. set (id := trim_space asset). case_bool_decide as Hid; [done|]. destruct granted; [|done]. cbn [negb].
  destruct (negb (_ || _)) eqn:Er; [|done]. destruct (update_traffic_review _ _ _ _ _ _ _ _ _ _ _ _) as [d|] eqn:Eu; [|done]. cbn [result_bind].
  destruct (tx_complete env); [|done]. destruct (tx_committed env); [|done]. intros [= <-] Hs. revert Eu. unfold update_traffic_review, review_mode.
  destruct (loadTrafficReviewPolicyStatus parse_over db id) as [[cur gen]|] eqn:El; [|done]. cbn [result_bind].
  destruct (bool_decide (trim_space expected = "") || bool_decide (trim_space expected = gen)) eqn:Eexp; [|done]. destruct (negb (_ <? _)) eqn:Elev; [|done]. intros H. exists cur, gen. breflect.
  rewrite !bool_decide_eq_true in Eexp. do 4 (split; [done || lia|]). destruct (Z.eqb_spec target (trp_Mode cur)) as [->|Hne].
  { injection H as <-. by rewrite El. }
  destruct (ValidateTrafficReviewPolicy _); [|done]. cbn [result_bind] in H. destruct (marshal_review _) as [payload|] eqn:Em; [|done].
  destruct (signArtifactEnvelope _ _ _ _) as [[art|] [[]|?]] eqn:Es; try done. apply authority_payload in Es. simpl in Es. destruct (ja art); [|done].
  destruct (publishAssetGeneration _ _ _ _ _ _ _ _) as [d2|] eqn:E2; [|done]. cbn [result_bind] in H.
  destruct (appendAuditTx _ _ _ _ _ _ _ _ _ _) as [au [u|]]; [|done]. cbn [result_bind] in H.
  destruct (loadTrafficReviewPolicyStatus parse_over (set_gov_audit d2 au) id) as [[p' gen']|] eqn:El'; [|done]. injection H as <-.
  destruct (publish_same jg key signer pub _ _ _ _ _ _ E2) as (_ & _ & Eset).
  assert (default ∅ (gd_settings d2 !! id) !! trafficReviewSettingKind = Some (mkSettingRow art (hex_encode (sha256 payload)) user)) as Hrow.
  { rewrite Eset. simpl. rewrite lookup_insert_eq. simpl. by rewrite lookup_insert_eq. }
  split.
  - rewrite El'. apply status_mode in El' as [_ El']. simpl in El'. rewrite Hrow in El'. simpl in El'. rewrite Es in El'.
    apply parse_marshal in Em. rewrite El' in Em. by injection Em as ->.
  - intros _. apply (publish_spec jg key signer pub) in E2 as [[_ [?|?]]|(_ & g & sig & e & Hg & Hv & -> & _)]; [done|congruence|].
    exists g. eexists. simpl. split; [done|]. split; [done|]. subst g. simpl. split.
    + apply elem_of_app. right. unfold setting_members. apply list_elem_of_omap. exists trafficReviewSettingKind.
      assert (default ∅ (gd_settings (put_setting db id trafficReviewSettingKind (mkSettingRow art (hex_encode (sha256 payload)) user)) !! id)
        !! trafficReviewSettingKind = Some (mkSettingRow art (hex_encode (sha256 payload)) user)) as Hput.
      { simpl. rewrite lookup_insert_eq. simpl. by rewrite lookup_insert_eq. }
      split; [|rewrite Hput; reflexivity]. apply sort_strings_elem, list_elem_of_fmap. exists (trafficReviewSettingKind, mkSettingRow art (hex_encode (sha256 payload)) user).
      split; [done|]. by apply elem_of_map_to_list.
    + reflexivity.
Qed.
End review.

Lemma review_one_level_witness :
  review_mode GovernDemo.parse_over (@UpdateTrafficReviewPolicy toy_crypto GovernDemo.audit GovernDemo.details (λ _, true) (λ _, true) toy_key None
    GovernDemo.parse_over GovernDemo.marshal_review GovernDemo.db0 true "bob" " asset " "" 2 (GovernDemo.env 1 "g1")).1 "asset" = Some 2.
Proof.
  pose (run := @UpdateTrafficReviewPolicy toy_crypto GovernDemo.audit GovernDemo.details (λ _, true) (λ _, true) toy_key None
    GovernDemo.parse_over GovernDemo.marshal_review GovernDemo.db0 true "bob" " asset " "" 2 (GovernDemo.env 1 "g1")).
  destruct (@review_one_level toy_crypto GovernDemo.audit GovernDemo.details (λ _, true) (λ _, true) toy_key None GovernDemo.pub
    (@key_authority toy_crypto toy_crypto_laws toy_key) GovernDemo.parse_over GovernDemo.marshal_review GovernDemo.parse_marshal
    GovernDemo.db0 true "bob" " asset " "" 2 (GovernDemo.env 1 "g1") (fst run)) as (cur & gen & _ & _ & _ & _ & Hm & _);
    [|vm_compute; reflexivity|exact Hm].
  assert (∀ p : gov_db * result unit, snd p = Ok tt → p = (fst p, Ok tt)) as Hpair by (by intros [] [=->]).
  apply Hpair. vm_compute. reflexivity.
Defined.
