(* ===== verification/Triage.v ===== *)
(** * Triage clusters and trusted proposals

    [lib/brain/cluster.go]: events that need a decision are gathered in clusters by asset,
    method, route and detection key.  A call reads the open cluster without locking it and
    writes later in its READ COMMITTED transaction, so it is a function of the state it read
    and of the state it writes to.  [lib/brain/proposal_trust.go] and the compilation of
    [govern_write.go]: a proposal for production only names a cluster; what it may block is
    derived from the events pinned in the cluster.  [url.ParseQuery] and the case tables are those
    of [GoStrings]; decoding of stored JSON is the class [Payloads] or part of a row ([None] is
    a column that does not decode). *)

From S2P Require Import Prelude GoStrings Contracts Signing SignerService AuditChain GenerationStore ReleaseLifecycle Canonical Shape Policy ReleaseSet Govern Catalog Scheduler GovernProofs.

Definition ClusterIdle : duration := 2 * Hour.
Definition ClusterRepresentatives : nat := 5.

(** The fields of an event the two files read. *)
Record EventDetection := mkEventDetection { ed_Key : option DetectionKey; ed_RuleId : string }.
Record Event := mkEvent {
  ev_Id : string; ev_AssetId : string; ev_Http : option (string * string * string);
  ev_TriageReason : string; ev_Detections : list (option EventDetection) }.

Definition SUSPECTED_MISS : string := "TRIAGE_REASON_SUSPECTED_MISS".
Definition DETECTED_UNMITIGATED : string := "TRIAGE_REASON_DETECTED_UNMITIGATED".

(** ** Identity of a cluster *)

Section identity.
Context {C : Crypto} {U : Unicode}.

Definition identity_text (assetID method routeTemplate keyOrMiss : string) : string :=
  join (String newline "") [trim_space assetID; to_upper (trim_space method); trim_space routeTemplate; trim_space keyOrMiss].

Definition ClusterIdentity (assetID method routeTemplate keyOrMiss : string) : string :=
  hex_encode (sha256 (identity_text assetID method routeTemplate keyOrMiss)).

(** A segment of 36 bytes in the form of a UUID; a rune above 127 is neither a dash nor a hexadecimal
    digit, so that the test can be made byte by byte. *)
Fixpoint uuid_from (i : nat) (s : string) : bool :=
  match s with
  | EmptyString => true
  | String c s' =>
      (if existsb (Nat.eqb i) [8; 13; 18; 23]%nat then bool_decide (c = "-"%char) else is_hex c) && uuid_from (S i) s'
  end.

Definition isTemplateID (s : string) : bool :=
  if bool_decide (s = "") then false
  else if forallb is_digit (runes s) then true
  else if str_len s =? 36 then uuid_from 0 s
  else false.

Definition RouteTemplate (path : string) : string :=
  if bool_decide (path = "") then "/"
  else join "/" ((λ p, if bool_decide (p = "") then p else if isTemplateID p then "{id}" else p) <$> split_byte "/"%char path).

Fixpoint detection_key (ds : list (option EventDetection)) : string :=
  match ds with
  | [] => ""
  | None :: ds' => detection_key ds'
  | Some d :: ds' =>
      match ed_Key d with
      | Some k => "key:" +:+ trim_space (key_RuleId k) +:+ ":" +:+ trim_space (TargetSelector k)
      | None => if bool_decide (trim_space (ed_RuleId d) = "") then detection_key ds' else "key:" +:+ trim_space (ed_RuleId d)
      end
  end.

Definition EventClusterKey (ev : option Event) : string :=
  match ev with
  | None => ""
  | Some ev => if bool_decide (ev_TriageReason ev = SUSPECTED_MISS) then "miss" else detection_key (ev_Detections ev)
  end.

(** A zero [time.Time] is [None]. *)
Definition ClusterOpen (exists_ : bool) (lastSeen : option time) (now : time) : bool :=
  if negb exists_ then true else match lastSeen with Some t => ClusterIdle <=? time_sub now t | None => false end.

Definition AppendRepresentatives (ids : list string) (eventID : string) : list string :=
  if bool_decide (eventID = "") then ids
  else if bool_decide (eventID ∈ ids) then ids
  else if bool_decide (ClusterRepresentatives ≤ length ids)%nat then ids
  else ids ++ [eventID].

(** ** The table of clusters *)

Record cluster_row := mkClusterRow {
  cl_Asset : string; cl_Route : string; cl_Method : string; cl_Identity : string; cl_Reason : string;
  cl_EventIDs : list string; cl_Representative : string; cl_OpenedAt : time; cl_LastSeen : time; cl_ClosedAt : option time; cl_Version : Z }.

(** The clusters, and the cluster each stored event is assigned to. *)
Record triage_db := mkTriageDb { td_clusters : gmap string cluster_row; td_assigned : gmap string string }.

Definition event_method (ev : Event) : string := match ev_Http ev with Some (m, _, _) => m | None => "" end.
Definition event_path (ev : Event) : string := match ev_Http ev with Some (_, p, _) => p | None => "" end.
Definition event_route (ev : Event) : string := RouteTemplate (event_path ev).
Definition event_identity (ev : Event) : string :=
  ClusterIdentity (ev_AssetId ev) (event_method ev) (event_route ev) (EventClusterKey (Some ev)).

Definition is_open (asset identity : string) (row : cluster_row) : bool :=
  bool_decide (cl_Asset row = asset) && bool_decide (cl_Identity row = identity) && bool_decide (cl_ClosedAt row = None).

Definition open_clusters (db : triage_db) (asset identity : string) : list (string * cluster_row) :=
  filter (λ kv, is_open asset identity kv.2 = true) (map_to_list (td_clusters db)).

Definition touch_cluster (row : cluster_row) (ids : list string) (now : time) : cluster_row :=
  mkClusterRow (cl_Asset row) (cl_Route row) (cl_Method row) (cl_Identity row) (cl_Reason row) ids (cl_Representative row) (cl_OpenedAt row) now
    (cl_ClosedAt row) (if bool_decide (ids = cl_EventIDs row) then cl_Version row else cl_Version row + 1).

Definition close_cluster (row : cluster_row) (now : time) : cluster_row :=
  mkClusterRow (cl_Asset row) (cl_Route row) (cl_Method row) (cl_Identity row) (cl_Reason row) (cl_EventIDs row) (cl_Representative row)
    (cl_OpenedAt row) (cl_LastSeen row) (Some now) (cl_Version row).

(** [UPDATE events SET cluster_id]: only a stored event is assigned. *)
Definition assign (db : triage_db) (clusters : gmap string cluster_row) (eventID clusterID : string) : triage_db :=
  mkTriageDb clusters (match td_assigned db !! eventID with Some _ => <[eventID := clusterID]> (td_assigned db) | None => td_assigned db end).

(** [UPDATE triage_clusters ... WHERE cluster_id=...] on the current row, locked until the
    transaction ends. *)
Definition update_cluster (m : gmap string cluster_row) (id : string) (f : cluster_row → cluster_row) : gmap string cluster_row :=
  match m !! id with Some row => <[id := f row]> m | None => m end.

(** The open cluster is looked up in [read], the state when the SELECT ran; the writes apply to
    [db], the state when the transaction commits.  [random] makes the identifier of a new
    cluster; the insertion is refused by the primary key or by the unique index on open
    clusters, and then the transaction is rolled back. *)
Definition upsertTriageCluster (read db : triage_db) (ev : Event) (now : time) (random : string) : triage_db * result string :=
  let identity := event_identity ev in
  let existing := head (open_clusters read (ev_AssetId ev) identity) in
  let idle := match existing with Some (_, row) => ClusterOpen true (Some (cl_LastSeen row)) now | None => true end in
  match existing, idle with
  | Some (id, row), false =>
      let ids := AppendRepresentatives (cl_EventIDs row) (ev_Id ev) in
      (assign db (update_cluster (td_clusters db) id (λ cur, touch_cluster cur ids now)) (ev_Id ev) id, Ok id)
  | _, _ =>
      let closed := match existing with
                    | Some (id, _) => update_cluster (td_clusters db) id (λ cur, close_cluster cur now)
                    | None => td_clusters db
                    end in
      let id := newID "clu" random in
      let row := mkClusterRow (ev_AssetId ev) (event_route ev) (event_method ev) identity (ev_TriageReason ev) [ev_Id ev] (ev_Id ev) now now None 1 in
      if bool_decide (closed !! id = None)
         && bool_decide (open_clusters (mkTriageDb closed (td_assigned db)) (ev_AssetId ev) identity = [])
      then (assign db (<[id := row]> closed) (ev_Id ev) id, Ok id)
      else (db, Err "duplicate key value violates unique constraint")
  end.
End identity.

(** ** Trusted proposals *)

Inductive ProposalKind := PROPOSAL_KIND_POLICY | PROPOSAL_KIND_SHAPE | PROPOSAL_KIND_other (n : Z).
#[global] Instance ProposalKind_eq_dec : EqDecision ProposalKind. Proof. solve_decision. Defined.

Record ProposalIntent := mkProposalIntent {
  in_Kind : ProposalKind; in_ClusterId : string; in_RouteTemplate : string; in_Methods : list string;
  in_DetectionKeys : list (option DetectionKey); in_ShapeSource : option ShapeSource }.

Record proposalCluster := mkProposalCluster {
  pcl_assetID : string; pcl_route : string; pcl_method : string; pcl_reason : string; pcl_eventIDs : list string; pcl_events : list Event }.

Record trusted := mkTrusted {
  tr_intent : ProposalIntent; tr_scope : Scope; tr_evidenceRefs : list string; tr_scopeRisk : Z; tr_evidence : Z }.

Definition SCOPE_RISK_EXACT : Z := 1.
Definition SCOPE_RISK_ROUTE : Z := 2.
Definition EVIDENCE_CLASS_CRS_MAPPED : Z := 1.
Definition EVIDENCE_CLASS_CRS_UNMAPPED : Z := 2.
Definition EVIDENCE_CLASS_INTEL : Z := 5.

(** A stored event: its asset column, and its payload unless that does not decode. *)
Record event_row := mkEventRow { er_Asset : string; er_Payload : option Event }.

Fixpoint load_events (rows : list (string * event_row)) (asset : string) : result (list Event) :=
  match rows with
  | [] => Ok []
  | (id, row) :: rest =>
      match er_Payload row with
      | None => Err "cluster event is invalid"
      | Some ev =>
          guard! bool_decide (ev_AssetId ev = asset) else "cluster event asset mismatch" in
          let! evs := load_events rest asset in Ok (ev :: evs)
      end
  end.

Definition event_rows (events : gmap string event_row) (ids : list string) (asset : string) : list (string * event_row) :=
  omap (λ id, row ← events !! id; if bool_decide (er_Asset row = asset) then Some (id, row) else None) (sort_strings (remove_dups ids)).

Definition loadProposalCluster (clusters : gmap string cluster_row) (events : gmap string event_row) (clusterID : string) : result proposalCluster :=
  match clusters !! clusterID with
  | None => Err "proposal cluster not found"
  | Some row =>
      guard! negb (bool_decide (cl_EventIDs row = [])) else "proposal cluster has no pinned events" in
      let rows := event_rows events (cl_EventIDs row) (cl_Asset row) in
      let! evs := load_events rows (cl_Asset row) in
      guard! forallb (λ id, bool_decide (id ∈ rows.*1)) (cl_EventIDs row) else "cluster pinned event is missing" in
      Ok (mkProposalCluster (cl_Asset row) (cl_Route row) (cl_Method row) (cl_Reason row) (cl_EventIDs row) evs)
  end.

Section trust.
Context {U : Unicode}.

Definition detectionKeyAssertionMatches (asserted trusted : DetectionKey) : bool :=
  let same f := bool_decide (f asserted = "") || bool_decide (f asserted = f trusted) in
  bool_decide (key_RuleId asserted = key_RuleId trusted) && same DetectorId && same DetectorVersion && same DetectorManifestDigest
  && same key_Phase && (bool_decide (TargetLocation asserted = INSPECTION_SURFACE_UNSPECIFIED) || bool_decide (TargetLocation asserted = TargetLocation trusted))
  && same TargetSelector && same NormalizationProfileDigest.

(** The keys of the detections of the events that name a rule, in order. *)
Definition available_keys (events : list Event) : list DetectionKey :=
  events ≫= λ ev, omap (λ d, d ← d; k ← ed_Key d; if bool_decide (key_RuleId k = "") then None else Some k) (ev_Detections ev).

Fixpoint select_keys (available : list DetectionKey) (asserted : list (option DetectionKey)) (selected : list DetectionKey) : result (list DetectionKey) :=
  match asserted with
  | [] => Ok selected
  | None :: _ => Err "detection key rule_id is required"
  | Some claim :: rest =>
      if bool_decide (trim_space (key_RuleId claim) = "") then Err "detection key rule_id is required" else
      match filter (λ k, detectionKeyAssertionMatches claim k = true) available with
      | [k] => select_keys available rest (if bool_decide (k ∈ selected) then selected else selected ++ [k])
      | _ => Err "detection key is absent or ambiguous in pinned cluster"
      end
  end.

Definition trustedPolicyKeys (asserted : list (option DetectionKey)) (events : list Event) : result (list DetectionKey) :=
  guard! negb (bool_decide (asserted = [])) else "policy intent requires detection_keys" in
  select_keys (available_keys events) asserted [].

Definition deriveClusterRoute (intent : ProposalIntent) (cluster : proposalCluster) : result ProposalIntent :=
  guard! bool_decide (in_RouteTemplate intent = "") || bool_decide (in_RouteTemplate intent = pcl_route cluster) else "proposal route does not match cluster" in
  guard! match in_Methods intent with [] => true | [m] => equal_fold m (pcl_method cluster) | _ => false end else "proposal methods do not match cluster" in
  Ok (mkProposalIntent (in_Kind intent) (in_ClusterId intent) (pcl_route cluster) [to_upper (pcl_method cluster)] (in_DetectionKeys intent)
        (in_ShapeSource intent)).

Definition event_selectors (ev : Event) : list string :=
  match ev_Http ev with Some (_, _, query) => (λ kv, "query." +:+ kv.1) <$> map_to_list (ParseQuery query).1 | None => [] end
  ++ omap (λ d, d ← d; k ← ed_Key d; if bool_decide (TargetSelector k = "") then None else Some (TargetSelector k)) (ev_Detections ev).

Definition validateShapeAgainstCluster (shape : option ShapeSource) (cluster : proposalCluster) : result unit :=
  match shape with
  | None => Err "shape_source is required"
  | Some shape =>
      guard! match ss_Methods shape with [m] => equal_fold m (pcl_method cluster) | _ => false end else "shape methods do not match cluster" in
      guard! bool_decide (ss_RouteTemplate shape = "") || bool_decide (ss_RouteTemplate shape = pcl_route cluster)
      else "shape route does not match cluster" in
      guard! bool_decide (ss_PathPrefix shape = "") || has_prefix (pcl_route cluster) (ss_PathPrefix shape)
      else "shape prefix does not cover cluster route" in
      let selectors := pcl_events cluster ≫= event_selectors in
      guard! forallb (λ c, match c with Some c => bool_decide (sc_Selector c ∈ selectors) | None => false end) (ss_Constraints shape)
      else "shape selector is absent from pinned cluster" in
      Ok tt
  end.

(** The request of a production proposal: only the intent and the scope may be set. *)
Definition deriveTrustedProposal (clusters : gmap string cluster_row) (events : gmap string event_row) (msg : ProposeArtifactRequest)
    (createdBy : string) (intent : option ProposalIntent) : result trusted :=
  match intent with
  | None => Err "production requires proposal intent"
  | Some intent =>
      guard! bool_decide (pr_Kind msg = KIND_UNSPECIFIED) && bool_decide (pr_Payload msg = "") && bool_decide (pr_PayloadSchema msg = "")
             && bool_decide (createdBy = "") && bool_decide (pr_EvidenceRefs msg = []) else "production proposal accepts intent only" in
      let clusterID := trim_space (in_ClusterId intent) in
      guard! negb (bool_decide (clusterID = "")) else "cluster_id is required" in
      let! cluster := loadProposalCluster clusters events clusterID in
      match pr_Scope msg with
      | None => Err "proposal scope must equal cluster asset"
      | Some scope =>
          guard! bool_decide (scope_AssetIds scope = [pcl_assetID cluster]) else "proposal scope must equal cluster asset" in
          guard! bool_decide (scope_RouteSelector scope = "") || has_prefix (pcl_route cluster) (scope_RouteSelector scope)
          else "proposal scope route is not supported by cluster" in
          match in_Kind intent with
          | PROPOSAL_KIND_POLICY =>
              guard! bool_decide (pcl_reason cluster = DETECTED_UNMITIGATED) else "policy proposal requires detected unmitigated cluster" in
              let! keys := trustedPolicyKeys (in_DetectionKeys intent) (pcl_events cluster) in
              let! routed := deriveClusterRoute intent cluster in
              let intent' := mkProposalIntent (in_Kind routed) (in_ClusterId routed) (in_RouteTemplate routed) (in_Methods routed) (Some <$> keys)
                (in_ShapeSource routed) in
              let risk := if existsb (λ k, negb (bool_decide (TargetSelector k = ""))) keys then SCOPE_RISK_EXACT else SCOPE_RISK_ROUTE in
              Ok (mkTrusted intent' scope (pcl_eventIDs cluster) risk EVIDENCE_CLASS_CRS_MAPPED)
          | PROPOSAL_KIND_SHAPE =>
              guard! bool_decide (pcl_reason cluster = SUSPECTED_MISS) else "shape proposal requires suspected miss cluster" in
              let! _ := validateShapeAgainstCluster (in_ShapeSource intent) cluster in
              Ok (mkTrusted intent scope (pcl_eventIDs cluster) SCOPE_RISK_EXACT EVIDENCE_CLASS_INTEL)
          | _ => Err "proposal intent kind is required"
          end
      end
  end.
End trust.

(** ** Compiling a proposal *)

Definition filterAutoGovernKeys (keys : list (option DetectionKey)) (mapper : option TaxonomyMapper) : list (option DetectionKey) :=
  filter (λ k, AutoGovernable k mapper = true) keys.

(** The digest of the first key, emptied when another key differs. *)
Definition merge_digest (f : DetectionKey → string) (acc : option string) (k : option DetectionKey) : option string :=
  match k, acc with
  | None, _ => acc
  | Some k, None => Some (f k)
  | Some k, Some d => Some (if bool_decide (d = f k) then d else "")
  end.

Definition policyDependencies (keys : list (option DetectionKey)) : PolicyDependencies :=
  mkPolicyDependencies (default "" (foldl (merge_digest DetectorManifestDigest) None keys))
    (default "" (foldl (merge_digest NormalizationProfileDigest) None keys)) MinimumEdgeVersion.

Definition compilePolicyPayload (intent : ProposalIntent) (scope : option Scope) (keys : list (option DetectionKey)) : result PolicyCandidate :=
  let deps := policyDependencies keys in
  guard! negb (bool_decide (dep_DetectorManifestDigest deps = "") || bool_decide (dep_NormalizerProfileDigest deps = "")
               || bool_decide (dep_MinEdgeVersion deps = "")) else "policy detection_keys require one complete dependency set" in
  let asset := match scope with Some s => default "" (head (scope_AssetIds s)) | None => "" end in
  Ok (mkPolicyCandidate "" (Some (mkPolicyScope asset [] (in_RouteTemplate intent) "" (in_Methods intent) [] []))
        (Some (mkPolicyPredicate keys f64_zero true COVERAGE_STATUS_UNSPECIFIED)) "block" (Some deps)).

(** What a proposal becomes before it is encoded. *)
Inductive compiled := CompiledPolicy (c : PolicyCandidate) | CompiledShape (s : ShapeSource).

Section compile.
Context {U : Unicode}.

Definition compileProposalPayload (intent : ProposalIntent) (scope : option Scope) (mapper : option TaxonomyMapper) : result compiled :=
  match in_Kind intent with
  | PROPOSAL_KIND_SHAPE =>
      let! _ := ValidateShapeSource (in_ShapeSource intent) in
      match in_ShapeSource intent with Some s => Ok (CompiledShape s) | None => Err "shape_source is required" end
  | _ =>
      let keys := filterAutoGovernKeys (in_DetectionKeys intent) mapper in
      guard! negb (bool_decide (keys = [])) else "policy intent requires auto-governable detection_keys" in
      let! c := compilePolicyPayload intent scope keys in Ok (CompiledPolicy c)
  end.

(** The first member of the latest generation that is a mapper and decodes. *)
Fixpoint member_mapper {P : Payloads} (ms : list (option ReleaseItem)) : option TaxonomyMapper :=
  match ms with
  | [] => None
  | m :: ms' =>
      match m ≫= ri_Artifact with
      | Some a => if bool_decide (ArtKind a = KIND_TAXONOMY_MAPPER)
                  then match parse_mapper (Payload a) with Some x => Some x | None => member_mapper ms' end
                  else member_mapper ms'
      | None => member_mapper ms'
      end
  end.

Definition loadAssetTaxonomyMapper {P : Payloads} (db : gov_db) (assetID : string) : option TaxonomyMapper :=
  if bool_decide (assetID = "") then None else g ← latest_generation db assetID; member_mapper (Members g).

(** The payload [writeTrustedProposal] stores, before encoding. *)
Definition compile_trusted {P : Payloads} (db : gov_db) (t : trusted) : result compiled :=
  let mapper := match scope_AssetIds (tr_scope t) with a :: _ => loadAssetTaxonomyMapper db a | [] => None end in
  if bool_decide (tr_evidence t = EVIDENCE_CLASS_CRS_UNMAPPED) && bool_decide (in_Kind (tr_intent t) = PROPOSAL_KIND_POLICY)
  then let! c := compilePolicyPayload (tr_intent t) (Some (tr_scope t)) (in_DetectionKeys (tr_intent t)) in Ok (CompiledPolicy c)
  else compileProposalPayload (tr_intent t) (Some (tr_scope t)) mapper.

(** [marshal] encodes a compiled payload. *)
Definition writeProposeIntent {C : Crypto} {A : AuditWire} {G : GovernDetails A} {P : Payloads} (json_artifact : Artifact → bool)
    (marshal : compiled → result string) (clusters : gmap string cluster_row) (events : gmap string event_row)
    (db : gov_db) (user : string) (msg : ProposeArtifactRequest) (createdBy : string) (intent : option ProposalIntent) (random : string) (env : tx_env)
    : gov_db * result string :=
  match deriveTrustedProposal clusters events msg createdBy intent with
  | Err e => (db, Err e)
  | Ok t =>
      writeTrustedProposal json_artifact db user
        (mkTrustedProposal (bool_decide (in_Kind (tr_intent t) = PROPOSAL_KIND_SHAPE)) (Some (tr_scope t)) (tr_scopeRisk t) (tr_evidence t) (tr_evidenceRefs t))
        (pr_Ttl msg) (let! c := compile_trusted db t in marshal c) random env
  end.
End compile.

(** ** Route templates *)

Section route_facts.
Context {U : Unicode}.

Definition template_segment (p : string) : string :=
  if bool_decide (p = "") then p else if isTemplateID p then "{id}" else p.

Lemma RouteTemplate_segments path :
  path ≠ "" → RouteTemplate path = join "/" (template_segment <$> split_byte "/"%char path).
Proof. intros Hp. unfold RouteTemplate. by rewrite bool_decide_eq_false_2. Qed.

Lemma template_segment_empty p : template_segment p = "" ↔ p = "".
Proof. unfold template_segment. case_bool_decide; [done|]. by destruct (isTemplateID p). Qed.

Lemma template_segment_plain p : str_mem "/"%char p = false → str_mem "/"%char (template_segment p) = false.
Proof. intros Hp. unfold template_segment. case_bool_decide; [done|]. by destruct (isTemplateID p). Qed.

Lemma template_segment_idemp p : template_segment (template_segment p) = template_segment p.
Proof.
  destruct (decide (p = "")) as [->|Hp]; [done|]. unfold template_segment at 2 3. rewrite bool_decide_eq_false_2 by done.
  destruct (isTemplateID p) eqn:E; [reflexivity|]. unfold template_segment. by rewrite bool_decide_eq_false_2, E.
Qed.

Lemma split_byte_cons c s : ∃ h t, split_byte c s = h :: t.
Proof. destruct s as [|a s]; simpl; [eauto|]. case_bool_decide; [eauto|]. destruct (split_byte c s); eauto. Qed.

Lemma template_segments_split path :
  path ≠ "" → split_byte "/"%char (RouteTemplate path) = template_segment <$> split_byte "/"%char path.
Proof.
  intros Hp. rewrite RouteTemplate_segments by done. apply (split_join "/"%char).
  - destruct (split_byte_cons "/"%char path) as (h & t & ->). done.
  - apply Forall_fmap, Forall_forall. intros seg Hs. apply template_segment_plain. by eapply split_byte_no_sep.
Qed.

Lemma template_filter (l : list string) :
  filter (λ part, part ≠ "") (template_segment <$> l) = template_segment <$> filter (λ part, part ≠ "") l.
Proof.
  induction l as [|p l IH]; [done|]. rewrite fmap_cons, !filter_cons. pose proof (template_segment_empty p).
  repeat case_decide; rewrite ?fmap_cons, IH; [done|tauto|tauto|done].
Qed.

Lemma segments_match_template (l : list string) : Forall (λ p, p ≠ "") l → segments_match (template_segment <$> l) l = true.
Proof.
  induction 1 as [|p l Hp _ IH]; [done|]. rewrite fmap_cons. simpl.
  destruct (is_wildcard (template_segment p)) eqn:Ew; [by rewrite bool_decide_eq_false_2|].
  assert (template_segment p = p) as ->; [|by rewrite bool_decide_eq_true_2].
  unfold template_segment in *. rewrite bool_decide_eq_false_2 in * by done. by destruct (isTemplateID p).
Qed.

Lemma route_template_matches path : routeTemplateMatch (RouteTemplate path) path = true.
Proof.
  unfold routeTemplateMatch, splitPath. destruct (decide (path = "")) as [->|Hp]; [done|].
  rewrite template_segments_split, template_filter, length_fmap, bool_decide_eq_true_2 by done. simpl.
  apply segments_match_template, Forall_forall. intros p Hin%list_elem_of_filter. tauto.
Qed.

Lemma route_template_idempotent path : RouteTemplate (RouteTemplate path) = RouteTemplate path.
Proof.
  destruct (decide (path = "")) as [->|Hp]; [done|].
  assert (RouteTemplate path ≠ "") as Hr.
  { intros E. pose proof (template_segments_split path Hp) as Hs. rewrite E in Hs. simpl in Hs.
    destruct path as [|a s]; [done|]. simpl in Hs. case_bool_decide.
    - destruct (split_byte_cons "/"%char s) as (h & t & E'). by rewrite E' in Hs.
    - destruct (split_byte "/"%char s) as [|h t]; rewrite fmap_cons in Hs; apply (f_equal head) in Hs; injection Hs as Hh; symmetry in Hh;
        apply (proj1 (template_segment_empty _)) in Hh; done. }
  rewrite (RouteTemplate_segments (RouteTemplate path)), template_segments_split by done.
  rewrite (RouteTemplate_segments path) by done. f_equal. rewrite <- list_fmap_compose.
  apply list_fmap_ext. intros i p _. simpl. apply template_segment_idemp.
Qed.
End route_facts.

(** ** Clusters *)

Section cluster_facts.
Context {C : Crypto} {U : Unicode}.

(** The states of the table, the latest first, and the events of the committed calls.  A call
    has read any state of the history; the column of the events changes freely, as events are
    stored. *)
Inductive triage_run : list triage_db → list Event → Prop :=
| run_start assigned : triage_run [mkTriageDb ∅ assigned] []
| run_events db hist evs assigned : triage_run (db :: hist) evs → triage_run (mkTriageDb (td_clusters db) assigned :: db :: hist) evs
| run_call db hist evs read ev now random db' id :
    triage_run (db :: hist) evs → read ∈ db :: hist → upsertTriageCluster read db ev now random = (db', Ok id) →
    triage_run (db' :: db :: hist) (evs ++ [ev]).

(** What a row promises of the events seen. *)
Record cluster_ok (seen : list Event) (row : cluster_row) : Prop := {
  co_length : (1 ≤ length (cl_EventIDs row) ≤ ClusterRepresentatives)%nat;
  co_nodup : NoDup (cl_EventIDs row);
  co_version : Z.of_nat (length (cl_EventIDs row)) ≤ cl_Version row;
  co_representative : head (cl_EventIDs row) = Some (cl_Representative row);
  co_grounded : ∀ e, e ∈ cl_EventIDs row → ∃ ev, ev ∈ seen ∧ ev_Id ev = e ∧ ev_AssetId ev = cl_Asset row ∧ event_identity ev = cl_Identity row }.

Definition unique_open (m : gmap string cluster_row) : Prop :=
  ∀ asset identity i j r s, m !! i = Some r → m !! j = Some s → is_open asset identity r = true → is_open asset identity s = true → i = j.

Record triage_inv (seen : list Event) (db : triage_db) : Prop := {
  ti_rows : ∀ id row, td_clusters db !! id = Some row → cluster_ok seen row;
  ti_unique : unique_open (td_clusters db) }.

(** What later states keep of a row: what it is about, and that it is closed. *)
Record same_cluster (row row' : cluster_row) : Prop := {
  sc_asset : cl_Asset row' = cl_Asset row;
  sc_identity : cl_Identity row' = cl_Identity row;
  sc_representative : cl_Representative row' = cl_Representative row;
  sc_version : cl_Version row ≤ cl_Version row';
  sc_closed : cl_ClosedAt row' = None → cl_ClosedAt row = None }.
Definition grows (m m' : gmap string cluster_row) : Prop :=
  ∀ id row, m !! id = Some row → ∃ row', m' !! id = Some row' ∧ same_cluster row row'.

#[local] Instance same_cluster_preorder : PreOrder same_cluster.
Proof.
  split; [by intros row; split|]. intros r1 r2 r3 [A1 A2 A3 A4 A5] [B1 B2 B3 B4 B5]. split; [congruence..|lia|auto].
Qed.
#[local] Instance grows_preorder : PreOrder grows.
Proof.
  split; [intros m id row H; by exists row|]. intros m1 m2 m3 H12 H23 id row (r2 & (r3 & H3 & S3)%H23 & S2)%H12.
  exists r3. split; [done|by etrans].
Qed.

Lemma is_open_iff asset identity row :
  is_open asset identity row = true ↔ cl_Asset row = asset ∧ cl_Identity row = identity ∧ cl_ClosedAt row = None.
Proof. unfold is_open. rewrite !andb_true_iff, !bool_decide_eq_true. tauto. Qed.

Lemma open_clusters_elem db asset identity id row :
  (id, row) ∈ open_clusters db asset identity ↔ td_clusters db !! id = Some row ∧ is_open asset identity row = true.
Proof. unfold open_clusters. rewrite list_elem_of_filter, elem_of_map_to_list. simpl. tauto. Qed.

Lemma head_open db asset identity id row :
  head (open_clusters db asset identity) = Some (id, row) → td_clusters db !! id = Some row ∧ is_open asset identity row = true.
Proof. intros H. apply open_clusters_elem. destruct (open_clusters db asset identity); simplify_eq/=. apply list_elem_of_here. Qed.

Lemma no_open db asset identity :
  (∀ id row, td_clusters db !! id = Some row → is_open asset identity row = true → False) → open_clusters db asset identity = [].
Proof.
  intros H. destruct (open_clusters db asset identity) as [|[id row] l] eqn:E; [done|]. exfalso.
  assert ((id, row) ∈ open_clusters db asset identity) as [? ?]%open_clusters_elem by (rewrite E; apply list_elem_of_here). eauto.
Qed.

Lemma head_none db asset identity :
  head (open_clusters db asset identity) = None → open_clusters db asset identity = [].
Proof. by destruct (open_clusters db asset identity). Qed.

Lemma AppendRepresentatives_cases ids e :
  AppendRepresentatives ids e = ids ∨ e ∉ ids ∧ (length ids < ClusterRepresentatives)%nat ∧ AppendRepresentatives ids e = ids ++ [e].
Proof. unfold AppendRepresentatives. repeat case_bool_decide; (by left) || right. split_and!; [done|lia|done]. Qed.

Lemma cluster_ok_weaken seen ev row : cluster_ok seen row → cluster_ok (seen ++ [ev]) row.
Proof. intros [? ? ? ? Hg]. split; try done. intros e (x & Hx & ?)%Hg. exists x. split; [by apply elem_of_app; left|done]. Qed.

Lemma cluster_ok_close seen row now : cluster_ok seen row → cluster_ok seen (close_cluster row now).
Proof. by intros [? ? ? ? ?]. Qed.

(** A list computed from an earlier state of the row keeps the promise. *)
Lemma cluster_ok_touch seen ev old cur now :
  cluster_ok seen old → cluster_ok seen cur → same_cluster old cur → ev_AssetId ev = cl_Asset old → event_identity ev = cl_Identity old →
  cluster_ok (seen ++ [ev]) (touch_cluster cur (AppendRepresentatives (cl_EventIDs old) (ev_Id ev)) now).
Proof.
  intros Hold Hcur [Sa Si Sr Sv _] Ha Hi. pose proof (cluster_ok_weaken _ ev _ Hold) as [Hl Hn Hv Hr Hg].
  pose proof (co_version _ _ Hcur) as Hvc. unfold touch_cluster. set (ids := AppendRepresentatives _ _).
  assert (∀ e, e ∈ ids → ∃ x, x ∈ seen ++ [ev] ∧ ev_Id x = e ∧ ev_AssetId x = cl_Asset cur ∧ event_identity x = cl_Identity cur) as Hgr.
  { rewrite Sa, Si. intros e. unfold ids. destruct (AppendRepresentatives_cases (cl_EventIDs old) (ev_Id ev)) as [->|(_ & _ & ->)]; [apply Hg|].
    intros [He|He%list_elem_of_singleton]%elem_of_app; [by apply Hg|]. exists ev. split_and!; try done.
    apply elem_of_app. right. by apply list_elem_of_singleton. }
  assert ((1 ≤ length ids ≤ ClusterRepresentatives)%nat ∧ NoDup ids ∧ head ids = Some (cl_Representative cur) ∧
    (length ids ≤ S (length (cl_EventIDs old)))%nat) as (Hl' & Hn' & Hr' & Hle).
  { rewrite Sr. unfold ids. destruct (AppendRepresentatives_cases (cl_EventIDs old) (ev_Id ev)) as [->|(Hnew & Hlt & ->)]; [by split_and!; try lia|].
    rewrite length_app. simpl. split_and!; [lia|lia| |by destruct (cl_EventIDs old)|lia].
    apply NoDup_app. split_and!; [done|intros x Hx ->%list_elem_of_singleton; done|apply NoDup_singleton]. }
  split; simpl; [done|done| |done|done]. case_bool_decide as E; [by rewrite E|lia].
Qed.

Lemma cluster_ok_new seen ev now :
  cluster_ok (seen ++ [ev])
    (mkClusterRow (ev_AssetId ev) (event_route ev) (event_method ev) (event_identity ev) (ev_TriageReason ev) [ev_Id ev] (ev_Id ev) now now None 1).
Proof.
  split; simpl; [unfold ClusterRepresentatives; lia|apply NoDup_singleton|lia|done|].
  intros e ->%list_elem_of_singleton. exists ev. split_and!; try done. apply elem_of_app. right. by apply list_elem_of_singleton.
Qed.

(** Writing a row that is open no wider than the one it replaces keeps open clusters unique. *)
Lemma unique_open_narrow m id row row' :
  unique_open m → m !! id = Some row → (∀ a i, is_open a i row' = true → is_open a i row = true) → unique_open (<[id := row']> m).
Proof.
  intros Hu Hid Hn a k i j r s Hi Hj Hr Hs. apply lookup_insert_Some in Hi, Hj.
  destruct Hi as [[<- <-]|[Hni Hi]], Hj as [[<- <-]|[Hnj Hj]]; [done|..].
  - exact (Hu a k _ _ _ _ Hid Hj (Hn _ _ Hr) Hs).
  - exact (Hu a k _ _ _ _ Hi Hid Hr (Hn _ _ Hs)).
  - exact (Hu a k _ _ _ _ Hi Hj Hr Hs).
Qed.

(** So does a new row when none is open for its asset and identity. *)
Lemma unique_open_new m id row :
  unique_open m → (∀ i r, m !! i = Some r → is_open (cl_Asset row) (cl_Identity row) r = true → False) → unique_open (<[id := row]> m).
Proof.
  intros Hu Hn a k i j r s Hi Hj Hr Hs. apply lookup_insert_Some in Hi, Hj.
  destruct Hi as [[<- <-]|[Hni Hi]], Hj as [[<- <-]|[Hnj Hj]]; [done|..].
  - apply is_open_iff in Hr as (<- & <- & _). by destruct (Hn _ _ Hj).
  - apply is_open_iff in Hs as (<- & <- & _). by destruct (Hn _ _ Hi).
  - exact (Hu a k _ _ _ _ Hi Hj Hr Hs).
Qed.

Lemma rows_insert (P : cluster_row → Prop) (m : gmap string cluster_row) id row :
  (∀ i r, m !! i = Some r → P r) → P row → ∀ i r, <[id := row]> m !! i = Some r → P r.
Proof. intros Hm Hp i r [[<- <-]|[_ Hi]]%lookup_insert_Some; eauto. Qed.

Lemma rows_update (P : cluster_row → Prop) m id f :
  (∀ i r, m !! i = Some r → P r) → (∀ r, m !! id = Some r → P (f r)) → ∀ i r, update_cluster m id f !! i = Some r → P r.
Proof. intros Hm Hf. unfold update_cluster. destruct (m !! id) as [row|] eqn:E; [|done]. apply rows_insert; [done|by apply Hf]. Qed.

Lemma grows_update m id f : (∀ row, same_cluster row (f row)) → grows m (update_cluster m id f).
Proof.
  intros Hf i r Hi. unfold update_cluster. destruct (m !! id) as [row|] eqn:E; [|by exists r].
  destruct (decide (i = id)) as [->|Hne]; [|exists r; by rewrite lookup_insert_ne]. exists (f row). rewrite lookup_insert_eq. split; [done|].
  assert (r = row) as -> by congruence. apply Hf.
Qed.

Lemma grows_insert m id row : m !! id = None → grows m (<[id := row]> m).
Proof. intros E i r Hi. exists r. split; [|done]. rewrite lookup_insert_ne; [done|congruence]. Qed.

Lemma unique_open_update m id f : unique_open m → (∀ row, same_cluster row (f row)) → unique_open (update_cluster m id f).
Proof.
  intros Hu Hf. unfold update_cluster. destruct (m !! id) as [row|] eqn:E; [|done]. apply (unique_open_narrow _ _ row); [done..|].
  intros a i (H1 & H2 & H3)%is_open_iff. destruct (Hf row) as [Sa Si _ _ Sc]. apply is_open_iff. split_and!; [congruence..|auto].
Qed.

Lemma same_touch row ids now : same_cluster row (touch_cluster row ids now).
Proof. split; simpl; try done. case_bool_decide; lia. Qed.
Lemma same_close row now : same_cluster row (close_cluster row now).
Proof. by split. Qed.

(** The clusters once the idle one that was read is closed. *)
Definition after_close (read db : triage_db) (ev : Event) (now : time) : gmap string cluster_row :=
  match head (open_clusters read (ev_AssetId ev) (event_identity ev)) with
  | Some (id, _) => update_cluster (td_clusters db) id (λ cur, close_cluster cur now)
  | None => td_clusters db
  end.

Lemma after_close_grows read db ev now : grows (td_clusters db) (after_close read db ev now).
Proof. unfold after_close. destruct (head _) as [[id r]|]; [|done]. apply grows_update. intros row. apply same_close. Qed.

Lemma after_close_inv seen read db ev now :
  triage_inv seen db → (∀ i r, after_close read db ev now !! i = Some r → cluster_ok (seen ++ [ev]) r) ∧ unique_open (after_close read db ev now).
Proof.
  intros [Hrows Hu]. unfold after_close. destruct (head _) as [[id row]|]; [|split; [eauto using cluster_ok_weaken|done]]. split.
  - apply rows_update; eauto using cluster_ok_weaken, cluster_ok_close.
  - apply unique_open_update; [done|]. intros r. apply same_close.
Qed.

(** A cluster that is open for the event after the close was opened since the read. *)
Lemma after_close_open seen read db ev now i r :
  triage_inv seen read → grows (td_clusters read) (td_clusters db) → after_close read db ev now !! i = Some r →
  is_open (ev_AssetId ev) (event_identity ev) r = true → td_clusters read !! i = None ∧ td_clusters db !! i = Some r.
Proof.
  intros [_ Hu] Hg Hi Ho. destruct (td_clusters read !! i) as [r0|] eqn:E0.
  - exfalso. destruct (Hg i r0 E0) as (r1 & E1 & S01). destruct (after_close_grows read db ev now i r1 E1) as (r2 & E2 & S12).
    assert (r2 = r) as -> by congruence. apply is_open_iff in Ho as (Ha & Hid & Hc).
    assert (is_open (ev_AssetId ev) (event_identity ev) r0 = true) as Ho0.
    { destruct S01 as [A1 A2 _ _ A5], S12 as [B1 B2 _ _ B5]. apply is_open_iff. split_and!; [congruence..|auto]. }
    unfold after_close in Hi. destruct (head (open_clusters read (ev_AssetId ev) (event_identity ev))) as [[k row]|] eqn:Eh.
    + apply head_open in Eh as [Hk Hok]. assert (k = i) as -> by exact (Hu _ _ _ _ _ _ Hk E0 Hok Ho0).
      unfold update_cluster in Hi. rewrite E1, lookup_insert_eq in Hi. by injection Hi as <-.
    + apply head_none in Eh. assert ((i, r0) ∈ open_clusters read (ev_AssetId ev) (event_identity ev)) as Hin by by apply open_clusters_elem.
      rewrite Eh in Hin. by apply elem_of_nil in Hin.
  - split; [done|]. unfold after_close in Hi. destruct (head (open_clusters read (ev_AssetId ev) (event_identity ev))) as [[k row]|] eqn:Eh; [|done].
    apply head_open in Eh as [Hk _]. unfold update_cluster in Hi. destruct (td_clusters db !! k); [|done].
    rewrite lookup_insert_ne in Hi; [done|congruence].
Qed.

(** The outcomes of a call: the open cluster it read takes the event if it is not idle; otherwise a
    new one is opened, unless its identifier is in use or one was opened since the read. *)
Lemma upsert_cases read db ev now random :
  let id := newID "clu" random in let closed := after_close read db ev now in
  let row := mkClusterRow (ev_AssetId ev) (event_route ev) (event_method ev) (event_identity ev) (ev_TriageReason ev) [ev_Id ev] (ev_Id ev) now now None 1 in
  (∃ k old, td_clusters read !! k = Some old ∧ is_open (ev_AssetId ev) (event_identity ev) old = true ∧
     upsertTriageCluster read db ev now random =
       (assign db (update_cluster (td_clusters db) k (λ cur, touch_cluster cur (AppendRepresentatives (cl_EventIDs old) (ev_Id ev)) now)) (ev_Id ev) k, Ok k)) ∨
  upsertTriageCluster read db ev now random =
    if bool_decide (closed !! id = None) && bool_decide (open_clusters (mkTriageDb closed (td_assigned db)) (ev_AssetId ev) (event_identity ev) = [])
    then (assign db (<[id := row]> closed) (ev_Id ev) id, Ok id)
    else (db, Err "duplicate key value violates unique constraint").
Proof.
  cbv zeta. unfold upsertTriageCluster, after_close.
  destruct (head (open_clusters read (ev_AssetId ev) (event_identity ev))) as [[k old]|] eqn:Eh; [|by right].
  destruct (ClusterOpen true (Some (cl_LastSeen old)) now); [by right|]. left. apply head_open in Eh as [? ?]. by exists k, old.
Qed.

Lemma upsert_preserves seen read db ev now random db' id :
  triage_inv seen read → triage_inv seen db → grows (td_clusters read) (td_clusters db) →
  upsertTriageCluster read db ev now random = (db', Ok id) → triage_inv (seen ++ [ev]) db' ∧ grows (td_clusters db) (td_clusters db').
Proof.
  intros Hr Hi Hg Hup. destruct (upsert_cases read db ev now random) as [(k & old & Hk & Ho & E)|E]; rewrite E in Hup; clear E.
  - injection Hup as <- <-. split; [|apply grows_update; intros row; apply same_touch].
    split; simpl; [|apply unique_open_update; [apply Hi|intros row; apply same_touch]].
    apply rows_update; [intros i r Hir; by eapply cluster_ok_weaken, Hi|]. intros cur Hcur.
    destruct (Hg k old Hk) as (cur' & Hcur' & Hsame). assert (cur' = cur) as -> by congruence. apply is_open_iff in Ho as (Ha & Hid & _).
    apply cluster_ok_touch; [by eapply Hr|by eapply Hi|done..].
  - destruct (bool_decide (_ !! _ = None)) eqn:Ef; [|done]. destruct (bool_decide (open_clusters _ _ _ = [])) eqn:Eo; [|done].
    apply bool_decide_eq_true in Ef, Eo. injection Hup as <- <-. destruct (after_close_inv seen read db ev now Hi) as [Hrows Hu]. split.
    + split; simpl; [apply rows_insert; [done|apply cluster_ok_new]|]. apply unique_open_new; [done|]. simpl. intros i r Hir Hor.
      assert ((i, r) ∈ open_clusters (mkTriageDb (after_close read db ev now) (td_assigned db)) (ev_AssetId ev) (event_identity ev)) as Hin
        by by apply open_clusters_elem. rewrite Eo in Hin. by apply elem_of_nil in Hin.
    + etrans; [apply after_close_grows|by apply grows_insert].
Qed.

(** Every state of a history is sound, and the latest has grown from each. *)
Lemma triage_run_inv db hist evs :
  triage_run (db :: hist) evs → triage_inv evs db ∧ ∀ s, s ∈ db :: hist → triage_inv evs s ∧ grows (td_clusters s) (td_clusters db).
Proof.
  remember (db :: hist) as h eqn:Eh. intros Hrun. revert db hist Eh.
  induction Hrun as [assigned|db0 hist0 evs assigned _ IH|db0 hist0 evs read ev now random db1 id _ IH Hread Hup]; intros db hist [= <- <-].
  - assert (triage_inv [] (mkTriageDb ∅ assigned)) as H0.
    { split; simpl; [intros ? ? H|intros ? ? ? ? ? ? H]; by rewrite lookup_empty in H. }
    split; [done|]. intros s ->%list_elem_of_singleton. done.
  - destruct (IH _ _ eq_refl) as [[Hrows Hu] Hall]. split; [by split|]. intros s [->|Hs]%elem_of_cons; [by split; [split|]|]. by apply Hall.
  - destruct (IH _ _ eq_refl) as [Hi Hall]. destruct (Hall read Hread) as [Hr Hg].
    destruct (upsert_preserves _ _ _ _ _ _ _ _ Hr Hi Hg Hup) as [Hi' Hg']. split; [done|].
    intros s [->|Hs]%elem_of_cons; [done|]. destruct (Hall s Hs) as [[Hrs Hus] Hgs]. split; [|by etrans].
    split; [|done]. intros i r Hir. by eapply cluster_ok_weaken, Hrs.
Qed.

Lemma AppendRepresentatives_keeps ids e :
  e = "" ∨ e ∈ AppendRepresentatives ids e ∨ (ClusterRepresentatives ≤ length (AppendRepresentatives ids e))%nat.
Proof.
  unfold AppendRepresentatives. repeat case_bool_decide; [by left|by right; left|by right; right|].
  right. left. apply elem_of_app. right. by apply list_elem_of_singleton.
Qed.

Lemma assign_lookup db m e id : is_Some (td_assigned db !! e) → td_assigned (assign db m e id) !! e = Some id.
Proof. intros [x Hx]. unfold assign. simpl. rewrite Hx. apply lookup_insert_eq. Qed.

(** What a committed call leaves: the event is listed in a cluster of its asset and identity and assigned to it. *)
Definition accepted (db db' : triage_db) (ev : Event) (id : string) : Prop :=
  ∃ row, td_clusters db' !! id = Some row ∧ cl_Asset row = ev_AssetId ev ∧ cl_Identity row = event_identity ev ∧
    (ev_Id ev = "" ∨ ev_Id ev ∈ cl_EventIDs row ∨ length (cl_EventIDs row) = ClusterRepresentatives) ∧
    (is_Some (td_assigned db !! ev_Id ev) → td_assigned db' !! ev_Id ev = Some id).

Lemma upsert_outcome seen read db ev now random :
  triage_inv seen read → triage_inv seen db → grows (td_clusters read) (td_clusters db) →
  match upsertTriageCluster read db ev now random with
  | (db', Ok id) => accepted db db' ev id
  | (db', Err _) => db' = db ∧ (is_Some (td_clusters db !! newID "clu" random) ∨
      ∃ i r, td_clusters read !! i = None ∧ td_clusters db !! i = Some r ∧ is_open (ev_AssetId ev) (event_identity ev) r = true)
  end.
Proof.
  intros Hr Hi Hg. destruct (upsertTriageCluster read db ev now random) as [db' [id|e]] eqn:E.
  - destruct (upsert_preserves _ _ _ _ _ _ _ _ Hr Hi Hg E) as [Hi' _].
    destruct (upsert_cases read db ev now random) as [(k & old & Hk & Ho & E')|E']; rewrite E' in E; clear E'.
    + injection E as <- <-. destruct (Hg k old Hk) as (cur & Hcur & [Sa Si _ _ _]). apply is_open_iff in Ho as (Ha & Hid & _).
      assert (∀ f, update_cluster (td_clusters db) k f !! k = Some (f cur)) as Hl by (intros f; unfold update_cluster; rewrite Hcur; apply lookup_insert_eq).
      eexists. simpl. split; [apply Hl|]. simpl. split_and!; [congruence..| |exact (assign_lookup db ∅ (ev_Id ev) _)].
      pose proof (co_length _ _ (ti_rows _ _ Hi' k _ (Hl _))) as Hlen. simpl in Hlen.
      destruct (AppendRepresentatives_keeps (cl_EventIDs old) (ev_Id ev)) as [?|[?|?]]; [by left|by right; left|right; right]. lia.
    + destruct (_ && _); [|done]. injection E as <- <-. eexists. simpl. rewrite lookup_insert_eq. split_and!; [done..| |exact (assign_lookup db ∅ (ev_Id ev) _)].
      right. left. by apply list_elem_of_singleton.
  - destruct (upsert_cases read db ev now random) as [(k & old & Hk & Ho & E')|E']; rewrite E' in E; clear E'; [done|].
    destruct (bool_decide (after_close read db ev now !! newID "clu" random = None)) eqn:Ef.
    + apply bool_decide_eq_true in Ef. destruct (open_clusters (mkTriageDb (after_close read db ev now) (td_assigned db)) (ev_AssetId ev) (event_identity ev)) as [|[i r] l] eqn:Eo; [done|].
      injection E as <- _. split; [done|]. right. exists i, r.
      assert ((i, r) ∈ open_clusters (mkTriageDb (after_close read db ev now) (td_assigned db)) (ev_AssetId ev) (event_identity ev)) as [Hir Hor]%open_clusters_elem
        by (rewrite Eo; apply list_elem_of_here).
      destruct (after_close_open seen read db ev now i r Hr Hg Hir Hor) as [? ?]. by split_and!.
    + apply bool_decide_eq_false in Ef. injection E as <- _. split; [done|]. left.
      destruct (td_clusters db !! newID "clu" random) as [r|] eqn:E0; [by exists r|]. destruct Ef.
      unfold after_close. destruct (head (open_clusters read (ev_AssetId ev) (event_identity ev))) as [[k row]|]; [|done].
      unfold update_cluster. destruct (td_clusters db !! k) eqn:Ek; [|done]. rewrite lookup_insert_ne; [done|congruence].
Qed.

(** C23: whatever calls group events concurrently, each with an unlocked read of any earlier state, every cluster lists
    between one and five distinct events, the first of them its representative and no more of them than its version; every
    listed event was committed for the cluster's asset and identity; at most one cluster is open per asset and identity.  A call
    that commits has its event listed in a cluster of its asset and identity (unless it has no identifier or five are listed)
    and assigned to it; one that does not changes nothing, and fails only because its drawn identifier is in use or another
    call opened a cluster for the same asset and identity since the read.  So a call that runs alone and draws a fresh
    identifier commits, in an open cluster.  Database errors other than unique constraints are left out.  A later call that
    had read the cluster before may drop the event from the list ([concurrent_update_loses_event]). *)
Theorem triage_clusters_sound db hist evs :
  triage_run (db :: hist) evs →
  (∀ id row, td_clusters db !! id = Some row → cluster_ok evs row) ∧ unique_open (td_clusters db) ∧
  (∀ read ev now random, read ∈ db :: hist →
     match upsertTriageCluster read db ev now random with
     | (db', Ok id) => accepted db db' ev id
     | (db', Err _) => db' = db ∧ (is_Some (td_clusters db !! newID "clu" random) ∨
         ∃ i r, td_clusters read !! i = None ∧ td_clusters db !! i = Some r ∧ is_open (ev_AssetId ev) (event_identity ev) r = true)
     end) ∧
  (∀ ev now random, td_clusters db !! newID "clu" random = None →
     ∃ db' id row, upsertTriageCluster db db ev now random = (db', Ok id) ∧ accepted db db' ev id ∧
       td_clusters db' !! id = Some row ∧ cl_ClosedAt row = None).
Proof.
  intros [Hi Hall]%triage_run_inv. split_and!; [apply Hi|apply Hi| |].
  - intros read ev now random [Hr Hg]%Hall. by apply (upsert_outcome evs).
  - intros ev now random Hf. pose proof (upsert_outcome evs db db ev now random Hi Hi ltac:(done)) as Hout.
    destruct (upsert_cases db db ev now random) as [(k & old & Hk & Ho & E)|E].
    + rewrite E in Hout. eexists _, k, _. split; [exact E|]. split; [exact Hout|]. simpl. unfold update_cluster. rewrite Hk, lookup_insert_eq.
      split; [done|]. by apply is_open_iff in Ho as (_ & _ & ?).
    + destruct (bool_decide _ && bool_decide _) eqn:Eb; rewrite E in Hout.
      * eexists _, _, _. split; [exact E|]. split; [exact Hout|]. simpl. rewrite lookup_insert_eq. done.
      * exfalso. destruct Hout as [_ [[x Hx]|(i & r & Hn & Hs & _)]]; congruence.
Qed.
End cluster_facts.

(** ** What a trusted policy rests on *)

Lemma load_events_elem rows asset evs ev :
  load_events rows asset = Ok evs → ev ∈ evs → ∃ id er, (id, er) ∈ rows ∧ er_Payload er = Some ev ∧ ev_AssetId ev = asset.
Proof.
  revert evs. induction rows as [|[id er] rows IH]; simpl; intros evs Hl Hin; [by simplify_eq; apply elem_of_nil in Hin|].
  destruct (er_Payload er) as [e|] eqn:Ep; [|done]. case_bool_decide as Ha; [|done].
  destruct (load_events rows asset) as [evs'|] eqn:El; simplify_eq/=. apply elem_of_cons in Hin as [->|Hin].
  - exists id, er. split_and!; try done. apply list_elem_of_here.
  - destruct (IH evs' eq_refl Hin) as (i & r & Hi & ?). exists i, r. split; [by apply list_elem_of_further|done].
Qed.

Lemma event_rows_elem events ids asset id er :
  (id, er) ∈ event_rows events ids asset → id ∈ ids ∧ events !! id = Some er ∧ er_Asset er = asset.
Proof.
  unfold event_rows. rewrite list_elem_of_omap. intros (i & Hi & H). rewrite sort_strings_elem, elem_of_remove_dups in Hi.
  destruct (events !! i) as [r|] eqn:E; simplify_eq/=. case_bool_decide; by simplify_eq.
Qed.

Lemma loadProposalCluster_ok clusters events cid cluster :
  loadProposalCluster clusters events cid = Ok cluster →
  ∃ row, clusters !! cid = Some row ∧ pcl_assetID cluster = cl_Asset row ∧ pcl_route cluster = cl_Route row ∧ pcl_method cluster = cl_Method row ∧
    pcl_reason cluster = cl_Reason row ∧ pcl_eventIDs cluster = cl_EventIDs row ∧
    ∀ ev, ev ∈ pcl_events cluster → ∃ id er, id ∈ cl_EventIDs row ∧ events !! id = Some er ∧ er_Payload er = Some ev ∧ ev_AssetId ev = cl_Asset row.
Proof.
  unfold loadProposalCluster. destruct (clusters !! cid) as [row|]; [|done]. destruct (negb _); [|done].
  destruct (load_events _ _) as [evs|] eqn:El; [|done]. simpl. destruct (forallb _ _); [|done]. intros [= <-].
  exists row. simpl. split_and!; try done. intros ev Hev. destruct (load_events_elem _ _ _ _ El Hev) as (id & er & Hin & ?).
  apply event_rows_elem in Hin as (? & ? & ?). by exists id, er.
Qed.

Lemma available_keys_elem events k :
  k ∈ available_keys events → key_RuleId k ≠ "" ∧ ∃ ev d, ev ∈ events ∧ Some d ∈ ev_Detections ev ∧ ed_Key d = Some k.
Proof.
  unfold available_keys. rewrite list_elem_of_bind. intros (ev & Hk & Hev). apply list_elem_of_omap in Hk as (d & Hd & Hk).
  destruct d as [d|]; [|done]. simpl in Hk. destruct (ed_Key d) as [k'|] eqn:Ek; simplify_eq/=. case_bool_decide; simplify_eq.
  split; [done|]. by exists ev, d.
Qed.

(** Pass the guard at the head of a handler that succeeded. *)
Ltac guard_in H := match type of H with (if ?b then _ else _) = _ => destruct b eqn:?; [|discriminate H] end.

Section trust_facts.
Context {U : Unicode}.

Lemma select_keys_elem available asserted selected keys k :
  select_keys available asserted selected = Ok keys → k ∈ keys → k ∈ selected ∨ k ∈ available.
Proof.
  revert selected. induction asserted as [|[claim|] asserted IH]; simpl; intros selected Hs Hk; [simplify_eq; by left| |done].
  case_bool_decide; [done|]. destruct (filter _ available) as [|k' [|? ?]] eqn:Ef; try done.
  assert (k' ∈ available) as Hav.
  { assert (k' ∈ filter (λ k, detectionKeyAssertionMatches claim k = true) available) as Hin by (rewrite Ef; apply list_elem_of_here).
    by apply list_elem_of_filter in Hin as [_ ?]. }
  destruct (IH _ Hs Hk) as [Hin|?]; [|by right]. revert Hin. case_bool_decide; [by left|].
  intros [?|Hn]%elem_of_app; [by left|right]. apply list_elem_of_singleton in Hn as ->. done.
Qed.

Lemma trustedPolicyKeys_elem asserted events keys k :
  trustedPolicyKeys asserted events = Ok keys → k ∈ keys → k ∈ available_keys events.
Proof.
  unfold trustedPolicyKeys. destruct (negb _); [|done]. intros Hs Hk.
  destruct (select_keys_elem _ _ _ _ _ Hs Hk) as [Hn|?]; [by apply elem_of_nil in Hn|done].
Qed.

Lemma derive_policy_ok clusters events msg createdBy intent t :
  deriveTrustedProposal clusters events msg createdBy (Some intent) = Ok t → in_Kind intent = PROPOSAL_KIND_POLICY →
  ∃ cluster keys, loadProposalCluster clusters events (trim_space (in_ClusterId intent)) = Ok cluster ∧
    pcl_reason cluster = DETECTED_UNMITIGATED ∧ trustedPolicyKeys (in_DetectionKeys intent) (pcl_events cluster) = Ok keys ∧
    scope_AssetIds (tr_scope t) = [pcl_assetID cluster] ∧ tr_evidenceRefs t = pcl_eventIDs cluster ∧ tr_evidence t = EVIDENCE_CLASS_CRS_MAPPED ∧
    in_Kind (tr_intent t) = PROPOSAL_KIND_POLICY ∧ in_DetectionKeys (tr_intent t) = Some <$> keys ∧
    in_RouteTemplate (tr_intent t) = pcl_route cluster ∧ in_Methods (tr_intent t) = [to_upper (pcl_method cluster)].
Proof.
  intros Hd Hk. unfold deriveTrustedProposal in Hd. do 2 guard_in Hd.
  destruct (loadProposalCluster _ _ _) as [cluster|] eqn:El; [|done]. simpl in Hd. destruct (pr_Scope msg) as [scope|]; [|done].
  case_bool_decide as Hs; [|done]. guard_in Hd. rewrite Hk in Hd. case_bool_decide as Hr; [|done].
  destruct (trustedPolicyKeys _ _) as [keys|] eqn:Et; [|done]. simpl in Hd.
  unfold deriveClusterRoute in Hd. destruct (bool_decide (in_RouteTemplate intent = "") || _); [|done].
  destruct (match in_Methods intent with [] => true | [m] => equal_fold m (pcl_method cluster) | _ => false end); [|done].
  injection Hd as <-. exists cluster, keys. by split_and!.
Qed.

Lemma compile_policy_ok {P : Payloads} db t c asset :
  compile_trusted db t = Ok c → tr_evidence t = EVIDENCE_CLASS_CRS_MAPPED → in_Kind (tr_intent t) = PROPOSAL_KIND_POLICY →
  scope_AssetIds (tr_scope t) = [asset] →
  let keys := filterAutoGovernKeys (in_DetectionKeys (tr_intent t)) (loadAssetTaxonomyMapper db asset) in
  keys ≠ [] ∧
  c = CompiledPolicy (mkPolicyCandidate "" (Some (mkPolicyScope asset [] (in_RouteTemplate (tr_intent t)) "" (in_Methods (tr_intent t)) [] []))
        (Some (mkPolicyPredicate keys f64_zero true COVERAGE_STATUS_UNSPECIFIED)) "block" (Some (policyDependencies keys))).
Proof.
  intros Hc He Hk Hs. unfold compile_trusted in Hc. rewrite He, Hs in Hc. simpl in Hc. unfold compileProposalPayload in Hc. rewrite Hk in Hc.
  case_bool_decide as Hn; [done|]. simpl in Hc. split; [done|]. unfold compilePolicyPayload in Hc. rewrite Hs in Hc.
  destruct (negb _); simplify_eq/=. done.
Qed.

Lemma writeTrustedProposal_ok {C : Crypto} {A : AuditWire} {G : GovernDetails A} json_artifact db user trusted ttl payload random env db' id :
  writeTrustedProposal json_artifact db user trusted ttl payload random env = (db', Ok id) →
  ∃ p rel, payload = Ok p ∧ gd_releases db' !! id = Some rel ∧ rw_State rel = "draft" ∧ Payload (rw_Artifact rel) = p ∧
    ArtScope (rw_Artifact rel) = tp_scope trusted ∧ EvidenceRefs (rw_Artifact rel) = tp_evidenceRefs trusted ∧ rw_CreatedBy rel = user.
Proof.
  unfold writeTrustedProposal. destruct payload as [p|]; [|done]. unfold insert_proposal. destruct (json_artifact _); [|done].
  case_bool_decide; [|done]. destruct (appendAuditTx _ _ _ _ _ _ _ _ _) as [audit [?|]]; [|done]. simpl.
  destruct (tx_complete env); [|done]. destruct (tx_committed env); [|done]. intros [= <- <-]. eexists p, _. split; [done|].
  simpl. rewrite (proj1 (add_release_assets_spec _ _ _)). simpl. rewrite lookup_insert_eq. by split_and!.
Qed.
End trust_facts.

Section trust_theorems.
Context {C : Crypto} {A : AuditWire} {G : GovernDetails A} {P : Payloads} {U : Unicode} {D : HttpDecoders}.
Context (json_artifact : Artifact → bool) (marshal : compiled → result string).

(** The filtered keys of a candidate come from the pinned events. *)
Lemma compiled_key_pinned cluster asserted keys mapper k :
  trustedPolicyKeys asserted (pcl_events cluster) = Ok keys → Some k ∈ filterAutoGovernKeys (Some <$> keys) mapper →
  AutoGovernable (Some k) mapper = true ∧ key_RuleId k ≠ "" ∧
  ∃ ev det, ev ∈ pcl_events cluster ∧ Some det ∈ ev_Detections ev ∧ ed_Key det = Some k.
Proof.
  intros Hk [Ha Hin]%list_elem_of_filter. split; [done|]. apply list_elem_of_fmap in Hin as (k' & [= <-] & Hin).
  by eapply available_keys_elem, trustedPolicyKeys_elem.
Qed.

Lemma scope_of_candidate asset route methods req view :
  PolicyScopeMatches (Some (mkPolicyScope asset [] route "" methods [] [])) req view = true →
  (asset = "" ∨ req_AssetID req = "" ∨ req_AssetID req = asset) ∧ (route = "" ∨ routeTemplateMatch route (view_path req view) = true) ∧
  (methods = [] ∨ stringInFold methods (view_method req view) = true).
Proof.
  unfold PolicyScopeMatches. simpl. rewrite !if_false_and, !andb_false_iff, !negb_false_iff, !bool_decide_eq_true. naive_solver.
Qed.

(** C20: a policy proposal accepted for production is a draft for exactly the asset of the cluster it names, with the pinned
    events as evidence, whatever else the caller wrote; and everything the compiled policy ever blocks lies on that asset, on the
    cluster's route and method, and carries a detection with the rule of a key that a pinned event of that asset reported and that
    the asset's published taxonomy maps to a class of attack open to automatic governance. *)
Theorem trusted_policy_grounded clusters events db user msg createdBy intent random env db' id :
  writeProposeIntent json_artifact marshal clusters events db user msg createdBy (Some intent) random env = (db', Ok id) →
  in_Kind intent = PROPOSAL_KIND_POLICY →
  ∃ row cand rel, clusters !! trim_space (in_ClusterId intent) = Some row ∧ cl_Reason row = DETECTED_UNMITIGATED ∧
    marshal (CompiledPolicy cand) = Ok (Payload (rw_Artifact rel)) ∧
    gd_releases db' !! id = Some rel ∧ rw_State rel = "draft" ∧ rw_CreatedBy rel = user ∧
    (∃ scope, ArtScope (rw_Artifact rel) = Some scope ∧ scope_AssetIds scope = [cl_Asset row]) ∧ EvidenceRefs (rw_Artifact rel) = cl_EventIDs row ∧
    ∀ found view req, PolicyCandidateBlocksOn (Some cand) found view req = true →
      (cl_Asset row = "" ∨ req_AssetID req = "" ∨ req_AssetID req = cl_Asset row) ∧
      (cl_Route row = "" ∨ routeTemplateMatch (cl_Route row) (view_path req view) = true) ∧
      stringInFold [to_upper (cl_Method row)] (view_method req view) = true ∧
      ∃ d k eid er ev det, d ∈ found ∧ key_matches d k ∧ RuleID d = key_RuleId k ∧
        eid ∈ cl_EventIDs row ∧ events !! eid = Some er ∧ er_Payload er = Some ev ∧ ev_AssetId ev = cl_Asset row ∧
        Some det ∈ ev_Detections ev ∧ ed_Key det = Some k ∧ AutoGovernable (Some k) (loadAssetTaxonomyMapper db (cl_Asset row)) = true.
Proof.
  intros Hw Hkind. unfold writeProposeIntent in Hw. destruct (deriveTrustedProposal _ _ _ _ _) as [t|] eqn:Ed; [|done].
  destruct (derive_policy_ok _ _ _ _ _ _ Ed Hkind) as (cluster & keys & Hl & Hr & Hk & Hs & He & Hev & Htk & Hdk & Hrt & Hm).
  destruct (loadProposalCluster_ok _ _ _ _ Hl) as (row & Hrow & Ha & Hro & Hme & Hre & Hids & Hpin).
  destruct (writeTrustedProposal_ok _ _ _ _ _ _ _ _ _ _ Hw) as (p & rel & Hp & Hrel & Hst & Hpay & Hsc & Href & Hcb).
  destruct (compile_trusted db t) as [c|] eqn:Ec; [|done]. simpl in Hp, Hsc, Href.
  destruct (compile_policy_ok _ _ _ _ Ec Hev Htk Hs) as [_ ->]. eexists row, _, rel. rewrite Hpay.
  split_and!; [done|congruence|exact Hp|done..|exists (tr_scope t); split; [done|congruence]|congruence|].
  intros found view req Hb. eapply PolicyCandidateBlocksOn_unfold in Hb as [(_ & Hscope & _) Hhit]; [|reflexivity].
  simpl in Hscope, Hhit. apply scope_of_candidate in Hscope as (Hsa & Hsr & Hsm). rewrite Hrt, Hro in Hsr. rewrite Ha in Hsa, Hhit.
  rewrite Hm, Hme in Hsm. split_and!; [done..|by destruct Hsm|].
  apply existsb_exists in Hhit as (key & Hin%list_elem_of_In & Hmatch). apply PolicyMatchesDetectionKey_iff in Hmatch as (k & d & -> & Hd & Hkm & _).
  rewrite Hdk in Hin. destruct (compiled_key_pinned _ _ _ _ _ Hk Hin) as (Hauto & Hrule & ev & det & Hevin & Hdet & Hkey).
  destruct (Hpin ev Hevin) as (eid & er & Heid & Her & Hpl & Hasset).
  exists d, k, eid, er, ev, det. split_and!; try done. by destruct Hkm as [[?|?] _].
Qed.
End trust_theorems.

(** ** Keys reported more than once *)

Section repeated_keys.
Context {U : Unicode}.

Lemma select_keys_ambiguous available asserted selected claim :
  Some claim ∈ asserted → (2 ≤ length (filter (λ k, detectionKeyAssertionMatches claim k = true) available))%nat →
  ∃ e, select_keys available asserted selected = Err e.
Proof.
  intros Hin Hlen. revert selected. induction asserted as [|[c|] asserted IH]; intros selected; [by apply elem_of_nil in Hin| |by eexists].
  simpl. case_bool_decide; [by eexists|]. apply elem_of_cons in Hin as [[= ->]|Hin].
  - destruct (filter _ available) as [|? [|? ?]]; simpl in Hlen; [lia..|by eexists].
  - destruct (filter (λ k, detectionKeyAssertionMatches c k = true) available) as [|? [|? ?]]; [by eexists| |by eexists]. by apply IH.
Qed.

(** A claim that two detections of the pinned events answer is refused, even when both carry the very same key.  Events are
    grouped by the rule and selector of their key, so that a cluster of two events normally repeats it: the derivation then
    refuses every policy proposal that names it, and nothing is written. *)
Theorem repeated_key_refused {C : Crypto} {A : AuditWire} {G : GovernDetails A} {P : Payloads} json_artifact marshal
    clusters events db user msg createdBy intent cluster claim random env :
  loadProposalCluster clusters events (trim_space (in_ClusterId intent)) = Ok cluster →
  in_Kind intent = PROPOSAL_KIND_POLICY → Some claim ∈ in_DetectionKeys intent →
  (2 ≤ length (filter (λ k, detectionKeyAssertionMatches claim k = true) (available_keys (pcl_events cluster))))%nat →
  ∃ e, writeProposeIntent json_artifact marshal clusters events db user msg createdBy (Some intent) random env = (db, Err e).
Proof.
  intros Hl Hk Hin Hlen. unfold writeProposeIntent.
  destruct (deriveTrustedProposal _ _ _ _ _) as [t|e] eqn:Ed; [exfalso|by eexists].
  destruct (derive_policy_ok _ _ _ _ _ _ Ed Hk) as (cluster' & keys & Hl' & _ & Ht & _). rewrite Hl in Hl'. injection Hl' as <-.
  unfold trustedPolicyKeys in Ht. destruct (negb _); [|done].
  destruct (select_keys_ambiguous _ _ [] _ Hin Hlen) as [e He]. congruence.
Qed.
End repeated_keys.

(** The template a cluster stores for the path of an event matches that path the way the edge matches templates, so that
    a policy compiled for the route of a cluster covers the request that opened it; and templates are stable. *)
Theorem route_template_covers {U : Unicode} path :
  routeTemplateMatch (RouteTemplate path) path = true ∧ RouteTemplate (RouteTemplate path) = RouteTemplate path.
Proof. split; [apply route_template_matches|apply route_template_idempotent]. Qed.

(** ** Two events of one attack *)
Module TriageDemo.
#[local] Existing Instance toy_crypto.
#[local] Existing Instance ascii_only_unicode.
Definition audit : AuditWire := {|
  format_time t := ""; details_t := string; marshal_details d := Some d; json_canonical d := d; jsonb_text d := Some d |}.
#[local] Existing Instance audit.
Definition details : GovernDetails audit := {|
  det_none := ""; det_created _ := ""; det_corpus _ := ""; det_percent _ := ""; det_reason _ := ""; det_event _ := "";
  det_catalog _ _ := ""; det_artifact _ _ := ""; det_modes _ _ _ := "" |}.
#[local] Existing Instance details.
Definition payloads : Payloads := {|
  parse_rules _ := None; parse_policy _ := None; parse_manifest _ := None; parse_mapper _ := Some DefaultTaxonomyMapper;
  parse_normalizer _ := None; parse_evidence_policy _ := None; parse_evidence_digest _ := None; parse_forward _ := None;
  parse_review _ := None; parse_model _ := None |}.
#[local] Existing Instance payloads.
Definition marshal (c : compiled) : result string := match c with CompiledPolicy _ => Ok "policy" | CompiledShape _ => Ok "shape" end.

Definition key : DetectionKey := mkDetectionKey "crs" "4" "manifest" "942100" "2" INSPECTION_SURFACE_UNSPECIFIED "query.q" "profile".
Definition event (id path : string) : Event :=
  mkEvent id "asset" (Some ("get", path, "q=x")) DETECTED_UNMITIGATED [Some (mkEventDetection (Some key) "942100")].
Definition ev1 : Event := event "e1" "/user/7".
Definition ev2 : Event := event "e2" "/user/8".
Definition ev3 : Event := event "e3" "/user/9".
Definition start : triage_db := mkTriageDb ∅ (<["e3" := ""]> (<["e2" := ""]> (<["e1" := ""]> ∅))).
Definition one : triage_db := (upsertTriageCluster start start ev1 10 "r").1.
Definition two : triage_db := (upsertTriageCluster one one ev2 20 "s").1.
(** A third call that has read [one], before [ev2] was listed. *)
Definition three : triage_db := (upsertTriageCluster one two ev3 30 "t").1.
Definition events : gmap string event_row := <["e2" := mkEventRow "asset" (Some ev2)]> (<["e1" := mkEventRow "asset" (Some ev1)]> ∅).
Definition cid : string := newID "clu" "r".
Definition intent : ProposalIntent :=
  mkProposalIntent PROPOSAL_KIND_POLICY cid "" [] [Some (mkDetectionKey "" "" "" "942100" "" INSPECTION_SURFACE_UNSPECIFIED "" "")] None.
Definition request : ProposeArtifactRequest := mkProposeRequest KIND_UNSPECIFIED "" "" (Some (mkScope ["asset"] "")) None "" [] true.
Definition mapper_artifact : Artifact := mkArtifact "" KIND_TAXONOMY_MAPPER "m" "" None None "" [] None None None "" None None 0 0 0.
Definition generation : AssetGeneration :=
  mkAssetGeneration "g" "" 1 "asset" [Some (mkReleaseItem "r" (Some mapper_artifact) "asset" RELEASE_MODE_ENFORCE 0 false RETIRE_REASON_UNSPECIFIED None 0)]
    "" None 0 None.
Definition db : gov_db := mkGovDb ∅ [] [] [] [] ∅ [generation] ∅ ∅ ∅ [] (mkAuditDb [] []).
Definition env : tx_env := mkTxEnv 30 (λ _, "g") 1 true true true.
Definition propose (t : triage_db) : gov_db * result string :=
  writeProposeIntent (λ _, true) marshal (td_clusters t) events db "alice" request "" (Some intent) "p" env.

Lemma three_run : triage_run [three; two; one; start] [ev1; ev2; ev3].
Proof.
  apply (run_call two [one; start] [ev1; ev2] one ev3 30 "t" three cid); [|by right; left|vm_compute; reflexivity].
  apply (run_call one [start] [ev1] one ev2 20 "s" two cid); [|by left|vm_compute; reflexivity].
  apply (run_call start [] [] start ev1 10 "r" one cid); [constructor|by left|vm_compute; reflexivity].
Defined.

(** Two calls that both saw no open cluster: the second is refused, and its event with it. *)
Example concurrent_first_event_refused : upsertTriageCluster start one ev2 20 "s" = (one, Err "duplicate key value violates unique constraint").
Proof. vm_compute. reflexivity. Qed.

(** Two calls that both saw one event listed: the list of the second is written over the first's, so that [ev2] is no
    longer listed in the cluster it stays assigned to; the version counts both. *)
Example concurrent_update_loses_event :
  (λ row, (cl_EventIDs row, cl_Version row)) <$> td_clusters three !! cid = Some (["e1"; "e3"], 3) ∧ td_assigned three !! "e2" = Some cid.
Proof. vm_compute. done. Qed.
End TriageDemo.

Lemma triage_clusters_sound_witness :
  (∃ row, td_clusters TriageDemo.two !! TriageDemo.cid = Some row ∧ cl_EventIDs row = ["e1"; "e2"] ∧ cl_Route row = "/user/{id}") ∧
  unique_open (td_clusters TriageDemo.three).
Proof.
  split; [eexists; split_and!; [vm_compute; reflexivity|reflexivity..]|].
  apply (@triage_clusters_sound toy_crypto ascii_only_unicode _ _ _ TriageDemo.three_run).
Defined.

Lemma trusted_policy_grounded_witness :
  ∃ row cand rel, td_clusters TriageDemo.one !! TriageDemo.cid = Some row ∧ TriageDemo.marshal (CompiledPolicy cand) = Ok (Payload (rw_Artifact rel)) ∧
    gd_releases (TriageDemo.propose TriageDemo.one).1 !! "rel_70" = Some rel ∧ EvidenceRefs (rw_Artifact rel) = cl_EventIDs row.
Proof.
  destruct (@trusted_policy_grounded toy_crypto TriageDemo.audit TriageDemo.details TriageDemo.payloads ascii_only_unicode Demo.decoders
    (λ _, true) TriageDemo.marshal (td_clusters TriageDemo.one) TriageDemo.events TriageDemo.db "alice" TriageDemo.request "" TriageDemo.intent "p"
    TriageDemo.env (TriageDemo.propose TriageDemo.one).1 "rel_70") as (row & cand & rel & Hrow & _ & Hm & Hrel & _ & _ & _ & He & _).
  - vm_compute. reflexivity.
  - reflexivity.
  - exists row, cand, rel. split_and!; [exact Hrow|exact Hm|exact Hrel|exact He].
Defined.

Lemma repeated_key_refused_witness :
  ∃ e, TriageDemo.propose TriageDemo.two = (TriageDemo.db, Err e).
Proof.
  apply (@repeated_key_refused ascii_only_unicode toy_crypto TriageDemo.audit TriageDemo.details TriageDemo.payloads (λ _, true) TriageDemo.marshal
    (td_clusters TriageDemo.two) TriageDemo.events TriageDemo.db "alice" TriageDemo.request "" TriageDemo.intent
    (mkProposalCluster "asset" "/user/{id}" "get" DETECTED_UNMITIGATED ["e1"; "e2"] [TriageDemo.ev1; TriageDemo.ev2])
    (mkDetectionKey "" "" "" "942100" "" INSPECTION_SURFACE_UNSPECIFIED "" "") "p" TriageDemo.env).
  - vm_compute. reflexivity.
  - reflexivity.
  - apply list_elem_of_here.
  - apply Nat.leb_le. vm_compute. reflexivity.
Defined.
