(* ===== verification/TriageTurns.v ===== *)
(** * Decisions of triage agents

    [lib/brain/triage_turn.go], [triage_complete.go] and the creation of turns in
    [turn_runtime.go].  An agent receives a turn: a snapshot of one version of a cluster.  It
    answers once, with a disposition; a disposition that proposes something becomes a draft
    derived from the snapshot, which the same call takes through the replay gate into shadow.

    A call makes several transactions.  [others i st] is what other handlers have made of the
    tables before the [i]-th access of the call, so that every interleaving is covered; a
    failure between two transactions leaves what was committed.  Encoding of a decision is
    the parameter [marshal_decision]; the JSON object a call answers with is [triage_result]. *)

From S2P Require Import Prelude GoStrings Contracts Signing SignerService AuditChain GenerationStore ReleaseLifecycle Canonical Shape Policy ReleaseSet Govern Catalog Scheduler GovernProofs Triage.

Definition DETECTED_UNMAPPED : string := "TRIAGE_REASON_DETECTED_UNMAPPED".
Definition threadSourceTriage : string := "triage_cluster".
Definition bindingTurnPrefix : string := "turn:".
Definition bindingAssetPrefix : string := "asset:".

(** The detection keys of a snapshot are stored as JSON; [None] is one that does not decode. *)
Record triageTurnSnapshot := mkSnapshot {
  sn_ClusterID : string; sn_ClusterVersion : Z; sn_AssetID : string; sn_RouteTemplate : string; sn_Method : string; sn_Reason : string;
  sn_EventIDs : list string; sn_Representative : string; sn_DetectionKeys : list (option DetectionKey); sn_Selectors : list string }.

Inductive TriageDisposition :=
| DISPOSITION_UNSPECIFIED | PROPOSE_POLICY | PROPOSE_SHAPE | REPORT_ONLY | ESCALATE_HUMAN | INSUFFICIENT_EVIDENCE | DISPOSITION_other (n : Z).
#[global] Instance TriageDisposition_eq_dec : EqDecision TriageDisposition. Proof. solve_decision. Defined.

Record TriageDecision := mkTriageDecision {
  dec_ClusterId : string; dec_Disposition : TriageDisposition; dec_Rationale : string; dec_OptionalShapeDraft : option ShapeSource }.

Record triage_result := mkTriageResult { tr_TurnId : string; tr_ReleaseId : string; tr_State : string; tr_Disposition : option TriageDisposition }.
#[global] Instance triage_result_eq_dec : EqDecision triage_result. Proof. solve_decision. Defined.

(** A stored decision; [None] is the empty result of one that is still in progress. *)
Record decision_row := mkDecisionRow { dr_Agent : string; dr_Digest : string; dr_Release : string; dr_Result : option triage_result }.
Record thread_row := mkThreadRow { th_Kind : string; th_Ref : string; th_Agent : string }.
Record turn_row := mkTurnRow { tu_Thread : string; tu_Version : Z; tu_Snapshot : option triageTurnSnapshot; tu_State : string; tu_Output : string }.

Record turn_db := mkTurnDb {
  tt_gov : gov_db; tt_decisions : gmap string decision_row; tt_threads : gmap string thread_row; tt_turns : gmap string turn_row }.

Definition set_gov (st : turn_db) (g : gov_db) : turn_db := mkTurnDb g (tt_decisions st) (tt_threads st) (tt_turns st).
Definition set_decision (st : turn_db) (t : string) (d : decision_row) : turn_db :=
  mkTurnDb (tt_gov st) (<[t := d]> (tt_decisions st)) (tt_threads st) (tt_turns st).

(** [UPDATE agent_turns SET state, output_ref]: nothing when there is no such turn. *)
Definition set_turn (st : turn_db) (t state : string) (output : option string) : turn_db :=
  mkTurnDb (tt_gov st) (tt_decisions st) (tt_threads st)
    (alter (λ r, mkTurnRow (tu_Thread r) (tu_Version r) (tu_Snapshot r) state (default (tu_Output r) output)) t (tt_turns st)).

(** ** Turns *)

Definition turnBinding (turnID : string) : string := bindingTurnPrefix +:+ turnID.
Definition bindingAllowsTurn (bindings : list string) (turnID : string) : bool := bool_decide (turnBinding turnID ∈ bindings).

Definition assetIDFromBinding (b : string) : option string :=
  if (str_len bindingAssetPrefix <? str_len b) && has_prefix b bindingAssetPrefix then Some (trim_prefix b bindingAssetPrefix) else None.
Definition bindingsCoverAssets (bindings assetIDs : list string) : bool :=
  if bool_decide (assetIDs = []) then false else forallb (λ id, bool_decide (id ∈ omap assetIDFromBinding bindings)) assetIDs.

Definition loadPinnedTriageEvents (events : gmap string event_row) (eventIDs : list string) (assetID : string) : result (list Event) :=
  let rows := event_rows events eventIDs assetID in
  match mapM er_Payload rows.*2 with
  | None => Err "pinned triage event is invalid"
  | Some evs => guard! forallb (λ id, bool_decide (id ∈ rows.*1)) eventIDs else "pinned triage event is missing" in Ok evs
  end.

Section snapshots.
Context {U : Unicode}.

Definition snapshot_keys (events : list Event) : list DetectionKey :=
  events ≫= λ ev, omap (λ d, d ← d; k ← ed_Key d; if bool_decide (trim_space (key_RuleId k) = "") then None else Some k) (ev_Detections ev).

Definition snapshot_selectors (events : list Event) : list string :=
  sort_strings (remove_dups (
    (events ≫= λ ev, match ev_Http ev with Some (_, _, query) => (λ kv, "query." +:+ kv.1) <$> map_to_list (ParseQuery query).1 | None => [] end)
    ++ omap (λ k, if bool_decide (trim_space (TargetSelector k) = "") then None else Some (trim_space (TargetSelector k))) (snapshot_keys events))).

(** The first occurrence of every key is kept. *)
Fixpoint first_keys (seen : list DetectionKey) (ks : list DetectionKey) : list DetectionKey :=
  match ks with
  | [] => []
  | k :: ks' => if bool_decide (k ∈ seen) then first_keys seen ks' else k :: first_keys (k :: seen) ks'
  end.

Definition buildTriageSnapshot (clusters : gmap string cluster_row) (events : gmap string event_row) (clusterID : string) : result triageTurnSnapshot :=
  match clusters !! clusterID with
  | None => Err "triage cluster not found"
  | Some row =>
      guard! negb (bool_decide (cl_EventIDs row = [])) else "triage cluster has no pinned events" in
      let! evs := loadPinnedTriageEvents events (cl_EventIDs row) (cl_Asset row) in
      Ok (mkSnapshot clusterID (cl_Version row) (cl_Asset row) (cl_Route row) (cl_Method row) (cl_Reason row) (cl_EventIDs row) (cl_Representative row)
            (Some <$> first_keys [] (snapshot_keys evs)) (snapshot_selectors evs))
  end.
End snapshots.

(** Threads and turns are found by their unique columns; a conflict keeps the row there is. *)
Definition find_thread (st : turn_db) (r : thread_row) : option string :=
  fst <$> head (filter (λ kv, th_Kind kv.2 = th_Kind r ∧ th_Ref kv.2 = th_Ref r ∧ th_Agent kv.2 = th_Agent r) (map_to_list (tt_threads st))).
Definition find_turn (st : turn_db) (threadID : string) (version : Z) : option string :=
  fst <$> head (filter (λ kv, tu_Thread kv.2 = threadID ∧ tu_Version kv.2 = version) (map_to_list (tt_turns st))).

Definition ensure_thread (st : turn_db) (r : thread_row) (random : string) : result (turn_db * string) :=
  match find_thread st r with
  | Some id => Ok (st, id)
  | None =>
      let id := newID "thr" random in
      guard! bool_decide (tt_threads st !! id = None) else "duplicate key value violates unique constraint" in
      Ok (mkTurnDb (tt_gov st) (tt_decisions st) (<[id := r]> (tt_threads st)) (tt_turns st), id)
  end.

Definition ensure_turn (st : turn_db) (threadID : string) (version : Z) (snapshot : triageTurnSnapshot) (random : string) : result (turn_db * string) :=
  match find_turn st threadID version with
  | Some id => Ok (st, id)
  | None =>
      let id := newID "turn" random in
      guard! bool_decide (tt_turns st !! id = None) else "duplicate key value violates unique constraint" in
      Ok (mkTurnDb (tt_gov st) (tt_decisions st) (tt_threads st) (<[id := mkTurnRow threadID version (Some snapshot) "pending" ""]> (tt_turns st)), id)
  end.

Definition ensureTriageTurn {U : Unicode} (clusters : gmap string cluster_row) (events : gmap string event_row) (st : turn_db)
    (agentID clusterID random1 random2 : string) : result (turn_db * string) :=
  let! snapshot := buildTriageSnapshot clusters events clusterID in
  let! p := ensure_thread st (mkThreadRow threadSourceTriage clusterID agentID) random1 in
  ensure_turn (fst p) (snd p) (sn_ClusterVersion snapshot) snapshot random2.

Definition loadTriageTurnSnapshot (st : turn_db) (turnID : string) : result (triageTurnSnapshot * string) :=
  match tt_turns st !! turnID with
  | None => Err "denied"
  | Some turn =>
      match tt_threads st !! tu_Thread turn with
      | None => Err "denied"
      | Some thread =>
          guard! bool_decide (th_Kind thread = threadSourceTriage) else "denied" in
          match tu_Snapshot turn with Some s => Ok (s, th_Agent thread) | None => Err "invalid snapshot" end
      end
  end.

(** ** Decisions *)

Definition validateTriageDecision (d : TriageDecision) : result unit :=
  guard! negb (bool_decide (trim_space (dec_ClusterId d) = "")) else "decision.cluster_id is required" in
  guard! negb (bool_decide (dec_Disposition d = DISPOSITION_UNSPECIFIED)) else "decision.disposition is required" in
  let rationale := trim_space (dec_Rationale d) in
  guard! negb (bool_decide (rationale = "") || (2000 <? str_len rationale)) else "decision.rationale must be between 1 and 2000 bytes" in
  if bool_decide (dec_Disposition d = PROPOSE_SHAPE)
  then guard! negb (bool_decide (dec_OptionalShapeDraft d = None)) else "optional_shape_draft is required for shape disposition" in Ok tt
  else guard! bool_decide (dec_OptionalShapeDraft d = None) else "optional_shape_draft is only allowed for shape disposition" in Ok tt.

(** The keys of a snapshot; all must decode and name a rule. *)
Fixpoint decode_keys (ks : list (option DetectionKey)) : result (list DetectionKey) :=
  match ks with
  | [] => Ok []
  | None :: _ => Err "triage snapshot has invalid detection key"
  | Some k :: ks' =>
      if bool_decide (trim_space (key_RuleId k) = "") then Err "triage snapshot has invalid detection key"
      else let! rest := decode_keys ks' in Ok (k :: rest)
  end.

Section decisions.
Context {U : Unicode}.

Definition trustedProposalFromTurn (events : gmap string event_row) (s : triageTurnSnapshot) (d : TriageDecision) : result trusted :=
  let! evs := loadPinnedTriageEvents events (sn_EventIDs s) (sn_AssetID s) in
  let cluster := mkProposalCluster (sn_AssetID s) (sn_RouteTemplate s) (sn_Method s) (sn_Reason s) (sn_EventIDs s) evs in
  let scope := mkScope [sn_AssetID s] "" in
  match dec_Disposition d with
  | PROPOSE_POLICY =>
      guard! bool_decide (sn_Reason s = DETECTED_UNMITIGATED) || bool_decide (sn_Reason s = DETECTED_UNMAPPED)
      else "policy disposition is incompatible with triage reason" in
      let! keys := decode_keys (sn_DetectionKeys s) in
      guard! negb (bool_decide (keys = [])) else "policy disposition requires pinned detection keys" in
      let! intent := deriveClusterRoute (mkProposalIntent PROPOSAL_KIND_POLICY (sn_ClusterID s) "" [] (Some <$> keys) None) cluster in
      let risk := if existsb (λ k, negb (bool_decide (TargetSelector k = ""))) keys then SCOPE_RISK_EXACT else SCOPE_RISK_ROUTE in
      let evidence := if bool_decide (sn_Reason s = DETECTED_UNMAPPED) then EVIDENCE_CLASS_CRS_UNMAPPED else EVIDENCE_CLASS_CRS_MAPPED in
      Ok (mkTrusted intent scope (sn_EventIDs s) risk evidence)
  | PROPOSE_SHAPE =>
      guard! bool_decide (sn_Reason s = SUSPECTED_MISS) else "shape disposition is incompatible with triage reason" in
      let! _ := validateShapeAgainstCluster (dec_OptionalShapeDraft d) cluster in
      Ok (mkTrusted (mkProposalIntent PROPOSAL_KIND_SHAPE (sn_ClusterID s) "" [] [] (dec_OptionalShapeDraft d)) scope (sn_EventIDs s)
            SCOPE_RISK_EXACT EVIDENCE_CLASS_INTEL)
  | _ => Err "disposition does not create a proposal"
  end.
End decisions.

(** What the surroundings of a call decide: the outcome of the replay, the transactions of the
    gate and of the shadow, and whether the two closing updates are stored. *)
Record finish_env := mkFinishEnv { fe_report : result ReplayReport; fe_gate : tx_env; fe_shadow : tx_env; fe_stored : bool; fe_turned : bool }.

Section calls.
Context {C : Crypto} {A : AuditWire} {G : GovernDetails A} {P : Payloads} {U : Unicode}.
Context (json_artifact : Artifact → bool) (json_generation : AssetGeneration → bool) (marshal : compiled → result string).
Context (marshal_decision : TriageDecision → option string) (det_triage : triage_result → details_t).
Context (key : string) (signer : option Signer) (others : nat → turn_db → turn_db).

Definition triageDecisionDigest (d : TriageDecision) : result string :=
  match marshal_decision d with Some s => Ok (hex_encode (sha256 s)) | None => Err "marshal" end.

(** [writeGate] answers with the state it left the release in. *)
Definition gate_passed (read : gov_db) (releaseID : string) (report : result ReplayReport) (now : time) : bool :=
  match gate_release read releaseID report key signer now with Ok res => gr_Passed res | Err _ => false end.

(** The release signed, when it was a draft. *)
Definition finish_gate (st : turn_db) (agentID releaseID : string) (env : finish_env) : turn_db * result Release :=
  let st := others 1 st in
  match loadRelease (tt_gov st) releaseID with
  | Err e => (st, Err e)
  | Ok (RDraft _) =>
      let read := others 2 st in
      let st := others 3 read in
      let '(g, r) := writeGate json_artifact json_generation (tt_gov read) (tt_gov st) "agent" agentID releaseID (fe_report env) key signer (fe_gate env) in
      let st := set_gov st g in
      match r with
      | Err e => (st, Err e)
      | Ok _ =>
          if negb (gate_passed (tt_gov read) releaseID (fe_report env) (tx_now (fe_gate env))) then (st, Err "triage proposal did not pass replay gate")
          else let st := others 4 st in
               (st, loadRelease (tt_gov st) releaseID)
      end
  | Ok rel => (st, Ok rel)
  end.

(** The release in shadow, when it was signed. *)
Definition finish_shadow (st : turn_db) (agentID releaseID : string) (rel : Release) (env : finish_env) : turn_db * result unit :=
  match rel with
  | RSigned _ =>
      let read := others 5 st in
      let st := others 6 read in
      let '(g, r) := writeStartShadow json_artifact json_generation (tt_gov read) (tt_gov st) "agent" agentID releaseID key signer (fe_shadow env) in
      (set_gov st g, r)
  | _ => (st, Ok tt)
  end.

Definition store_result (st : turn_db) (turnID : string) (res : triage_result) : turn_db :=
  match tt_decisions st !! turnID with
  | Some d => set_decision st turnID (mkDecisionRow (dr_Agent d) (dr_Digest d) (dr_Release d) (Some res))
  | None => st
  end.

Definition finishTriageRelease (st : turn_db) (agentID turnID releaseID : string) (disposition : TriageDisposition) (env : finish_env)
    : turn_db * result triage_result :=
  let '(st, r) := finish_gate st agentID releaseID env in
  match r with
  | Err e => (st, Err e)
  | Ok rel =>
      let '(st, r) := finish_shadow st agentID releaseID rel env in
      match r with
      | Err e => (st, Err e)
      | Ok _ =>
          let res := mkTriageResult turnID releaseID "SHADOW" (if bool_decide (disposition = DISPOSITION_UNSPECIFIED) then None else Some disposition) in
          let st := others 7 st in
          if negb (fe_stored env) then (st, Err "update") else
          let st := others 8 (store_result st turnID res) in
          if negb (fe_turned env) then (st, Err "update") else
          (set_turn st turnID "completed" (Some releaseID), Ok res)
      end
  end.

(** [None]: the turn has no decision.  A decision without result and without release answers with an empty object. *)
Definition existingTriageDecision (st : turn_db) (turnID digest : string) (env : finish_env) : turn_db * option (result triage_result) :=
  match tt_decisions st !! turnID with
  | None => (st, None)
  | Some d =>
      if negb (bool_decide (dr_Digest d = digest)) then (st, Some (Err "triage turn already has a different decision")) else
      match dr_Result d with
      | Some res => (st, Some (Ok res))
      | None =>
          if bool_decide (dr_Release d = "") then (st, Some (Ok (mkTriageResult "" "" "" None)))
          else let '(st, r) := finishTriageRelease st (dr_Agent d) turnID (dr_Release d) DISPOSITION_UNSPECIFIED env in (st, Some r)
      end
  end.

Definition existingTriageDecisionResult (st : turn_db) (turnID digest : string) (env : finish_env) : turn_db * result triage_result :=
  let '(st, r) := existingTriageDecision st turnID digest env in
  match r with Some r => (st, r) | None => (st, Err "triage decision conflict was not committed") end.

(** The entry [triage.complete] of a transaction. *)
Definition triage_audit (g : gov_db) (agentID turnID : string) (res : triage_result) (env : tx_env) : result gov_db :=
  let '(audit, r) := appendAuditTx (gd_audit g) (tx_now env) (tx_auditSeq env) (tx_audited env) "agent" agentID "triage.complete" "turn" turnID
    (det_triage res) in
  let! _ := r in Ok (set_gov_audit g audit).

(** The transaction of a decision that proposes nothing; [None] is a violated unique constraint. *)
Definition storeTriageDecisionWithoutRelease (st : turn_db) (turnID agentID digest : string) (res : triage_result) (env : tx_env)
    : turn_db * option (result unit) :=
  if negb (bool_decide (tt_decisions st !! turnID = None)) then (st, None) else
  match triage_audit (tt_gov st) agentID turnID res env with
  | Err e => (st, Some (Err e))
  | Ok g =>
      if tx_committed env
      then (set_turn (set_decision (set_gov st g) turnID (mkDecisionRow agentID digest "" (Some res))) turnID "completed" None, Some (Ok tt))
      else (st, Some (Err "commit"))
  end.

(** The callback of the proposal: it stores the decision, marks the turn and appends the entry with the sequence number [aseq],
    before the proposal commits. *)
Definition complete_proposal (st : turn_db) (turnID agentID digest : string) (releaseID : string) (d : TriageDisposition) (env : tx_env) (aseq : Z)
    (audited : bool) : result turn_db :=
  let st := set_turn (set_decision st turnID (mkDecisionRow agentID digest releaseID None)) turnID "running" (Some releaseID) in
  let! g := triage_audit (tt_gov st) agentID turnID (mkTriageResult turnID releaseID "" (Some d))
    (mkTxEnv (tx_now env) (tx_genID env) aseq audited true true) in
  Ok (set_gov st g).

(** The proposal and its callback in one transaction; [None] is a violated unique constraint. *)
Definition propose_decision (st : turn_db) (turnID agentID digest : string) (t : trusted) (d : TriageDisposition) (random : string) (env : tx_env)
    (aseq : Z) (audited : bool) : turn_db * option (result string) :=
  let '(g, r) := writeTrustedProposal json_artifact (tt_gov st) agentID
      (mkTrustedProposal (bool_decide (in_Kind (tr_intent t) = PROPOSAL_KIND_SHAPE)) (Some (tr_scope t)) (tr_scopeRisk t) (tr_evidence t) (tr_evidenceRefs t))
      None (let! c := compile_trusted (tt_gov st) t in marshal c) random env in
  match r with
  | Err e => (st, if bool_decide (e = "duplicate key value violates unique constraint") then None else Some (Err e))
  | Ok releaseID =>
      if negb (bool_decide (tt_decisions st !! turnID = None)) then (st, None) else
      match complete_proposal (set_gov st g) turnID agentID digest releaseID d env aseq audited with
      | Ok st' => (st', Some (Ok releaseID))
      | Err e => (st, Some (Err e))
      end
  end.

Record triage_call := mkTriageCall {
  tc_Bindings : list string; tc_Subject : string; tc_Turn : string; tc_Decision : TriageDecision; tc_random : string;
  tc_env : tx_env; tc_auditSeq : Z; tc_audited : bool; tc_finish : finish_env }.

Definition complete_checks (st : turn_db) (call : triage_call) : result (triageTurnSnapshot * string) :=
  let turnID := trim_space (tc_Turn call) in
  guard! negb (bool_decide (turnID = "")) else "turn_id and decision are required" in
  guard! bindingAllowsTurn (tc_Bindings call) turnID else "denied" in
  let! _ := validateTriageDecision (tc_Decision call) in
  let! s := loadTriageTurnSnapshot st turnID in
  guard! bool_decide (snd s = tc_Subject call) && bool_decide (dec_ClusterId (tc_Decision call) = sn_ClusterID (fst s))
         && bindingsCoverAssets (tc_Bindings call) [sn_AssetID (fst s)] else "denied" in
  let! digest := triageDecisionDigest (tc_Decision call) in
  Ok (fst s, digest).

Definition proposes (d : TriageDisposition) : bool :=
  match d with REPORT_ONLY | ESCALATE_HUMAN | INSUFFICIENT_EVIDENCE => false | _ => true end.

Definition complete_new (events : gmap string event_row) (st : turn_db) (call : triage_call) (s : triageTurnSnapshot) (digest : string)
    : turn_db * result triage_result :=
  let turnID := trim_space (tc_Turn call) in
  let d := dec_Disposition (tc_Decision call) in
  if negb (proposes d) then
    let res := mkTriageResult turnID "" "completed" (Some d) in
    let '(st, r) := storeTriageDecisionWithoutRelease st turnID (tc_Subject call) digest res (tc_env call) in
    match r with
    | None => existingTriageDecisionResult (others 9 st) turnID digest (tc_finish call)
    | Some (Ok _) => (st, Ok res)
    | Some (Err e) => (st, Err e)
    end
  else
    match trustedProposalFromTurn events s (tc_Decision call) with
    | Err e => (st, Err e)
    | Ok t =>
        let '(st, r) := propose_decision st turnID (tc_Subject call) digest t d (tc_random call) (tc_env call) (tc_auditSeq call) (tc_audited call) in
        match r with
        | None => existingTriageDecisionResult (others 9 st) turnID digest (tc_finish call)
        | Some (Err e) => (st, Err e)
        | Some (Ok releaseID) => finishTriageRelease st (tc_Subject call) turnID releaseID d (tc_finish call)
        end
    end.

Definition toolTriageComplete (events : gmap string event_row) (st : turn_db) (call : triage_call) : turn_db * result triage_result :=
  match complete_checks st call with
  | Err e => (st, Err e)
  | Ok (s, digest) =>
      let st := others 10 st in
      let '(st, r) := existingTriageDecision st (trim_space (tc_Turn call)) digest (tc_finish call) in
      match r with
      | Some r => (st, r)
      | None => complete_new events (others 11 st) call s digest
      end
  end.

Definition toolTriageGet (st : turn_db) (bindings : list string) (subject turnID : string) : result triageTurnSnapshot :=
  guard! negb (bool_decide (turnID = "")) else "turn_id is required" in
  guard! bindingAllowsTurn bindings turnID else "denied" in
  let! s := loadTriageTurnSnapshot st turnID in
  guard! bool_decide (snd s = subject) && bindingsCoverAssets bindings [sn_AssetID (fst s)] else "denied" in
  Ok (fst s).
End calls.

(** ** What the governance transactions of a call write *)

(** One release may have moved to the state [to]. *)
Definition row_moves (id to : string) (g g' : gov_db) : Prop :=
  gd_releases g' = gd_releases g ∨
  ∃ row row', gd_releases g !! id = Some row ∧ rw_State row' = to ∧ gd_releases g' = <[id := row']> (gd_releases g).

Section writes.
Context {C : Crypto} {A : AuditWire} {G : GovernDetails A} (json_artifact : Artifact → bool) (json_generation : AssetGeneration → bool).
Context (key : string) (signer : option Signer).

Lemma publish_assets_rows ids k s rollback env : ∀ db db',
  publish_assets json_generation db ids k s rollback env = Ok db' → gd_releases db' = gd_releases db.
Proof.
  induction ids as [|id ids IH]; intros db db'; simpl; [by intros [= <-]|].
  destruct (publishAssetGeneration _ _ _ _ _ _ _ _) as [d|] eqn:Ep; [|done]. simpl. intros ->%IH. revert Ep.
  unfold publishAssetGeneration. destruct (_ || _); [by intros [= <-]|]. destruct (signGenerationEnvelope _ _ _ _) as [[g|] [?|?]]; try done.
  destruct (json_generation g); [|done]. destruct (generation_fits db g); [|done]. by intros [= <-].
Qed.

Lemma commit_moves db w env :
  w_supersede w = "" →
  row_moves (ReleaseID (w_rel w)) (releaseStateString (State (w_rel w))) db (commitReleaseChange json_artifact json_generation db w env).1.
Proof.
  intros Hs. unfold commitReleaseChange, in_tx. destruct (release_change _ _ _ _ _) as [db'|] eqn:Er; [|by left].
  unfold release_change in Er. rewrite Hs, (bool_decide_eq_true_2 ("" = "")) in Er by done.
  apply result_bind_Ok in Er as (d1 & H1 & Er). apply result_bind_Ok in Er as (d2 & H2 & Er). apply result_bind_Ok in Er as (d3 & [= <-] & Er).
  apply result_bind_Ok in Er as (d4 & H4 & Er). apply result_bind_Ok in Er as (d5 & H5 & Er).
  destruct (tx_complete env); [|done]. destruct (tx_committed env); [|done]. injection Er as <-. right.
  apply persistRelease_tables in H1 as (row & row' & Hrow & _ & Hu & E1 & _). apply updated_row_state in Hu as [Hst _]. exists row, row'.
  split_and!; [done..|]. rewrite <- E1. transitivity (gd_releases d4).
  { destruct (w_feed w); [by eapply publish_assets_rows|by simplify_eq]. }
  transitivity (gd_releases d2).
  { destruct (bool_decide (w_action w = "")); [by simplify_eq|]. by apply append_gov_audit_same in H4 as [? _]. }
  destruct (w_feed w); [by apply publishFeed_same in H2 as [? _]|by simplify_eq].
Qed.

Lemma loadRelease_id db id rel : loadRelease db id = Ok rel → ReleaseID rel = id.
Proof. unfold loadRelease, releaseFromParts. destruct (gd_releases db !! id); [|done]. repeat case_match; intros; simplify_eq/=; done. Qed.

Lemma writeGate_moves read db actorType actorID id report env :
  row_moves id "signed" db (writeGate json_artifact json_generation read db actorType actorID id report key signer env).1.
Proof.
  unfold writeGate. destruct (gate_release _ _ _ _ _ _) as [res|] eqn:Eg; [|by left]. destruct (gr_Passed res); simpl; [|by left].
  destruct (gr_Signed res) as [signed|] eqn:Es; [|by left].
  assert (signed_ID signed = id) as Hid.
  { unfold gate_release, loadDraft in Eg. destruct (loadRelease read id) as [rel|] eqn:El; [|done]. cbn [result_bind] in Eg.
    apply loadRelease_id in El. destruct rel as [d| | | | |]; try done. destruct report as [rep|]; [|done]. cbn [result_bind] in Eg.
    destruct signer as [sg|].
    - destruct (GateWithSigner _ _ _ _) as [r [[]|]] eqn:E'; [|done]. injection Eg as ->. destruct (gate_with_signed _ _ _ _ _ signed E' Es) as (_ & _ & -> & _); done.
    - destruct (Gate _ _ _ _) as [r [[]|]] eqn:E'; [|done]. injection Eg as ->. destruct (gate_with_signed _ _ _ _ _ signed E' Es) as (_ & _ & -> & _); done. }
  rewrite <- Hid. by apply (commit_moves db (mkReleaseWrite (RSigned signed) false false RETIRE_REASON_UNSPECIFIED "" _ _ _ _ _ _)).
Qed.

Lemma writeStartShadow_moves read db actorType actorID id env :
  row_moves id "shadow" db (writeStartShadow json_artifact json_generation read db actorType actorID id key signer env).1.
Proof.
  unfold writeStartShadow. destruct (loadRelease read id) as [rel|] eqn:El; [|by left]. apply loadRelease_id in El.
  destruct rel as [|s| | | |]; try by left. rewrite <- El.
  by apply (commit_moves db (mkReleaseWrite (RShadow (StartShadow s)) true false RETIRE_REASON_UNSPECIFIED "" _ _ _ _ _ _)).
Qed.
End writes.

(** ** Stored decisions *)

(** A decision keeps its author, its content and its release; once it has a result it has one. *)
Definition kept (st st' : turn_db) : Prop :=
  ∀ t d, tt_decisions st !! t = Some d → ∃ d', tt_decisions st' !! t = Some d' ∧ dr_Agent d' = dr_Agent d ∧ dr_Digest d' = dr_Digest d ∧
    dr_Release d' = dr_Release d ∧ (is_Some (dr_Result d) → is_Some (dr_Result d')).

#[global] Instance kept_preorder : PreOrder kept.
Proof.
  split; [intros st t d H; by exists d|]. intros a b c Hab Hbc t d (d1 & H1 & E1 & E2 & E3 & E4)%Hab.
  destruct (Hbc t d1 H1) as (d2 & H2 & F1 & F2 & F3 & F4). exists d2. split_and!; [done|congruence..|auto].
Qed.

(** A result is about its turn and the release of its decision; a decision in progress has a release. *)
Definition decision_ok (t : string) (d : decision_row) : Prop :=
  match dr_Result d with
  | Some res => tr_TurnId res = t ∧ tr_ReleaseId res = dr_Release d
  | None => dr_Release d ≠ ""
  end.
Definition decisions_ok (st : turn_db) : Prop := map_Forall decision_ok (tt_decisions st).

Lemma set_gov_kept st g : kept st (set_gov st g).
Proof. intros t d H. by exists d. Qed.
Lemma set_turn_kept st t s o : kept st (set_turn st t s o).
Proof. intros t' d H. by exists d. Qed.
Lemma new_decision_kept st t d : tt_decisions st !! t = None → kept st (set_decision st t d).
Proof. intros Hn t' d' H. exists d'. split_and!; try done. simpl. rewrite lookup_insert_ne; [done|]. by intros ->; rewrite Hn in H. Qed.
Lemma store_result_kept st t res : kept st (store_result st t res).
Proof.
  unfold store_result. destruct (tt_decisions st !! t) as [d|] eqn:E; [|done]. intros t' d' H. simpl. destruct (decide (t = t')) as [<-|Hne].
  - rewrite E in H. injection H as <-. rewrite lookup_insert_eq. by eexists.
  - rewrite lookup_insert_ne by done. by exists d'.
Qed.

Lemma new_decision_ok st t d : decisions_ok st → decision_ok t d → decisions_ok (set_decision st t d).
Proof. intros H Hd. by apply map_Forall_insert_2. Qed.

(** The decision of a turn has the given digest and release. *)
Definition decided (st : turn_db) (t digest release : string) : Prop :=
  ∃ d, tt_decisions st !! t = Some d ∧ dr_Digest d = digest ∧ dr_Release d = release.

Lemma decided_kept st st' t digest release : kept st st' → decided st t digest release → decided st' t digest release.
Proof. intros Hk (d & H & <- & <-). destruct (Hk _ _ H) as (d' & H' & _ & ? & ? & _). by exists d'. Qed.

Lemma store_result_ok st t digest release res :
  decisions_ok st → decided st t digest release → tr_TurnId res = t → tr_ReleaseId res = release → decisions_ok (store_result st t res).
Proof. intros H (d & E & _ & <-) Ht Hr. unfold store_result. rewrite E. by apply new_decision_ok. Qed.

Section call_facts.
Context {C : Crypto} {A : AuditWire} {G : GovernDetails A} {P : Payloads} {U : Unicode}.
Context (json_artifact : Artifact → bool) (json_generation : AssetGeneration → bool) (marshal : compiled → result string).
Context (marshal_decision : TriageDecision → option string) (det_triage : triage_result → details_t).
Context (key : string) (signer : option Signer) (others : nat → turn_db → turn_db).

(** Other handlers keep decisions and their shape. *)
Hypothesis others_kept : ∀ i st, kept st (others i st).
Hypothesis others_ok : ∀ i st, decisions_ok st → decisions_ok (others i st).

(** A step that keeps decisions and their shape. *)
Definition sound_step (st st' : turn_db) : Prop := kept st st' ∧ (decisions_ok st → decisions_ok st').

#[local] Instance sound_step_preorder : PreOrder sound_step.
Proof. split; [by intros st|]. intros a b c [H1 H2] [H3 H4]. split; [by trans b|auto]. Qed.

Lemma others_sound i st : sound_step st (others i st).
Proof. split; auto. Qed.
Lemma set_gov_sound st g : sound_step st (set_gov st g).
Proof. split; [apply set_gov_kept|done]. Qed.
Lemma set_turn_sound st t s o : sound_step st (set_turn st t s o).
Proof. split; [apply set_turn_kept|done]. Qed.
#[local] Hint Resolve others_sound set_gov_sound set_turn_sound : yufeng.

(** Peel the writes of a call, the last one first. *)
Ltac sound :=
  repeat first [reflexivity | etrans; [|apply others_sound] | etrans; [|apply set_gov_sound] | etrans; [|apply set_turn_sound]].

Lemma finish_gate_sound st agentID releaseID env :
  sound_step st (finish_gate json_artifact json_generation key signer others st agentID releaseID env).1.
Proof.
  unfold finish_gate. destruct (loadRelease _ _) as [[]|]; simpl; auto with yufeng.
  destruct (writeGate _ _ _ _ _ _ _ _ _ _ _) as [g [?|?]]; simpl; [destruct (negb _); simpl|].
  all: sound.
Qed.

Lemma finish_shadow_sound st agentID releaseID rel env :
  sound_step st (finish_shadow json_artifact json_generation key signer others st agentID releaseID rel env).1.
Proof.
  unfold finish_shadow. destruct rel; simpl; try reflexivity.
  destruct (writeStartShadow _ _ _ _ _ _ _ _ _ _) as [g r]. simpl. sound.
Qed.

(** The call ends with the decision of the turn, and what it answers is about it. *)
Definition answers (st : turn_db) (turnID digest : string) (p : turn_db * result triage_result) : Prop :=
  sound_step st p.1 ∧
  ∀ res, decisions_ok st → p.2 = Ok res → ∃ d, tt_decisions p.1 !! turnID = Some d ∧ dr_Digest d = digest ∧ tr_TurnId res = turnID ∧ tr_ReleaseId res = dr_Release d.

Lemma finish_answers st agentID turnID releaseID digest disposition env :
  decided st turnID digest releaseID →
  answers st turnID digest (finishTriageRelease json_artifact json_generation key signer others st agentID turnID releaseID disposition env).
Proof.
  intros Hd. unfold finishTriageRelease.
  pose proof (finish_gate_sound st agentID releaseID env) as Hg. destruct (finish_gate _ _ _ _ _ _ _ _ _) as [st1 [rel|e]]; simpl in Hg; [|by split].
  pose proof (finish_shadow_sound st1 agentID releaseID rel env) as Hs. destruct (finish_shadow _ _ _ _ _ _ _ _ _ _) as [st2 [[]|e]]; simpl in Hs;
    [|split; [by trans st1|done]].
  assert (sound_step st (others 7 st2)) as H7 by (trans st1; [done|]; trans st2; auto with yufeng).
  destruct (fe_stored env); [|by split]. simpl. set (res := mkTriageResult _ _ _ _).
  assert (decided (others 7 st2) turnID digest releaseID) as Hd7 by (eapply decided_kept; [apply H7|done]).
  assert (sound_step st (store_result (others 7 st2) turnID res)) as H8.
  { trans (others 7 st2); [done|]. split; [apply store_result_kept|]. intros Hok. by eapply store_result_ok. }
  destruct (fe_turned env); [|split; [trans (store_result (others 7 st2) turnID res); [done|simpl; sound]|done]]. simpl. split.
  - trans (store_result (others 7 st2) turnID res); [done|]. simpl. sound.
  - intros r _ [= <-]. eapply decided_kept in Hd7 as (d & H & Hdig & Hrel); [exists d; split_and!; [exact H|done..|by rewrite Hrel]|].
    trans (store_result (others 7 st2) turnID res); [apply store_result_kept|]. trans (others 8 (store_result (others 7 st2) turnID res)); [apply others_kept|].
    apply set_turn_kept.
Qed.

Lemma existing_answers st turnID digest env st' r :
  existingTriageDecision json_artifact json_generation key signer others st turnID digest env = (st', r) →
  match r with
  | Some r => answers st turnID digest (st', r)
  | None => st' = st ∧ tt_decisions st !! turnID = None
  end.
Proof.
  unfold existingTriageDecision. destruct (tt_decisions st !! turnID) as [d|] eqn:Ed; [|by intros [= <- <-]].
  case_bool_decide as Hdig; simpl; [|by intros [= <- <-]].
  destruct (dr_Result d) as [res|] eqn:Er.
  { intros [= <- <-]. split; [done|]. intros res' Hok [= <-]. exists d. specialize (Hok _ _ Ed). unfold decision_ok in Hok. rewrite Er in Hok. by destruct Hok. }
  case_bool_decide as Hrel.
  { intros [= <- <-]. split; [done|]. intros res Hok _. specialize (Hok _ _ Ed). unfold decision_ok in Hok. by rewrite Er in Hok. }
  destruct (finishTriageRelease _ _ _ _ _ _ _ _ _ _ _) as [s1 r1] eqn:Ef. intros [= <- <-]. rewrite <- Ef.
  apply finish_answers. by exists d.
Qed.

Lemma existing_result_answers st turnID digest env :
  answers st turnID digest (existingTriageDecisionResult json_artifact json_generation key signer others st turnID digest env).
Proof.
  unfold existingTriageDecisionResult. destruct (existingTriageDecision _ _ _ _ _ _ _ _ _) as [s1 r1] eqn:Ee.
  apply existing_answers in Ee. destruct r1; [done|]. destruct Ee as [-> _]. by split.
Qed.

Lemma writeTrustedProposal_id db user trusted ttl payload random env db' id :
  writeTrustedProposal json_artifact db user trusted ttl payload random env = (db', Ok id) → id = newID "rel" random.
Proof. unfold writeTrustedProposal. destruct payload; [|done]. destruct (insert_proposal _ _ _ _ _ _); [|done]. by intros [= _ <-]. Qed.

Lemma propose_decision_spec st turnID agentID digest t d random env aseq audited st' r :
  propose_decision json_artifact marshal det_triage st turnID agentID digest t d random env aseq audited = (st', r) →
  match r with
  | Some (Ok id) => id = newID "rel" random ∧ sound_step st st' ∧ decided st' turnID digest id ∧ tt_decisions st !! turnID = None
  | _ => st' = st
  end.
Proof.
  unfold propose_decision. destruct (writeTrustedProposal _ _ _ _ _ _ _ _) as [g [id|e]] eqn:Ew; [|intros [= <- <-]; by destruct (bool_decide (e = _))].
  apply writeTrustedProposal_id in Ew as ->. case_bool_decide as Hn; simpl; [|by intros [= <- <-]].
  unfold complete_proposal, triage_audit. destruct (appendAuditTx _ _ _ _ _ _ _ _ _) as [au [?|e]]; simpl; intros [= <- <-]; [|done].
  split_and!; [done| |eexists; simpl; by rewrite lookup_insert_eq|done]. split.
  - intros t' d' H. simpl. exists d'. rewrite lookup_insert_ne; [done|]. by intros ->; rewrite Hn in H.
  - intros Hok. apply (map_Forall_insert_2 decision_ok); [|done]. unfold decision_ok. simpl. apply newID_ne.
Qed.

Lemma store_decision_spec st turnID agentID digest res env st' r :
  tr_TurnId res = turnID → tr_ReleaseId res = "" →
  storeTriageDecisionWithoutRelease det_triage st turnID agentID digest res env = (st', r) →
  match r with
  | Some (Ok _) => sound_step st st' ∧ decided st' turnID digest "" ∧ gd_releases (tt_gov st') = gd_releases (tt_gov st)
  | _ => st' = st
  end.
Proof.
  intros Ht Hr. unfold storeTriageDecisionWithoutRelease. case_bool_decide as Hn; simpl; [|by intros [= <- <-]].
  unfold triage_audit. destruct (appendAuditTx _ _ _ _ _ _ _ _ _) as [au [?|e]]; simpl; [|by intros [= <- <-]].
  destruct (tx_committed env); [|by intros [= <- <-]]. intros [= <- <-]. split_and!; [|eexists; simpl; by rewrite lookup_insert_eq|done..]. split.
  - intros t' d' H. simpl. exists d'. rewrite lookup_insert_ne; [done|]. by intros ->; rewrite Hn in H.
  - intros Hok. apply (map_Forall_insert_2 decision_ok); [|done]. unfold decision_ok. simpl. split; [done|done].
Qed.

Lemma answers_after st st1 turnID digest p : sound_step st st1 → answers st1 turnID digest p → answers st turnID digest p.
Proof. intros [Hk Hok] [Hs Ha]. split; [by trans st1|auto]. Qed.

Lemma complete_new_answers events st call s digest :
  answers st (trim_space (tc_Turn call)) digest
    (complete_new json_artifact json_generation marshal det_triage key signer others events st call s digest).
Proof.
  unfold complete_new. destruct (proposes _); simpl.
  - destruct (trustedProposalFromTurn _ _ _) as [t|]; [|by split].
    destruct (propose_decision _ _ _ _ _ _ _ _ _ _ _ _) as [s1 [[id|e]|]] eqn:Ep; apply propose_decision_spec in Ep.
    + destruct Ep as (-> & Hs & Hd & _). eapply answers_after; [done|]. by apply finish_answers.
    + subst. by split.
    + subst. eapply answers_after; [apply (others_sound 9)|]. apply existing_result_answers.
  - destruct (storeTriageDecisionWithoutRelease _ _ _ _ _ _ _) as [s1 [[[]|e]|]] eqn:Ep; apply store_decision_spec in Ep; try done.
    + destruct Ep as (Hs & (d & Hd & Hdig & Hrel) & _). split; [done|]. intros res _ [= <-]. exists d. by split_and!.
    + subst. by split.
    + subst. eapply answers_after; [apply (others_sound 9)|]. apply existing_result_answers.
Qed.
End call_facts.

(** ** The releases of a call *)

(** No other handler runs. *)
Definition alone (i : nat) (st : turn_db) : turn_db := st.

Definition triage_states : list string := ["draft"; "signed"; "shadow"].

(** At most the release [id] is written, and not past shadow. *)
Definition touches (id : string) (g g' : gov_db) : Prop :=
  ∀ k row', gd_releases g' !! k = Some row' → gd_releases g !! k = Some row' ∨ k = id ∧ rw_State row' ∈ triage_states.

#[global] Instance touches_preorder id : PreOrder (touches id).
Proof. split; [intros g k row H; by left|]. intros a b c Hab Hbc k row Hk. destruct (Hbc _ _ Hk) as [H|?]; [by apply Hab|by right]. Qed.

Lemma row_moves_touches id to g g' : row_moves id to g g' → to ∈ triage_states → touches id g g'.
Proof.
  intros [E|(row & row' & _ & Hs & E)] Hto k r Hk; rewrite E in Hk; [by left|].
  apply lookup_insert_Some in Hk as [[<- <-]|[_ Hk]]; [right; by rewrite Hs|by left].
Qed.

Section releases_of_calls.
Context {C : Crypto} {A : AuditWire} {G : GovernDetails A} {P : Payloads} {U : Unicode}.
Context (json_artifact : Artifact → bool) (json_generation : AssetGeneration → bool) (marshal : compiled → result string).
Context (marshal_decision : TriageDecision → option string) (det_triage : triage_result → details_t).
Context (key : string) (signer : option Signer).

Lemma store_result_gov st t res : tt_gov (store_result st t res) = tt_gov st.
Proof. unfold store_result. by destruct (tt_decisions st !! t). Qed.

Lemma finish_gate_touches st agentID releaseID env :
  touches releaseID (tt_gov st) (tt_gov (finish_gate json_artifact json_generation key signer alone st agentID releaseID env).1).
Proof.
  unfold finish_gate, alone. destruct (loadRelease _ _) as [[]|]; try reflexivity.
  pose proof (writeGate_moves json_artifact json_generation key signer (tt_gov st) (tt_gov st) "agent" agentID releaseID (fe_report env) (fe_gate env)) as Hm.
  destruct (writeGate _ _ _ _ _ _ _ _ _ _ _) as [g [?|?]]; simpl in *; [destruct (negb _); simpl|];
    eapply row_moves_touches; [exact Hm|apply (bool_decide_unpack _); exact I|exact Hm|apply (bool_decide_unpack _); exact I|exact Hm|apply (bool_decide_unpack _); exact I].
Qed.

Lemma finish_shadow_touches st agentID releaseID rel env :
  touches releaseID (tt_gov st) (tt_gov (finish_shadow json_artifact json_generation key signer alone st agentID releaseID rel env).1).
Proof.
  unfold finish_shadow, alone. destruct rel; try reflexivity.
  pose proof (writeStartShadow_moves json_artifact json_generation key signer (tt_gov st) (tt_gov st) "agent" agentID releaseID (fe_shadow env)) as Hm.
  destruct (writeStartShadow _ _ _ _ _ _ _ _ _ _) as [g r]. simpl in *. eapply row_moves_touches; [exact Hm|apply (bool_decide_unpack _); exact I].
Qed.

Lemma finish_touches st agentID turnID releaseID disposition env :
  touches releaseID (tt_gov st)
    (tt_gov (finishTriageRelease json_artifact json_generation key signer alone st agentID turnID releaseID disposition env).1).
Proof.
  unfold finishTriageRelease. pose proof (finish_gate_touches st agentID releaseID env) as Hg.
  destruct (finish_gate _ _ _ _ _ _ _ _ _) as [st1 [rel|e]]; simpl in Hg; [|done].
  pose proof (finish_shadow_touches st1 agentID releaseID rel env) as Hs.
  destruct (finish_shadow _ _ _ _ _ _ _ _ _ _) as [st2 [[]|e]]; simpl in Hs; [|by trans (tt_gov st1)].
  trans (tt_gov st2); [by trans (tt_gov st1)|]. unfold alone. destruct (fe_stored env); [|done]. destruct (fe_turned env); simpl; by rewrite store_result_gov.
Qed.

(** What a call does to the releases: nothing, or it writes the release of the decision of its turn. *)
Definition own_release (st : turn_db) (turnID : string) (st' : turn_db) : Prop :=
  gd_releases (tt_gov st') = gd_releases (tt_gov st) ∨ ∃ digest id, decided st' turnID digest id ∧ touches id (tt_gov st) (tt_gov st').

Lemma own_release_intro st turnID digest id st' :
  touches id (tt_gov st) (tt_gov st') → decided st turnID digest id → sound_step st st' → own_release st turnID st'.
Proof. intros Ht Hd [Hk _]. right. exists digest, id. split; [by eapply decided_kept|done]. Qed.

Lemma alone_kept i st : kept st (alone i st).
Proof. done. Qed.
Lemma alone_ok i st : decisions_ok st → decisions_ok (alone i st).
Proof. done. Qed.

Lemma existing_own st turnID digest env :
  own_release st turnID (existingTriageDecision json_artifact json_generation key signer alone st turnID digest env).1.
Proof.
  unfold existingTriageDecision. destruct (tt_decisions st !! turnID) as [d|] eqn:Ed; [|by left].
  destruct (negb _); [by left|]. destruct (dr_Result d); [by left|]. case_bool_decide; [by left|].
  pose proof (finish_touches st (dr_Agent d) turnID (dr_Release d) DISPOSITION_UNSPECIFIED env) as Ht.
  assert (decided st turnID (dr_Digest d) (dr_Release d)) as Hd by by exists d.
  destruct (finish_answers json_artifact json_generation key signer alone alone_kept alone_ok st (dr_Agent d) turnID (dr_Release d) (dr_Digest d)
    DISPOSITION_UNSPECIFIED env Hd) as [Hs _].
  destruct (finishTriageRelease _ _ _ _ _ _ _ _ _ _ _) as [s1 r1]. by apply (own_release_intro st turnID (dr_Digest d) (dr_Release d) s1).
Qed.

Lemma existing_result_own st turnID digest env :
  own_release st turnID (existingTriageDecisionResult json_artifact json_generation key signer alone st turnID digest env).1.
Proof.
  unfold existingTriageDecisionResult. pose proof (existing_own st turnID digest env) as Ho.
  by destruct (existingTriageDecision _ _ _ _ _ _ _ _ _) as [s1 [r|]].
Qed.

Lemma writeTrustedProposal_touches db user trusted ttl payload random env db' id :
  writeTrustedProposal json_artifact db user trusted ttl payload random env = (db', Ok id) → touches id db db'.
Proof.
  unfold writeTrustedProposal. destruct payload as [p|]; [|done]. unfold insert_proposal. destruct (json_artifact _); [|done].
  case_bool_decide; [|done]. destruct (appendAuditTx _ _ _ _ _ _ _ _ _) as [audit [?|]]; [|done]. simpl.
  destruct (tx_complete env); [|done]. destruct (tx_committed env); [|done]. intros [= <- <-] k row'. simpl.
  rewrite (proj1 (add_release_assets_spec _ _ _)). simpl. intros [[<- <-]|[_ Hk]]%lookup_insert_Some; [right|by left].
  split; [done|apply (bool_decide_unpack _); exact I].
Qed.

Lemma propose_decision_touches st turnID agentID digest t d random env aseq audited st' id :
  propose_decision json_artifact marshal det_triage st turnID agentID digest t d random env aseq audited = (st', Some (Ok id)) →
  touches id (tt_gov st) (tt_gov st').
Proof.
  unfold propose_decision. destruct (writeTrustedProposal _ _ _ _ _ _ _ _) as [g [id'|e]] eqn:Ew; [|by destruct (bool_decide (e = _))].
  apply writeTrustedProposal_touches in Ew. destruct (negb _); [done|].
  unfold complete_proposal, triage_audit. destruct (appendAuditTx _ _ _ _ _ _ _ _ _) as [au [?|e]]; simpl; intros [= <- <-]. exact Ew.
Qed.

Lemma complete_new_own events st call s digest :
  own_release st (trim_space (tc_Turn call))
    (complete_new json_artifact json_generation marshal det_triage key signer alone events st call s digest).1.
Proof.
  unfold complete_new. destruct (proposes _); simpl.
  - destruct (trustedProposalFromTurn _ _ _) as [t|]; [|by left].
    destruct (propose_decision _ _ _ _ _ _ _ _ _ _ _ _) as [s1 [[id|e]|]] eqn:Ep; pose proof Ep as Ht; apply propose_decision_spec in Ep; [|by subst; left|].
    + apply propose_decision_touches in Ht. destruct Ep as (_ & _ & Hd & _). right. exists digest, id. split.
      * eapply decided_kept; [|exact Hd]. by apply (finish_answers json_artifact json_generation key signer alone alone_kept alone_ok _ _ _ _ digest).
      * trans (tt_gov s1); [done|]. apply finish_touches.
    + subst. apply existing_result_own.
  - destruct (storeTriageDecisionWithoutRelease _ _ _ _ _ _ _) as [s1 [[[]|e]|]] eqn:Ep; apply store_decision_spec in Ep; try done.
    + left. apply Ep.
    + by subst; left.
    + subst. apply existing_result_own.
Qed.

Lemma complete_own events st call :
  own_release st (trim_space (tc_Turn call))
    (toolTriageComplete json_artifact json_generation marshal marshal_decision det_triage key signer alone events st call).1.
Proof.
  unfold toolTriageComplete. destruct (complete_checks _ _ _) as [[s digest]|]; [|by left].
  pose proof (existing_own st (trim_space (tc_Turn call)) digest (tc_finish call)) as Ho. unfold alone at 1.
  destruct (existingTriageDecision _ _ _ _ _ _ _ _ _) as [s1 [r|]] eqn:Ee; [done|].
  apply existing_answers in Ee as [-> _]; [|exact alone_kept|exact alone_ok]. apply complete_new_own.
Qed.
End releases_of_calls.

Section decision_theorems.
Context {C : Crypto} {A : AuditWire} {G : GovernDetails A} {P : Payloads} {U : Unicode}.
Context (json_artifact : Artifact → bool) (json_generation : AssetGeneration → bool) (marshal : compiled → result string).
Context (marshal_decision : TriageDecision → option string) (det_triage : triage_result → details_t).
Context (key : string) (signer : option Signer) (others : nat → turn_db → turn_db).

(** What a call that answers has checked. *)
Lemma complete_checks_ok st call s digest :
  complete_checks marshal_decision st call = Ok (s, digest) →
  bindingAllowsTurn (tc_Bindings call) (trim_space (tc_Turn call)) = true ∧ loadTriageTurnSnapshot st (trim_space (tc_Turn call)) = Ok (s, tc_Subject call) ∧
  dec_ClusterId (tc_Decision call) = sn_ClusterID s ∧ bindingsCoverAssets (tc_Bindings call) [sn_AssetID s] = true ∧
  triageDecisionDigest marshal_decision (tc_Decision call) = Ok digest.
Proof.
  unfold complete_checks. destruct (negb _); [|done]. destruct (bindingAllowsTurn _ _); [|done]. destruct (validateTriageDecision _); [|done]. simpl.
  destruct (loadTriageTurnSnapshot _ _) as [[s' agent]|]; [|done]. simpl. destruct (_ && _ && _) eqn:Eb; [|done].
  apply andb_true_iff in Eb as [Eb Hc]. apply andb_true_iff in Eb as [Ha Hcl]. apply bool_decide_eq_true in Ha, Hcl. subst agent.
  destruct (triageDecisionDigest _ _) as [dg|]; [|done]. simpl. intros [= <- <-]. done.
Qed.

(** C21: whatever other handlers commit between the transactions of a call, as long as they keep stored decisions, a turn is
    decided once: a call keeps the author, the content and the release of every decision there is, and a call that answers leaves a
    decision of its turn with exactly the submitted content, and answers with the release of that decision, so that no two calls
    on a turn are ever told of different releases or answered for different decisions.  Only the agent of the turn, bound to the
    turn and to the asset of its snapshot, is answered. *)
Theorem triage_turn_decided_once events st call st' r :
  (∀ i s, kept s (others i s)) → (∀ i s, decisions_ok s → decisions_ok (others i s)) → decisions_ok st →
  toolTriageComplete json_artifact json_generation marshal marshal_decision det_triage key signer others events st call = (st', r) →
  let turnID := trim_space (tc_Turn call) in
  kept st st' ∧ decisions_ok st' ∧
  ∀ res, r = Ok res →
    (∃ s, loadTriageTurnSnapshot st turnID = Ok (s, tc_Subject call) ∧ bindingAllowsTurn (tc_Bindings call) turnID = true ∧
       dec_ClusterId (tc_Decision call) = sn_ClusterID s ∧ bindingsCoverAssets (tc_Bindings call) [sn_AssetID s] = true) ∧
    ∃ d, tt_decisions st' !! turnID = Some d ∧ triageDecisionDigest marshal_decision (tc_Decision call) = Ok (dr_Digest d) ∧
      tr_TurnId res = turnID ∧ tr_ReleaseId res = dr_Release d.
Proof.
  intros Hk Ho Hok. unfold toolTriageComplete. destruct (complete_checks _ _ _) as [[s digest]|] eqn:Ec; [|intros [= <- <-]; by split_and!].
  apply complete_checks_ok in Ec as (Hb & Hl & Hcl & Hcov & Hdig).
  assert (∀ p, answers st (trim_space (tc_Turn call)) digest p → p = (st', r) →
    kept st st' ∧ decisions_ok st' ∧ ∀ res, r = Ok res →
      (∃ s, loadTriageTurnSnapshot st (trim_space (tc_Turn call)) = Ok (s, tc_Subject call) ∧ bindingAllowsTurn (tc_Bindings call) (trim_space (tc_Turn call)) = true ∧
         dec_ClusterId (tc_Decision call) = sn_ClusterID s ∧ bindingsCoverAssets (tc_Bindings call) [sn_AssetID s] = true) ∧
      ∃ d, tt_decisions st' !! trim_space (tc_Turn call) = Some d ∧ triageDecisionDigest marshal_decision (tc_Decision call) = Ok (dr_Digest d) ∧
        tr_TurnId res = trim_space (tc_Turn call) ∧ tr_ReleaseId res = dr_Release d) as Hfin.
  { intros p [[Hp1 Hp2] Hp3] ->. simpl in *. split_and!; [done|auto|]. intros res Hr. split; [by exists s|].
    destruct (Hp3 res Hok Hr) as (d & ? & <- & ?). by exists d. }
  destruct (existingTriageDecision _ _ _ _ _ _ _ _ _) as [s1 r1] eqn:Ee. apply existing_answers in Ee; [|done..].
  destruct r1 as [r1|].
  - apply Hfin. eapply answers_after; [by apply (others_sound others Hk Ho 10)|done].
  - destruct Ee as [-> _]. apply Hfin. eapply answers_after; [by apply (others_sound others Hk Ho 10)|].
    eapply answers_after; [by apply (others_sound others Hk Ho 11)|]. by apply complete_new_answers.
Qed.

(** C22: a call of a triage agent writes no release but the one recorded in the decision of its turn, and never takes it past
    shadow; a release that exists is left as it is or moved to signed or shadow, whatever fails on the way. *)
Theorem triage_stops_at_shadow events st call id row :
  let st' := (toolTriageComplete json_artifact json_generation marshal marshal_decision det_triage key signer alone events st call).1 in
  gd_releases (tt_gov st') !! id = Some row →
  gd_releases (tt_gov st) !! id = Some row ∨
  rw_State row ∈ triage_states ∧ ∃ d, tt_decisions st' !! trim_space (tc_Turn call) = Some d ∧ dr_Release d = id.
Proof.
  intros st' Hrow. destruct (complete_own json_artifact json_generation marshal marshal_decision det_triage key signer events st call)
    as [E|(digest & k & (d & Hd & _ & Hrel) & Ht)].
  - left. by rewrite <- E.
  - destruct (Ht _ _ Hrow) as [?|[-> Hs]]; [by left|right]. split; [done|]. by exists d.
Qed.

(** A call that resumes a decision whose release was promoted or retired in the meantime writes nothing to the release and
    still answers, and stores, that it is in shadow. *)
Theorem resumed_call_claims_shadow events st call d row digest s :
  complete_checks marshal_decision st call = Ok (s, digest) →
  tt_decisions st !! trim_space (tc_Turn call) = Some d → dr_Digest d = digest → dr_Result d = None → dr_Release d ≠ "" →
  gd_releases (tt_gov st) !! dr_Release d = Some row → rw_State row ∈ ["canary"; "enforce"; "retired"] →
  fe_stored (tc_finish call) = true → fe_turned (tc_finish call) = true →
  let p := toolTriageComplete json_artifact json_generation marshal marshal_decision det_triage key signer alone events st call in
  p.2 = Ok (mkTriageResult (trim_space (tc_Turn call)) (dr_Release d) "SHADOW" None) ∧ tt_gov p.1 = tt_gov st.
Proof.
  intros Hc Hd Hdig Hres Hrel Hrow Hst H1 H2 p. subst p. unfold toolTriageComplete. rewrite Hc.
  unfold existingTriageDecision, finishTriageRelease, finish_gate, alone. rewrite Hd, (bool_decide_eq_true_2 (dr_Digest d = digest)) by done. cbn [negb].
  rewrite Hres, (bool_decide_eq_false_2 (dr_Release d = "")) by done. unfold loadRelease. rewrite Hrow. unfold releaseFromParts. rewrite H1, H2.
  repeat match goal with H : _ ∈ _ :: _ |- _ => apply elem_of_cons in H as [H|H] end; [..|by apply elem_of_nil in Hst];
    rewrite Hst; (split; [reflexivity|apply store_result_gov]).
Qed.
End decision_theorems.

Lemma Ok_inj {X} (a b : X) : Ok a = Ok b → a = b.
Proof. by intros [= ->]. Qed.

(** ** One turn *)
Module TurnDemo.
#[local] Existing Instance toy_crypto.
#[local] Existing Instance ascii_only_unicode.
#[local] Existing Instance TriageDemo.audit.
#[local] Existing Instance TriageDemo.details.
#[local] Existing Instance TriageDemo.payloads.
Definition marshal_decision (d : TriageDecision) : option string := Some (dec_ClusterId d +:+ dec_Rationale d).
Definition det (r : triage_result) : string := tr_ReleaseId r.
Definition start : turn_db := mkTurnDb TriageDemo.db ∅ ∅ ∅.
Definition opened : turn_db :=
  match ensureTriageTurn (td_clusters TriageDemo.two) TriageDemo.events start "agent" TriageDemo.cid "a" "b" with Ok p => fst p | Err _ => start end.
Definition turn : string := newID "turn" "b".
Definition decision : TriageDecision := mkTriageDecision TriageDemo.cid PROPOSE_POLICY "attack" None.
Definition env (n : Z) (g : string) : tx_env := mkTxEnv n (λ _, g) n true true true.
Definition call (stored : bool) (n : Z) : triage_call :=
  mkTriageCall [turnBinding turn; "asset:asset"] "agent" turn decision "p" (env n "x") (n + 1) true
    (mkFinishEnv (Ok Demo.good_report) (env (n + 2) "y") (env (n + 3) "z") stored true).
Definition run (st : turn_db) (c : triage_call) : turn_db * result triage_result :=
  toolTriageComplete (λ _, true) (λ _, true) TriageDemo.marshal marshal_decision det toy_key None alone TriageDemo.events st c.
Definition release : string := newID "rel" "p".
Definition answer : triage_result := mkTriageResult turn release "SHADOW" (Some PROPOSE_POLICY).
(** The call that could not store its answer, and the release retired since. *)
Definition crashed : turn_db := (run opened (call false 10)).1.
Definition retired : turn_db :=
  set_gov crashed (RetireRelease (λ _, true) (λ _, true) (tt_gov crashed) (tt_gov crashed) true "bob" release toy_key None (env 20 "w")).1.

Lemma opened_ok : decisions_ok opened.
Proof. vm_compute. intros t d H. discriminate H. Qed.
End TurnDemo.

Lemma triage_turn_decided_once_witness :
  ∃ d, tt_decisions (TurnDemo.run TurnDemo.opened (TurnDemo.call true 10)).1 !! TurnDemo.turn = Some d ∧ dr_Release d = TurnDemo.release.
Proof.
  destruct (@triage_turn_decided_once toy_crypto TriageDemo.audit TriageDemo.details TriageDemo.payloads ascii_only_unicode (λ _, true) (λ _, true)
    TriageDemo.marshal TurnDemo.marshal_decision TurnDemo.det toy_key None alone TriageDemo.events TurnDemo.opened (TurnDemo.call true 10)
    (TurnDemo.run TurnDemo.opened (TurnDemo.call true 10)).1 (Ok TurnDemo.answer)) as (_ & _ & H).
  - apply alone_kept.
  - apply alone_ok.
  - apply TurnDemo.opened_ok.
  - assert (∀ p : turn_db * result triage_result, snd p = Ok TurnDemo.answer → p = (fst p, Ok TurnDemo.answer)) as Hp by (intros [? ?] ?; simpl in *; congruence).
    apply Hp. vm_compute. reflexivity.
  - destruct (H TurnDemo.answer eq_refl) as [_ (d & Hd & _ & _ & Hr)]. exists d. split; [exact Hd|exact (eq_sym Hr)].
Defined.

Lemma triage_stops_at_shadow_witness :
  ∃ d row, gd_releases (tt_gov (TurnDemo.run TurnDemo.opened (TurnDemo.call true 10)).1) !! TurnDemo.release = Some row ∧ rw_State row = "shadow" ∧
    tt_decisions (TurnDemo.run TurnDemo.opened (TurnDemo.call true 10)).1 !! TurnDemo.turn = Some d ∧ dr_Release d = TurnDemo.release.
Proof.
  destruct (gd_releases (tt_gov (TurnDemo.run TurnDemo.opened (TurnDemo.call true 10)).1) !! TurnDemo.release) as [row|] eqn:Hrow;
    [|exfalso; revert Hrow; vm_compute; discriminate].
  destruct (@triage_stops_at_shadow toy_crypto TriageDemo.audit TriageDemo.details TriageDemo.payloads ascii_only_unicode (λ _, true) (λ _, true)
    TriageDemo.marshal TurnDemo.marshal_decision TurnDemo.det toy_key None TriageDemo.events TurnDemo.opened (TurnDemo.call true 10) TurnDemo.release row Hrow)
    as [H|[_ (d & Hd & Hr)]]; [exfalso; revert H; vm_compute; discriminate|].
  exists d, row. split; [reflexivity|]. split; [|exact (conj Hd Hr)].
  assert (rw_State <$> Some row = Some "shadow") as E by (rewrite <- Hrow; vm_compute; reflexivity). injection E as E. exact E.
Defined.

Lemma resumed_call_claims_shadow_witness :
  (TurnDemo.run TurnDemo.retired (TurnDemo.call true 30)).2 = Ok (mkTriageResult TurnDemo.turn TurnDemo.release "SHADOW" None) ∧
  tt_gov (TurnDemo.run TurnDemo.retired (TurnDemo.call true 30)).1 = tt_gov TurnDemo.retired.
Proof.
  destruct (complete_checks (C := toy_crypto) TurnDemo.marshal_decision TurnDemo.retired (TurnDemo.call true 30)) as [[s digest]|] eqn:Hc;
    [|exfalso; revert Hc; vm_compute; discriminate].
  destruct (gd_releases (tt_gov TurnDemo.retired) !! TurnDemo.release) as [row|] eqn:Hrow; [|exfalso; revert Hrow; vm_compute; discriminate].
  apply (@resumed_call_claims_shadow toy_crypto TriageDemo.audit TriageDemo.details TriageDemo.payloads ascii_only_unicode (λ _, true) (λ _, true)
    TriageDemo.marshal TurnDemo.marshal_decision TurnDemo.det toy_key None TriageDemo.events TurnDemo.retired (TurnDemo.call true 30)
    (mkDecisionRow "agent" digest TurnDemo.release None) row digest s Hc).
  - assert (result_bind (complete_checks (C := toy_crypto) TurnDemo.marshal_decision TurnDemo.retired (TurnDemo.call true 30))
      (λ p, Ok (Some (mkDecisionRow "agent" (snd p) TurnDemo.release None))) = Ok (tt_decisions TurnDemo.retired !! trim_space (tc_Turn (TurnDemo.call true 30)))) as E
      by (vm_compute; reflexivity).
    rewrite Hc in E. symmetry. exact (Ok_inj _ _ E).
  - reflexivity.
  - reflexivity.
  - simpl. discriminate.
  - exact Hrow.
  - assert (rw_State <$> Some row = Some "retired") as E by (rewrite <- Hrow; vm_compute; reflexivity). injection E as E. rewrite E.
    apply (bool_decide_unpack _). vm_compute. exact I.
  - reflexivity.
  - reflexivity.
Defined.
