(* ===== verification/RateLimits.v ===== *)
(** * Limits of the control plane's interface

    [lib/brain/ratelimit.go] and the login throttle of [lib/brain/auth.go]: sliding windows of
    calls per key, the address a call is counted under, page tokens and the number of open
    long polls.  The limiters run under their mutex, so a call is one step; which key Go meets
    first when it walks a full map is an argument.  [netip] is the class [SourceAddr]. *)

From S2P Require Import Prelude GoStrings Contracts Canonical ListenPlan.

Definition limiterKeyLimit : nat := Z.to_nat 10000.
Definition UnitRPCQPS : Z := 10.
Definition LoginRatePerMinute : Z := 10.
Definition LongPollConcurrencyPerAgent : Z := 4.
Definition PageSizeDefault : Z := 50.
Definition PageSizeMax : Z := 200.
Definition ArtifactPageMaxBytes : Z := 4 * 2 ^ 20.
Definition ArtifactPageHardMaxBytes : Z := 16 * 2 ^ 20.

Definition ClampPageSize (n : Z) : Z := if n <=? 0 then PageSizeDefault else if PageSizeMax <? n then PageSizeMax else n.
Definition ClampArtifactBytes (n : Z) : Z :=
  if n <=? 0 then ArtifactPageMaxBytes else if ArtifactPageHardMaxBytes <? n then ArtifactPageHardMaxBytes else n.

(** ** Sliding windows *)

Abbreviation hits := (gmap string (list time)).

(** A limiter: its map and the time of the last sweep. *)
Record limiter := mkLimiter { lm_hits : hits; lm_lastSweep : option time }.
Definition newLimiter : limiter := mkLimiter ∅ None.

Definition recent (cut : time) (ts : list time) : list time := filter (λ t, time_after t cut = true) ts.

Definition sweep (l : limiter) (cut now : time) (every : duration) : limiter :=
  if match lm_lastSweep l with None => true | Some s => every <=? time_sub now s end
  then mkLimiter (filter (λ kv, match last kv.2 with Some t => time_after t cut | None => false end = true) (lm_hits l)) (Some now)
  else l.

(** A new key makes room for itself by dropping the key the walk meets first. *)
Definition make_room (first : hits → option string) (h : hits) (key : string) : hits :=
  if bool_decide (h !! key = None) && bool_decide (limiterKeyLimit ≤ size h)%nat
  then match first h with Some k => delete k h | None => h end else h.

Definition allow_with (limit : Z) (window every : duration) (first : hits → option string) (l : limiter) (key : string) (now : time) : limiter * bool :=
  let cut := now - window in
  let l := sweep l cut now every in
  let h := make_room first (lm_hits l) key in
  let kept := recent cut (default [] (h !! key)) in
  if limit <=? Z.of_nat (length kept) then (mkLimiter (<[key := kept]> h) (lm_lastSweep l), false)
  else (mkLimiter (<[key := kept ++ [now]]> h) (lm_lastSweep l), true).

Definition UnitLimiter_Allow : (hits → option string) → limiter → string → time → limiter * bool := allow_with UnitRPCQPS Second Second.
Definition windowLimiter_Allow (limit : Z) (window : duration) : (hits → option string) → limiter → string → time → limiter * bool :=
  allow_with limit window (Z.min window Second).
Definition AllowUnitRPC (first : hits → option string) (l : limiter) (unitID : string) (now : time) : limiter * result unit :=
  let '(l, ok) := UnitLimiter_Allow first l unitID now in (l, if ok then Ok tt else Err "unit rpc qps exceeded").

(** ** The source of a call *)

(** [netip.ParseAddr] followed by [String], and [Prefix.Contains]. *)
Class SourceAddr := { addr_string : string → option string; addr_within : string → string → bool }.

(** [strings.Trim(s, "[]")] *)
Definition is_bracket (c : ascii) : bool := bool_decide (c = "["%char) || bool_decide (c = "]"%char).
Fixpoint trim_left_brackets (s : string) : string :=
  match s with String c s' => if is_bracket c then trim_left_brackets s' else s | EmptyString => EmptyString end.
Definition trim_brackets (s : string) : string := String.rev (trim_left_brackets (String.rev (trim_left_brackets s))).

(** [h.Get] of a canonical name: the first value. *)
Definition header_get (h : headers) (name : string) : string := default "" (h !! name ≫= head).

Section source.
Context {N : NetParse} {S : SourceAddr}.

(** The address a header of a trusted proxy names. *)
Definition forwarded_for (h : headers) : option string :=
  let x := trim_space (header_get h "X-Forwarded-For") in
  if bool_decide (x = "") then None else addr_string (trim_space (before_byte ","%char x)).
Definition real_ip (h : headers) : option string :=
  let x := trim_space (header_get h "X-Real-Ip") in if bool_decide (x = "") then None else addr_string x.

Definition requestSource (peerAddress : string) (h : headers) (trustedProxies : list string) : string :=
  let direct := trim_space peerAddress in
  let direct := match split_host_port direct with Some (host, _) => host | None => direct end in
  let directAddress := addr_string (trim_brackets direct) in
  let trusted := match directAddress with Some a => existsb (λ p, addr_within p a) trustedProxies | None => false end in
  match (if trusted then match forwarded_for h with Some a => Some a | None => real_ip h end else None) with
  | Some a => a
  | None => default "unknown" directAddress
  end.
End source.

(** ** The login throttle *)

Definition loginFailureWindow : duration := Minute.
Definition maxLoginFailures : Z := 5.
Record loginAttempt := mkLoginAttempt { la_count : Z; la_windowStart : time }.

(** [AuthServer]'s memory. *)
Record throttle := mkThrottle { th_failures : gmap string loginAttempt; th_rate : limiter }.

Definition expired_attempt (now : time) (a : loginAttempt) : bool := loginFailureWindow <? time_sub now (la_windowStart a).

Definition allowLogin (t : throttle) (key : string) (now : time) : bool :=
  match th_failures t !! key with
  | None => true
  | Some a => if expired_attempt now a then true else la_count a <? maxLoginFailures
  end.

Definition recordLoginFailure (t : throttle) (key : string) (now : time) : throttle :=
  let kept := filter (λ kv, expired_attempt now kv.2 = false) (th_failures t) in
  let a := match kept !! key with Some a => a | None => mkLoginAttempt 0 now end in
  mkThrottle (<[key := mkLoginAttempt (la_count a + 1) (la_windowStart a)]> kept) (th_rate t).

Definition clearLoginFailures (t : throttle) (key : string) : throttle := mkThrottle (delete key (th_failures t)) (th_rate t).

Definition login_key (username src : string) : string := username +:+ "|" +:+ src.

(** The two checks before the password is looked at. *)
Definition login_admitted (first : hits → option string) (t : throttle) (username src : string) (now : time) : throttle * result unit :=
  let '(rate, ok) := windowLimiter_Allow LoginRatePerMinute Minute first (th_rate t) (login_key username src) now in
  let t := mkThrottle (th_failures t) rate in
  if negb ok then (t, Err "login rate exceeded")
  else if negb (allowLogin t (login_key username src) now) then (t, Err "too many login attempts")
  else (t, Ok tt).

(** ** Page tokens *)

(** [base64.RawURLEncoding] *)
Definition url_char (n : Z) : ascii :=
  of_byte (if n <? 26 then 65 + n else if n <? 52 then 71 + n else if n <? 62 then n - 4 else if n =? 62 then 45 else 95).
Definition url_sextet (c : ascii) : option Z :=
  let b := byte c in
  if (65 <=? b) && (b <=? 90) then Some (b - 65) else if (97 <=? b) && (b <=? 122) then Some (b - 71)
  else if (48 <=? b) && (b <=? 57) then Some (b + 4) else if b =? 45 then Some 62 else if b =? 95 then Some 63 else None.

Fixpoint raw_url_encode (bs : list Z) : string :=
  match bs with
  | a :: b :: c :: rest =>
      let v := a * 65536 + b * 256 + c in
      String (url_char (v / 262144)) (String (url_char (v / 4096 mod 64)) (String (url_char (v / 64 mod 64)) (String (url_char (v mod 64)) (raw_url_encode rest))))
  | [a; b] => let v := a * 65536 + b * 256 in String (url_char (v / 262144)) (String (url_char (v / 4096 mod 64)) (String (url_char (v / 64 mod 64)) ""))
  | [a] => let v := a * 65536 in String (url_char (v / 262144)) (String (url_char (v / 4096 mod 64)) "")
  | [] => EmptyString
  end.

(** The sextets of the text without line breaks; a byte outside the alphabet is an error, and so is a single sextet left over.
    The low bits of the last sextet are dropped. *)
Fixpoint raw_url_groups (ss : list Z) : option (list Z) :=
  match ss with
  | p :: q :: r :: s :: rest =>
      let v := p * 262144 + q * 4096 + r * 64 + s in
      out ← raw_url_groups rest; Some (v / 65536 :: v / 256 mod 256 :: v mod 256 :: out)
  | [p; q; r] => let v := p * 262144 + q * 4096 + r * 64 in Some [v / 65536; v / 256 mod 256]
  | [p; q] => let v := p * 262144 + q * 4096 in Some [v / 65536]
  | [_] => None
  | [] => Some []
  end.
Definition is_line_break (c : ascii) : bool := (byte c =? 10) || (byte c =? 13).
Definition raw_url_decode (s : string) : option (list Z) :=
  ss ← mapM url_sextet (filter (λ c, is_line_break c = false) (String.list_ascii_of_string s)); raw_url_groups ss.

Definition big_endian (bs : list Z) : Z := foldl (λ n b, n * 256 + b) 0 bs.
Definition put_uint64 (n : Z) : list Z := (λ k, n / 256 ^ k mod 256) <$> [7; 6; 5; 4; 3; 2; 1; 0].

Definition decodePageOffset (token : string) : result Z :=
  if bool_decide (token = "") then Ok 0 else
  match raw_url_decode token with
  | None => Err "invalid page_token"
  | Some raw =>
      guard! bool_decide (length raw = 8%nat) else "invalid page_token" in
      let n := big_endian raw in
      guard! negb (2 ^ 63 - 1 <? n) else "invalid page_token" in Ok n
  end.

Definition encodePageOffset (n : Z) : string := if n <=? 0 then EmptyString else raw_url_encode (put_uint64 n).

(** ** Long polls *)

Abbreviation pollGate := (gmap string Z).
Definition acquire (g : pollGate) (id : string) : pollGate * result unit :=
  let n := default 0 (g !! id) in
  if LongPollConcurrencyPerAgent <=? n then (g, Err "long poll concurrency exceeded") else (<[id := n + 1]> g, Ok tt).
Definition release (g : pollGate) (id : string) : pollGate :=
  let n := default 0 (g !! id) - 1 in
  if n <=? 0 then delete id g else <[id := n]> g.

(** ** The limiter is the sliding window it stands for *)

(** The reference: a call is admitted when fewer than [limit] admitted calls of its key lie in the window before it. *)
Definition key_times (key : string) (admitted : list (string * time)) : list time := (filter (λ c, c.1 = key) admitted).*2.
Definition ref_allow (limit : Z) (window : duration) (admitted : list (string * time)) (key : string) (now : time) : bool :=
  Z.of_nat (length (recent (now - window) (key_times key admitted))) <? limit.

Fixpoint ref_run (limit : Z) (window : duration) (admitted : list (string * time)) (calls : list (string * time)) : list bool :=
  match calls with
  | [] => []
  | (key, now) :: rest =>
      let ok := ref_allow limit window admitted key now in
      ok :: ref_run limit window (if ok then admitted ++ [(key, now)] else admitted) rest
  end.

Fixpoint run_limiter (limit : Z) (window every : duration) (first : hits → option string) (l : limiter) (calls : list (string * time)) : list bool :=
  match calls with
  | [] => []
  | (key, now) :: rest =>
      let '(l, ok) := allow_with limit window every first l key now in ok :: run_limiter limit window every first l rest
  end.

(** The clock of a run does not go back. *)
Fixpoint clock_from (start : time) (calls : list (string * time)) : Prop :=
  match calls with [] => True | (_, now) :: rest => start ≤ now ∧ clock_from now rest end.

Lemma recent_app cut a b : recent cut (a ++ b) = recent cut a ++ recent cut b.
Proof. unfold recent. apply filter_app. Qed.

Lemma recent_recent c1 c2 ts : c1 ≤ c2 → recent c2 (recent c1 ts) = recent c2 ts.
Proof.
  intros Hc. unfold recent. rewrite list_filter_filter. apply list_filter_iff. intros t. unfold time_after. rewrite !Z.ltb_lt. lia.
Qed.

Lemma recent_Forall (P : time → Prop) cut ts : Forall P ts → Forall P (recent cut ts).
Proof. rewrite !Forall_forall. intros H t [_ Ht]%list_elem_of_filter. auto. Qed.

Lemma recent_none cut ts : Forall (λ t, t ≤ cut) ts → recent cut ts = [].
Proof.
  intros H. unfold recent. induction H as [|t ts Ht _ IH]; [done|]. rewrite filter_cons_False; [done|]. unfold time_after. rewrite Z.ltb_lt. lia.
Qed.

Lemma key_times_app key a b : key_times key (a ++ b) = key_times key a ++ key_times key b.
Proof. unfold key_times. by rewrite filter_app, fmap_app. Qed.

Lemma key_times_single key k t : key_times key [(k, t)] = if bool_decide (k = key) then [t] else [].
Proof. unfold key_times. simpl. rewrite filter_cons. simpl. case_bool_decide; [by rewrite decide_True|by rewrite decide_False]. Qed.

(** The last time of a list is its largest. *)
Definition last_largest (ts : list time) : Prop := ∀ m, last ts = Some m → Forall (λ t, t ≤ m) ts.

Section windows.
Context (limit : Z) (window every : duration) (first : hits → option string).
Hypothesis window_pos : 0 ≤ window.

(** What the map remembers of the admitted calls: at the clock [now] and later, the same recent calls; its lists are in order. *)
Record remembers (now : time) (admitted : list (string * time)) (h : hits) : Prop := {
  rem_recent : ∀ key later, now ≤ later → recent (later - window) (default [] (h !! key)) = recent (later - window) (key_times key admitted);
  rem_sorted : ∀ key ts, h !! key = Some ts → last_largest ts;
  rem_past : ∀ key ts, h !! key = Some ts → Forall (λ t, t ≤ now) ts }.

Lemma remembers_later now later admitted h : now ≤ later → remembers now admitted h → remembers later admitted h.
Proof.
  intros Hl [H1 H2 H3]. split; [|done|].
  - intros key t Ht. apply H1. lia.
  - intros key ts E. eapply Forall_impl; [exact (H3 _ _ E)|]. simpl. lia.
Qed.

Lemma sweep_remembers l now admitted : remembers now admitted (lm_hits l) → remembers now admitted (lm_hits (sweep l (now - window) now every)).
Proof.
  intros [H1 H2 H3]. unfold sweep. destruct (match lm_lastSweep l with Some _ => _ | None => _ end); [|done]. simpl. split.
  - intros key later Hl. rewrite <- H1 by done. rewrite map_lookup_filter. destruct (lm_hits l !! key) as [ts|] eqn:E; [|done]. simpl.
    destruct (last ts) as [t|] eqn:Et; simpl.
    + destruct (time_after t (now - window)) eqn:Ea; [by rewrite option_guard_True|rewrite option_guard_False by done]. simpl.
      symmetry. apply recent_none. specialize (H2 _ _ E _ Et). unfold time_after in Ea. apply Z.ltb_ge in Ea.
      eapply Forall_impl; [exact H2|]. simpl. intros x Hx. lia.
    + apply last_None in Et as ->. reflexivity.
  - intros key ts (Hts & _)%map_lookup_filter_Some. eauto.
  - intros key ts (Hts & _)%map_lookup_filter_Some. eauto.
Qed.

Lemma snoc_largest ts t : Forall (λ x, x ≤ t) ts → last_largest (ts ++ [t]).
Proof. intros H m. rewrite last_snoc. intros [= <-]. apply Forall_app. split; [done|]. by apply Forall_singleton. Qed.

Lemma recent_largest cut ts : last_largest ts → last_largest (recent cut ts).
Proof.
  intros H m Hm. destruct (last ts) as [t|] eqn:Et; [|by apply last_None in Et as ->].
  pose proof (H _ Et) as Hall. apply last_Some in Et as [l ->]. rewrite recent_app in Hm |- *.
  destruct (decide (time_after t cut = true)) as [Ha|Ha].
  - unfold recent at 2 in Hm. unfold recent at 2. rewrite filter_cons_True, filter_nil in Hm |- * by done. rewrite last_snoc in Hm. injection Hm as <-.
    apply Forall_app in Hall as [Hall _]. apply Forall_app. split; [|by apply Forall_singleton]. by apply recent_Forall.
  - assert (recent cut (l ++ [t]) = []) as Hn.
    { apply recent_none. unfold time_after in Ha. rewrite Z.ltb_lt in Ha. eapply Forall_impl; [exact Hall|]. simpl. intros x Hx. lia. }
    rewrite recent_app in Hn. by rewrite Hn in Hm.
Qed.

Lemma remembers_insert now admitted h key ts extra :
  remembers now admitted h → last_largest ts → Forall (λ t, t ≤ now) ts →
  (∀ later, now ≤ later → recent (later - window) ts = recent (later - window) (key_times key admitted ++ extra)) →
  remembers now (admitted ++ ((λ t, (key, t)) <$> extra)) (<[key := ts]> h).
Proof.
  intros [H1 H2 H3] Hs Hp Hr. split.
  - intros k later Hl. rewrite key_times_app. destruct (decide (key = k)) as [<-|Hne].
    + rewrite lookup_insert_eq. simpl. rewrite (Hr later Hl). do 2 f_equal. clear. induction extra as [|t extra IH]; [done|].
      rewrite fmap_cons. unfold key_times in *. rewrite filter_cons_True by done. rewrite fmap_cons. by f_equal.
    + rewrite lookup_insert_ne by done. rewrite H1 by done. f_equal. symmetry. match goal with |- _ ++ ?x = _ => assert (x = []) as ->; [|apply app_nil_r] end. clear -Hne.
      induction extra as [|t extra IH]; [done|]. rewrite fmap_cons. unfold key_times in *. by rewrite filter_cons_False.
  - intros k ts' [[<- <-]|[_ Hk]]%lookup_insert_Some; eauto.
  - intros k ts' [[<- <-]|[_ Hk]]%lookup_insert_Some; eauto.
Qed.

(** One call without an eviction. *)
Lemma allow_remembers l now key admitted :
  remembers now admitted (lm_hits l) →
  (∀ h, dom h ⊆ dom (lm_hits l) → make_room first h key = h) →
  let p := allow_with limit window every first l key now in
  p.2 = ref_allow limit window admitted key now ∧
  remembers now (if p.2 then admitted ++ [(key, now)] else admitted) (lm_hits p.1) ∧ dom (lm_hits p.1) ⊆ dom (lm_hits l) ∪ {[key]}.
Proof.
  intros Hrem Hroom. unfold allow_with, ref_allow. set (l1 := sweep l (now - window) now every).
  assert (remembers now admitted (lm_hits l1)) as Hrem1 by by apply sweep_remembers.
  assert (dom (lm_hits l1) ⊆ dom (lm_hits l)) as Hdom.
  { unfold l1, sweep. destruct (match lm_lastSweep l with Some _ => _ | None => _ end); [|done]. simpl. apply dom_filter_subseteq. }
  rewrite (Hroom _ Hdom). pose proof (rem_recent _ _ _ Hrem1 key now (Z.le_refl _)) as Hkept.
  set (kept := recent (now - window) (default [] (lm_hits l1 !! key))) in *. rewrite <- Hkept.
  assert (last_largest kept ∧ Forall (λ t, t ≤ now) kept) as [Hlast Hpast].
  { destruct (lm_hits l1 !! key) as [ts|] eqn:E; unfold kept; simpl; [|by split].
    split; [apply recent_largest, (rem_sorted _ _ _ Hrem1 _ _ E)|apply recent_Forall, (rem_past _ _ _ Hrem1 _ _ E)]. }
  assert (∀ later, now ≤ later → recent (later - window) kept = recent (later - window) (key_times key admitted)) as Hk.
  { intros later Hl. rewrite Hkept. apply recent_recent. lia. }
  destruct (Z.leb_spec limit (Z.of_nat (length kept))); simpl; (split; [symmetry; (apply Z.ltb_ge || apply Z.ltb_lt); lia|]); split.
  - rewrite <- (app_nil_r admitted). apply (remembers_insert _ _ _ _ _ []); [done..|]. intros later Hl. rewrite app_nil_r. auto.
  - rewrite dom_insert_L. set_solver.
  - apply (remembers_insert _ _ _ _ _ [now]); [done|by apply snoc_largest| |].
    + apply Forall_app. split; [done|]. by apply Forall_singleton.
    + intros later Hl. rewrite !recent_app. f_equal. auto.
  - rewrite dom_insert_L. set_solver.
Qed.

Lemma no_room_needed (keys : gset string) h key :
  dom h ⊆ keys → key ∈ keys → (size keys ≤ limiterKeyLimit)%nat → make_room first h key = h.
Proof.
  intros Hd Hk Hs. unfold make_room. case_bool_decide as Hn; [|done]. case_bool_decide as Hl; [|done]. simpl. exfalso.
  assert (size (dom h ∪ {[key]}) ≤ size keys)%nat as Hle by (apply subseteq_size; set_solver).
  rewrite size_union, size_singleton, size_dom in Hle; [lia|]. apply not_elem_of_dom in Hn. set_solver.
Qed.

Lemma run_remembers (keys : gset string) calls : ∀ l start admitted,
  remembers start admitted (lm_hits l) → clock_from start calls → dom (lm_hits l) ⊆ keys → Forall (λ c, c.1 ∈ keys) calls →
  (size keys ≤ limiterKeyLimit)%nat →
  run_limiter limit window every first l calls = ref_run limit window admitted calls.
Proof.
  induction calls as [|[key now] calls IH]; intros l start admitted Hrem Hclock Hdom Hkeys Hsize; [done|].
  destruct Hclock as [Hnow Hclock]. apply Forall_cons in Hkeys as [Hkey Hkeys]. simpl in Hkey. simpl.
  destruct (allow_remembers l now key admitted) as (Hok & Hrem' & Hdom').
  { by eapply remembers_later. }
  { intros h Hh. apply (no_room_needed keys); [set_solver|done..]. }
  destruct (allow_with limit window every first l key now) as [l' ok]. simpl in *. rewrite <- Hok. f_equal.
  apply (IH l' now); [done..| |done|done]. set_solver.
Qed.
End windows.

(** ** At most [limit] calls in any window *)

Definition within (a : time) (window : duration) (ts : list time) : list time := filter (λ t, a < t ≤ a + window) ts.
Definition admitted_of (calls : list (string * time)) (out : list bool) : list (string * time) := (filter (λ c, c.2 = true) (zip calls out)).*1.

Lemma filter_length_le {X} (P Q : X → Prop) `{∀ x, Decision (P x), ∀ x, Decision (Q x)} (l : list X) :
  (∀ x, P x → Q x) → (length (filter P l) ≤ length (filter Q l))%nat.
Proof.
  intros HPQ. induction l as [|x l IH]; [done|]. rewrite !filter_cons. destruct (decide (P x)), (decide (Q x)); simpl; [lia|naive_solver|lia|lia].
Qed.

Lemma within_snoc a window ts t : within a window (ts ++ [t]) = within a window ts ++ (if decide (a < t ≤ a + window) then [t] else []).
Proof. unfold within. by rewrite filter_app, filter_cons, filter_nil. Qed.

Lemma ref_run_within limit window calls : ∀ admitted,
  0 ≤ limit →
  (∀ key a, Z.of_nat (length (within a window (key_times key admitted))) ≤ limit) →
  ∀ key a, Z.of_nat (length (within a window (key_times key (admitted ++ admitted_of calls (ref_run limit window admitted calls))))) ≤ limit.
Proof.
  induction calls as [|[k now] calls IH]; intros admitted Hlim Hw key a; [unfold admitted_of; simpl; by rewrite app_nil_r|].
  simpl. destruct (ref_allow limit window admitted k now) eqn:Eok.
  - assert (admitted_of ((k, now) :: calls) (true :: ref_run limit window (admitted ++ [(k, now)]) calls) =
            (k, now) :: admitted_of calls (ref_run limit window (admitted ++ [(k, now)]) calls)) as -> by done.
    rewrite cons_middle, app_assoc. apply IH; [done|]. clear key a. intros key a. unfold ref_allow in Eok. apply Z.ltb_lt in Eok.
    rewrite key_times_app, key_times_single. case_bool_decide as Hk; [subst k|rewrite app_nil_r; auto].
    rewrite within_snoc. case_decide as Hin; [rewrite length_app; simpl|by rewrite app_nil_r].
    assert (length (within a window (key_times key admitted)) ≤ length (recent (now - window)%Z (key_times key admitted)))%nat; [|lia].
    apply filter_length_le. intros t Ht. unfold time_after. apply Z.ltb_lt. lia.
  - assert (admitted_of ((k, now) :: calls) (false :: ref_run limit window admitted calls) = admitted_of calls (ref_run limit window admitted calls))
      as -> by done. by apply IH.
Qed.

Lemma remembers_nothing window start : remembers window start [] ∅.
Proof. split; [done|intros key ts H; by rewrite lookup_empty in H|intros key ts H; by rewrite lookup_empty in H]. Qed.

Lemma call_keys (calls : list (string * time)) : Forall (λ c, c.1 ∈ (list_to_set calls.*1 : gset string)) calls.
Proof. apply Forall_forall. intros c Hc. apply elem_of_list_to_set, list_elem_of_fmap. by exists c. Qed.

(** C32: a limiter that has met no more keys than it can hold answers every call as the sliding window it stands for would:
    admitted exactly when fewer than the limit of calls of the same key were admitted in the window before it, whatever is swept
    in between; so at most that many calls of a key are admitted in any interval of the length of the window. *)
Theorem limiter_is_sliding_window limit window every first start calls :
  0 ≤ limit → 0 ≤ window → clock_from start calls → (size (list_to_set calls.*1 : gset string) ≤ limiterKeyLimit)%nat →
  let out := run_limiter limit window every first newLimiter calls in
  out = ref_run limit window [] calls ∧
  ∀ key a, Z.of_nat (length (within a window (key_times key (admitted_of calls out)))) ≤ limit.
Proof.
  intros Hl Hw Hc Hs out. assert (out = ref_run limit window [] calls) as E.
  { apply (run_remembers limit window every first Hw (list_to_set calls.*1) calls newLimiter start);
      [apply remembers_nothing|done|set_solver|apply call_keys|done]. }
  split; [done|]. rewrite E. intros key a. apply (ref_run_within limit window calls []); [done|]. clear key a. intros key a. simpl. lia.
Qed.

(** The map holds at most [limiterKeyLimit] keys, as long as the walk over a map that is not empty finds one of its keys. *)
Lemma allow_bounded limit window every (first : hits → option string) l key now :
  (∀ h : hits, h ≠ ∅ → ∃ k, first h = Some k ∧ is_Some (h !! k)) →
  (size (lm_hits l) ≤ limiterKeyLimit)%nat → (size (lm_hits (allow_with limit window every first l key now).1) ≤ limiterKeyLimit)%nat.
Proof.
  intros Hfirst Hs. unfold allow_with. set (l1 := sweep l (now - window) now every).
  assert (size (lm_hits l1) ≤ limiterKeyLimit)%nat as Hs1.
  { unfold l1, sweep. destruct (match lm_lastSweep l with Some _ => _ | None => _ end); [|done]. simpl. etrans; [|exact Hs].
    rewrite <- !size_dom. apply subseteq_size, dom_filter_subseteq. }
  assert (size (make_room first (lm_hits l1) key) ≤ limiterKeyLimit ∧
    (make_room first (lm_hits l1) key !! key = None → S (size (make_room first (lm_hits l1) key)) ≤ limiterKeyLimit))%nat as [Hr1 Hr2].
  { unfold make_room. case_bool_decide as Hn; simpl; [|split; [done|congruence]]. case_bool_decide as Hl; [|split; [done|lia]].
    destruct (Hfirst (lm_hits l1)) as (k & -> & [ts Hk]).
    { intros E. rewrite E in Hl. rewrite map_size_empty in Hl. vm_compute in Hl. lia. }
    assert (0 < size (lm_hits l1))%nat by (assert (size (lm_hits l1) ≠ 0)%nat; [|lia]; intros E%map_size_empty_inv; by rewrite E, lookup_empty in Hk).
    rewrite map_size_delete_Some by (by exists ts). split; lia. }
  destruct (_ <=? _); simpl; rewrite map_size_insert; destruct (make_room first (lm_hits l1) key !! key) eqn:E; simpl; auto.
Qed.

(** ** Forged sources *)

(** Password guesses with the source each is counted under; all of them fail. *)
Fixpoint guess_run (first : hits → option string) (t : throttle) (username : string) (attempts : list (string * time)) : list (result unit) :=
  match attempts with
  | [] => []
  | (src, now) :: rest =>
      let '(t, r) := login_admitted first t username src now in
      r :: guess_run first (if is_ok r then recordLoginFailure t (login_key username src) now else t) username rest
  end.

Lemma login_key_inj username a b : login_key username a = login_key username b → a = b.
Proof. unfold login_key. induction username as [|c u IH]; simpl; intros H; [by injection H|]. rewrite !str_app_cons in H. injection H as H. auto. Qed.

Lemma ref_allow_unseen limit window admitted key now : 0 < limit → key_times key admitted = [] → ref_allow limit window admitted key now = true.
Proof. intros Hl E. unfold ref_allow. rewrite E. apply Z.ltb_lt. simpl. lia. Qed.

Lemma record_lookup_ne t key k now : key ≠ k → th_failures t !! k = None → th_failures (recordLoginFailure t key now) !! k = None.
Proof. intros Hne Hn. simpl. rewrite lookup_insert_ne by done. apply map_lookup_filter_None. by left. Qed.

Lemma guess_run_ok first username (keys : gset string) attempts : ∀ t start admitted,
  remembers Minute start admitted (lm_hits (th_rate t)) → dom (lm_hits (th_rate t)) ⊆ keys → (size keys ≤ limiterKeyLimit)%nat →
  clock_from start attempts → NoDup attempts.*1 →
  Forall (λ a, login_key username a.1 ∈ keys ∧ key_times (login_key username a.1) admitted = [] ∧ th_failures t !! login_key username a.1 = None) attempts →
  Forall (λ r, r = Ok tt) (guess_run first t username attempts).
Proof.
  induction attempts as [|[src now] attempts IH]; intros t start admitted Hrem Hdom Hsize Hclock Hnd Hall; [constructor|].
  destruct Hclock as [Hnow Hclock]. apply NoDup_cons in Hnd as [Hnew Hnd]. apply Forall_cons in Hall as [(Hk & Hun & Hnf) Hall]. simpl in *.
  unfold login_admitted, windowLimiter_Allow.
  destruct (allow_remembers LoginRatePerMinute Minute (Z.min Minute Second) first ltac:(done) (th_rate t) now (login_key username src) admitted) as (Hok & Hrem' & Hdom').
  { by eapply remembers_later. }
  { intros h Hh. eapply no_room_needed with (keys := keys); [done|set_solver|done..]. }
  destruct (allow_with _ _ _ _ _ _ _) as [rate ok]. simpl in *. rewrite Hok, ref_allow_unseen in * by done. simpl.
  unfold allowLogin. simpl. rewrite Hnf. simpl. constructor; [done|].
  apply (IH _ now (admitted ++ [(login_key username src, now)])); [done|set_solver|done..|].
  rewrite Forall_forall in Hall |- *. intros [s' now'] Hin. simpl. destruct (Hall _ Hin) as (H1 & H2 & H3). simpl in *.
  assert (login_key username src ≠ login_key username s') as Hne.
  { intros E%login_key_inj. subst. apply Hnew, list_elem_of_fmap. by exists (s', now'). }
  split_and!; [done| |by apply record_lookup_ne]. rewrite key_times_app, H2, key_times_single. by rewrite bool_decide_eq_false_2.
Qed.

(** Behind a trusted proxy the throttle of logins does not bind: a client that writes a fresh address in front of the
    header the proxy appends to is counted under that address, so that any number of guesses of one password, as many as the
    limiter has room for keys, in any time, are all admitted. *)
Theorem forged_sources_unlimited {N : NetParse} {S : SourceAddr} first username peer trusted direct start (attempts : list (headers * time)) (claimed : list string) :
  addr_string (trim_brackets (match split_host_port (trim_space peer) with Some (host, _) => host | None => trim_space peer end)) = Some direct →
  existsb (λ p, addr_within p direct) trusted = true →
  (λ a, forwarded_for a.1) <$> attempts = Some <$> claimed → NoDup claimed → (length claimed ≤ limiterKeyLimit)%nat →
  let guesses := (λ a, (requestSource peer a.1 trusted, a.2)) <$> attempts in
  clock_from start guesses →
  Forall (λ r, r = Ok tt) (guess_run first (mkThrottle ∅ newLimiter) username guesses).
Proof.
  intros Hdirect Htrust Hclaimed Hnd Hlen guesses Hclock.
  assert (guesses.*1 = claimed) as Hsrc.
  { unfold guesses. clear -Hdirect Htrust Hclaimed. revert claimed Hclaimed. induction attempts as [|a attempts IH]; intros [|c claimed] E; try done.
    rewrite !fmap_cons in E. injection E as Ec E. rewrite !fmap_cons. rewrite (IH _ E). f_equal. simpl. unfold requestSource. by rewrite Hdirect, Htrust, Ec. }
  apply (guess_run_ok first username (list_to_set (login_key username <$> claimed)) guesses _ start []).
  - apply remembers_nothing.
  - set_solver.
  - etrans; [|exact Hlen]. rewrite size_list_to_set, length_fmap; [done|]. apply NoDup_fmap_2; [|done]. intros x y. apply login_key_inj.
  - done.
  - by rewrite Hsrc.
  - apply Forall_forall. intros g Hg. split_and!; [|done|apply lookup_empty]. apply elem_of_list_to_set, list_elem_of_fmap.
    exists g.1. split; [done|]. rewrite <- Hsrc. apply list_elem_of_fmap. by exists g.
Qed.

(** ** Page tokens read back *)

Lemma url_sextet_char n : 0 ≤ n < 64 → url_sextet (url_char n) = Some n ∧ is_line_break (url_char n) = false.
Proof.
  intros Hn. assert (forallb (λ k, bool_decide (url_sextet (url_char (Z.of_nat k)) = Some (Z.of_nat k)) && negb (is_line_break (url_char (Z.of_nat k)))) (seq 0 64) = true)
    as H by (vm_compute; reflexivity).
  rewrite forallb_forall in H. specialize (H (Z.to_nat n)). rewrite Z2Nat.id in H by lia.
  apply andb_true_iff in H as [H1 H2]; [|apply in_seq; lia]. by apply bool_decide_eq_true in H1; apply negb_true_iff in H2.
Qed.

Definition sextets (s : string) : option (list Z) := mapM url_sextet (filter (λ c, is_line_break c = false) (String.list_ascii_of_string s)).

Lemma sextets_cons n s : 0 ≤ n < 64 → sextets (String (url_char n) s) = ss ← sextets s; Some (n :: ss).
Proof. intros [H1 H2]%url_sextet_char. unfold sextets. simpl. rewrite filter_cons_True by done. simpl. by rewrite H1. Qed.

Lemma raw_url_roundtrip_from k : ∀ bs, (length bs ≤ k)%nat → Forall (λ b, 0 ≤ b < 256) bs → raw_url_decode (raw_url_encode bs) = Some bs.
Proof.
  induction k as [|k IH]; intros bs Hk Hb; [by destruct bs; simpl in Hk; [|lia]|].
  unfold raw_url_decode in *. fold (sextets (raw_url_encode bs)).
  destruct bs as [|a [|b [|c rest]]]; [done| | |].
  - apply Forall_cons in Hb as [Ha _]. cbn [raw_url_encode].
    rewrite !sextets_cons by (Z.to_euclidean_division_equations; lia). cbn. f_equal. f_equal. Z.to_euclidean_division_equations; lia.
  - apply Forall_cons in Hb as [Ha Hb]. apply Forall_cons in Hb as [Hb _]. cbn [raw_url_encode].
    rewrite !sextets_cons by (Z.to_euclidean_division_equations; lia). cbn. repeat f_equal; Z.to_euclidean_division_equations; lia.
  - do 3 (apply Forall_cons in Hb as [? Hb]). cbn [raw_url_encode].
    rewrite !sextets_cons by (Z.to_euclidean_division_equations; lia).
    assert (length rest ≤ k)%nat as Hr by (simpl in Hk; lia). specialize (IH rest Hr Hb). fold (sextets (raw_url_encode rest)) in IH.
    destruct (sextets (raw_url_encode rest)) as [ss|]; [|done]. simpl in IH. cbn. rewrite IH. cbn.
    repeat f_equal; Z.to_euclidean_division_equations; lia.
Qed.

Lemma put_uint64_bytes n : Forall (λ b, 0 ≤ b < 256) (put_uint64 n).
Proof. unfold put_uint64. apply Forall_fmap, Forall_forall. intros k _. simpl. apply Z.mod_pos_bound. lia. Qed.

Lemma put_uint64_value n : 0 ≤ n < 2 ^ 64 → big_endian (put_uint64 n) = n.
Proof.
  intros Hn. unfold put_uint64, big_endian. cbn [fmap list_fmap foldl].
  replace (256 ^ 7) with (256 * (256 * (256 * (256 * (256 * (256 * 256)))))) by done. replace (256 ^ 6) with (256 * (256 * (256 * (256 * (256 * 256))))) by done.
  replace (256 ^ 5) with (256 * (256 * (256 * (256 * 256)))) by done. replace (256 ^ 4) with (256 * (256 * (256 * 256))) by done.
  replace (256 ^ 3) with (256 * (256 * 256)) by done. replace (256 ^ 2) with (256 * 256) by done. change (256 ^ 1) with 256. change (256 ^ 0) with 1.
  rewrite !Z.div_1_r, <- !Z.div_div by lia.
  assert (n / 256 / 256 / 256 / 256 / 256 / 256 / 256 < 256) as H7.
  { rewrite !Z.div_div by lia. apply Z.div_lt_upper_bound; lia. }
  assert (0 ≤ n / 256 / 256 / 256 / 256 / 256 / 256 / 256) by (repeat apply Z.div_pos; lia).
  rewrite (Z.mod_small (n / 256 / 256 / 256 / 256 / 256 / 256 / 256)) by lia. rewrite Z.mul_0_l, Z.add_0_l.
  repeat match goal with |- context [?x / 256 * 256 + ?x mod 256] => replace (x / 256 * 256 + x mod 256) with x by (pose proof (Z.div_mod x 256); lia) end.
  done.
Qed.

(** The token handed out with a page reads back as the offset of the next page, for every offset a signed 64-bit integer
    holds; no token stands for the first page. *)
Theorem page_token_roundtrip n : 0 ≤ n < 2 ^ 63 → decodePageOffset (encodePageOffset n) = Ok n.
Proof.
  intros Hn. unfold encodePageOffset. destruct (Z.leb_spec n 0); [by replace n with 0 by lia|].
  unfold decodePageOffset. rewrite bool_decide_eq_false_2 by done.
  rewrite (raw_url_roundtrip_from 8 (put_uint64 n)) by (done || apply put_uint64_bytes). rewrite put_uint64_value by lia. simpl.
  destruct (Z.ltb_spec (2 ^ 63 - 1) n); [lia|done].
Qed.

(** ** Concrete runs *)
Module LimitDemo.
Definition calls : list (string * time) := [("u", 0); ("u", 1); ("v", 2); ("u", 3); ("u", 3 + Second)].
Definition no_ports : NetParse := {|
  split_host_port _ := None; parse_ip _ := true; url_parse _ := None; parse_prefix _ := None |}.
Definition addrs : SourceAddr := {| addr_string s := Some s; addr_within p a := bool_decide (p = a) |}.
Definition forged (a : string) : headers := <["X-Forwarded-For" := [a +:+ ", 198.51.100.4"]]> ∅.
Definition attempts : list (headers * time) := [(forged "203.0.113.1", 0); (forged "203.0.113.2", 1); (forged "203.0.113.3", 2)].
End LimitDemo.

Lemma limiter_is_sliding_window_witness :
  run_limiter 2 Second Second (λ _, None) newLimiter LimitDemo.calls = [true; true; true; false; true] ∧
  run_limiter 2 Second Second (λ _, None) newLimiter LimitDemo.calls = ref_run 2 Second [] LimitDemo.calls.
Proof.
  split; [vm_compute; reflexivity|].
  apply (limiter_is_sliding_window 2 Second Second (λ _, None) 0 LimitDemo.calls); [lia|vm_compute; discriminate| |].
  - vm_compute. repeat split; discriminate.
  - apply Nat.leb_le. vm_compute. reflexivity.
Defined.

Lemma forged_sources_unlimited_witness :
  Forall (λ r, r = Ok tt) (guess_run (λ _, None) (mkThrottle ∅ newLimiter) "admin" [("203.0.113.1", 0); ("203.0.113.2", 1); ("203.0.113.3", 2)]).
Proof.
  apply (@forged_sources_unlimited LimitDemo.no_ports LimitDemo.addrs (λ _, None) "admin" "10.0.0.1" ["10.0.0.1"] "10.0.0.1" 0 LimitDemo.attempts
    ["203.0.113.1"; "203.0.113.2"; "203.0.113.3"]).
  - vm_compute. reflexivity.
  - vm_compute. reflexivity.
  - vm_compute. reflexivity.
  - apply (bool_decide_unpack _). vm_compute. exact I.
  - apply Nat.leb_le. vm_compute. reflexivity.
  - vm_compute. repeat split; discriminate.
Defined.

Lemma page_token_roundtrip_witness : decodePageOffset (encodePageOffset 50) = Ok 50.
Proof. apply page_token_roundtrip. lia. Defined.
