(* ===== verification/Accounts.v ===== *)
(** * Accounts, sessions and grants

    [lib/brain/auth.go], [auth_support.go], [users.go], [grant.go], [access.go] and
    [authorization.go]: who may log in, whose session a token is, which tools and objects a
    user holds, and who may change that.  A handler that runs one transaction is one step on the
    tables; a handler whose statements are not in a transaction has an argument that says which
    of them the database refuses.  The tools and bindings of a grant are what the code encoded.
    Password hashing is the class [Passwords]; the replay of an answered request by its
    idempotency key is left out: a step is an execution. *)

From S2P Require Import Prelude GoStrings Contracts Signing AuditChain Canonical Govern RateLimits.

(** [bcrypt]: a hash of a password under a salt, if the password is accepted. *)
Class Passwords := { bcrypt_generate : string → string → option string; bcrypt_compare : string → string → bool }.
Class PasswordLaws (P : Passwords) : Prop := {
  generate_compares salt pw h : bcrypt_generate salt pw = Some h → bcrypt_compare h pw = true;
  generate_limit salt pw : 72 < str_len pw → bcrypt_generate salt pw = None }.

(** ** Tables *)

Inductive UserRole := USER_ROLE_UNSPECIFIED | USER_ROLE_ADMIN | USER_ROLE_OPERATOR | USER_ROLE_VIEWER | USER_ROLE_other (n : Z).
#[global] Instance UserRole_eq_dec : EqDecision UserRole. Proof. solve_decision. Defined.
Inductive UserState := USER_STATE_UNSPECIFIED | USER_STATE_ACTIVE | USER_STATE_DISABLED | USER_STATE_DELETED | USER_STATE_other (n : Z).
#[global] Instance UserState_eq_dec : EqDecision UserState. Proof. solve_decision. Defined.

Record user_row := mkUserRow {
  ur_Username : string; ur_DisplayName : string; ur_Role : string; ur_State : string; ur_Hash : string; ur_LastLogin : option time }.
Record BindingRef := mkBindingRef { b_Kind : string; b_Id : string }.
#[global] Instance BindingRef_eq_dec : EqDecision BindingRef. Proof. solve_decision. Defined.
Record grant_row := mkGrantRow {
  g_Kind : string; g_Subject : string; g_Tools : list string; g_Bindings : list BindingRef; g_CreatedBy : string; g_CreatedAt : time;
  g_Expires : option time }.

(** [ac_onboarding] is [None] when the table or its row is missing. *)
Record acct_db := mkAcctDb {
  ac_users : gmap string user_row; ac_sessions : gmap string (string * time); ac_grants : gmap string grant_row;
  ac_onboarding : option (string * string); ac_assets : list string }.

Definition set_users (db : acct_db) (us : gmap string user_row) : acct_db :=
  mkAcctDb us (ac_sessions db) (ac_grants db) (ac_onboarding db) (ac_assets db).
Definition set_sessions (db : acct_db) (ss : gmap string (string * time)) : acct_db :=
  mkAcctDb (ac_users db) ss (ac_grants db) (ac_onboarding db) (ac_assets db).
Definition set_grants (db : acct_db) (gs : gmap string grant_row) : acct_db :=
  mkAcctDb (ac_users db) (ac_sessions db) gs (ac_onboarding db) (ac_assets db).

(** An authenticated user. *)
Record User := mkUser { u_Id : string; u_Role : UserRole }.

Definition roleEnum (s : string) : result UserRole :=
  if bool_decide (s = "admin") then Ok USER_ROLE_ADMIN else if bool_decide (s = "operator") then Ok USER_ROLE_OPERATOR
  else if bool_decide (s = "viewer") then Ok USER_ROLE_VIEWER else Err "unknown role".
Definition roleString (r : UserRole) : result string :=
  match r with USER_ROLE_ADMIN => Ok "admin" | USER_ROLE_OPERATOR => Ok "operator" | USER_ROLE_VIEWER => Ok "viewer" | _ => Err "unknown role" end.
Definition stateEnum (s : string) : result UserState :=
  if bool_decide (s = "active") then Ok USER_STATE_ACTIVE else if bool_decide (s = "disabled") then Ok USER_STATE_DISABLED
  else if bool_decide (s = "deleted") then Ok USER_STATE_DELETED else Err "unknown user state".
Definition stateString (s : UserState) : result string :=
  match s with USER_STATE_ACTIVE => Ok "active" | USER_STATE_DISABLED => Ok "disabled" | USER_STATE_DELETED => Ok "deleted" | _ => Err "unknown user state" end.

(** [scanUser] of a row. *)
Definition scanUser (id : string) (row : user_row) : result User :=
  let! role := roleEnum (ur_Role row) in
  let! _ := stateEnum (ur_State row) in Ok (mkUser id role).

Definition OnboardingStatePending : string := "ONBOARDING_STATE_PENDING".
Definition OnboardingStateCompleted : string := "ONBOARDING_STATE_COMPLETED".
Definition loadOnboarding (db : acct_db) : string * string :=
  match ac_onboarding db with
  | None => (OnboardingStatePending, "")
  | Some (state, asset) => (if bool_decide (state = "") then OnboardingStatePending else state, asset)
  end.
Definition completed (db : acct_db) : bool := bool_decide (fst (loadOnboarding db) = OnboardingStateCompleted).

(** ** Tools *)

Definition RoleDefaultTools (role : UserRole) : list string :=
  match role with
  | USER_ROLE_VIEWER => ["console.read"; "case.read"]
  | USER_ROLE_OPERATOR =>
      ["console.read"; "case.read"; "case.manage"; "evidence.approve"; "govern.propose"; "govern.gate"; "govern.start_shadow"; "run.create"]
  | USER_ROLE_ADMIN =>
      ["console.read"; "case.read"; "case.manage"; "evidence.approve"; "worker.enroll"; "worker.capacity.approve"; "agent.manage"; "user.admin";
       "grant.write"; "asset.create"; "asset.update"; "asset.delete"; "asset.attach"; "asset.detach"]
  | _ => []
  end.
Definition isAccountTool (tool : string) : bool := bool_decide (tool ∈ ["user.admin"; "grant.write"; "catalog.manage"; "worker.enroll"]).
Definition isAssetAdminTool (tool : string) : bool :=
  bool_decide (tool ∈ ["asset.create"; "asset.update"; "asset.delete"; "asset.attach"; "asset.detach"]).
Definition knownUserTool (name : string) : bool :=
  bool_decide (name ∈ ["console.read"; "case.read"; "case.manage"; "evidence.approve"; "worker.enroll"; "worker.capacity.approve"; "agent.manage";
    "govern.propose"; "govern.gate"; "govern.start_shadow"; "govern.promote_canary"; "govern.promote_enforce"; "govern.rollback"; "govern.retire";
    "govern.deny_feedback"; "asset.create"; "asset.update"; "asset.delete"; "asset.attach"; "asset.detach"; "run.create"; "grant.write"; "user.admin";
    "catalog.manage"]).
Definition toolsAccountOnly (tools : list string) : bool := negb (bool_decide (tools = [])) && forallb isAccountTool tools.
Definition claimsAllows (tools : list string) (name : string) : bool := existsb (λ t, bool_decide (t = "*") || bool_decide (t = name)) tools.

(** ** Access *)

Definition live (now : time) (g : grant_row) : bool := match g_Expires g with None => true | Some t => now <? t end.

(** The live grants of a user. *)
Definition user_grants (db : acct_db) (userID : string) (now : time) : list grant_row :=
  (filter (λ kv, g_Kind kv.2 = "user" ∧ g_Subject kv.2 = userID ∧ live now kv.2 = true) (map_to_list (ac_grants db))).*2.

Definition grant_permits (tool bindingKind bindingID : string) (g : grant_row) : bool :=
  claimsAllows (g_Tools g) tool
  && ((isAccountTool tool && bool_decide (g_Bindings g = []))
      || existsb (λ b, (bool_decide (bindingID = "") || bool_decide (b_Id b = bindingID)) && (bool_decide (bindingKind = "") || bool_decide (b_Kind b = bindingKind)))
           (g_Bindings g)).

Definition requireUserGrant (db : acct_db) (now : time) (userID tool bindingKind bindingID : string) : result unit :=
  guard! existsb (grant_permits tool bindingKind bindingID) (user_grants db userID now) else "grant_missing" in Ok tt.

Record EffectiveAccess := mkAccess { ea_Tools : gset string; ea_Bindings : list BindingRef }.

Definition bootstrap_tools : list string :=
  ["user.admin"; "grant.write"; "agent.manage"; "console.read"; "case.read"; "case.manage"; "evidence.approve"; "worker.enroll"; "worker.capacity.approve";
   "asset.create"; "asset.update"; "asset.delete"; "asset.attach"; "asset.detach"].

(** A binding is known by its kind and identifier in one text. *)
Definition bind_key (b : BindingRef) : string := b_Kind b +:+ "/" +:+ b_Id b.
Definition by_key (bs : list BindingRef) : gmap string BindingRef := foldl (λ m b, <[bind_key b := b]> m) ∅ bs.

(** The lists the code sorts: a set of tools, and the bindings, one for every text. *)
Definition loadEffectiveAccess (db : acct_db) (now : time) (user : option User) : EffectiveAccess :=
  match user with
  | None => mkAccess ∅ []
  | Some u =>
      if negb (completed db) && bool_decide (u_Role u = USER_ROLE_ADMIN) then mkAccess (list_to_set bootstrap_tools) []
      else
        let gs := user_grants db (u_Id u) now in
        mkAccess (list_to_set (filter (λ t, t ≠ "") (gs ≫= g_Tools)))
          (map_to_list (by_key (filter (λ b, b_Id b ≠ "" ∧ b_Id b ≠ "*") (gs ≫= g_Bindings)))).*2
  end.

Record accessScope := mkScopeSets { sc_tools : gset string; sc_assets : gset string; sc_units : gset string; sc_releases : gset string }.
Definition bound_ids (p : string → bool) (bs : list BindingRef) : gset string :=
  list_to_set (b_Id <$> filter (λ b, b_Id b ≠ "" ∧ p (b_Kind b) = true) bs).
Definition scopeFromAccess (a : EffectiveAccess) : accessScope :=
  mkScopeSets (ea_Tools a)
    (bound_ids (λ k, negb (bool_decide (k = "unit")) && negb (bool_decide (k = "release"))) (ea_Bindings a))
    (bound_ids (λ k, bool_decide (k = "unit")) (ea_Bindings a)) (bound_ids (λ k, bool_decide (k = "release")) (ea_Bindings a)).
Definition hasTool (s : accessScope) (name : string) : bool := bool_decide (name ∈ sc_tools s).
Definition coversAsset (s : accessScope) (id : string) : bool := negb (bool_decide (id = "")) && bool_decide (id ∈ sc_assets s).
Definition coversAllAssets (s : accessScope) (ids : list string) : bool := negb (bool_decide (ids = [])) && forallb (coversAsset s) ids.
Definition coversRelease (s : accessScope) (id : string) (assetIDs : list string) : bool :=
  if negb (bool_decide (id = "")) && bool_decide (id ∈ sc_releases s) then true else coversAllAssets s assetIDs.
Definition emptyObjects (s : accessScope) : bool := (Z.of_nat (size (sc_assets s) + size (sc_units s) + size (sc_releases s)) =? 0).

Definition requireAssetAdmin (user : option User) : result unit :=
  match user with
  | None => Err "missing user"
  | Some u => guard! bool_decide (u_Role u = USER_ROLE_ADMIN) else "grant_missing" in Ok tt
  end.

Definition authorizeWrite (db : acct_db) (now : time) (user : option User) (tool bindKind bindID : string) (demo : bool) : result unit :=
  match user with
  | None => Err "missing user"
  | Some u =>
      if bool_decide (tool = "asset.create") && bool_decide (u_Role u = USER_ROLE_ADMIN) && hasTool (scopeFromAccess (loadEffectiveAccess db now user)) tool
      then Ok tt
      else if is_ok (requireUserGrant db now (u_Id u) tool bindKind bindID) then Ok tt
      else if negb (completed db) && bool_decide (u_Role u = USER_ROLE_ADMIN) && (isAccountTool tool || isAssetAdminTool tool) then Ok tt
      else guard! demo && claimsAllows (RoleDefaultTools (u_Role u)) tool else "grant_missing" in Ok tt
  end.

Fixpoint authorize_each (db : acct_db) (now : time) (user : option User) (tool : string) (assetIDs : list string) (demo : bool) : result unit :=
  match assetIDs with
  | [] => Ok tt
  | id :: rest => let! _ := authorizeWrite db now user tool "asset" id demo in authorize_each db now user tool rest demo
  end.
Definition authorizeWriteAssets (db : acct_db) (now : time) (user : option User) (tool : string) (assetIDs : list string) (demo : bool) : result unit :=
  guard! negb (bool_decide (assetIDs = [])) else "grant_missing" in authorize_each db now user tool assetIDs demo.

(** ** Changing grants *)

Definition bound_to (allow : gset string) (want : list BindingRef) : result unit :=
  guard! forallb (λ b, bool_decide (bind_key b ∈ allow)) want else "grant_scope" in Ok tt.

Definition checkGrantScope (db : acct_db) (now : time) (user : User) (want : list BindingRef) : result unit :=
  if negb (completed db) && bool_decide (u_Role user = USER_ROLE_ADMIN) then
    let ids := filter (λ id, id ≠ "" ∧ id ≠ "bootstrap") (ac_assets db ++ [snd (loadOnboarding db)]) in
    bound_to (list_to_set ((λ id, "asset/" +:+ id) <$> ids)) want
  else bound_to (list_to_set (bind_key <$> ea_Bindings (loadEffectiveAccess db now (Some user)))) want.

(** The oldest grant of a user. *)
Definition oldest_grant (db : acct_db) (subject : string) : option (string * grant_row) :=
  head (order_by (λ kv, g_CreatedAt kv.2) (filter (λ kv, g_Kind kv.2 = "user" ∧ g_Subject kv.2 = subject) (map_to_list (ac_grants db)))).

(** Not one transaction: the other grants of the subject are deleted before the oldest is rewritten. [stored] and [updated] say
    whether the statements succeed. *)
Definition overlayUserGrant (db : acct_db) (now : time) (subject : string) (tools : list string) (binds : list BindingRef) (createdBy random : string)
    (stored updated : bool) : acct_db * result string :=
  match oldest_grant db subject with
  | None =>
      let id := newID "gr" random in
      if stored && bool_decide (ac_grants db !! id = None)
      then (set_grants db (<[id := mkGrantRow "user" subject tools binds createdBy now None]> (ac_grants db)), Ok id)
      else (db, Err "insert")
  | Some (id, row) =>
      if negb stored then (db, Err "delete") else
      let db := set_grants db (filter (λ kv, ¬ (g_Kind kv.2 = "user" ∧ g_Subject kv.2 = subject ∧ kv.1 ≠ id)) (ac_grants db)) in
      if negb updated then (db, Err "update") else
      (set_grants db (<[id := mkGrantRow (g_Kind row) (g_Subject row) tools binds createdBy (g_CreatedAt row) (g_Expires row)]> (ac_grants db)), Ok id)
  end.

Definition put_grant_checks (db : acct_db) (now : time) (user : User) (subject : string) (tools : list string) (binds : list BindingRef) : result unit :=
  let! _ := authorizeWrite db now (Some user) "grant.write" "asset" "" false in
  guard! negb (bool_decide (u_Id user = subject)) else "grant_self" in
  guard! forallb knownUserTool tools else "grant_unknown_tool" in
  guard! negb (bool_decide (binds = []) && negb (toolsAccountOnly tools)) else "grant_missing" in
  guard! forallb (λ b, negb (bool_decide (b_Id b = "*") || bool_decide (trim_space (b_Id b) = ""))) binds else "grant_wildcard" in
  checkGrantScope db now user binds.

Definition PutGrant (db : acct_db) (now : time) (user : User) (subject : string) (tools : list string) (binds : list BindingRef) (random : string)
    (stored updated : bool) : acct_db * result string :=
  match put_grant_checks db now user subject tools binds with
  | Err e => (db, Err e)
  | Ok _ => overlayUserGrant db now subject tools binds (u_Id user) random stored updated
  end.

Definition RevokeGrant (db : acct_db) (now : time) (user : User) (grantID : string) (deleted : bool) : acct_db * result unit :=
  let check :=
    let! _ := authorizeWrite db now (Some user) "grant.write" "asset" "" false in
    match ac_grants db !! grantID with
    | None => Err "grant_missing"
    | Some g => checkGrantScope db now user (g_Bindings g)
    end in
  match check with
  | Err e => (db, Err e)
  | Ok _ => if deleted then (set_grants db (delete grantID (ac_grants db)), Ok tt) else (db, Err "delete")
  end.

(** [CreateAsset] adds the asset and binds its creator to it; the identifier may be chosen by the caller. *)
Definition append_binding (assetID : string) (g : grant_row) : grant_row :=
  let b := mkBindingRef "asset" assetID in
  if bool_decide (b ∈ g_Bindings g) then g
  else mkGrantRow (g_Kind g) (g_Subject g) (g_Tools g) (g_Bindings g ++ [b]) (g_CreatedBy g) (g_CreatedAt g) (g_Expires g).
Definition appendSubjectAssetBinding (gs : gmap string grant_row) (kind subject assetID : string) : gmap string grant_row :=
  if bool_decide (subject = "") || bool_decide (assetID = "") || bool_decide (assetID = "bootstrap") then gs
  else (λ g, if bool_decide (g_Kind g = kind) && bool_decide (g_Subject g = subject) then append_binding assetID g else g) <$> gs.

Definition pruneAssetBinding (db : acct_db) (assetID : string) : acct_db :=
  if bool_decide (assetID = "") then db
  else set_grants db ((λ g, mkGrantRow (g_Kind g) (g_Subject g) (g_Tools g) (filter (λ b, b ≠ mkBindingRef "asset" assetID) (g_Bindings g))
                                (g_CreatedBy g) (g_CreatedAt g) (g_Expires g)) <$> ac_grants db).

Definition CreateAsset (db : acct_db) (now : time) (user : User) (id displayName centralWorkerID random : string) (committed : bool) : acct_db * result string :=
  let check :=
    let! _ := requireAssetAdmin (Some user) in
    guard! negb (bool_decide (trim_space displayName = "")) else "display_name is required" in
    authorizeWrite db now (Some user) "asset.create" "asset" id false in
  match check with
  | Err e => (db, Err e)
  | Ok _ =>
      let id := if bool_decide (id = "") then newID "asset" random else id in
      if bool_decide (id ∈ ac_assets db) then (db, Err "already exists") else
      if negb committed then (db, Err "commit") else
      let gs := appendSubjectAssetBinding (ac_grants db) "user" (u_Id user) id in
      let gs := appendSubjectAssetBinding gs "worker" centralWorkerID id in
      (mkAcctDb (ac_users db) (ac_sessions db) gs (ac_onboarding db) (ac_assets db ++ [id]), Ok id)
  end.

(** ** Sessions *)

Section sessions.
Context {C : Crypto} {P : Passwords} {U : Unicode}.

Definition hashToken (raw : string) : string := hex_encode (sha256 raw).
(** [random] is the 32 bytes drawn. *)
Definition newSessionToken (random : string) : string * string := let raw := hex_encode random in (raw, hashToken raw).

Definition bearerToken (header : string) : string :=
  if (7 <=? str_len header) && equal_fold (str_take 7 header) "Bearer " then trim_space (str_drop 7 header) else "".

Definition userBySession (db : acct_db) (now : time) (tokenHash : string) : result User :=
  match (s ← ac_sessions db !! tokenHash; row ← ac_users db !! fst s;
         if (now <? snd s) && bool_decide (ur_State row = "active") then Some (fst s, row) else None) with
  | Some (id, row) => scanUser id row
  | None => Err "invalid or expired session"
  end.

Definition requireUser (db : acct_db) (now : time) (authorization : string) : result User :=
  let raw := bearerToken authorization in
  guard! negb (bool_decide (raw = "")) else "missing bearer token" in userBySession db now (hashToken raw).

Definition delete_sessions (db : acct_db) (userID : string) (keep : option string) : acct_db :=
  set_sessions db (filter (λ kv, fst kv.2 ≠ userID ∨ Some kv.1 = keep) (ac_sessions db)).

Definition find_user (db : acct_db) (username : string) : option (string * user_row) :=
  head (filter (λ kv, ur_Username kv.2 = username) (map_to_list (ac_users db))).

(** [first] is the walk of the limiter's map. [stored] says whether the session row, and [touched] whether the time of the login, is stored. *)
Definition Login (db : acct_db) (t : throttle) (now : time) (first : gmap string (list time) → option string) (username password src random : string)
    (ttl : duration) (stored touched : bool) : acct_db * throttle * result string :=
  if bool_decide (username = "") || bool_decide (password = "") then (db, t, Err "username and password are required") else
  let '(t, ok) := login_admitted first t username src now in
  match ok with
  | Err e => (db, t, Err e)
  | Ok _ =>
      let key := login_key username src in
      match find_user db username with
      | None => (db, recordLoginFailure t key now, Err "invalid username or password")
      | Some (id, row) =>
          if negb (bool_decide (ur_State row = "active")) then (db, t, Err "user is disabled")
          else if negb (bcrypt_compare (ur_Hash row) password) then (db, recordLoginFailure t key now, Err "invalid username or password")
          else
            let t := clearLoginFailures t key in
            match scanUser id row with
            | Err e => (db, t, Err e)
            | Ok _ =>
                let '(raw, hash) := newSessionToken random in
                if negb stored || negb (bool_decide (ac_sessions db !! hash = None)) then (db, t, Err "insert") else
                let db := set_sessions db (<[hash := (id, now + ttl)]> (ac_sessions db)) in
                if negb touched then (db, t, Err "update") else
                (set_users db (<[id := mkUserRow (ur_Username row) (ur_DisplayName row) (ur_Role row) (ur_State row) (ur_Hash row) (Some now)]> (ac_users db)), t, Ok raw)
            end
      end
  end.

Definition Logout (db : acct_db) (authorization : string) (deleted : bool) : acct_db :=
  let raw := bearerToken authorization in
  if negb (bool_decide (raw = "")) && deleted then set_sessions db (delete (hashToken raw) (ac_sessions db)) else db.

Definition validatePassword (pw : string) (min : Z) : result unit :=
  guard! negb (i32 (str_len pw) <? min) else "password is too short" in
  guard! negb (128 <? str_len pw) else "password must be at most 128 characters" in Ok tt.

Definition with_hash (row : user_row) (h : string) : user_row :=
  mkUserRow (ur_Username row) (ur_DisplayName row) (ur_Role row) (ur_State row) h (ur_LastLogin row).

Definition ChangePassword (db : acct_db) (now : time) (authorization old new salt : string) (minLength : Z) (updated revoked : bool) : acct_db * result unit :=
  let check :=
    let! u := requireUser db now authorization in
    let! _ := validatePassword new minLength in
    match ac_users db !! u_Id u with
    | None => Err "no rows in result set"
    | Some row =>
        guard! bcrypt_compare (ur_Hash row) old else "old password is invalid" in
        match bcrypt_generate salt new with Some h => Ok (u_Id u, with_hash row h) | None => Err "bcrypt: password length exceeds 72 bytes" end
    end in
  match check with
  | Err e => (db, Err e)
  | Ok (id, row) =>
      if negb updated then (db, Err "update") else
      let db := set_users db (<[id := row]> (ac_users db)) in
      if negb revoked then (db, Err "delete") else
      (delete_sessions db id (Some (hashToken (bearerToken authorization))), Ok tt)
  end.

(** ** Users *)

Definition username_free (db : acct_db) (username : string) : bool := bool_decide (find_user db username = None).

Definition insert_user (db : acct_db) (random username displayName role hash : string) : acct_db * result string :=
  let id := newID "usr" random in
  if bool_decide (ac_users db !! id = None) && username_free db username
  then (set_users db (<[id := mkUserRow username displayName role "active" hash None]> (ac_users db)), Ok id)
  else (db, Err "username already exists").

Definition Register (db : acct_db) (allowed : bool) (username password displayName salt random : string) (minLength : Z) : acct_db * result string :=
  let check :=
    guard! allowed else "self registration is disabled" in
    let! _ := validatePassword password minLength in
    guard! negb (bool_decide (username = "") || (64 <? str_len username)) else "username must be 1-64 characters" in
    match bcrypt_generate salt password with Some h => Ok h | None => Err "bcrypt: password length exceeds 72 bytes" end in
  match check with Err e => (db, Err e) | Ok h => insert_user db random username displayName "viewer" h end.

(** Who may administer users. *)
Definition requireAdmin (db : acct_db) (now : time) (authorization : string) : result User :=
  let! u := requireUser db now authorization in
  let! _ := authorizeWrite db now (Some u) "user.admin" "" "" false in Ok u.

Definition CreateUser (db : acct_db) (now : time) (authorization username password displayName : string) (role : UserRole) (salt random : string)
    (minLength : Z) (committed : bool) : acct_db * result string :=
  let check :=
    let! _ := requireAdmin db now authorization in
    let! _ := validatePassword password minLength in
    let! role := roleString role in
    match bcrypt_generate salt password with Some h => Ok (role, h) | None => Err "bcrypt: password length exceeds 72 bytes" end in
  match check with
  | Err e => (db, Err e)
  | Ok (role, h) => if committed then insert_user db random username displayName role h else (db, Err "commit")
  end.

Definition holds_user_admin (db : acct_db) (now : time) (userID : string) : bool :=
  existsb (λ g, bool_decide ("user.admin" ∈ g_Tools g)) (user_grants db userID now).

(** [None]: there is no row of the onboarding. *)
Definition effectiveAdministrator (db : acct_db) (now : time) (userID role state : string) : option bool :=
  if negb (bool_decide (state = "active")) then Some false
  else o ← ac_onboarding db;
       Some (holds_user_admin db now userID || (negb (bool_decide (fst o = OnboardingStateCompleted)) && bool_decide (role = "admin"))).

(** The query that counts the administrators. *)
Definition administers (db : acct_db) (now : time) (id : string) (row : user_row) : bool :=
  bool_decide (ur_State row = "active")
  && ((match ac_onboarding db with Some o => negb (bool_decide (fst o = OnboardingStateCompleted)) | None => false end && bool_decide (ur_Role row = "admin"))
      || holds_user_admin db now id).
Definition activeAdmins (db : acct_db) (now : time) : list (string * user_row) :=
  filter (λ kv, administers db now kv.1 kv.2 = true) (map_to_list (ac_users db)).

Definition protectEffectiveAdministratorMutation (db : acct_db) (now : time) (userID nextRole nextState : string) : result unit :=
  match ac_users db !! userID with
  | None => Err "user not found"
  | Some row =>
      match effectiveAdministrator db now userID (ur_Role row) (ur_State row) with
      | None => Err "no rows in result set"
      | Some false => Ok tt
      | Some true =>
          let role := if bool_decide (nextRole = "") then ur_Role row else nextRole in
          let state := if bool_decide (nextState = "") then ur_State row else nextState in
          match effectiveAdministrator db now userID role state with
          | None => Err "no rows in result set"
          | Some true => Ok tt
          | Some false => guard! negb (Z.of_nat (length (activeAdmins db now)) <=? 1) else "cannot remove the last effective administrator" in Ok tt
          end
      end
  end.

(** The fields an update may set, in the order of the mask; a repeated path of the mask is an error of the database. *)
Inductive update_path := PathDisplayName | PathRole | PathState | PathOther.
#[global] Instance update_path_eq_dec : EqDecision update_path. Proof. solve_decision. Defined.

(** The role and the state asked for; empty when the mask does not name them. *)
Fixpoint read_mask (role : UserRole) (state : UserState) (mask : list update_path) (acc : string * string) : result (string * string) :=
  match mask with
  | [] => Ok acc
  | PathDisplayName :: rest => read_mask role state rest acc
  | PathRole :: rest => let! r := roleString role in read_mask role state rest (r, snd acc)
  | PathState :: rest => let! s := stateString state in read_mask role state rest (fst acc, s)
  | PathOther :: _ => Err "unsupported update path"
  end.

Definition updated_user (row : user_row) (displayName : option string) (role state : string) : user_row :=
  mkUserRow (ur_Username row) (default (ur_DisplayName row) displayName) (if bool_decide (role = "") then ur_Role row else role)
    (if bool_decide (state = "") then ur_State row else state) (ur_Hash row) (ur_LastLogin row).

(** [present]: the message has a user and a mask. *)
Definition UpdateUser (db : acct_db) (now : time) (authorization : string) (present : bool) (userID displayName : string) (role : UserRole)
    (state : UserState) (mask : list update_path) (committed : bool) : acct_db * result unit :=
  let check :=
    let! _ := requireAdmin db now authorization in
    guard! present else "user and update_mask are required" in
    let! asked := read_mask role state mask ("", "") in
    guard! negb (bool_decide (mask = [])) else "update mask is empty" in
    let! _ := protectEffectiveAdministratorMutation db now userID (fst asked) (snd asked) in
    guard! bool_decide (NoDup mask) else "multiple assignments to same column" in
    match ac_users db !! userID with
    | None => Err "user not found"
    | Some row =>
        let row' := updated_user row (if bool_decide (PathDisplayName ∈ mask) then Some displayName else None) (fst asked) (snd asked) in
        let! _ := scanUser userID row' in
        guard! committed else "commit" in
        let db := set_users db (<[userID := row']> (ac_users db)) in
        Ok (if negb (bool_decide (snd asked = "")) && negb (bool_decide (snd asked = "active")) then delete_sessions db userID None else db)
    end in
  match check with Ok db' => (db', Ok tt) | Err e => (db, Err e) end.

Definition DeleteUser (db : acct_db) (now : time) (authorization userID : string) (committed : bool) : acct_db * result unit :=
  let check :=
    let! actor := requireAdmin db now authorization in
    guard! negb (bool_decide (u_Id actor = userID)) else "cannot delete the current user" in
    let! _ := protectEffectiveAdministratorMutation db now userID "" "deleted" in
    match ac_users db !! userID with
    | None => Err "user not found"
    | Some row =>
        let row' := updated_user row None "" "deleted" in
        let! _ := scanUser userID row' in
        guard! committed else "commit" in
        Ok (delete_sessions (set_users db (<[userID := row']> (ac_users db))) userID None)
    end in
  match check with Ok db' => (db', Ok tt) | Err e => (db, Err e) end.

Definition AdminResetPassword (db : acct_db) (now : time) (authorization userID new salt : string) (minLength : Z) (revokeSessions committed : bool)
    : acct_db * result unit :=
  let check :=
    let! _ := requireAdmin db now authorization in
    let! _ := validatePassword new minLength in
    match bcrypt_generate salt new, ac_users db !! userID with
    | None, _ => Err "bcrypt: password length exceeds 72 bytes"
    | Some _, None => Err "user not found"
    | Some h, Some row =>
        let! _ := scanUser userID row in
        guard! committed else "commit" in
        let db := set_users db (<[userID := with_hash row h]> (ac_users db)) in
        Ok (if revokeSessions then delete_sessions db userID None else db)
    end in
  match check with Ok db' => (db', Ok tt) | Err e => (db, Err e) end.
End sessions.

(** ** A session lasts from its login to its end *)

Section session_proofs.
Context {C : Crypto} {P : Passwords} {U : Unicode}.

Lemma hex_digit_plain n : 0 ≤ n < 16 → byte (hex_digit false n) < 128 ∧ is_space (byte (hex_digit false n)) = false.
Proof.
  intros Hn. unfold hex_digit. destruct (Z.ltb_spec n 10); rewrite byte_of_byte by lia; (split; [lia|]); unfold is_space; repeat case_bool_decide; simpl; lia.
Qed.

Lemma hex_encode_last s : s ≠ "" → ∃ m d, hex_encode s = m +:+ String d "" ∧ m ≠ "" ∧ byte d < 128 ∧ is_space (byte d) = false.
Proof.
  induction s as [|c s IH]; [done|]. intros _. destruct (decide (s = "")) as [->|Hs].
  - exists (String (hex_digit false (byte c / 16)) ""), (hex_digit false (byte c mod 16)). split; [done|]. split; [done|]. apply hex_digit_plain, Z.mod_pos_bound. lia.
  - destruct (IH Hs) as (m & d & E & _ & Hd). simpl. rewrite E. do 2 eexists. split; [|split; [|exact Hd]].
    + by rewrite <- !str_app_cons.
    + done.
Qed.

Lemma trim_hex s : trim_space (hex_encode s) = hex_encode s.
Proof.
  destruct s as [|c s]; [done|]. destruct (hex_encode_last (String c s)) as (m & d & E & Hm & Hd & Hds); [done|]. rewrite E. destruct m as [|x m]; [done|].
  simpl in E. injection E as Ex _. destruct (hex_digit_plain (byte c / 16)) as [Hx Hxs].
  { pose proof (byte_range c). split; [apply Z.div_pos; lia|apply Z.div_lt_upper_bound; lia]. }
  rewrite Ex in Hx, Hxs. rewrite str_app_cons. by apply trim_line.
Qed.

Lemma bearer_hex random : bearerToken ("Bearer " +:+ hex_encode random) = hex_encode random.
Proof.
  unfold bearerToken. rewrite str_len_app. pose proof (str_len_nonneg (hex_encode random)). rewrite (proj2 (Z.leb_le _ _)) by (change (str_len "Bearer ") with 7; lia).
  assert (∀ s, str_take 7 ("Bearer " +:+ s) = "Bearer " ∧ str_drop 7 ("Bearer " +:+ s) = s) as Hs by (intros s; split; reflexivity).
  destruct (Hs (hex_encode random)) as [-> ->]. simpl. apply trim_hex.
Qed.

Lemma hex_nonempty random : random ≠ "" → hex_encode random ≠ "".
Proof. by destruct random. Qed.

Lemma bearer_session db now random :
  random ≠ "" → requireUser db now ("Bearer " +:+ hex_encode random) = userBySession db now (hashToken (hex_encode random)).
Proof. intros Hr. unfold requireUser. rewrite bearer_hex. by rewrite bool_decide_eq_false_2 by by apply hex_nonempty. Qed.

(** A login that succeeds was for an active user whose stored hash accepts the password; the token it returns, sent as a
    bearer token, authenticates that user, with the role of its row, at every instant before the end of its life and at none from
    then on, and never again once it was logged out. *)
Theorem login_opens_session db t now first username password src random ttl stored touched db' t' raw :
  random ≠ "" → Login db t now first username password src random ttl stored touched = (db', t', Ok raw) →
  ∃ id row u, find_user db username = Some (id, row) ∧ ur_State row = "active" ∧ bcrypt_compare (ur_Hash row) password = true ∧
    u_Id u = id ∧ roleEnum (ur_Role row) = Ok (u_Role u) ∧
    (∀ now', now' < now + ttl → requireUser db' now' ("Bearer " +:+ raw) = Ok u) ∧
    (∀ now', now + ttl ≤ now' → is_ok (requireUser db' now' ("Bearer " +:+ raw)) = false) ∧
    (∀ now', is_ok (requireUser (Logout db' ("Bearer " +:+ raw) true) now' ("Bearer " +:+ raw)) = false).
Proof.
  intros Hr. unfold Login. destruct (_ || _); [done|]. destruct (login_admitted _ _ _ _ _) as [t1 [?|?]]; [|done].
  destruct (find_user db username) as [[id row]|] eqn:Ef; [|done]. destruct (decide (ur_State row = "active")) as [Hs|Hs];
    [rewrite bool_decide_eq_true_2 by done|by rewrite bool_decide_eq_false_2]. simpl.
  destruct (bcrypt_compare (ur_Hash row) password) eqn:Hc; [|done]. simpl. destruct (scanUser id row) as [u|] eqn:Hu; [|done].
  destruct (negb stored || _); [done|]. destruct touched; [|done]. simpl. intros H. injection H as <- _ <-.
  unfold scanUser in Hu. destruct (roleEnum (ur_Role row)) as [role|] eqn:Er; [|done]. simpl in Hu. destruct (stateEnum (ur_State row)) as [st|] eqn:Es; [|done]. injection Hu as <-.
  exists id, row, (mkUser id role). split_and!; [done..| | |].
  - intros now' Hn. rewrite bearer_session by done. unfold userBySession. simpl. rewrite lookup_insert_eq. simpl. rewrite lookup_insert_eq. simpl.
    rewrite (proj2 (Z.ltb_lt _ _) Hn), Hs. simpl. unfold scanUser. simpl. rewrite Er. done.
  - intros now' Hn. rewrite bearer_session by done. unfold userBySession. simpl. rewrite lookup_insert_eq. simpl. rewrite lookup_insert_eq. simpl.
    by rewrite (proj2 (Z.ltb_ge _ _) Hn).
  - intros now'. rewrite bearer_session by done. unfold Logout. rewrite bearer_hex, bool_decide_eq_false_2 by by apply hex_nonempty. simpl.
    unfold userBySession. simpl. by rewrite lookup_delete_eq.
Qed.

(** A password of 73 to 128 bytes passes the check of its length and is then refused by the hash. *)
Lemma long_password_refused {PL : PasswordLaws P} db username password displayName salt random minLength :
  72 < str_len password ≤ 128 → minLength ≤ 72 → username ≠ "" → str_len username ≤ 64 →
  validatePassword password minLength = Ok tt ∧
  Register db true username password displayName salt random minLength = (db, Err "bcrypt: password length exceeds 72 bytes").
Proof.
  intros Hp Hm Hu Hl. assert (validatePassword password minLength = Ok tt) as Hv.
  { unfold validatePassword. rewrite (wrap_s_id 32) by (unfold in_s; lia). rewrite (proj2 (Z.ltb_ge _ _)), (proj2 (Z.ltb_ge _ _)) by lia. done. }
  split; [done|]. unfold Register. simpl. rewrite Hv. simpl. rewrite bool_decide_eq_false_2 by done. rewrite (proj2 (Z.ltb_ge _ _)) by lia. simpl.
  by rewrite generate_limit by lia.
Qed.
End session_proofs.

(** ** The last administrator *)

(** No grant of a user expires: no handler gives one an end. *)
Definition no_expiry (db : acct_db) : Prop := map_Forall (λ _ g, g_Kind g = "user" → g_Expires g = None) (ac_grants db).

Definition has_administrator (db : acct_db) : Prop := ∃ now id row, ac_users db !! id = Some row ∧ administers db now id row = true.

(** Two states with the same grants and onboarding. *)
Definition same_rights (db db' : acct_db) : Prop := ac_grants db' = ac_grants db ∧ ac_onboarding db' = ac_onboarding db.

Lemma user_grants_elem db id now g :
  g ∈ user_grants db id now ↔ ∃ k, ac_grants db !! k = Some g ∧ g_Kind g = "user" ∧ g_Subject g = id ∧ live now g = true.
Proof.
  unfold user_grants. rewrite list_elem_of_fmap. split.
  - intros ([k g'] & -> & Hin). apply list_elem_of_filter in Hin as [Hp Hin]. apply elem_of_map_to_list in Hin. by exists k.
  - intros (k & Hk & Hp). exists (k, g). split; [done|]. apply list_elem_of_filter. split; [done|]. by apply elem_of_map_to_list.
Qed.

Lemma holds_iff db now id : holds_user_admin db now id = true ↔ ∃ g, g ∈ user_grants db id now ∧ "user.admin" ∈ g_Tools g.
Proof.
  unfold holds_user_admin. rewrite existsb_exists. split.
  - intros (g & Hg%list_elem_of_In & Ht%bool_decide_eq_true). by exists g.
  - intros (g & Hg & Ht). exists g. split; [by apply list_elem_of_In|by apply bool_decide_eq_true].
Qed.

Lemma live_any db now now' k g : no_expiry db → ac_grants db !! k = Some g → g_Kind g = "user" → live now g = true → live now' g = true.
Proof. intros Hne Hk Hu _. unfold live. by rewrite (Hne _ _ Hk Hu). Qed.

Lemma administers_iff db now id row :
  administers db now id row = true ↔
  ur_State row = "active" ∧ ((∃ o, ac_onboarding db = Some o ∧ fst o ≠ OnboardingStateCompleted ∧ ur_Role row = "admin") ∨ holds_user_admin db now id = true).
Proof.
  unfold administers. rewrite andb_true_iff, orb_true_iff, andb_true_iff, !bool_decide_eq_true.
  destruct (ac_onboarding db) as [o|]; [|naive_solver]. rewrite negb_true_iff, bool_decide_eq_false. naive_solver.
Qed.

Lemma administers_any_time db now now' id row : no_expiry db → administers db now id row = true → administers db now' id row = true.
Proof.
  intros Hne. rewrite !administers_iff, !holds_iff. intros [Hs [Ho|(g & Hg & Ht)]]; (split; [done|]); [by left|right]. exists g. split; [|done].
  apply user_grants_elem in Hg as (k & Hk & Hu & Hsub & Hl). apply user_grants_elem. exists k. split_and!; [done..|]. by eapply live_any.
Qed.

(** A change of rows that leaves the role and the state of the other users, and rights as they are. *)
Lemma administrator_elsewhere db db' id row :
  ac_grants db' = ac_grants db → ac_onboarding db' = ac_onboarding db →
  (∃ row', ac_users db' !! id = Some row' ∧ ur_State row' = ur_State row ∧ ur_Role row' = ur_Role row) →
  (∃ now, administers db now id row = true) → has_administrator db'.
Proof.
  intros Hg Ho (row' & Hr & Es & Er) (now & Ha). exists now, id, row'. split; [done|].
  rewrite administers_iff in Ha |- *. unfold holds_user_admin, user_grants. unfold holds_user_admin, user_grants in Ha.
  by rewrite Hg, Ho, Es, Er.
Qed.

Lemma effective_iff db now id role state b :
  effectiveAdministrator db now id role state = Some b →
  ∀ row, ur_Role row = role → ur_State row = state → administers db now id row = b.
Proof.
  unfold effectiveAdministrator, administers. intros H row Hr Hs. rewrite Hr, Hs. case_bool_decide; simpl in *; [|by injection H].
  destruct (ac_onboarding db) as [o|]; [|done]. injection H as <-. apply orb_comm.
Qed.

(** The row of one user is rewritten under the guard. *)
Lemma protected_update db now userID row row' role state db' :
  no_expiry db → has_administrator db → ac_users db !! userID = Some row →
  protectEffectiveAdministratorMutation db now userID role state = Ok tt →
  ur_Role row' = (if bool_decide (role = "") then ur_Role row else role) → ur_State row' = (if bool_decide (state = "") then ur_State row else state) →
  ac_users db' = <[userID := row']> (ac_users db) → ac_grants db' = ac_grants db → ac_onboarding db' = ac_onboarding db → has_administrator db'.
Proof.
  intros Hne (t & id & arow & Hid & Hadm) Hrow Hprot Er Es Eu Eg Eo. apply (administers_any_time _ _ now) in Hadm; [|done].
  assert (∀ i r, ac_users db !! i = Some r → administers db now i r = true → i ≠ userID → has_administrator db') as Hother.
  { intros i r Hi Ha Hn. apply (administrator_elsewhere db db' i r); [done..| |by exists now]. exists r. by rewrite Eu, lookup_insert_ne. }
  destruct (decide (id = userID)) as [->|Hn]; [|exact (Hother _ _ Hid Hadm Hn)]. rewrite Hrow in Hid. injection Hid as <-.
  unfold protectEffectiveAdministratorMutation in Hprot. rewrite Hrow in Hprot.
  destruct (effectiveAdministrator db now userID (ur_Role row) (ur_State row)) as [b|] eqn:E1; [|done].
  rewrite (effective_iff _ _ _ _ _ _ E1 row) in Hadm by done. subst b.
  destruct (effectiveAdministrator db now userID _ _) as [b|] eqn:E2 in Hprot; [|done]. destruct b.
  - exists now, userID, row'. rewrite Eu, lookup_insert_eq. split; [done|].
    assert (administers db now userID row' = true) as Ha by exact (effective_iff _ _ _ _ _ _ E2 row' Er Es).
    rewrite administers_iff in Ha |- *. unfold holds_user_admin, user_grants. unfold holds_user_admin, user_grants in Ha. by rewrite Eg, Eo.
  - destruct (Z.leb_spec (Z.of_nat (length (activeAdmins db now))) 1) as [|Hlen]; [done|]. clear Hprot.
    assert (NoDup (activeAdmins db now)) as Hnd by (apply NoDup_filter, NoDup_map_to_list).
    assert (∃ kv, kv ∈ activeAdmins db now ∧ kv.1 ≠ userID) as ([i r] & Hin & Hi).
    { destruct (activeAdmins db now) as [|x [|y l]] eqn:Ea; simpl in Hlen; [lia..|]. destruct (decide (x.1 = userID)) as [Ex|]; [|exists x; split; [apply list_elem_of_here|done]].
      exists y. split; [apply list_elem_of_further, list_elem_of_here|]. intros Ey. apply NoDup_cons in Hnd as [Hx _]. apply Hx.
      assert (x ∈ activeAdmins db now ∧ y ∈ activeAdmins db now) as [Hx1 Hy1] by (rewrite Ea; split; [apply list_elem_of_here|apply list_elem_of_further, list_elem_of_here]).
      apply list_elem_of_filter in Hx1 as [_ Hx1], Hy1 as [_ Hy1]. destruct x as [xi xr], y as [yi yr]. simpl in *. subst.
      apply elem_of_map_to_list in Hx1, Hy1. rewrite Hx1 in Hy1. injection Hy1 as ->. apply list_elem_of_here. }
    apply list_elem_of_filter in Hin as [Ha Hin]. apply elem_of_map_to_list in Hin. exact (Hother i r Hin Ha Hi).
Qed.

(** Every user keeps its state and role. *)
Definition users_keep (db db' : acct_db) : Prop :=
  ∀ id row, ac_users db !! id = Some row → ∃ row', ac_users db' !! id = Some row' ∧ ur_State row' = ur_State row ∧ ur_Role row' = ur_Role row.

Lemma users_keep_refl db db' : ac_users db' = ac_users db → users_keep db db'.
Proof. intros E id row H. exists row. by rewrite E. Qed.

Lemma users_keep_insert db db' id row' :
  ac_users db' = <[id := row']> (ac_users db) →
  (∀ row, ac_users db !! id = Some row → ur_State row' = ur_State row ∧ ur_Role row' = ur_Role row) → users_keep db db'.
Proof.
  intros E Hsame i r Hi. rewrite E. destruct (decide (id = i)) as [<-|Hn].
  - rewrite lookup_insert_eq. exists row'. split; [done|]. by apply Hsame.
  - rewrite lookup_insert_ne by done. by exists r.
Qed.

Lemma keep_administrator db db' :
  ac_grants db' = ac_grants db → ac_onboarding db' = ac_onboarding db → users_keep db db' → has_administrator db → has_administrator db'.
Proof. intros Hg Ho Hu (now & id & row & Hr & Ha). apply (administrator_elsewhere db db' id row); [done..|by apply Hu|by exists now]. Qed.

(** Bindings are added to grants. *)
Lemma append_subject_lookup gs kind subject assetID k :
  ∃ f, appendSubjectAssetBinding gs kind subject assetID !! k = f <$> gs !! k ∧
    ∀ g, g_Kind (f g) = g_Kind g ∧ g_Subject (f g) = g_Subject g ∧ g_Tools (f g) = g_Tools g ∧ g_Expires (f g) = g_Expires g.
Proof.
  unfold appendSubjectAssetBinding. destruct (_ || _).
  - exists id. split; [by destruct (gs !! k)|done].
  - exists (λ g, if bool_decide (g_Kind g = kind) && bool_decide (g_Subject g = subject) then append_binding assetID g else g).
    split; [apply lookup_fmap|]. intros g. unfold append_binding. repeat case_match; done.
Qed.

Definition grants_keep (gs gs' : gmap string grant_row) : Prop :=
  ∀ k g, gs !! k = Some g → ∃ g', gs' !! k = Some g' ∧ g_Kind g' = g_Kind g ∧ g_Subject g' = g_Subject g ∧ g_Tools g' = g_Tools g ∧ g_Expires g' = g_Expires g.

Lemma append_subject_keeps gs kind subject assetID : grants_keep gs (appendSubjectAssetBinding gs kind subject assetID).
Proof.
  intros k g Hk. destruct (append_subject_lookup gs kind subject assetID k) as (f & E & Hf). exists (f g). rewrite E, Hk. split; [done|]. apply Hf.
Qed.

Lemma grants_keep_trans gs gs' gs'' : grants_keep gs gs' → grants_keep gs' gs'' → grants_keep gs gs''.
Proof.
  intros H1 H2 k g Hk. destruct (H1 _ _ Hk) as (g1 & Hk1 & A1 & A2 & A3 & A4). destruct (H2 _ _ Hk1) as (g2 & Hk2 & B1 & B2 & B3 & B4).
  exists g2. split_and!; congruence.
Qed.

Lemma append_subject_no_expiry gs kind subject assetID :
  map_Forall (λ _ g, g_Kind g = "user" → g_Expires g = None) gs →
  map_Forall (λ _ g, g_Kind g = "user" → g_Expires g = None) (appendSubjectAssetBinding gs kind subject assetID).
Proof.
  intros H k g' Hk. destruct (append_subject_lookup gs kind subject assetID k) as (f & E & Hf). rewrite E in Hk.
  destruct (gs !! k) as [g|] eqn:Eg; [|done]. injection Hk as <-. destruct (Hf g) as (-> & _ & _ & ->). by apply (H k).
Qed.

Lemma administers_grants db db' now id row :
  grants_keep (ac_grants db) (ac_grants db') → ac_onboarding db' = ac_onboarding db → administers db now id row = true → administers db' now id row = true.
Proof.
  intros Hg Ho. rewrite !administers_iff, !holds_iff, Ho. intros [Hs [Hr|(g & Hgr & Ht)]]; (split; [done|]); [by left|right].
  apply user_grants_elem in Hgr as (k & Hk & Hu & Hsub & Hl). destruct (Hg _ _ Hk) as (g' & Hk' & E1 & E2 & E3 & E4).
  exists g'. rewrite E3. split; [|done]. apply user_grants_elem. exists k. unfold live in *. rewrite E1, E2, E4. done.
Qed.

Section histories.
Context {C : Crypto} {P : Passwords} {U : Unicode}.

(** The handlers of accounts and of assets, with any arguments. *)
Inductive account_step (db : acct_db) : acct_db → Prop :=
| as_login t now first username password src random ttl stored touched :
    account_step db (Login db t now first username password src random ttl stored touched).1.1
| as_logout authorization deleted : account_step db (Logout db authorization deleted)
| as_change now authorization old new salt minLength updated revoked :
    account_step db (ChangePassword db now authorization old new salt minLength updated revoked).1
| as_register allowed username password displayName salt random minLength :
    account_step db (Register db allowed username password displayName salt random minLength).1
| as_create now authorization username password displayName role salt random minLength committed :
    account_step db (CreateUser db now authorization username password displayName role salt random minLength committed).1
| as_update now authorization present userID displayName role state mask committed :
    account_step db (UpdateUser db now authorization present userID displayName role state mask committed).1
| as_delete now authorization userID committed : account_step db (DeleteUser db now authorization userID committed).1
| as_reset now authorization userID new salt minLength revoke committed :
    account_step db (AdminResetPassword db now authorization userID new salt minLength revoke committed).1
| as_asset now user id displayName central random committed : account_step db (CreateAsset db now user id displayName central random committed).1.

Definition administered (db : acct_db) : Prop := no_expiry db ∧ has_administrator db.

Lemma keep_administered db db' :
  ac_grants db' = ac_grants db → ac_onboarding db' = ac_onboarding db → users_keep db db' → administered db → administered db'.
Proof. intros Hg Ho Hu [Hn Ha]. split; [unfold no_expiry; by rewrite Hg|by eapply keep_administrator]. Qed.

Lemma insert_user_keeps db random username displayName role hash :
  administered db → administered (insert_user db random username displayName role hash).1.
Proof.
  unfold insert_user. intros Ha. case_bool_decide as Hn; simpl; [|done]. destruct (username_free db username); [|done].
  eapply keep_administered; [..|exact Ha]; [done..|]. eapply users_keep_insert; [done|]. intros row Hr. congruence.
Qed.

Lemma find_user_Some db username id row : find_user db username = Some (id, row) → ac_users db !! id = Some row ∧ ur_Username row = username.
Proof.
  unfold find_user. intros H. assert ((id, row) ∈ filter (λ kv, ur_Username kv.2 = username) (map_to_list (ac_users db))) as Hin.
  { destruct (filter _ _); simplify_eq/=. apply list_elem_of_here. }
  apply list_elem_of_filter in Hin as [? Hin]. by apply elem_of_map_to_list in Hin.
Qed.

Lemma Login_keeps db t now first username password src random ttl stored touched :
  administered db → administered (Login db t now first username password src random ttl stored touched).1.1.
Proof.
  intros Ha. unfold Login. destruct (_ || _); [done|]. destruct (login_admitted _ _ _ _ _) as [t' [?|?]]; [|done].
  destruct (find_user db username) as [[id row]|] eqn:Ef; [|done]. apply find_user_Some in Ef as [Hrow _].
  destruct (negb (bool_decide (ur_State row = "active"))); [done|]. destruct (negb (bcrypt_compare _ _)); [done|]. destruct (scanUser id row); [|done].
  destruct (newSessionToken random) as [raw hash]. destruct (negb stored || _); [done|].
  destruct (negb touched); (eapply keep_administered; [..|exact Ha]; [done..|]); [by apply users_keep_refl|].
  eapply users_keep_insert; [done|]. intros r Hr. rewrite Hrow in Hr. by injection Hr as <-.
Qed.

Lemma with_hash_keeps db db' id row h :
  ac_users db !! id = Some row → ac_users db' = <[id := with_hash row h]> (ac_users db) → ac_grants db' = ac_grants db → ac_onboarding db' = ac_onboarding db →
  administered db → administered db'.
Proof. intros Hr Eu Eg Eo. apply keep_administered; [done..|]. eapply users_keep_insert; [done|]. intros r H. rewrite Hr in H. by injection H as <-. Qed.

Lemma updated_keeps db db' now userID row dn role state :
  protectEffectiveAdministratorMutation db now userID role state = Ok tt → ac_users db !! userID = Some row →
  ac_users db' = <[userID := updated_user row dn role state]> (ac_users db) → ac_grants db' = ac_grants db → ac_onboarding db' = ac_onboarding db →
  administered db → administered db'.
Proof. intros Hp Hr Eu Eg Eo [Hn Ha]. split; [unfold no_expiry; by rewrite Eg|]. exact (protected_update db now userID row (updated_user row dn role state) role state db' Hn Ha Hr Hp eq_refl eq_refl Eu Eg Eo). Qed.

Lemma account_step_keeps db db' : account_step db db' → administered db → administered db'.
Proof.
  intros Hstep Ha. destruct Hstep.
  - by apply Login_keeps.
  - unfold Logout. destruct (_ && _); [|done]. eapply keep_administered; [..|exact Ha]; [done..|by apply users_keep_refl].
  - unfold ChangePassword. destruct (requireUser _ _ _) as [u|]; [|done]. simpl. destruct (validatePassword _ _); [|done]. simpl.
    destruct (ac_users db !! u_Id u) as [row|] eqn:Er; [|done]. destruct (bcrypt_compare _ _); [|done]. destruct (bcrypt_generate _ _) as [h|]; [|done]. simpl.
    destruct updated; [|done]. destruct revoked; by eapply with_hash_keeps.
  - unfold Register. destruct (guard! _ else _ in _) as [h|]; [|done]. by apply insert_user_keeps.
  - unfold CreateUser. destruct (result_bind _ _) as [[r h]|]; [|done]. destruct committed; [|done]. by apply insert_user_keeps.
  - unfold UpdateUser. destruct (requireAdmin _ _ _) as [u|]; [|done]. simpl. destruct present; [|done]. destruct (read_mask _ _ _ _) as [[ro sta]|]; [|done]. simpl.
    destruct (negb _); [|done]. destruct (protectEffectiveAdministratorMutation _ _ _ _ _) as [[]|] eqn:Ep; [|done]. simpl.
    destruct (bool_decide (NoDup _)); [|done]. destruct (ac_users db !! userID) as [row|] eqn:Er; [|done].
    destruct (scanUser _ _); [|done]. simpl. destruct committed; [|done]. simpl. destruct (_ && _); by eapply updated_keeps.
  - unfold DeleteUser. destruct (requireAdmin _ _ _) as [u|]; [|done]. simpl. destruct (negb _); [|done].
    destruct (protectEffectiveAdministratorMutation _ _ _ _ _) as [[]|] eqn:Ep; [|done]. simpl.
    destruct (ac_users db !! userID) as [row|] eqn:Er; [|done]. destruct (scanUser _ _); [|done]. simpl. destruct committed; [|done]. by eapply updated_keeps.
  - unfold AdminResetPassword. destruct (requireAdmin _ _ _) as [u|]; [|done]. simpl. destruct (validatePassword _ _); [|done]. simpl.
    destruct (bcrypt_generate _ _) as [h|]; [|done]. destruct (ac_users db !! userID) as [row|] eqn:Er; [|done]. destruct (scanUser _ _); [|done]. simpl.
    destruct committed; [|done]. simpl. destruct revoke; by eapply with_hash_keeps.
  - unfold CreateAsset. destruct (result_bind _ _); [|done]. destruct (bool_decide (_ ∈ ac_assets db)); [done|]. destruct (negb committed); [done|].
    destruct Ha as [Hn (n & i & r & Hr & Hadm)]. split; [by do 2 apply append_subject_no_expiry|]. exists n, i, r. split; [done|].
    apply (administers_grants db); [|done|exact Hadm]. eapply grants_keep_trans; apply append_subject_keeps.
Qed.

(** C14: a deployment that has an effective administrator keeps one through every sequence of logins, registrations, changes of
    passwords, creations, updates and deletions of users and creations of assets, whoever calls them and whatever they ask for. *)
Theorem administrators_kept db db' :
  no_expiry db → has_administrator db → rtc account_step db db' → no_expiry db' ∧ has_administrator db'.
Proof. intros Hn Ha Hr. assert (administered db) as H by done. clear Hn Ha. induction Hr; [done|]. eauto using account_step_keeps. Qed.
End histories.

(** ** What a grant hands out *)

Lemma by_key_elem bs k b : by_key bs !! k = Some b → b ∈ bs ∧ bind_key b = k.
Proof.
  unfold by_key. induction bs as [|x bs IH] using rev_ind; [done|]. rewrite foldl_app. simpl. destruct (decide (bind_key x = k)) as [<-|Hn].
  - rewrite lookup_insert_eq. intros [= <-]. split; [|done]. apply elem_of_app. right. apply list_elem_of_here.
  - rewrite lookup_insert_ne by done. intros H%IH. split; [|apply H]. apply elem_of_app. left. apply H.
Qed.

Lemma effective_bindings db now u b :
  b ∈ ea_Bindings (loadEffectiveAccess db now (Some u)) → ∃ g, g ∈ user_grants db (u_Id u) now ∧ b ∈ g_Bindings g ∧ b_Id b ≠ "" ∧ b_Id b ≠ "*".
Proof.
  unfold loadEffectiveAccess. destruct (_ && _); simpl; [intros H; by apply not_elem_of_nil in H|].
  intros ([k b'] & -> & Hin)%list_elem_of_fmap. apply elem_of_map_to_list, by_key_elem in Hin as [Hin _].
  apply list_elem_of_filter in Hin as [Hne Hin]. apply list_elem_of_bind in Hin as (g & Hb & Hg). by exists g.
Qed.

(** The text of a binding determines it when its kind has no slash. *)
Lemma bind_key_inj b b' : str_mem "/" (b_Kind b) = false → str_mem "/" (b_Kind b') = false → bind_key b = bind_key b' → b = b'.
Proof.
  intros Hk Hk' E. assert (cut_byte "/" (bind_key b) = cut_byte "/" (bind_key b')) as Ec by by rewrite E.
  assert (∀ x, bind_key x = b_Kind x +:+ String "/" (b_Id x)) as Hx by reflexivity. rewrite !Hx, !(cut_byte_app "/"%char) in Ec by done. destruct b, b'. simpl in *. by simplify_eq.
Qed.

Lemma bound_to_Ok allow want : bound_to allow want = Ok tt → ∀ b, b ∈ want → bind_key b ∈ allow.
Proof.
  unfold bound_to. destruct (forallb _ _) eqn:E; [|done]. intros _ b Hb. rewrite forallb_forall in E. apply list_elem_of_In in Hb.
  by apply E, bool_decide_eq_true in Hb.
Qed.

Lemma put_grant_checks_Ok db now user subject tools binds :
  completed db = true → put_grant_checks db now user subject tools binds = Ok tt →
  requireUserGrant db now (u_Id user) "grant.write" "asset" "" = Ok tt ∧ u_Id user ≠ subject ∧ Forall (λ t, knownUserTool t = true) tools ∧
  (binds = [] → toolsAccountOnly tools = true) ∧
  ∀ b, b ∈ binds → ∃ g own, g ∈ user_grants db (u_Id user) now ∧ own ∈ g_Bindings g ∧ bind_key own = bind_key b.
Proof.
  intros Hc. unfold put_grant_checks, authorizeWrite. rewrite Hc. rewrite andb_false_l. simpl.
  destruct (requireUserGrant _ _ _ _ _ _) as [[]|] eqn:Eg; [|done]. simpl. case_bool_decide as Hs; [done|]. simpl.
  destruct (forallb knownUserTool tools) eqn:Ht; [|done]. destruct (negb (bool_decide (binds = []) && _)) eqn:Eb; [|done].
  destruct (forallb _ binds); [|done]. unfold checkGrantScope. rewrite Hc. simpl. intros Hb. split_and!; [done..| | |].
  - apply Forall_forall. intros t Hin%list_elem_of_In. rewrite forallb_forall in Ht. by apply Ht.
  - intros ->. simpl in Eb. by destruct (toolsAccountOnly tools).
  - intros b Hin. specialize (bound_to_Ok _ _ Hb _ Hin) as Hk. apply elem_of_list_to_set, list_elem_of_fmap in Hk as (own & E & Ho).
    apply effective_bindings in Ho as (g & Hg & Hb' & _). by exists g, own.
Qed.

Lemma oldest_grant_Some db subject id row :
  oldest_grant db subject = Some (id, row) → ac_grants db !! id = Some row ∧ g_Kind row = "user" ∧ g_Subject row = subject.
Proof.
  unfold oldest_grant. intros H. assert ((id, row) ∈ filter (λ kv : string * grant_row, g_Kind kv.2 = "user" ∧ g_Subject kv.2 = subject) (map_to_list (ac_grants db))) as Hin.
  { rewrite <- (order_by_perm (λ kv : string * grant_row, g_CreatedAt kv.2)). destruct (order_by _ _); simplify_eq/=. apply list_elem_of_here. }
  apply list_elem_of_filter in Hin as [[? ?] Hin]. by apply elem_of_map_to_list in Hin.
Qed.

(** The grants of a subject after the overlay: one row, with the tools and bindings asked for; the grants of others stay. *)
Lemma overlay_replaces db now subject tools binds createdBy random stored updated db' gid :
  overlayUserGrant db now subject tools binds createdBy random stored updated = (db', Ok gid) →
  (∃ g, ac_grants db' !! gid = Some g ∧ g_Kind g = "user" ∧ g_Subject g = subject ∧ g_Tools g = tools ∧ g_Bindings g = binds) ∧
  (∀ k g, ac_grants db' !! k = Some g → g_Kind g = "user" → g_Subject g = subject → k = gid) ∧
  (∀ k g, ¬ (g_Kind g = "user" ∧ g_Subject g = subject) → ac_grants db' !! k = Some g ↔ ac_grants db !! k = Some g).
Proof.
  unfold overlayUserGrant. destruct (oldest_grant db subject) as [[id row]|] eqn:Eo.
  - apply oldest_grant_Some in Eo as (Hid & Hk & Hs). destruct stored; [|done]. destruct updated; [|done]. simpl. intros H. injection H as <- <-. simpl.
    rewrite lookup_insert_eq. split; [by eexists|]. split.
    + intros k g. destruct (decide (id = k)) as [<-|Hn]; [done|]. rewrite lookup_insert_ne by done. intros [_ Hf]%map_lookup_filter_Some. intros Hku Hsu.
      exfalso. apply Hf. simpl. done.
    + intros k g Hg. destruct (decide (id = k)) as [<-|Hn].
      * rewrite lookup_insert_eq, Hid. split; [intros [= <-]|intros [= <-]]; exfalso; apply Hg; done.
      * rewrite lookup_insert_ne by done. rewrite map_lookup_filter_Some. simpl. naive_solver.
  - destruct (stored && _) eqn:Es; [|done]. apply andb_true_iff in Es as [_ Hfree%bool_decide_eq_true]. intros H. injection H as <- <-. simpl.
    rewrite lookup_insert_eq. split; [by eexists|]. split.
    + intros k g. destruct (decide (newID "gr" random = k)) as [<-|Hn]; [done|]. rewrite lookup_insert_ne by done. intros Hg Hk Hs. exfalso.
      unfold oldest_grant in Eo. assert ((k, g) ∈ order_by (λ kv : string * grant_row, g_CreatedAt kv.2)
        (filter (λ kv : string * grant_row, g_Kind kv.2 = "user" ∧ g_Subject kv.2 = subject) (map_to_list (ac_grants db)))) as Hin.
      { rewrite order_by_perm. apply list_elem_of_filter. split; [done|]. by apply elem_of_map_to_list. }
      destruct (order_by _ _); [by apply not_elem_of_nil in Hin|done].
    + intros k g Hg. destruct (decide (newID "gr" random = k)) as [<-|Hn].
      * rewrite lookup_insert_eq, Hfree. split; [intros [= <-]; exfalso; by apply Hg|done].
      * by rewrite lookup_insert_ne by done.
Qed.

(** C15: once the onboarding is over, whoever sets the grant of a user holds [grant.write] and is somebody else; every tool handed
    out is a known one, and every binding handed out has the text of a binding the caller holds, hence is a binding the caller
    holds when the kinds have no slash; the user ends with exactly that grant and the grants of others stay as they were. *)
Theorem grants_confined db now user subject tools binds random stored updated db' gid :
  completed db = true → PutGrant db now user subject tools binds random stored updated = (db', Ok gid) →
  (∃ g, g ∈ user_grants db (u_Id user) now ∧ claimsAllows (g_Tools g) "grant.write" = true) ∧ u_Id user ≠ subject ∧
  Forall (λ t, knownUserTool t = true) tools ∧
  (∀ b, b ∈ binds → ∃ g own, g ∈ user_grants db (u_Id user) now ∧ own ∈ g_Bindings g ∧ bind_key own = bind_key b ∧
     (str_mem "/" (b_Kind own) = false → str_mem "/" (b_Kind b) = false → own = b)) ∧
  (∃ g, ac_grants db' !! gid = Some g ∧ g_Kind g = "user" ∧ g_Subject g = subject ∧ g_Tools g = tools ∧ g_Bindings g = binds) ∧
  (∀ k g, ac_grants db' !! k = Some g → g_Kind g = "user" → g_Subject g = subject → k = gid) ∧
  (∀ k g, ¬ (g_Kind g = "user" ∧ g_Subject g = subject) → ac_grants db' !! k = Some g ↔ ac_grants db !! k = Some g).
Proof.
  intros Hc. unfold PutGrant. destruct (put_grant_checks _ _ _ _ _ _) as [[]|] eqn:Ep; [|done]. intros Ho%overlay_replaces.
  apply put_grant_checks_Ok in Ep as (Hg & Hs & Ht & _ & Hb); [|done]. split; [|split; [done|split; [done|split; [|exact Ho]]]].
  - unfold requireUserGrant in Hg. destruct (existsb _ _) eqn:Ee; [|done]. apply existsb_exists in Ee as (g & Hin%list_elem_of_In & Hp).
    apply andb_true_iff in Hp as [Hp _]. by exists g.
  - intros b Hin. destruct (Hb b Hin) as (g & own & Hg' & Hown & E). exists g, own. split_and!; [done..|]. intros Ho1 Ho2. by apply bind_key_inj.
Qed.

(** C40: the changes of grants do not ask whether an administrator is left: any holder of [grant.write] can revoke the grant, without
    bindings, that alone carries [user.admin], after which nobody administers the deployment. *)
Theorem revoke_removes_last_admin db now user gid g :
  completed db = true → requireUserGrant db now (u_Id user) "grant.write" "asset" "" = Ok tt →
  ac_grants db !! gid = Some g → g_Bindings g = [] →
  (∀ k g', ac_grants db !! k = Some g' → g_Kind g' = "user" → "user.admin" ∈ g_Tools g' → k = gid) →
  (RevokeGrant db now user gid true).2 = Ok tt ∧ ¬ has_administrator (RevokeGrant db now user gid true).1.
Proof.
  intros Hc Hg Hk Hb Honly. assert (∃ s a, ac_onboarding db = Some (s, a) ∧ s = OnboardingStateCompleted) as (s & a & Ho & ->).
  { unfold completed, loadOnboarding in Hc. destruct (ac_onboarding db) as [[s a]|]; [|done]. apply bool_decide_eq_true in Hc. simpl in Hc.
    exists s, a. split; [done|]. by destruct (bool_decide (s = "")). }
  unfold RevokeGrant, authorizeWrite. rewrite Hg, Hk. simpl. unfold checkGrantScope, bound_to. rewrite Hc, Hb. simpl. split; [done|].
  intros (t & id & row & _ & Ha). rewrite administers_iff in Ha. simpl in Ha. rewrite Ho in Ha. destruct Ha as [_ [(o & [= <-] & Hne & _)|Ha]]; [by apply Hne|].
  apply holds_iff in Ha as (g' & Hg' & Ht). apply user_grants_elem in Hg' as (k & Hk' & Hu & _). simpl in Hk'. apply lookup_delete_Some in Hk' as [Hne Hk'].
  apply Hne. symmetry. by apply (Honly k g').
Qed.

(** ** Concrete runs *)
Module AccountDemo.
Definition passwords : Passwords := {|
  bcrypt_generate salt pw := if 72 <? str_len pw then None else Some pw; bcrypt_compare h pw := bool_decide (h = pw) |}.
Lemma password_laws : PasswordLaws passwords.
Proof.
  split; simpl.
  - intros salt pw h. destruct (_ <? _); [done|]. intros [= <-]. by apply bool_decide_eq_true.
  - intros salt pw H. by rewrite (proj2 (Z.ltb_lt _ _) H).
Qed.
Definition throttled : throttle := mkThrottle ∅ newLimiter.
(** The administrator of a deployment whose onboarding is over, an officer of grants and a viewer; the asset is the administrator's. *)
Definition row (name role : string) : user_row := mkUserRow name name role "active" "secret" None.
Definition asset (id : string) : BindingRef := mkBindingRef "asset" id.
Definition db : acct_db := mkAcctDb
  (<["usr_root" := row "root" "admin"]> (<["usr_grants" := row "grants" "admin"]> (<["usr_v" := row "v" "viewer"]> ∅))) ∅
  (<["gr_root" := mkGrantRow "user" "usr_root" ["user.admin"] [] "usr_root" 0 None]>
   (<["gr_grants" := mkGrantRow "user" "usr_grants" ["grant.write"; "asset.create"] [asset "shop"] "usr_root" 1 None]> ∅))
  (Some (OnboardingStateCompleted, "shop")) ["shop"; "prod-1"].
Definition root : User := mkUser "usr_root" USER_ROLE_ADMIN.
Definition officer : User := mkUser "usr_grants" USER_ROLE_ADMIN.
Definition viewer : User := mkUser "usr_v" USER_ROLE_VIEWER.
Definition scope (d : acct_db) (u : User) : accessScope := scopeFromAccess (loadEffectiveAccess d 10 (Some u)).

(** An asset whose name holds a slash, and the grant of a binding with the same text. *)
Definition with_asset : acct_db := (CreateAsset db 10 officer "x/prod-1" "demo" "" "" true).1.
Definition granted : acct_db * result string :=
  PutGrant with_asset 11 officer "usr_v" ["console.read"] [mkBindingRef "asset/x" "prod-1"] "r" true true.
Definition revoked : acct_db * result unit := RevokeGrant db 10 officer "gr_root" true.
Definition logged_in : acct_db * throttle * result string :=
  @Login toy_crypto passwords db throttled 10 (λ _, None) "root" "secret" "198.51.100.4" "abc" 100 true true.
End AccountDemo.

Lemma login_opens_session_witness :
  @requireUser toy_crypto ascii_only_unicode AccountDemo.logged_in.1.1 50 ("Bearer " +:+ "616263") = Ok AccountDemo.root.
Proof.
  destruct (@login_opens_session toy_crypto AccountDemo.passwords ascii_only_unicode AccountDemo.db AccountDemo.throttled 10 (λ _, None) "root" "secret"
    "198.51.100.4" "abc" 100 true true AccountDemo.logged_in.1.1 AccountDemo.logged_in.1.2 "616263") as (id & row & u & Hf & _ & _ & Hid & Hr & Hlive & _).
  - discriminate.
  - vm_compute. reflexivity.
  - rewrite (Hlive 50) by lia. assert (find_user AccountDemo.db "root" = Some ("usr_root", AccountDemo.row "root" "admin")) as E by (vm_compute; reflexivity).
    rewrite E in Hf. injection Hf as <- <-. destruct u as [i r]. simpl in *. subst i. injection Hr as <-. reflexivity.
Defined.

Lemma administrators_kept_witness :
  has_administrator (DeleteUser (C := toy_crypto) (U := ascii_only_unicode) AccountDemo.logged_in.1.1 20 "Bearer 616263" "usr_grants" true).1.
Proof.
  apply (@administrators_kept toy_crypto AccountDemo.passwords ascii_only_unicode AccountDemo.db).
  - apply (bool_decide_unpack _). vm_compute. exact I.
  - exists 10, "usr_root", (AccountDemo.row "root" "admin"). split; vm_compute; reflexivity.
  - eapply rtc_l; [|eapply rtc_once].
    + exact (@as_login toy_crypto AccountDemo.passwords ascii_only_unicode AccountDemo.db AccountDemo.throttled 10 (λ _, None) "root" "secret" "198.51.100.4" "abc" 100 true true).
    + exact (@as_delete toy_crypto AccountDemo.passwords ascii_only_unicode AccountDemo.logged_in.1.1 20 "Bearer 616263" "usr_grants" true).
Defined.

Lemma grants_confined_witness :
  ∃ g own, g ∈ user_grants AccountDemo.with_asset "usr_grants" 11 ∧ own ∈ g_Bindings g ∧ bind_key own = "asset/x/prod-1".
Proof.
  destruct (grants_confined AccountDemo.with_asset 11 AccountDemo.officer "usr_v" ["console.read"] [mkBindingRef "asset/x" "prod-1"] "r" true true
    AccountDemo.granted.1 "gr_72") as (_ & _ & _ & H & _).
  - vm_compute. reflexivity.
  - vm_compute. reflexivity.
  - destruct (H (mkBindingRef "asset/x" "prod-1")) as (g & own & Hg & Ho & E & _); [apply list_elem_of_here|]. exists g, own. exact (conj Hg (conj Ho E)).
Defined.

Lemma revoke_removes_last_admin_witness : has_administrator AccountDemo.db ∧ ¬ has_administrator AccountDemo.revoked.1.
Proof.
  split; [exists 10, "usr_root", (AccountDemo.row "root" "admin"); split; vm_compute; reflexivity|].
  apply (revoke_removes_last_admin AccountDemo.db 10 AccountDemo.officer "gr_root" (mkGrantRow "user" "usr_root" ["user.admin"] [] "usr_root" 0 None)).
  - vm_compute. reflexivity.
  - vm_compute. reflexivity.
  - vm_compute. reflexivity.
  - reflexivity.
  - assert (map_Forall (λ k g', g_Kind g' = "user" → "user.admin" ∈ g_Tools g' → k = "gr_root") (ac_grants AccountDemo.db)) as H
      by (apply (bool_decide_unpack _); vm_compute; exact I).
    exact H.
Defined.

(** Bindings are compared by the text of their kind and identifier, and the identifier of an asset may hold a slash: an
    administrator of assets who creates one named x/prod-1 can hand out the kind asset/x and the identifier prod-1, and the scope of
    the receiver then covers prod-1, which the scope of the giver does not. *)
Theorem slash_binding_escapes :
  is_ok AccountDemo.granted.2 = true ∧ coversAsset (AccountDemo.scope AccountDemo.with_asset AccountDemo.officer) "prod-1" = false ∧
  coversAsset (AccountDemo.scope AccountDemo.granted.1 AccountDemo.viewer) "prod-1" = true.
Proof. vm_compute. done. Qed.
