(* ===== verification/Idempotency.v ===== *)
(** * Idempotent calls

    [lib/brain/idempotency_rpc.go] and the keys of [lib/brain/budget.go]: a call carries a key;
    the first call with it reserves a row, runs its transaction and stores its answer in the same
    transaction, and later calls with the key and the same request get that answer.  A row that
    stays pending longer than its time to live is taken over.

    Every statement outside the transaction, and the transaction, is one step of a call
    ([advance]); any number of calls take their steps in any order, and a call that crashed takes
    no more.  What the transaction does to the other tables is the argument [run].  The encodings
    of requests, answers and errors are the parameter class [IdemWire]; the clock is the
    database's. *)

From S2P Require Import Prelude GoStrings Contracts Signing.

Definition IdempotencyPendingTTL : duration := 120 * Second.
Definition idempotencyKeyMaxLen : Z := 128.

(** ** Errors of calls *)

Inductive Code :=
  CodeCanceled | CodeUnknown | CodeInvalidArgument | CodeDeadlineExceeded | CodeNotFound | CodeAlreadyExists | CodePermissionDenied
  | CodeResourceExhausted | CodeFailedPrecondition | CodeAborted | CodeOutOfRange | CodeUnimplemented | CodeInternal | CodeUnavailable
  | CodeDataLoss | CodeUnauthenticated.
#[global] Instance Code_eq_dec : EqDecision Code. Proof. solve_decision. Defined.
Definition all_codes : list Code :=
  [CodeCanceled; CodeUnknown; CodeInvalidArgument; CodeDeadlineExceeded; CodeNotFound; CodeAlreadyExists; CodePermissionDenied; CodeResourceExhausted;
   CodeFailedPrecondition; CodeAborted; CodeOutOfRange; CodeUnimplemented; CodeInternal; CodeUnavailable; CodeDataLoss; CodeUnauthenticated].
Record rpc_error := mkRpcError { re_code : Code; re_message : string }.

(** ** Rows *)

Record idem_row := mkIdemRow { ir_digest : string; ir_status : string; ir_body : string; ir_created : time }.
Abbreviation idem_table := (gmap (string * string) idem_row).
Definition pending (digest : string) (now : time) : idem_row := mkIdemRow digest "pending" "{}" now.

(** [INSERT … ON CONFLICT DO NOTHING]: the number of rows. *)
Definition insert_pending (t : idem_table) (k : string * string) (digest : string) (now : time) : idem_table * bool :=
  match t !! k with None => (<[k := pending digest now]> t, true) | Some _ => (t, false) end.

Definition abortIdempotency (t : idem_table) (k : string * string) : idem_table :=
  match t !! k with
  | Some row => if negb (bool_decide (snd k = "")) && bool_decide (ir_status row = "pending") then delete k t else t
  | None => t
  end.

Definition loadIdempotencyRow (t : idem_table) (k : string * string) (digest : string) : result (option idem_row) :=
  match t !! k with
  | None => Ok None
  | Some row => guard! bool_decide (ir_digest row = digest) else "idempotency key reused with different request" in Ok (Some row)
  end.

Definition delete_expired (t : idem_table) (k : string * string) (created : time) : idem_table * bool :=
  match t !! k with
  | Some row => if bool_decide (ir_status row = "pending") && (ir_created row =? created) then (delete k t, true) else (t, false)
  | None => (t, false)
  end.

Definition requireIdempotencyKey (header : string) : result string :=
  let key := trim_space header in
  guard! negb (bool_decide (key = "")) else "idempotency-key is required" in
  guard! negb (idempotencyKeyMaxLen <? str_len key) else "idempotency-key exceeds 128 characters" in Ok key.

Definition requestDigest {C : Crypto} (tool args idem : string) : string :=
  hex_encode (sha256 (tool +:+ String (of_byte 10) (args +:+ String (of_byte 10) idem))).

(** ** Encodings

    [column] is the text a stored body has when it is read back as text, [column_body] what decoding such a text finds in the
    field body.  [code_text] and [error_text] are the methods of the call errors. *)
Class IdemWire (Req Resp : Type) := {
  marshal_req : Req → option string;
  marshal_resp : Resp → option string; unmarshal_resp : string → option Resp;
  column : string → string; column_body : string → option string;
  code_text : Code → string; error_text : rpc_error → string;
  marshal_error : string → string → string; unmarshal_error : string → option (string * string) }.
Class IdemWireLaws {Req Resp} (W : IdemWire Req Resp) : Prop := {
  resp_roundtrip r raw : marshal_resp r = Some raw → raw ≠ "" ∧ unmarshal_resp raw = Some r;
  column_roundtrip body : column_body (column body) = Some body;
  code_text_inj : Inj (=) (=) code_text;
  error_roundtrip c m : marshal_error c m ≠ "" ∧ unmarshal_error (marshal_error c m) = Some (c, m) }.

Section idempotency.
Context {C : Crypto} {Req Resp DB : Type} {W : IdemWire Req Resp}.

Definition connectCode (raw : string) : Code := default CodeUnknown (head (filter (λ c, code_text c = raw) all_codes)).

Definition unwrapIdemBody (stored : string) : string :=
  match column_body stored with Some b => if bool_decide (b = "") then stored else b | None => stored end.

Definition storeIdempotencyDB (t : idem_table) (k : string * string) (digest status body : string) (now : time) : idem_table :=
  if bool_decide (snd k = "") then t else
  match t !! k with
  | Some row => <[k := mkIdemRow digest status (column body) (ir_created row)]> t
  | None => <[k := mkIdemRow digest status (column body) now]> t
  end.

Inductive answer := AOk (r : Resp) | AErr (e : rpc_error).

(** The answer of a stored row. *)
Definition replay (row : idem_row) : answer :=
  let body := unwrapIdemBody (ir_body row) in
  if bool_decide (ir_status row = "error") then
    match unmarshal_error body with
    | Some (c, m) => AErr (mkRpcError (connectCode c) m)
    | None => AErr (mkRpcError CodeUnknown "decode")
    end
  else match unmarshal_resp body with Some r => AOk r | None => AErr (mkRpcError CodeUnknown "decode") end.

(** ** A call *)

(** What the transaction comes to: an answer, an error stored with it, or an error that undoes it. *)
Inductive outcome := RunOk (r : Resp) | RunSaved (e : rpc_error) | RunFailed (e : rpc_error).

Inductive phase :=
| PStart
| PConflict (digest : string)
| PTake (digest : string) (created : time)
| PRetake (digest : string)
| PRun (digest : string) (created : time)
| PAbort (created : time) (e : rpc_error) (reported : bool)
| PDone (a : answer).

Record call := mkCall { ic_scope : string; ic_header : string; ic_req : Req; ic_run : DB → DB * outcome; ic_phase : phase }.
Definition set_phase (c : call) (p : phase) : call := mkCall (ic_scope c) (ic_header c) (ic_req c) (ic_run c) p.
Definition call_key (c : call) : string * string := (ic_scope c, trim_space (ic_header c)).

(** The committed transactions: key, digest of the request, outcome. *)
Record idem_world := mkIdemWorld { iw_rows : idem_table; iw_db : DB; iw_log : list ((string * string) * string * outcome) }.

(** How the database answers: well, with an error and no effect, or with an error although the statement took effect. *)
Inductive db_reply := DbOk | DbRefused | DbUnseen.

Definition failed (message : string) : rpc_error := mkRpcError CodeUnknown message.
Definition in_flight : answer := AErr (mkRpcError CodeAborted "idempotency key in flight").

(** The transaction: it changes the tables and the row together. [None]: the answer cannot be encoded. *)
Definition commit_run (w : idem_world) (k : string * string) (digest : string) (run : DB → DB * outcome) (now : time) : option idem_world * outcome :=
  let '(db, out) := run (iw_db w) in
  let committed status body :=
    mkIdemWorld (storeIdempotencyDB (iw_rows w) k digest status body now) db (iw_log w ++ [(k, digest, out)]) in
  match out with
  | RunOk r => (committed "ok" <$> marshal_resp r, out)
  | RunSaved e => (Some (committed "error" (marshal_error (code_text (re_code e)) (error_text e))), out)
  | RunFailed e => (None, out)
  end.

Definition with_rows (w : idem_world) (t : idem_table) : idem_world := mkIdemWorld t (iw_db w) (iw_log w).

(** One statement: the state and the phase after it. *)
Definition statement (reply : db_reply) (w w' : idem_world) (p : phase) (message : string) : idem_world * phase :=
  match reply with
  | DbOk => (w', p)
  | DbRefused => (w, PDone (AErr (failed message)))
  | DbUnseen => (w', PDone (AErr (failed message)))
  end.

(** [beginIdempotentProto], and the reservation of the key. *)
Definition begin_call (w : idem_world) (c : call) (now : time) (reply : db_reply) : idem_world * phase :=
  match requireIdempotencyKey (ic_header c), marshal_req (ic_req c) with
  | Err e, _ => (w, PDone (AErr (mkRpcError CodeInvalidArgument e)))
  | Ok _, None => (w, PDone (AErr (failed "marshal")))
  | Ok key, Some raw =>
      let digest := requestDigest (ic_scope c) raw key in
      let '(t, inserted) := insert_pending (iw_rows w) (call_key c) digest now in
      statement reply w (with_rows w t) (if inserted then PRun digest now else PConflict digest) "insert"
  end.

(** [reserveIdempotency] when the key is taken. *)
Definition reserve_conflict (w : idem_world) (c : call) (digest : string) (now : time) (reply : db_reply) : idem_world * phase :=
  match loadIdempotencyRow (iw_rows w) (call_key c) digest with
  | Err e => statement reply w w (PDone (AErr (mkRpcError CodeFailedPrecondition e))) "select"
  | Ok None => statement reply w w (PDone in_flight) "select"
  | Ok (Some row) =>
      statement reply w w
        (if bool_decide (ir_status row = "pending") || bool_decide (ir_status row = "") then
           if IdempotencyPendingTTL <? time_sub now (ir_created row) then PTake digest (ir_created row) else PDone in_flight
         else PDone (replay row)) "select"
  end.

(** [takeoverExpiredPending]: its two statements. *)
Definition takeover_delete (w : idem_world) (c : call) (digest : string) (created : time) (reply : db_reply) : idem_world * phase :=
  let '(t, deleted) := delete_expired (iw_rows w) (call_key c) created in
  statement reply w (with_rows w t) (if deleted then PRetake digest else PDone in_flight) "delete".
Definition takeover_insert (w : idem_world) (c : call) (digest : string) (now : time) (reply : db_reply) : idem_world * phase :=
  let '(t, inserted) := insert_pending (iw_rows w) (call_key c) digest now in
  statement reply w (with_rows w t) (if inserted then PRun digest now else PDone in_flight) "insert".

(** The transaction of [idempotentProto]. *)
Definition run_call (w : idem_world) (c : call) (digest : string) (created now : time) (reply : db_reply) : idem_world * phase :=
  match commit_run w (call_key c) digest (ic_run c) now, reply with
  | (_, RunFailed e), _ => (w, PAbort created e true)
  | (None, _), _ => (w, PAbort created (failed "marshal") false)
  | (Some w', RunOk r), DbOk => (w', PDone (AOk r))
  | (Some w', RunSaved e), DbOk => (w', PDone (AErr e))
  | (Some w', _), DbUnseen => (w', PAbort created (failed "commit") false)
  | (Some _, _), DbRefused => (w, PAbort created (failed "commit") false)
  end.

(** After a failure the reservation is deleted; an error of that is reported only when the transaction itself had failed. *)
Definition abort_call (w : idem_world) (c : call) (e : rpc_error) (reported : bool) (reply : db_reply) : idem_world * phase :=
  match statement reply w (with_rows w (abortIdempotency (iw_rows w) (call_key c))) (PDone (AErr e)) "delete" with
  | (w', p) => (w', if reported then p else PDone (AErr e))
  end.

(** The statements of [idempotentProto], one at a time. *)
Definition advance (w : idem_world) (c : call) (now : time) (reply : db_reply) : idem_world * phase :=
  match ic_phase c with
  | PStart => begin_call w c now reply
  | PConflict digest => reserve_conflict w c digest now reply
  | PTake digest created => takeover_delete w c digest created reply
  | PRetake digest => takeover_insert w c digest now reply
  | PRun digest created => run_call w c digest created now reply
  | PAbort created e reported => abort_call w c e reported reply
  | PDone a => (w, PDone a)
  end.

(** ** Calls in any order *)

Record idem_sys := mkIdemSys { is_world : idem_world; is_calls : gmap nat call; is_clock : time }.

(** A call that holds a row still works on it within the row's time to live. *)
Definition timely (c : call) (now : time) : Prop :=
  match ic_phase c with PRun _ created | PAbort created _ _ => now ≤ created + IdempotencyPendingTTL | _ => True end.

Inductive idem_step (s : idem_sys) : idem_sys → Prop :=
| idem_new i c : is_calls s !! i = None → ic_phase c = PStart → idem_step s (mkIdemSys (is_world s) (<[i := c]> (is_calls s)) (is_clock s))
| idem_advance i c now reply :
    is_calls s !! i = Some c → is_clock s ≤ now → timely c now →
    idem_step s (mkIdemSys (advance (is_world s) c now reply).1 (<[i := set_phase c (advance (is_world s) c now reply).2]> (is_calls s)) now)
| idem_others db : idem_step s (mkIdemSys (mkIdemWorld (iw_rows (is_world s)) db (iw_log (is_world s))) (is_calls s) (is_clock s)).

Definition idem_init (db : DB) (now : time) : idem_sys := mkIdemSys (mkIdemWorld ∅ db []) ∅ now.

(** The row a committed transaction leaves. *)
Definition logged_row (row : idem_row) (digest : string) (out : outcome) : Prop :=
  ir_digest row = digest ∧
  match out with
  | RunOk r => ir_status row = "ok" ∧ ∃ raw, marshal_resp r = Some raw ∧ ir_body row = column raw
  | RunSaved e => ir_status row = "error" ∧ ir_body row = column (marshal_error (code_text (re_code e)) (error_text e))
  | RunFailed _ => False
  end.

(** The request a call was made for. *)
Definition call_digest (c : call) (digest : string) : Prop :=
  ∃ key raw, requireIdempotencyKey (ic_header c) = Ok key ∧ marshal_req (ic_req c) = Some raw ∧ digest = requestDigest (ic_scope c) raw key.

(** Committed transactions and rows correspond. *)
Record table_ok (w : idem_world) : Prop := {
  log_once : NoDup ((iw_log w).*1.*1);
  log_rows k d out : (k, d, out) ∈ iw_log w → ∃ row, iw_rows w !! k = Some row ∧ logged_row row d out;
  rows_log k row : iw_rows w !! k = Some row → ir_status row = "pending" ∨ ∃ d out, (k, d, out) ∈ iw_log w }.

Definition call_ok (w : idem_world) (now : time) (c : call) : Prop :=
  match ic_phase c with
  | PConflict d | PRetake d => call_digest c d
  | PTake d created => call_digest c d ∧ created + IdempotencyPendingTTL < now
  | PRun d created => call_digest c d ∧ (now ≤ created + IdempotencyPendingTTL → iw_rows w !! call_key c = Some (pending d created))
  | PAbort created _ _ => now ≤ created + IdempotencyPendingTTL → ∃ row, iw_rows w !! call_key c = Some row ∧ ir_created row = created
  | PDone (AOk r) => ∃ d, call_digest c d ∧ (call_key c, d, RunOk r) ∈ iw_log w
  | _ => True
  end.

Definition holding (c : call) (now : time) : Prop :=
  match ic_phase c with PRun _ created | PAbort created _ _ => now ≤ created + IdempotencyPendingTTL | _ => False end.

Record sys_ok (s : idem_sys) : Prop := {
  so_table : table_ok (is_world s);
  so_calls i c : is_calls s !! i = Some c → call_ok (is_world s) (is_clock s) c;
  so_alone i j ci cj : is_calls s !! i = Some ci → is_calls s !! j = Some cj → call_key ci = call_key cj →
    holding ci (is_clock s) → holding cj (is_clock s) → i = j }.

(** What a step of a call promises to itself and to the others. *)
Record good (w : idem_world) (c : call) (now : time) (w' : idem_world) (p : phase) : Prop := {
  gd_table : table_ok w';
  gd_call : call_ok w' now (set_phase c p);
  gd_log : ∃ l, iw_log w' = iw_log w ++ l;
  gd_keys k : k ≠ call_key c → iw_rows w' !! k = iw_rows w !! k;
  gd_others row : ¬ holding c now → iw_rows w !! call_key c = Some row → now ≤ ir_created row + IdempotencyPendingTTL → iw_rows w' !! call_key c = Some row;
  gd_fresh : holding (set_phase c p) now → holding c now ∨ iw_rows w !! call_key c = None }.

Lemma good_end w c now e : table_ok w → good w c now w (PDone (AErr e)).
Proof. intros Ht. split; [done|done| |done|done|done]. exists []. by rewrite app_nil_r. Qed.

Lemma good_seen w c now w' p e : good w c now w' p → good w c now w' (PDone (AErr e)).
Proof. intros [????? ?]. by split. Qed.

Lemma good_statement w c now reply w' p message :
  table_ok w → good w c now w' p → good w c now (statement reply w w' p message).1 (statement reply w w' p message).2.
Proof. intros Ht Hg. destruct reply; simpl; [done|by apply good_end|by eapply good_seen]. Qed.

Lemma key_of_call c d : call_digest c d → (call_key c).2 ≠ "".
Proof.
  intros (key & raw & Hk & _). unfold requireIdempotencyKey in Hk. unfold call_key. simpl. intros E. rewrite E in Hk. done.
Qed.

(** A pending row is inserted where there was none. *)
Lemma table_insert_pending w k d now : table_ok w → iw_rows w !! k = None → table_ok (with_rows w (<[k := pending d now]> (iw_rows w))).
Proof.
  intros [Hn Hl Hr] Hk. split; simpl; [done| |].
  - intros k' d' out Hin. destruct (Hl _ _ _ Hin) as (row & Hrow & Hlog). exists row. split; [|done]. rewrite lookup_insert_ne; [done|]. intros ->. congruence.
  - intros k' row. destruct (decide (k = k')) as [<-|Hne]; [rewrite lookup_insert_eq; intros [= <-]; by left|]. rewrite lookup_insert_ne by done. apply Hr.
Qed.

(** A pending row is deleted. *)
Lemma table_delete_pending w k row : table_ok w → iw_rows w !! k = Some row → ir_status row = "pending" → table_ok (with_rows w (delete k (iw_rows w))).
Proof.
  intros [Hn Hl Hr] Hk Hp. split; simpl; [done| |].
  - intros k' d' out Hin. destruct (Hl _ _ _ Hin) as (row' & Hrow & Hlog). exists row'. split; [|done]. rewrite lookup_delete_ne; [done|]. intros ->.
    rewrite Hk in Hrow. injection Hrow as <-. destruct Hlog as [_ Hlog]. rewrite Hp in Hlog. destruct out as [r|e|e]; [by destruct Hlog|by destruct Hlog|done].
  - intros k' row' [_ H]%lookup_delete_Some. by apply Hr.
Qed.

Lemma reserve_good w c now d p :
  table_ok w → call_digest c d → (∀ w' n, call_ok w' n (set_phase c p)) → (∀ n, ¬ holding (set_phase c p) n) → ¬ holding c now →
  let t := insert_pending (iw_rows w) (call_key c) d now in
  good w c now (with_rows w t.1) (if t.2 then PRun d now else p).
Proof.
  intros Ht Hd Hp Hnp Hnc. unfold insert_pending. destruct (iw_rows w !! call_key c) as [row|] eqn:Hk; simpl.
  - split; simpl; [by destruct w|apply Hp|exists []; by rewrite app_nil_r|done|intros row' _; by rewrite Hk|]. intros H. by destruct (Hnp _ H).
  - split; simpl; [by apply table_insert_pending| |exists []; by rewrite app_nil_r|intros k Hk'; by apply lookup_insert_ne|intros row' _; by rewrite Hk|by right].
    split; [exact Hd|]. intros _. apply lookup_insert_eq.
Qed.

Lemma table_commit w k d created db out status body now :
  table_ok w → iw_rows w !! k = Some (pending d created) → k.2 ≠ "" → logged_row (mkIdemRow d status (column body) created) d out →
  let t := storeIdempotencyDB (iw_rows w) k d status body now in
  table_ok (mkIdemWorld t db (iw_log w ++ [(k, d, out)])) ∧ t !! k = Some (mkIdemRow d status (column body) created) ∧
  ∀ k', k' ≠ k → t !! k' = iw_rows w !! k'.
Proof.
  intros [Hn Hl Hr] Hk Hne Hlog. unfold storeIdempotencyDB. rewrite bool_decide_eq_false_2, Hk by done. simpl.
  assert (k ∉ (iw_log w).*1.*1) as Hnew.
  { intros Hin. apply list_elem_of_fmap in Hin as ([k1 d1] & -> & Hin). apply list_elem_of_fmap in Hin as ([[k2 d2] out2] & E & Hin). simpl in *. injection E as -> ->.
    destruct (Hl _ _ _ Hin) as (row & Hrow & _ & Hst). rewrite Hk in Hrow. injection Hrow as <-. simpl in Hst. destruct out2; naive_solver. }
  split_and!; [|apply lookup_insert_eq|intros k' Hk'; by apply lookup_insert_ne]. split; simpl.
  - rewrite !fmap_app. simpl. apply NoDup_app. split; [done|]. split; [|apply NoDup_singleton]. intros x Hx Hx'%list_elem_of_singleton. by subst.
  - intros k' d' out' [Hin|E%list_elem_of_singleton]%elem_of_app.
    + destruct (Hl _ _ _ Hin) as (row & Hrow & Hlog'). exists row. split; [|done]. rewrite lookup_insert_ne; [done|]. intros <-. apply Hnew.
      apply list_elem_of_fmap. exists (k, d'). split; [done|]. apply list_elem_of_fmap. by exists (k, d', out').
    + injection E as -> -> ->. rewrite lookup_insert_eq. by eexists.
  - intros k' row. destruct (decide (k = k')) as [<-|Hne']; [rewrite lookup_insert_eq|rewrite lookup_insert_ne by done].
    + intros [= <-]. right. exists d, out. apply elem_of_app. right. by apply list_elem_of_singleton.
    + intros [?|(d' & out' & H)]%Hr; [by left|right]. exists d', out'. apply elem_of_app. by left.
Qed.

(** What a committed transaction means for the call that made it, whatever the call has seen of it. *)
Lemma commit_good w c now d created w' out :
  table_ok w → ic_phase c = PRun d created → call_ok w now c → holding c now → commit_run w (call_key c) d (ic_run c) now = (Some w', out) →
  (∀ e reported, good w c now w' (PAbort created e reported)) ∧
  match out with RunOk r => good w c now w' (PDone (AOk r)) | RunSaved e => good w c now w' (PDone (AErr e)) | RunFailed _ => False end.
Proof.
  intros Ht Hp Hc Hh Hrun. unfold call_ok in Hc. rewrite Hp in Hc. unfold holding in Hh. rewrite Hp in Hh. destruct Hc as [Hd Hrow]. specialize (Hrow Hh).
  pose proof (key_of_call _ _ Hd) as Hkey. unfold commit_run in Hrun. destruct (ic_run c (iw_db w)) as [db out'].
  assert (∀ status body, logged_row (mkIdemRow d status (column body) created) d out →
    w' = mkIdemWorld (storeIdempotencyDB (iw_rows w) (call_key c) d status body now) db (iw_log w ++ [(call_key c, d, out)]) →
    ∀ p, (match p with PAbort cr _ _ => cr = created | PDone (AErr _) => True | PDone (AOk r) => out = RunOk r | _ => False end) → good w c now w' p) as Hgood.
  { intros status body Hlog -> p Hcase. destruct (table_commit w (call_key c) d created db out status body now Ht Hrow Hkey Hlog) as (Ht' & Hk' & Hoth). split; simpl.
    - done.
    - destruct p as [| | | | |cr e rep|[r|e]]; try done.
      + intros _. subst cr. by eexists.
      + exists d. split; [exact Hd|]. subst out. apply elem_of_app. right. by apply list_elem_of_singleton.
    - by eexists.
    - done.
    - intros row Hnh. destruct Hnh. unfold holding. by rewrite Hp.
    - intros _. left. unfold holding. by rewrite Hp. }
  destruct out' as [r|e|e].
  - destruct (marshal_resp r) as [raw|] eqn:Em; [|done]. injection Hrun as <- <-.
    assert (logged_row (mkIdemRow d "ok" (column raw) created) d (RunOk r)) as Hlog by (split; [done|]; split; [done|]; by eexists).
    split; [intros e reported|]; by apply (Hgood _ _ Hlog eq_refl).
  - injection Hrun as <- <-. assert (logged_row (mkIdemRow d "error" (column (marshal_error (code_text (re_code e)) (error_text e))) created) d (RunSaved e)) as Hlog by done.
    split; [intros e' reported|]; by apply (Hgood _ _ Hlog eq_refl).
  - done.
Qed.

Lemma filter_one (c : Code) : ∀ (l : list Code) (P : Code → Prop) `{∀ x, Decision (P x)}, c ∈ l → P c → (∀ x, P x → x = c) → head (filter P l) = Some c.
Proof.
  induction l as [|x l IH]; intros P HP Hin Hc Hu; [by apply not_elem_of_nil in Hin|]. rewrite filter_cons. destruct (decide (P x)) as [Hx|Hx].
  - simpl. f_equal. by apply Hu.
  - apply elem_of_cons in Hin as [->|Hin]; [done|]. by apply IH.
Qed.

(** The names of codes are read back. *)
Lemma connectCode_text `{!IdemWireLaws W} c : connectCode (code_text c) = c.
Proof.
  unfold connectCode. rewrite (filter_one c all_codes); [done|by destruct c; set_solver|done|]. intros x Hx. exact (code_text_inj (W := W) x c Hx).
Qed.

(** A stored answer is given again; of a stored error the code and the text that the error prints. *)
Lemma replay_logged `{!IdemWireLaws W} row d out :
  logged_row row d out →
  match out with RunOk r => replay row = AOk r | RunSaved e => replay row = AErr (mkRpcError (re_code e) (error_text e)) | RunFailed _ => False end.
Proof.
  intros [_ H]. unfold replay, unwrapIdemBody. destruct out as [r|e|e]; [| |done].
  - destruct H as [-> (raw & Em & ->)]. destruct (resp_roundtrip _ _ Em) as [Hne Hu]. rewrite column_roundtrip, !bool_decide_eq_false_2 by done. simpl. by rewrite Hu.
  - destruct H as [-> ->]. rewrite column_roundtrip. destruct (error_roundtrip (code_text (re_code e)) (error_text e)) as [Hne Hu].
    rewrite (bool_decide_eq_false_2 (marshal_error _ _ = _)) by done. simpl. by rewrite Hu, connectCode_text.
Qed.

Lemma hit_good `{!IdemWireLaws W} w c now d row :
  table_ok w → ic_phase c = PConflict d → call_digest c d → iw_rows w !! call_key c = Some row → ir_digest row = d → ir_status row ≠ "pending" →
  good w c now w (PDone (replay row)).
Proof.
  intros Ht Hp Hd Hk Hdig Hst. destruct (replay row) as [r|e] eqn:Er; [|by apply good_end]. pose proof Ht as [Hn Hl Hr].
  destruct (Hr _ _ Hk) as [?|(d' & out & Hin)]; [done|]. destruct (Hl _ _ _ Hin) as (row' & Hrow & Hlog). rewrite Hk in Hrow. injection Hrow as <-.
  pose proof (replay_logged _ _ _ Hlog) as Hrep. destruct Hlog as [Hd' _].
  split; [done| |exists []; by rewrite app_nil_r|done|done|done]. exists d. split; [exact Hd|]. change (call_key (set_phase c (PDone (AOk r)))) with (call_key c).
  destruct out as [r'|e'|e']; [|congruence|done]. assert (r' = r) as -> by congruence. by rewrite <- Hdig, Hd'.
Qed.

Lemma take_good w c now d created :
  table_ok w → ic_phase c = PTake d created → call_ok w now c →
  let t := delete_expired (iw_rows w) (call_key c) created in
  good w c now (with_rows w t.1) (if t.2 then PRetake d else PDone in_flight).
Proof.
  intros Ht Hp Hc. unfold call_ok in Hc. rewrite Hp in Hc. destruct Hc as [Hd Hexp]. unfold delete_expired.
  assert (good w c now (with_rows w (iw_rows w)) (PDone in_flight)) as Hstay by (destruct w; by apply good_end).
  destruct (iw_rows w !! call_key c) as [row|] eqn:Hk; [|exact Hstay]. destruct (bool_decide _ && _) eqn:Eb; [|exact Hstay].
  apply andb_true_iff in Eb as [Hst%bool_decide_eq_true Hcr%Z.eqb_eq]. simpl. split; simpl.
  - by apply (table_delete_pending _ _ row).
  - exact Hd.
  - exists []. by rewrite app_nil_r.
  - intros k Hne. by apply lookup_delete_ne.
  - intros row' _ Hrow' Hlive. rewrite Hk in Hrow'. injection Hrow' as <-. lia.
  - done.
Qed.

Lemma abort_good w c now created e reported :
  table_ok w → ic_phase c = PAbort created e reported → timely c now → good w c now (with_rows w (abortIdempotency (iw_rows w) (call_key c))) (PDone (AErr e)).
Proof.
  intros Ht Hp Htime. assert (holding c now) as Hh by (unfold holding, timely in *; by rewrite Hp in *). unfold abortIdempotency.
  assert (good w c now (with_rows w (iw_rows w)) (PDone (AErr e))) as Hstay by (destruct w; by apply good_end).
  destruct (iw_rows w !! call_key c) as [row|] eqn:Hk; [|exact Hstay]. destruct (_ && _) eqn:Eb; [|exact Hstay].
  apply andb_true_iff in Eb as [_ Hst%bool_decide_eq_true]. split; simpl.
  - by apply (table_delete_pending _ _ row).
  - done.
  - exists []. by rewrite app_nil_r.
  - intros k Hne. by apply lookup_delete_ne.
  - done.
  - by left.
Qed.

Lemma undone_good w c now d created e reported :
  table_ok w → ic_phase c = PRun d created → call_ok w now c → timely c now → good w c now w (PAbort created e reported).
Proof.
  intros Ht Hp Hc Htime. assert (holding c now) as Hh by (unfold holding, timely in *; by rewrite Hp in *). unfold call_ok in Hc. rewrite Hp in Hc. destruct Hc as [Hd Hrow].
  split; [done| |exists []; by rewrite app_nil_r|done|done|by left]. intros Hlive. exists (pending d created). split; [by apply Hrow|done].
Qed.

Lemma advance_good `{!IdemWireLaws W} w c now reply :
  table_ok w → call_ok w now c → timely c now → good w c now (advance w c now reply).1 (advance w c now reply).2.
Proof.
  intros Ht Hc Htime. destruct (ic_phase c) as [|d|d created|d|d created|created e reported|a] eqn:Hp; unfold advance; rewrite Hp; unfold begin_call, reserve_conflict, takeover_delete, takeover_insert, run_call, abort_call;
    try (assert (¬ holding c now) as Hnh by (intros Hh; unfold holding in Hh; rewrite Hp in Hh; exact Hh)).
  - destruct (requireIdempotencyKey (ic_header c)) as [key|] eqn:Hk; [|by apply good_end]. destruct (marshal_req (ic_req c)) as [raw|] eqn:Hm; [|by apply good_end].
    assert (call_digest c (requestDigest (ic_scope c) raw key)) as Hd by by exists key, raw.
    destruct (insert_pending _ _ _ _) as [t inserted] eqn:Ei. apply good_statement; [done|].
    pose proof (reserve_good w c now _ (PConflict (requestDigest (ic_scope c) raw key)) Ht Hd (λ _ _, Hd) (λ _ H, H) Hnh) as Hg. by rewrite Ei in Hg.
  - unfold call_ok in Hc. rewrite Hp in Hc. unfold loadIdempotencyRow. destruct (iw_rows w !! call_key c) as [row|] eqn:Hk; [|apply good_statement; [done|by apply good_end]].
    case_bool_decide as Hdig; simpl; (apply good_statement; [done|]); [|by apply good_end].
    destruct (bool_decide (ir_status row = "pending") || _) eqn:Es.
    + destruct (Z.ltb_spec IdempotencyPendingTTL (time_sub now (ir_created row))) as [Hlt|]; [|by apply good_end].
      apply time_sub_gt in Hlt; [|unfold IdempotencyPendingTTL, max_duration, Second; lia].
      split; [done| |exists []; by rewrite app_nil_r|done|done|done]. split; [exact Hc|simpl; lia].
    + apply orb_false_iff in Es as [Es%bool_decide_eq_false _]. by apply (hit_good w c now d row).
  - destruct (delete_expired _ _ _) as [t deleted] eqn:Ed. apply good_statement; [done|]. pose proof (take_good w c now d created Ht Hp Hc) as Hg. by rewrite Ed in Hg.
  - unfold call_ok in Hc. rewrite Hp in Hc. destruct (insert_pending _ _ _ _) as [t inserted] eqn:Ei. apply good_statement; [done|].
    pose proof (reserve_good w c now d (PDone in_flight) Ht Hc (λ _ _, I) (λ _ H, H) Hnh) as Hg. by rewrite Ei in Hg.
  - assert (holding c now) as Hh by (unfold holding, timely in *; by rewrite Hp in *). destruct (commit_run _ _ _ _ _) as [[w'|] out] eqn:Er.
    + destruct (commit_good w c now d created w' out Ht Hp Hc Hh Er) as [Ha Hdone].
      destruct out as [r|e|e]; [| |done]; destruct reply; simpl; first [exact Hdone|apply Ha|by eapply undone_good].
    + destruct out as [r|e|e]; simpl; by eapply undone_good.
  - pose proof (abort_good w c now created e reported Ht Hp Htime) as Hg. destruct reply, reported; simpl; first [exact Hg|by apply good_end|by eapply good_seen].
  - destruct a; [|by apply good_end]. split; [done| |exists []; by rewrite app_nil_r|done|done|done]. unfold call_ok in *. simpl. by rewrite Hp in Hc.
Qed.

(** A call that takes no step: its row, if it still holds it, is as it was. *)
Lemma call_ok_other w w' now now' c :
  now ≤ now' → (∃ l, iw_log w' = iw_log w ++ l) → (∀ row, holding c now' → iw_rows w !! call_key c = Some row → iw_rows w' !! call_key c = Some row) →
  call_ok w now c → call_ok w' now' c.
Proof.
  intros Hn [l El] Hrow. unfold call_ok, holding in *. destruct (ic_phase c) as [|d|d created|d|d created|created e reported|[r|e]]; try done.
  - intros [Hd Hlt]. split; [done|lia].
  - intros [Hd H]. split; [done|]. intros Hlive. apply Hrow; [done|]. apply H. lia.
  - intros H Hlive. destruct H as (row & Hk & Hcr); [lia|]. exists row. split; [|done]. by apply Hrow.
  - intros (d & Hd & Hin). exists d. split; [done|]. rewrite El. apply elem_of_app. by left.
Qed.

Lemma call_ok_row w now c : call_ok w now c → holding c now → ∃ row, iw_rows w !! call_key c = Some row ∧ now ≤ ir_created row + IdempotencyPendingTTL.
Proof.
  unfold call_ok, holding. destruct (ic_phase c) as [| | | |d created|created e reported|]; try done.
  - intros [_ H] Hlive. exists (pending d created). split; [by apply H|done].
  - intros H Hlive. destruct (H Hlive) as (row & Hk & Hcr). exists row. split; [done|]. by rewrite Hcr.
Qed.

Lemma holding_before c now now' : now ≤ now' → holding c now' → holding c now.
Proof. intros Hn. unfold holding. destruct (ic_phase c); try done; lia. Qed.

Lemma step_advance_ok `{!IdemWireLaws W} s i c now reply :
  sys_ok s → is_calls s !! i = Some c → is_clock s ≤ now → timely c now →
  sys_ok (mkIdemSys (advance (is_world s) c now reply).1 (<[i := set_phase c (advance (is_world s) c now reply).2]> (is_calls s)) now).
Proof.
  intros [Ht Hc Ha] Hi Hclock Htime.
  assert (call_ok (is_world s) now c) as Hcnow by (apply (call_ok_other (is_world s) _ (is_clock s)); [done|exists []; by rewrite app_nil_r|done|by eapply Hc]).
  destruct (advance_good (is_world s) c now reply Ht Hcnow Htime) as [G1 G2 G3 G4 G5 G6].
  assert (∀ j cj, is_calls s !! j = Some cj → i ≠ j → holding cj now → call_key cj = call_key c → ¬ holding c now) as Halone.
  { intros j cj Hj Hij Hh Ek Hh'. apply Hij. eapply Ha; [exact Hi|exact Hj|by symmetry|by eapply holding_before|by eapply holding_before]. }
  split; simpl; [done| |].
  - intros j cj. destruct (decide (i = j)) as [<-|Hij]; [rewrite lookup_insert_eq; by intros [= <-]|rewrite lookup_insert_ne by done]. intros Hj.
    apply (call_ok_other (is_world s) _ (is_clock s)); [done|done| |by eapply Hc]. intros row Hh Hrow.
    destruct (decide (call_key cj = call_key c)) as [Ek|Hne]; [|by rewrite G4]. rewrite Ek in *. apply G5; [by eapply Halone|done|].
    assert (call_ok (is_world s) now cj) as Hcj by (apply (call_ok_other (is_world s) _ (is_clock s)); [done|exists []; by rewrite app_nil_r|done|by eapply Hc]).
    destruct (call_ok_row _ _ _ Hcj Hh) as (row' & Hrow' & Hlive). rewrite Ek, Hrow in Hrow'. by injection Hrow' as <-.
  - assert (∀ j cj, is_calls s !! j = Some cj → i ≠ j → holding cj now → call_key cj = call_key c →
      ¬ holding (set_phase c (advance (is_world s) c now reply).2) now) as Hnew.
    { intros j cj Hj Hij Hh Ek Hh'. destruct (G6 Hh') as [Hc'|Hnone]; [by eapply Halone|].
      assert (call_ok (is_world s) now cj) as Hcj by (apply (call_ok_other (is_world s) _ (is_clock s)); [done|exists []; by rewrite app_nil_r|done|by eapply Hc]).
      destruct (call_ok_row _ _ _ Hcj Hh) as (row & Hrow & _). rewrite Ek in Hrow. congruence. }
    intros j k cj ck. destruct (decide (i = j)) as [<-|Hij]; destruct (decide (i = k)) as [<-|Hik]; [done| | |].
    + rewrite lookup_insert_eq, lookup_insert_ne by done. intros [= <-] Hk Ek Hh Hh'. exfalso. by eapply (Hnew k ck).
    + rewrite lookup_insert_eq, lookup_insert_ne by done. intros Hj [= <-] Ek Hh Hh'. exfalso. by eapply (Hnew j cj).
    + rewrite !lookup_insert_ne by done. intros Hj Hk Ek Hh Hh'. eapply Ha; [exact Hj|exact Hk|done|by eapply holding_before|by eapply holding_before].
Qed.

Lemma step_ok `{!IdemWireLaws W} s s' : idem_step s s' → sys_ok s → sys_ok s'.
Proof.
  intros Hstep Hok. pose proof Hok as [Ht Hc Ha]. destruct Hstep as [i c Hi Hp|i c now reply Hi Hclock Htime|db]; [|by apply step_advance_ok|].
  - split; simpl; [done| |].
    + intros j cj. destruct (decide (i = j)) as [<-|Hne]; [rewrite lookup_insert_eq; intros [= <-]|rewrite lookup_insert_ne by done; apply Hc]. unfold call_ok. by rewrite Hp.
    + assert (¬ holding c (is_clock s)) as Hnh by (intros Hh; unfold holding in Hh; rewrite Hp in Hh; exact Hh).
      intros j k cj ck. destruct (decide (i = j)) as [<-|Hne]; [rewrite lookup_insert_eq; intros [= <-]; intros; done|rewrite lookup_insert_ne by done].
      destruct (decide (i = k)) as [<-|Hne']; [rewrite lookup_insert_eq; intros ? [= <-]; intros; done|rewrite lookup_insert_ne by done]. apply Ha.
  - destruct Ht as [Hn Hl Hr]. split; simpl; [by split| |done]. intros i c Hi. apply (call_ok_other (is_world s) _ (is_clock s)); [done| |done|by eapply Hc].
    simpl. exists []. by rewrite app_nil_r.
Qed.

Lemma reachable_ok `{!IdemWireLaws W} db now s : rtc idem_step (idem_init db now) s → sys_ok s.
Proof.
  intros Hr. assert (sys_ok (idem_init db now)) as H0.
  { split; simpl; [split; simpl; [constructor|intros k d out Hin; by apply not_elem_of_nil in Hin|intros k row Hk; by rewrite lookup_empty in Hk]| |];
      intros ? ?; rewrite lookup_empty; done. }
  induction Hr; [done|]. eauto using step_ok.
Qed.

(** C16: whatever calls are made, in any interleaving of their statements, with errors of the database, answers that get lost and
    calls that stop half-way, at most one transaction is committed per scope and key, as long as a call does not work on after the
    time to live of its reservation; every success a caller is told is the answer of that transaction, made for the same request; so
    all calls with one key that succeed are told the same. *)
Theorem idempotent_once `{!IdemWireLaws W} db now s :
  rtc idem_step (idem_init db now) s →
  NoDup ((iw_log (is_world s)).*1.*1) ∧
  (∀ i c r, is_calls s !! i = Some c → ic_phase c = PDone (AOk r) → ∃ d, call_digest c d ∧ (call_key c, d, RunOk r) ∈ iw_log (is_world s)) ∧
  ∀ i j ci cj ri rj, is_calls s !! i = Some ci → is_calls s !! j = Some cj → call_key ci = call_key cj →
    ic_phase ci = PDone (AOk ri) → ic_phase cj = PDone (AOk rj) → ri = rj ∧ ∃ d, call_digest ci d ∧ call_digest cj d.
Proof.
  intros [Ht Hc _]%reachable_ok.
  assert (∀ i c r, is_calls s !! i = Some c → ic_phase c = PDone (AOk r) → ∃ d, call_digest c d ∧ (call_key c, d, RunOk r) ∈ iw_log (is_world s)) as Hans.
  { intros i c r Hi Hp. specialize (Hc i c Hi). unfold call_ok in Hc. by rewrite Hp in Hc. }
  split; [apply Ht|]. split; [exact Hans|]. intros i j ci cj ri rj Hi Hj Ek Hpi Hpj.
  destruct (Hans i ci ri Hi Hpi) as (di & Hdi & Hini), (Hans j cj rj Hj Hpj) as (dj & Hdj & Hinj). rewrite Ek in Hini.
  destruct (log_rows _ Ht _ _ _ Hini) as (row & Hrow & Hlog), (log_rows _ Ht _ _ _ Hinj) as (row' & Hrow' & Hlog'). rewrite Hrow in Hrow'. injection Hrow' as <-.
  split; [|exists di; split; [done|]; destruct Hlog as [<- _], Hlog' as [<- _]; done]. apply replay_logged in Hlog, Hlog'. congruence.
Qed.

(** An error that was stored is not given again as it was: its first caller gets the error, a later call with the same key
    and request gets an error with the same code whose message is the whole text of the first, code included. *)
Theorem saved_error_reworded `{!IdemWireLaws W} w c key raw e db now1 now2 now3 now4 :
  ic_phase c = PStart → requireIdempotencyKey (ic_header c) = Ok key → marshal_req (ic_req c) = Some raw → iw_rows w !! call_key c = None →
  ic_run c (iw_db w) = (db, RunSaved e) →
  let r1 := advance w c now1 DbOk in
  let r2 := advance r1.1 (set_phase c r1.2) now2 DbOk in
  let r3 := advance r2.1 c now3 DbOk in
  let r4 := advance r3.1 (set_phase c r3.2) now4 DbOk in
  r2.2 = PDone (AErr e) ∧ r4.2 = PDone (AErr (mkRpcError (re_code e) (error_text e))) ∧ r4.1 = r2.1.
Proof.
  intros Hp Hkey Hraw Hnone Hrun. set (d := requestDigest (ic_scope c) raw key).
  assert (trim_space (ic_header c) ≠ "") as Hne.
  { unfold requireIdempotencyKey in Hkey. intros E. by rewrite E in Hkey. }
  set (row := mkIdemRow d "error" (column (marshal_error (code_text (re_code e)) (error_text e))) now1).
  set (w2 := mkIdemWorld (<[call_key c := row]> (<[call_key c := pending d now1]> (iw_rows w))) db (iw_log w ++ [(call_key c, d, RunSaved e)])).
  assert (advance w c now1 DbOk = (with_rows w (<[call_key c := pending d now1]> (iw_rows w)), PRun d now1)) as E1.
  { unfold advance. rewrite Hp. unfold begin_call. rewrite Hkey, Hraw. unfold insert_pending. by rewrite Hnone. }
  assert (advance (with_rows w (<[call_key c := pending d now1]> (iw_rows w))) (set_phase c (PRun d now1)) now2 DbOk = (w2, PDone (AErr e))) as E2.
  { unfold advance. cbn [ic_phase set_phase]. unfold run_call. change (call_key (set_phase c (PRun d now1))) with (call_key c). unfold commit_run. simpl. rewrite Hrun. simpl.
    unfold storeIdempotencyDB. rewrite (bool_decide_eq_false_2 ((call_key c).2 = "")) by done. by rewrite lookup_insert_eq. }
  assert (iw_rows w2 !! call_key c = Some row) as Hrow by apply lookup_insert_eq.
  assert (advance w2 c now3 DbOk = (w2, PConflict d)) as E3.
  { unfold advance. rewrite Hp. unfold begin_call. rewrite Hkey, Hraw. unfold insert_pending. by rewrite Hrow. }
  assert (advance w2 (set_phase c (PConflict d)) now4 DbOk = (w2, PDone (replay row))) as E4.
  { unfold advance. cbn [ic_phase set_phase]. unfold reserve_conflict. change (call_key (set_phase c (PConflict d))) with (call_key c). unfold loadIdempotencyRow. rewrite Hrow.
    by rewrite (bool_decide_eq_true_2 (ir_digest row = d)). }
  rewrite E1. cbn [fst snd]. rewrite E2. cbn [fst snd]. rewrite E3. cbn [fst snd]. rewrite E4. cbn [fst snd].
  split_and!; [done| |done]. do 2 f_equal. exact (replay_logged row d (RunSaved e) (conj eq_refl (conj eq_refl eq_refl))).
Qed.
End idempotency.

(** ** Concrete runs *)
Module IdemDemo.
(** Texts for requests and answers; a counter for the tables. *)
Definition code_names (c : Code) : string := str_take (default 0%nat (fst <$> list_find (λ x, x = c) all_codes)) "abcdefghijklmnop".
Definition split_first (s : string) : option (string * string) := let '(a, b, ok) := cut_byte "&"%char s in if ok then Some (a, b) else None.
Definition wire : IdemWire string string := {|
  marshal_req := Some; marshal_resp r := Some (String "r" r);
  unmarshal_resp s := match s with String _ r => Some r | EmptyString => None end;
  column b := String "{" b; column_body s := match s with String _ b => Some b | EmptyString => None end;
  code_text := code_names; error_text e := code_names (re_code e) +:+ ": " +:+ re_message e;
  marshal_error c m := QueryEscape c +:+ String "&" m;
  unmarshal_error s := match split_first s with Some (c, m) => match QueryUnescape c with Some c => Some (c, m) | None => None end | None => None end |}.
Lemma idem_wire_laws : IdemWireLaws wire.
Proof.
  split; simpl.
  - intros r raw [= <-]. done.
  - done.
  - intros x y. destruct x, y; vm_compute; intros E; first [reflexivity|discriminate E].
  - intros c m. assert (str_mem "&" (QueryEscape c) = false) as Hc by (apply QueryEscape_clean; tauto). split.
    + intros E%(f_equal str_len). rewrite str_len_app, str_len_cons in E. pose proof (str_len_nonneg (QueryEscape c)). pose proof (str_len_nonneg m).
      change (str_len "") with 0 in E. lia.
    + unfold split_first. rewrite cut_byte_app by done. by rewrite unescape_escape.
Qed.

(** The request that counts: the answer tells how often it ran. *)
Definition counts (n : nat) : nat * outcome := (S n, RunOk (str_take (S n) "xxxxxxxx")).
Definition counting : call := mkCall "user.create" "key-1" "alice" counts PStart.
(** The request that is refused, with an error that is stored. *)
Definition refused : call (Resp := string) :=
  mkCall "user.delete" "key-2" "bob" (λ n : nat, (n, RunSaved (mkRpcError CodeFailedPrecondition "last administrator"))) PStart.
Definition go (s : idem_sys (Req := string) (Resp := string) (DB := nat)) (i : nat) (now : time) (reply : db_reply) : idem_sys :=
  match is_calls s !! i with
  | Some c => mkIdemSys (advance (C := toy_crypto) (W := wire) (is_world s) c now reply).1
                (<[i := set_phase c (advance (C := toy_crypto) (W := wire) (is_world s) c now reply).2]> (is_calls s)) now
  | None => s
  end.
Definition arrive (s : idem_sys (Req := string) (Resp := string) (DB := nat)) (i : nat) : idem_sys :=
  mkIdemSys (is_world s) (<[i := counting]> (is_calls s)) (is_clock s).
Definition st0 := arrive (arrive (idem_init 0%nat 0) 0) 1.
Definition st1 := go st0 0 1 DbOk.
Definition st2 := go st1 1 2 DbOk.
Definition st3 := go st2 0 3 DbUnseen.
Definition st4 := go st3 1 4 DbOk.

(** A call that works on after its reservation was taken over runs again. *)
Definition late1 := go st2 1 (200 * Second) DbOk.
Definition late2 := go (go late1 1 (201 * Second) DbOk) 1 (202 * Second) DbOk.
Definition late3 := go (go late2 1 (203 * Second) DbOk) 0 (204 * Second) DbOk.
Lemma late_call_runs_again : length (iw_log (is_world late3)) = 2%nat.
Proof. vm_compute. reflexivity. Qed.
End IdemDemo.

Lemma idempotent_once_witness :
  ic_phase <$> is_calls IdemDemo.st4 !! 1%nat = Some (PDone (AOk "x")) ∧ NoDup ((iw_log (is_world IdemDemo.st4)).*1.*1).
Proof.
  split; [vm_compute; reflexivity|].
  apply (@idempotent_once toy_crypto string string nat IdemDemo.wire IdemDemo.idem_wire_laws 0%nat 0 IdemDemo.st4).
  eapply rtc_l; [apply (idem_new _ 0%nat IdemDemo.counting); vm_compute; reflexivity|].
  eapply rtc_l; [apply (idem_new _ 1%nat IdemDemo.counting); vm_compute; reflexivity|].
  eapply rtc_l; [apply (idem_advance IdemDemo.st0 0%nat IdemDemo.counting 1 DbOk); [vm_compute; reflexivity|vm_compute; discriminate|exact I]|].
  eapply rtc_l; [eapply (idem_advance IdemDemo.st1 1%nat _ 2 DbOk); [vm_compute; reflexivity|vm_compute; discriminate|exact I]|].
  eapply rtc_l; [eapply (idem_advance IdemDemo.st2 0%nat _ 3 DbUnseen); [vm_compute; reflexivity|vm_compute; discriminate|vm_compute; discriminate]|].
  eapply rtc_l; [eapply (idem_advance IdemDemo.st3 1%nat _ 4 DbOk); [vm_compute; reflexivity|vm_compute; discriminate|exact I]|].
  apply rtc_refl.
Defined.

Lemma saved_error_reworded_witness :
  ∃ w p, advance (C := toy_crypto) (W := IdemDemo.wire) w IdemDemo.refused 3 DbOk = p ∧
    (advance (C := toy_crypto) (W := IdemDemo.wire) p.1 (set_phase IdemDemo.refused p.2) 4 DbOk).2 =
      PDone (AErr (mkRpcError CodeFailedPrecondition "abcdefgh: last administrator")).
Proof.
  destruct (@saved_error_reworded toy_crypto string string nat IdemDemo.wire IdemDemo.idem_wire_laws (mkIdemWorld ∅ 0%nat []) IdemDemo.refused "key-2" "bob"
    (mkRpcError CodeFailedPrecondition "last administrator") 0%nat 1 2 3 4) as (_ & H & _).
  - reflexivity.
  - vm_compute. reflexivity.
  - reflexivity.
  - vm_compute. reflexivity.
  - reflexivity.
  - do 2 eexists. split; [reflexivity|]. exact H.
Defined.
