(* ===== verification/Tokens.v ===== *)
(** * Capability tokens

    [lib/kernel/token.go], [claims.go], [lib/brain/dualtoken.go], the authentication of
    [lib/brain/toolgateway.go], the tokens of agents and workers, and the call budgets of
    [lib/brain/budget.go]: an agent calls a tool with two tokens, one that says who it is and one,
    signed, that says what the lease it works under allows.

    The tables are read at one moment; a read that fails is an error and is left out.  The JSON
    form of claims is the parameter class [ClaimsWire].  Times of claims are Unix seconds. *)

From S2P Require Import Prelude GoStrings Contracts Signing AuditChain Canonical Govern RateLimits Accounts.

(** ** Claims *)

Record Claims := mkClaims {
  cl_Issuer : string; cl_Subject : string; cl_AuthorizedParty : string; cl_Role : string; cl_Audience : string; cl_ExpiresAt : Z; cl_NotBefore : Z;
  cl_IssuedAt : Z; cl_TokenID : string; cl_BudgetID : string; cl_LeaseEpoch : Z; cl_Scopes : list string; cl_Tools : list string; cl_MaxCalls : Z;
  cl_Bindings : list string }.

(** No byte sequence outside UTF-8. *)
Definition utf8_text (s : string) : bool := forallb (λ c, negb ((fst c =? 65533) && (str_len (snd c) =? 1))) (rune_chunks s).
Definition claims_texts (c : Claims) : list string :=
  [cl_Issuer c; cl_Subject c; cl_AuthorizedParty c; cl_Role c; cl_Audience c; cl_TokenID c; cl_BudgetID c] ++ cl_Scopes c ++ cl_Tools c ++ cl_Bindings c.

Class ClaimsWire := { marshal_claims : Claims → option string; unmarshal_claims : string → option Claims }.
Class ClaimsWireLaws (W : ClaimsWire) : Prop := {
  claims_roundtrip c raw : forallb utf8_text (claims_texts c) = true → marshal_claims c = Some raw → unmarshal_claims raw = Some c }.

(** [base64.RawURLEncoding] on strings. *)
Definition b64 (s : string) : string := raw_url_encode (byte <$> String.list_ascii_of_string s).
Definition unb64 (s : string) : option string := bs ← raw_url_decode s; Some (String.string_of_list_ascii (of_byte <$> bs)).
Definition unix (t : time) : Z := t / Second.

Definition dquote : ascii := of_byte 34.
Definition quoted (s : string) : string := String dquote (s +:+ String dquote "").
Definition capabilityTokenHeader : string :=
  "{" +:+ quoted "alg" +:+ ":" +:+ quoted "EdDSA" +:+ "," +:+ quoted "typ" +:+ ":" +:+ quoted "JWT" +:+ "}".

Section tokens.
Context {C : Crypto} {W : ClaimsWire}.

(** The claims that are signed: times and issuer that are missing are filled in. *)
Definition complete_claims (c : Claims) (key : string) (now : time) : Claims :=
  mkClaims (if bool_decide (cl_Issuer c = "") then KeyID (ed25519_public key) else cl_Issuer c) (cl_Subject c) (cl_AuthorizedParty c) (cl_Role c)
    (cl_Audience c) (cl_ExpiresAt c) (if cl_NotBefore c =? 0 then unix now else cl_NotBefore c) (if cl_IssuedAt c =? 0 then unix now else cl_IssuedAt c)
    (cl_TokenID c) (cl_BudgetID c) (cl_LeaseEpoch c) (cl_Scopes c) (cl_Tools c) (cl_MaxCalls c) (cl_Bindings c).

Definition SignCapabilityToken (c : Claims) (key : string) (now : time) : result string :=
  guard! str_len key =? PrivateKeySize else "invalid private key length" in
  guard! negb (bool_decide (trim_space (cl_TokenID c) = "")) else "capability token jti is required" in
  guard! negb (cl_ExpiresAt c =? 0) else "capability token exp is required" in
  match marshal_claims (complete_claims c key now) with
  | None => Err "encode capability claims"
  | Some payload =>
      let signingInput := b64 capabilityTokenHeader +:+ String "." (b64 payload) in
      Ok (signingInput +:+ String "." (b64 (ed25519_sign key signingInput)))
  end.

Definition VerifyCapabilityToken (raw pub : string) (now : time) : result Claims :=
  guard! str_len pub =? PublicKeySize else "invalid public key length" in
  match split_byte "."%char raw with
  | [p0; p1; p2] =>
      match unb64 p0 with
      | None => Err "decode token header"
      | Some header =>
          guard! bool_decide (header = capabilityTokenHeader) else "unsupported capability token header" in
          match unb64 p1, unb64 p2 with
          | None, _ => Err "decode token payload"
          | _, None => Err "decode token signature"
          | Some payload, Some sig =>
              guard! ed25519_verify pub (p0 +:+ String "." p1) sig else "capability token signature verification failed" in
              match unmarshal_claims payload with
              | None => Err "decode capability claims"
              | Some claims =>
                  guard! bool_decide (cl_Issuer claims = KeyID pub) else "capability token issuer does not match public key" in
                  guard! negb (unix now <? cl_NotBefore claims) else "capability token is not active yet" in
                  guard! negb (cl_ExpiresAt claims <=? unix now) else "capability token has expired" in
                  guard! negb (bool_decide (trim_space (cl_TokenID claims) = "")) else "capability token jti is empty" in
                  Ok claims
              end
          end
      end
  | _ => Err "capability token must have three segments"
  end.
End tokens.

(** ** Tables *)

Record access_row := mkAccessRow { ar_Holder : string; ar_PubHash : string; ar_CertHash : string; ar_Expires : time }.
Record identity_row := mkIdentityRow { idr_Kind : string; idr_PublicKey : string; idr_Revoked : bool }.
Record instance_row := mkInstanceRow { in_Budget : string; in_Lease : string; in_Epoch : Z; in_Expires : time; in_Revoked : bool }.
Record calls_row := mkCallsRow { cb_Jti : string; cb_Subject : string; cb_Azp : string; cb_Max : Z; cb_Used : Z; cb_Revoked : bool }.

(** A leased instruction of an agent or, with its run and worker, a work item. *)
Record lease_row := mkLeaseRow {
  ls_Work : option (string * string); ls_Budget : string; ls_Epoch : Z; ls_Leased : bool; ls_Until : option time; ls_Token : string }.

Record token_db := mkTokenDb {
  td_agentTokens : gmap string access_row; td_agents : gmap string identity_row; td_workerTokens : gmap string access_row;
  td_workers : gmap string identity_row; td_instances : gmap string instance_row; td_calls : gmap string calls_row; td_leases : list lease_row }.
Definition set_instances (db : token_db) (m : gmap string instance_row) : token_db :=
  mkTokenDb (td_agentTokens db) (td_agents db) (td_workerTokens db) (td_workers db) m (td_calls db) (td_leases db).

Definition budget_of (c : Claims) : string := if bool_decide (cl_BudgetID c = "") then cl_TokenID c else cl_BudgetID c.

(** ** Who calls *)

Inductive WorkerKind := WORKER_KIND_RUN_SUPERVISOR | WORKER_KIND_ANALYSIS_SCORER.
#[global] Instance WorkerKind_eq_dec : EqDecision WorkerKind. Proof. solve_decision. Defined.
Definition parseWorkerKind (raw : string) : option WorkerKind :=
  if bool_decide (raw = "RUN_SUPERVISOR") then Some WORKER_KIND_RUN_SUPERVISOR
  else if bool_decide (raw = "ANALYSIS_SCORER") then Some WORKER_KIND_ANALYSIS_SCORER else None.

(** What the connection says about the client's certificate. *)
Record peer_cert := mkPeerCert { pc_Required : bool; pc_Hash : string }.

Section authentication.
Context {C : Crypto} {W : ClaimsWire} {U : Unicode}.

Definition requireAgentToken (db : token_db) (now : time) (cert : peer_cert) (raw : string) : result string :=
  guard! negb (pc_Required cert && bool_decide (pc_Hash cert = "")) else "agent client certificate is required" in
  match (t ← td_agentTokens db !! hashToken raw; a ← td_agents db !! ar_Holder t; if now <? ar_Expires t then Some (t, a) else None) with
  | None => Err "invalid or expired agent token"
  | Some (t, a) =>
      guard! negb (idr_Revoked a) else "agent is revoked" in
      guard! negb (bool_decide (trim_space (idr_PublicKey a) = "")) else "agent public key missing" in
      guard! bool_decide (ar_PubHash t = "") || bool_decide (ar_PubHash t = hashToken (idr_PublicKey a))
        else "access token is not bound to registered public key" in
      guard! negb (pc_Required cert && bool_decide (ar_CertHash t = "")) else "access token is not bound to client certificate" in
      guard! bool_decide (ar_CertHash t = "") || bool_decide (ar_CertHash t = pc_Hash cert) else "access token is not bound to client certificate" in
      Ok (ar_Holder t)
  end.

Definition requireWorkerToken (db : token_db) (now : time) (cert : peer_cert) (raw : string) : result (string * WorkerKind) :=
  guard! negb (bool_decide (trim_space (pc_Hash cert) = "")) else "worker client certificate is required" in
  match (t ← td_workerTokens db !! hashToken raw; i ← td_workers db !! ar_Holder t; if now <? ar_Expires t then Some (t, i) else None) with
  | None => Err "invalid or expired worker token"
  | Some (t, i) =>
      guard! negb (idr_Revoked i) && bool_decide (ar_PubHash t = hashToken (idr_PublicKey i)) && negb (bool_decide (ar_CertHash t = ""))
        && bool_decide (ar_CertHash t = pc_Hash cert) else "worker token binding is invalid" in
      match parseWorkerKind (idr_Kind i) with Some k => Ok (ar_Holder t, k) | None => Err "worker kind is invalid" end
  end.

(** ** What the lease allows *)

Definition lease_live (now : time) (l : lease_row) : bool := ls_Leased l && match ls_Until l with Some t => now <? t | None => false end.

Definition requireLiveCapability (db : token_db) (now : time) (claims : Claims) (rawToken : string) : result unit :=
  match (i ← td_instances db !! cl_TokenID claims;
         if bool_decide (in_Budget i = budget_of claims) && (in_Epoch i =? cl_LeaseEpoch claims) && (now <? in_Expires i) then Some i else None) with
  | Some i =>
      guard! negb (in_Revoked i) else "capability token revoked" in
      guard! existsb (λ l, bool_decide (ls_Budget l = budget_of claims) && (ls_Epoch l =? cl_LeaseEpoch claims) && lease_live now l) (td_leases db)
        else "capability lease is not live" in Ok tt
  | None =>
      guard! negb (existsb (λ r, bool_decide (cb_Jti r = cl_TokenID claims) && cb_Revoked r) (map_to_list (td_calls db)).*2) else "capability token revoked" in
      guard! existsb (λ l, bool_decide (ls_Token l = rawToken)) (td_leases db) else "capability token is not registered" in
      guard! existsb (λ l, bool_decide (ls_Token l = rawToken) && lease_live now l) (td_leases db) else "capability lease is not live" in Ok tt
  end.

(** ** Two tokens *)

Definition CapabilityHeader : string := "X-Yufeng-Capability".

Definition looksLikeSingleTokenMisplaced (h : headers) : bool :=
  bool_decide (trim_space (header_get h CapabilityHeader) = "") && negb (bool_decide (trim_space (header_get h "Authorization") = "")).

Definition ParseDualTokens (h : headers) : result (string * string) :=
  let access := bearerToken (header_get h "Authorization") in
  let cap := bearerToken (header_get h CapabilityHeader) in
  guard! negb (bool_decide (access = "") || bool_decide (cap = "")) else "access token and capability token are required" in
  guard! negb (looksLikeSingleTokenMisplaced h) else "access token and capability token are required" in
  Ok (access, cap).

Definition BindDualTokens (accessSub : string) (claims : Claims) : result unit :=
  guard! negb (bool_decide (trim_space accessSub = "")) else "access token subject is empty" in
  guard! negb (bool_decide (trim_space (cl_AuthorizedParty claims) = "")) else "capability token azp is required" in
  guard! bool_decide (accessSub = cl_AuthorizedParty claims) else "access token subject does not match capability azp" in Ok tt.

Definition requireCapabilityLegacy (pub : string) (h : headers) (now : time) : result Claims :=
  let raw := bearerToken (header_get h "Authorization") in
  guard! negb (bool_decide (raw = "")) else "capability token required" in
  let! claims := VerifyCapabilityToken raw pub now in
  guard! bool_decide (cl_Audience claims = "tools") else "capability token audience must be tools" in Ok claims.

(** The work items a worker holds under a capability. *)
Definition worker_leases (db : token_db) (now : time) (claims : Claims) (worker : string) : list lease_row :=
  filter (λ l, ls_Work l = Some (cl_Subject claims, worker) ∧ ls_Budget l = budget_of claims ∧ ls_Epoch l = cl_LeaseEpoch claims ∧ lease_live now l = true) (td_leases db).

Definition authenticateToolHeaders (demoTriage : bool) (pub : string) (db : token_db) (now : time) (cert : peer_cert) (h : headers) : result Claims :=
  if demoTriage then requireCapabilityLegacy pub h now else
  let! tokens := ParseDualTokens h in
  let! claims := VerifyCapabilityToken (snd tokens) pub now in
  guard! bool_decide (cl_Audience claims = "tools") else "capability token audience must be tools" in
  match requireAgentToken db now cert (fst tokens) with
  | Ok accessSub =>
      let! _ := BindDualTokens accessSub claims in
      let! _ := requireLiveCapability db now claims (snd tokens) in Ok claims
  | Err agentErr =>
      match requireWorkerToken db now cert (fst tokens) with
      | Err _ => Err agentErr
      | Ok (worker, kind) =>
          guard! bool_decide (kind = WORKER_KIND_RUN_SUPERVISOR) else "analysis worker cannot invoke tools" in
          let! _ := BindDualTokens worker claims in
          let! _ := requireLiveCapability db now claims (snd tokens) in
          guard! (Z.of_nat (length (worker_leases db now claims worker)) =? 1) else "worker lease does not cover capability" in Ok claims
      end
  end.

(** ** Registration and revocation *)

Definition registerCapabilityToken (db : token_db) (jti budgetID leaseID : string) (leaseEpoch : Z) (expires : time) : token_db * result unit :=
  if bool_decide (trim_space jti = "") || bool_decide (trim_space budgetID = "") then (db, Err "capability token identity is required") else
  match td_instances db !! jti with
  | Some _ => (db, Err "insert")
  | None => (set_instances db (<[jti := mkInstanceRow budgetID leaseID leaseEpoch expires false]> (td_instances db)), Ok tt)
  end.

Definition revoke_row (i : instance_row) : instance_row := mkInstanceRow (in_Budget i) (in_Lease i) (in_Epoch i) (in_Expires i) true.

Definition revokeStoredCapability (db : token_db) (raw pub : string) (now : time) : token_db :=
  let raw := trim_space raw in
  if bool_decide (raw = "") then db else
  match VerifyCapabilityToken raw pub now with
  | Err _ => db
  | Ok claims =>
      match td_instances db !! cl_TokenID claims with
      | Some i => set_instances db (<[cl_TokenID claims := revoke_row i]> (td_instances db))
      | None => set_instances db (<[cl_TokenID claims := mkInstanceRow (budget_of claims) "" (cl_LeaseEpoch claims) (cl_ExpiresAt claims * Second) true]> (td_instances db))
      end
  end.

(** [UPDATE capability_token_instances SET revoked=true WHERE budget_id=...], when a run
    expires, its evidence is withdrawn or a model call of it is lost. *)
Definition revokeBudgetInstances (db : token_db) (budgetID : string) : token_db :=
  set_instances db ((λ i, if bool_decide (in_Budget i = budgetID) then revoke_row i else i) <$> td_instances db).

(** Every statement of the program that writes [capability_token_instances]; the other tables
    (access tokens, identities, calls, leases) may change in any way in between. *)
Inductive token_write :=
| WriteRegister (jti budgetID leaseID : string) (leaseEpoch : Z) (expires : time)
| WriteRevoke (raw pub : string) (now : time)
| WriteRevokeBudget (budgetID : string)
| WriteOther (agentTokens : gmap string access_row) (agents : gmap string identity_row) (workerTokens : gmap string access_row)
    (workers : gmap string identity_row) (calls : gmap string calls_row) (leases : list lease_row).
Definition apply_write (db : token_db) (w : token_write) : token_db :=
  match w with
  | WriteRegister jti b l e x => (registerCapabilityToken db jti b l e x).1
  | WriteRevoke raw pub now => revokeStoredCapability db raw pub now
  | WriteRevokeBudget b => revokeBudgetInstances db b
  | WriteOther at_ ag wt wk c l => mkTokenDb at_ ag wt wk (td_instances db) c l
  end.
End authentication.

(** ** Calls *)

(** The insertion of the first call, or the count of one more: whether a row was written. *)
Definition count_call (m : gmap string calls_row) (budgetID subject azp : string) (maxCalls : Z) : result (gmap string calls_row * bool) :=
  match m !! budgetID with
  | Some r =>
      if negb (cb_Revoked r) && (cb_Used r <? cb_Max r)
      then Ok (<[budgetID := mkCallsRow (cb_Jti r) (cb_Subject r) (cb_Azp r) (cb_Max r) (cb_Used r + 1) (cb_Revoked r)]> m, true) else Ok (m, false)
  | None =>
      guard! negb (existsb (λ r, bool_decide (cb_Jti r = budgetID)) (map_to_list m).*2) else "duplicate key" in
      Ok (<[budgetID := mkCallsRow budgetID subject azp maxCalls 1 false]> m, true)
  end.

(** The calls left are read by a statement of their own: [later] is the table then. *)
Definition consumeBudget (m later : gmap string calls_row) (budgetID subject azp : string) (maxCalls : Z) : gmap string calls_row * result Z :=
  if maxCalls <=? 0 then (m, Ok 0) else
  match count_call m budgetID subject azp maxCalls with
  | Err e => (m, Err e)
  | Ok (m', counted) =>
      if negb counted then (m', Err "capability token budget exhausted or revoked") else
      match later !! budgetID with
      | None => (m', Err "no rows in result set")
      | Some r => (m', Ok (Z.max 0 (cb_Max r - cb_Used r)))
      end
  end.

Definition seedCapabilityBudget (m : gmap string calls_row) (budgetID subject azp : string) (maxCalls : Z) : result (gmap string calls_row) :=
  if bool_decide (trim_space budgetID = "") || (maxCalls <=? 0) then Ok m else
  match m !! budgetID with
  | Some _ => Ok m
  | None =>
      guard! negb (existsb (λ r, bool_decide (cb_Jti r = budgetID)) (map_to_list m).*2) else "duplicate key" in
      Ok (<[budgetID := mkCallsRow budgetID subject azp maxCalls 0 false]> m)
  end.

(** ** Tokens read back *)

Lemma bytes_of s : (of_byte <$> (byte <$> String.list_ascii_of_string s)) = String.list_ascii_of_string s.
Proof. induction s as [|c s IH]; [done|]. simpl. f_equal; [apply of_byte_byte|exact IH]. Qed.

Lemma unb64_b64 s : unb64 (b64 s) = Some s.
Proof.
  unfold unb64, b64. rewrite (raw_url_roundtrip_from (length (byte <$> String.list_ascii_of_string s))); [|done|].
  - simpl. by rewrite bytes_of, String.string_of_list_ascii_of_string.
  - apply Forall_fmap, Forall_forall. intros c _. apply byte_range.
Qed.

(** A text of the alphabet has no dot. *)
Lemma sextets_no_dot s : is_Some (sextets s) → str_mem "." s = false.
Proof.
  unfold sextets. induction s as [|c s IH]; [done|]. simpl. rewrite filter_cons. intros [ss Hss]. case_bool_decide as Hc; simpl.
  - subst c. vm_compute in Hss. discriminate Hss.
  - apply IH. destruct (decide (is_line_break c = false)) as [?|?]; [|by eexists]. simpl in Hss. destruct (url_sextet c); [|done].
    destruct (mapM url_sextet _); [by eexists|done].
Qed.

Lemma b64_no_dot s : str_mem "." (b64 s) = false.
Proof.
  apply sextets_no_dot. pose proof (unb64_b64 s) as H. unfold unb64, raw_url_decode in H. fold (sextets (b64 s)) in H.
  destruct (sextets (b64 s)); [by eexists|done].
Qed.

Lemma split_token a b c :
  str_mem "." a = false → str_mem "." b = false → str_mem "." c = false → split_byte "." ((a +:+ String "." b) +:+ String "." c) = [a; b; c].
Proof. intros Ha Hb Hc. rewrite <- str_app_assoc, str_app_cons, !split_byte_app, split_byte_plain by done. done. Qed.

Section token_proofs.
Context {C : Crypto} {W : ClaimsWire} {U : Unicode}.

(** C39: a token that was signed is accepted under the public key, at every instant of its window, and yields the claims it was
    made from with the issuer and the times filled in. *)
Theorem capability_token_roundtrip {CL : CryptoLaws C} {WL : ClaimsWireLaws W} c key now raw now' :
  SignCapabilityToken c key now = Ok raw → cl_Issuer c = "" ∨ cl_Issuer c = KeyID (ed25519_public key) →
  forallb utf8_text (claims_texts (complete_claims c key now)) = true →
  cl_NotBefore (complete_claims c key now) ≤ unix now' < cl_ExpiresAt c →
  VerifyCapabilityToken raw (ed25519_public key) now' = Ok (complete_claims c key now).
Proof.
  unfold SignCapabilityToken. intros Hs Hi Ht Hw. destruct (Z.eqb_spec (str_len key) PrivateKeySize) as [Hk|]; [|done].
  destruct (negb (bool_decide (trim_space (cl_TokenID c) = ""))) eqn:Hj; [|done]. destruct (negb (cl_ExpiresAt c =? 0)); [|done].
  destruct (marshal_claims (complete_claims c key now)) as [payload|] eqn:Em; [|done]. injection Hs as <-.
  unfold VerifyCapabilityToken. rewrite (proj2 (Z.eqb_eq _ _) (public_length key Hk)), split_token by apply b64_no_dot.
  rewrite !unb64_b64, bool_decide_eq_true_2 by done. rewrite (sign_verifies key _ Hk), (claims_roundtrip _ _ Ht Em).
  assert (cl_Issuer (complete_claims c key now) = KeyID (ed25519_public key)) as Hiss.
  { unfold complete_claims. cbn [cl_Issuer]. destruct (decide (cl_Issuer c = "")) as [E|E]; [by rewrite bool_decide_eq_true_2|rewrite bool_decide_eq_false_2 by done]. by destruct Hi. }
  rewrite (bool_decide_eq_true_2 _ Hiss).
  rewrite (proj2 (Z.ltb_ge _ _)), (proj2 (Z.leb_gt _ _)) by (simpl in *; lia). simpl. by rewrite Hj.
Qed.

(** What a verified token is. *)
Lemma verified_token raw pub now claims :
  VerifyCapabilityToken raw pub now = Ok claims →
  (∃ p0 p1 p2 payload sig, split_byte "." raw = [p0; p1; p2] ∧ unb64 p1 = Some payload ∧ unb64 p2 = Some sig ∧
     ed25519_verify pub (p0 +:+ String "." p1) sig = true ∧ unmarshal_claims payload = Some claims) ∧
  cl_Issuer claims = KeyID pub ∧ cl_NotBefore claims ≤ unix now < cl_ExpiresAt claims.
Proof.
  unfold VerifyCapabilityToken. destruct (str_len pub =? PublicKeySize); [|done]. destruct (split_byte "." raw) as [|p0 [|p1 [|p2 [|? ?]]]] eqn:Es; try done.
  destruct (unb64 p0); [|done]. case_bool_decide; [|done]. destruct (unb64 p1) as [payload|] eqn:E1; [|done]. destruct (unb64 p2) as [sig|] eqn:E2; [|done].
  destruct (ed25519_verify _ _ _) eqn:Ev; [|done]. destruct (unmarshal_claims payload) as [cl|] eqn:Eu; [|done]. case_bool_decide as Hi; [|done].
  destruct (Z.ltb_spec (unix now) (cl_NotBefore cl)); [done|]. destruct (Z.leb_spec (cl_ExpiresAt cl) (unix now)); [done|]. simpl. destruct (negb _); [|done].
  intros [= <-]. split; [|done]. by exists p0, p1, p2, payload, sig.
Qed.

Lemma bind_dual_Ok sub claims : BindDualTokens sub claims = Ok tt → sub = cl_AuthorizedParty claims.
Proof. unfold BindDualTokens. destruct (negb _); [|done]. destruct (negb _); [|done]. by case_bool_decide. Qed.

(** A live lease of the capability: by its budget and epoch, or, for tokens without a registration, by the token itself. *)
Definition lease_of (claims : Claims) (cap : string) (l : lease_row) : Prop :=
  (ls_Budget l = budget_of claims ∧ ls_Epoch l = cl_LeaseEpoch claims) ∨ ls_Token l = cap.

Lemma live_capability_Ok db now claims cap :
  requireLiveCapability db now claims cap = Ok tt →
  (∃ l, l ∈ td_leases db ∧ lease_live now l = true ∧ lease_of claims cap l) ∧
  ∀ i, td_instances db !! cl_TokenID claims = Some i → in_Budget i = budget_of claims → in_Epoch i = cl_LeaseEpoch claims → now < in_Expires i → in_Revoked i = false.
Proof.
  unfold requireLiveCapability. destruct (td_instances db !! cl_TokenID claims) as [i|] eqn:Ei; simpl.
  - destruct (_ && _ && _) eqn:Em.
    + destruct (in_Revoked i) eqn:Er; [done|]. simpl. destruct (existsb _ _) eqn:Ee; [|done]. intros _. split; [|intros i' [= <-]; done].
      apply existsb_exists in Ee as (l & Hin%list_elem_of_In & Hl). apply andb_true_iff in Hl as [Hl Hlive]. apply andb_true_iff in Hl as [Hb%bool_decide_eq_true He%Z.eqb_eq].
      exists l. split_and!; [done..|]. by left.
    + intros Hok. split.
      * destruct (negb _); [|done]. destruct (existsb _ _); [|done]. destruct (existsb (λ l, _ && lease_live now l) _) eqn:Ee; [|done].
        apply existsb_exists in Ee as (l & Hin%list_elem_of_In & Hl). apply andb_true_iff in Hl as [Ht%bool_decide_eq_true Hlive]. exists l. split_and!; [done..|]. by right.
      * intros i' [= <-] Hb He Hx. rewrite (bool_decide_eq_true_2 _ Hb), (proj2 (Z.eqb_eq _ _) He), (proj2 (Z.ltb_lt _ _) Hx) in Em. done.
  - intros Hok. split; [|done]. destruct (negb _); [|done]. destruct (existsb _ _); [|done]. destruct (existsb (λ l, _ && lease_live now l) _) eqn:Ee; [|done].
    apply existsb_exists in Ee as (l & Hin%list_elem_of_In & Hl). apply andb_true_iff in Hl as [Ht%bool_decide_eq_true Hlive]. exists l. split_and!; [done..|]. by right.
Qed.

(** C18: outside the demonstration mode a tool call is let through only with two tokens: a capability token of the right audience
    that the gateway's key signed and whose window is open, and an access token of a registered agent or run supervisor that is the
    authorized party of the capability; the capability is not revoked and a lease of it is live. *)
Theorem tool_calls_authenticated pub db now cert h claims :
  authenticateToolHeaders false pub db now cert h = Ok claims →
  ∃ access cap, ParseDualTokens h = Ok (access, cap) ∧ VerifyCapabilityToken cap pub now = Ok claims ∧ cl_Audience claims = "tools" ∧
    cl_NotBefore claims ≤ unix now < cl_ExpiresAt claims ∧
    (requireAgentToken db now cert access = Ok (cl_AuthorizedParty claims) ∨
     requireWorkerToken db now cert access = Ok (cl_AuthorizedParty claims, WORKER_KIND_RUN_SUPERVISOR)) ∧
    (∃ l, l ∈ td_leases db ∧ lease_live now l = true ∧ lease_of claims cap l) ∧
    (∀ i, td_instances db !! cl_TokenID claims = Some i → in_Budget i = budget_of claims → in_Epoch i = cl_LeaseEpoch claims → now < in_Expires i →
       in_Revoked i = false).
Proof.
  unfold authenticateToolHeaders. destruct (ParseDualTokens h) as [[access cap]|] eqn:Ed; [|done]. simpl.
  destruct (VerifyCapabilityToken cap pub now) as [cl|] eqn:Ev; [|done]. simpl. case_bool_decide as Ha; [|done].
  destruct (requireAgentToken db now cert access) as [sub|e] eqn:Eg.
  - destruct (BindDualTokens sub cl) as [[]|] eqn:Eb; [|done]. simpl. destruct (requireLiveCapability db now cl cap) as [[]|] eqn:El; [|done]. intros [= <-].
    apply bind_dual_Ok in Eb as ->. destruct (verified_token _ _ _ _ Ev) as (_ & _ & Hw). destruct (live_capability_Ok _ _ _ _ El) as [Hl Hr].
    exists access, cap. split_and!; [done..|apply Hw|apply Hw|by left|exact Hl|exact Hr].
  - destruct (requireWorkerToken db now cert access) as [[worker kind]|] eqn:Ew; [|done]. case_bool_decide as Hk; [|done]. subst kind.
    destruct (BindDualTokens worker cl) as [[]|] eqn:Eb; [|done]. simpl. destruct (requireLiveCapability db now cl cap) as [[]|] eqn:El; [|done]. simpl.
    destruct (_ =? 1); [|done]. intros [= <-]. apply bind_dual_Ok in Eb as ->. destruct (verified_token _ _ _ _ Ev) as (_ & _ & Hw).
    destruct (live_capability_Ok _ _ _ _ El) as [Hl Hr]. exists access, cap. split_and!; [done..|apply Hw|apply Hw|by right|exact Hl|exact Hr].
Qed.

(** A stored registration covers the whole window of the token. *)
Definition registered_for (db : token_db) (claims : Claims) : Prop :=
  ∀ i, td_instances db !! cl_TokenID claims = Some i →
    in_Budget i = budget_of claims ∧ in_Epoch i = cl_LeaseEpoch claims ∧ cl_ExpiresAt claims * Second ≤ in_Expires i.

Lemma revoke_marks db cap pub t0 claims :
  trim_space cap = cap → cap ≠ "" → VerifyCapabilityToken cap pub t0 = Ok claims → registered_for db claims →
  ∃ i, td_instances (revokeStoredCapability db cap pub t0) !! cl_TokenID claims = Some i ∧ in_Budget i = budget_of claims ∧
    in_Epoch i = cl_LeaseEpoch claims ∧ cl_ExpiresAt claims * Second ≤ in_Expires i ∧ in_Revoked i = true.
Proof.
  intros Htrim Hne Hv Hreg. unfold revokeStoredCapability. rewrite Htrim, bool_decide_eq_false_2, Hv by done.
  destruct (td_instances db !! cl_TokenID claims) as [i|] eqn:Ei; simpl; rewrite lookup_insert_eq.
  - exists (revoke_row i). destruct (Hreg i Ei) as (Hb & He & Hx). split; [done|]. by unfold revoke_row.
  - eexists. split; [done|]. simpl. done.
Qed.

(** The row of [jti] is revoked, and for the budget, epoch and expiry it has. *)
Definition row_revoked (db : token_db) (jti budget : string) (epoch : Z) (expires : time) : Prop :=
  ∃ i, td_instances db !! jti = Some i ∧ in_Budget i = budget ∧ in_Epoch i = epoch ∧ expires ≤ in_Expires i ∧ in_Revoked i = true.

(** No statement resets a revocation: a row is inserted once, and updates only revoke. *)
Lemma revoked_stays db w jti b e x : row_revoked db jti b e x → row_revoked (apply_write db w) jti b e x.
Proof.
  intros (i & Hi & Hb & He & Hx & Hr). destruct w as [j b' l e' x'|raw pub now|b'|]; cbn [apply_write]; [| | |by exists i].
  - unfold registerCapabilityToken. destruct (_ || _); [by exists i|]. destruct (td_instances db !! j) eqn:Ej; [by exists i|].
    exists i. split; [|done]. simpl. rewrite lookup_insert_ne; [done|congruence].
  - unfold revokeStoredCapability. destruct (bool_decide _); [by exists i|]. destruct (VerifyCapabilityToken _ _ _) as [cl|]; [|by exists i].
    destruct (decide (cl_TokenID cl = jti)) as [->|Hne].
    + rewrite Hi. exists (revoke_row i). split; [apply lookup_insert_eq|done].
    + exists i. split; [|done]. destruct (td_instances db !! cl_TokenID cl); simpl; by rewrite lookup_insert_ne.
  - exists (if bool_decide (in_Budget i = b') then revoke_row i else i). split; [simpl; by rewrite lookup_fmap, Hi|]. by case_bool_decide.
Qed.

Lemma revoked_stays_forever ws db jti b e x : row_revoked db jti b e x → row_revoked (foldl apply_write db ws) jti b e x.
Proof. revert db. induction ws as [|w ws IH]; intros db H; [done|]. by apply IH, revoked_stays. Qed.

(** C19: outside the demonstration mode a capability token that was revoked while it
    verified is never accepted again: whatever registrations, revocations and changes of the
    other tables follow, with whatever access token and certificate and at whatever time.
    This holds also when no registration of it had been stored; a stored one must be for the
    token's budget and lease epoch and last at least as long as the token. *)
Theorem revoked_token_refused db cap pub t0 claims ws now cert h access :
  trim_space cap = cap → cap ≠ "" → VerifyCapabilityToken cap pub t0 = Ok claims → registered_for db claims → ParseDualTokens h = Ok (access, cap) →
  is_ok (authenticateToolHeaders false pub (foldl apply_write (revokeStoredCapability db cap pub t0) ws) now cert h) = false.
Proof.
  intros Htrim Hne Hv Hreg Hparse.
  destruct (revoked_stays_forever ws _ _ _ _ _ (revoke_marks _ _ _ _ _ Htrim Hne Hv Hreg)) as (i & Hi & Hb & He & Hx & Hr).
  set (db' := foldl apply_write _ ws) in *.
  destruct (authenticateToolHeaders false pub db' now cert h) as [cl|] eqn:Ea; [exfalso|done].
  destruct (verified_token _ _ _ _ Hv) as ((p0 & p1 & p2 & payload & sig & Hs & H1 & _ & _ & Hu) & _ & _).
  unfold authenticateToolHeaders in Ea. rewrite Hparse in Ea. simpl in Ea. destruct (VerifyCapabilityToken cap pub now) as [cl'|] eqn:Ev; [|done]. simpl in Ea.
  destruct (verified_token _ _ _ _ Ev) as ((q0 & q1 & q2 & payload' & sig' & Hs' & H1' & _ & _ & Hu') & _ & Hw).
  assert (cl' = claims) as -> by (rewrite Hs in Hs'; injection Hs' as <- <- <-; rewrite H1 in H1'; injection H1' as <-; congruence).
  assert (is_ok (requireLiveCapability db' now claims cap) = true) as Hl.
  { case_bool_decide; [|done]. destruct (requireLiveCapability _ _ _ _); [done|]. destruct (requireAgentToken _ _ _ _).
    - destruct (BindDualTokens _ _); done.
    - destruct (requireWorkerToken _ _ _ _) as [[? ?]|]; [|done]. case_bool_decide; [|done]. destruct (BindDualTokens _ _); done. }
  destruct (requireLiveCapability _ now claims cap) as [[]|] eqn:El; [|done]. apply live_capability_Ok in El as [_ Hrev].
  rewrite (Hrev i Hi Hb He) in Hr; [done|]. unfold unix in Hw. pose proof (Z.mul_succ_div_gt now Second eq_refl). unfold Second in *. nia.
Qed.
End token_proofs.

(** ** Calls are bounded *)

Inductive calls_op :=
| OpConsume (budgetID subject azp : string) (maxCalls : Z)
| OpSeed (budgetID subject azp : string) (maxCalls : Z)
| OpRevoke (budgetID : string).

(** The table, and the budgets of the calls that were let through. *)
Definition calls_step (st : gmap string calls_row * list string) (op : calls_op) : gmap string calls_row * list string :=
  let '(m, through) := st in
  match op with
  | OpConsume b s a n =>
      let m' := (consumeBudget m m b s a n).1 in
      (m', if (0 <? n) && match count_call m b s a n with Ok (_, counted) => counted | Err _ => false end then through ++ [b] else through)
  | OpSeed b s a n => (match seedCapabilityBudget m b s a n with Ok m' => m' | Err _ => m end, through)
  | OpRevoke b => ((λ r, mkCallsRow (cb_Jti r) (cb_Subject r) (cb_Azp r) (cb_Max r) (cb_Used r) (cb_Revoked r || bool_decide (cb_Jti r = b))) <$> m, through)
  end.

Definition calls_through (b : string) (through : list string) : Z := Z.of_nat (length (filter (λ x, x = b) through)).

Definition calls_ok (st : gmap string calls_row * list string) : Prop :=
  ∀ b, match st.1 !! b with Some r => cb_Used r = calls_through b st.2 ∧ calls_through b st.2 ≤ cb_Max r | None => calls_through b st.2 = 0 end.

Lemma calls_through_snoc b x through : calls_through b (through ++ [x]) = calls_through b through + (if bool_decide (x = b) then 1 else 0).
Proof.
  unfold calls_through. rewrite filter_app, length_app, filter_cons. destruct (decide (x = b)) as [->|Hn].
  - rewrite bool_decide_eq_true_2 by done. simpl. lia.
  - rewrite bool_decide_eq_false_2 by done. simpl. lia.
Qed.

Lemma calls_step_ok st op : calls_ok st → calls_ok (calls_step st op).
Proof.
  destruct st as [m through]. intros H. destruct op as [b s a n|b s a n|b]; unfold calls_step.
  - unfold consumeBudget. destruct (Z.leb_spec n 0) as [Hn|Hn]; [by rewrite (proj2 (Z.ltb_ge _ _) Hn)|]. rewrite (proj2 (Z.ltb_lt _ _) Hn). cbn [andb].
    unfold count_call. destruct (m !! b) as [r|] eqn:Hb.
    + destruct (negb (cb_Revoked r) && _) eqn:Hc; [|exact H]. apply andb_true_iff in Hc as [_ Hlt%Z.ltb_lt].
      cbn [negb fst]. intros x. cbn [fst snd]. rewrite calls_through_snoc. specialize (H x). cbn [fst snd] in H.
      destruct (decide (b = x)) as [<-|Hne].
      * rewrite lookup_insert_eq, bool_decide_eq_true_2 by done. rewrite Hb in H. cbn. lia.
      * rewrite lookup_insert_ne, bool_decide_eq_false_2 by done. rewrite Z.add_0_r. exact H.
    + destruct (negb (existsb _ _)); [|exact H]. cbn [negb fst]. intros x. cbn [fst snd]. rewrite calls_through_snoc. specialize (H x). cbn [fst snd] in H.
      destruct (decide (b = x)) as [<-|Hne].
      * rewrite lookup_insert_eq, bool_decide_eq_true_2 by done. rewrite Hb in H. cbn. lia.
      * rewrite lookup_insert_ne, bool_decide_eq_false_2 by done. rewrite Z.add_0_r. exact H.
  - unfold seedCapabilityBudget. destruct (_ || _) eqn:Hc; [exact H|]. apply orb_false_iff in Hc as [_ Hn%Z.leb_gt]. destruct (m !! b) as [r|] eqn:Hb; [exact H|].
    destruct (negb _); [|exact H]. intros x. specialize (H x). cbn [fst snd] in *. destruct (decide (b = x)) as [<-|Hne].
    + rewrite lookup_insert_eq. rewrite Hb in H. cbn. lia.
    + by rewrite lookup_insert_ne.
  - intros x. specialize (H x). cbn [fst snd] in *. rewrite lookup_fmap. by destruct (m !! x).
Qed.

(** Under any sequence of calls, seeds and revocations a budget lets at most as many calls through as its row allows. *)
Theorem capability_calls_bounded ops b :
  let st := foldl calls_step (∅, []) ops in
  calls_through b st.2 ≤ match st.1 !! b with Some r => cb_Max r | None => 0 end.
Proof.
  assert (∀ st, calls_ok st → calls_ok (foldl calls_step st ops)) as Hrun.
  { induction ops as [|op ops IH]; [done|]. intros st H. simpl. by apply IH, calls_step_ok. }
  assert (calls_ok (∅, [])) as H0 by (intros x; cbn [fst]; by rewrite lookup_empty). specialize (Hrun _ H0 b). cbn zeta.
  destruct ((foldl calls_step (∅, []) ops).1 !! b); lia.
Qed.

(** ** Concrete runs *)
#[global] Instance Claims_eq_dec : EqDecision Claims. Proof. solve_decision. Defined.

Module TokenDemo.
Definition start : time := 1000 * Second.
Definition asked : Claims := mkClaims "" "run-1" "agent-1" "worker" "tools" 1900 0 0 "jti-1" "bud-1" 2 [] ["event.get"] 10 ["asset:shop"].
Definition claims : Claims := complete_claims (C := toy_crypto) asked toy_key start.
(** An encoding of these claims only. *)
Definition wire : ClaimsWire := {|
  marshal_claims c := if decide (c = claims) then Some "payload" else None;
  unmarshal_claims s := if decide (s = "payload") then Some claims else None |}.
Lemma token_wire_laws : ClaimsWireLaws wire.
Proof. split. intros c raw _. simpl. destruct (decide (c = claims)) as [->|]; [|done]. by intros [= <-]. Qed.
Definition pub : string := ed25519_public (Crypto := toy_crypto) toy_key.
Definition signed : result string := SignCapabilityToken (C := toy_crypto) (W := wire) asked toy_key start.
Definition token : string := match signed with Ok t => t | Err _ => "" end.
Definition db : token_db := mkTokenDb
  (<[hashToken (C := toy_crypto) "acc" := mkAccessRow "agent-1" "" "" (2000 * Second)]> ∅) (<["agent-1" := mkIdentityRow "" "pk" false]> ∅) ∅ ∅
  (<["jti-1" := mkInstanceRow "bud-1" "lease-1" 2 (1900 * Second) false]> ∅) ∅ [mkLeaseRow None "bud-1" 2 true (Some (1200 * Second)) token].
Definition cert : peer_cert := mkPeerCert false "".
Definition hdrs : headers := <["Authorization" := ["Bearer acc"]]> (<[CapabilityHeader := ["Bearer " +:+ token]]> ∅).
Definition authenticate (d : token_db) : result Claims :=
  authenticateToolHeaders (C := toy_crypto) (W := wire) (U := ascii_only_unicode) false pub d (1100 * Second) cert hdrs.
End TokenDemo.

Lemma capability_token_roundtrip_witness :
  VerifyCapabilityToken (C := toy_crypto) (W := TokenDemo.wire) TokenDemo.token TokenDemo.pub (1100 * Second) = Ok TokenDemo.claims.
Proof.
  apply (@capability_token_roundtrip toy_crypto TokenDemo.wire toy_crypto_laws TokenDemo.token_wire_laws TokenDemo.asked toy_key TokenDemo.start).
  - vm_compute. reflexivity.
  - left. reflexivity.
  - vm_compute. reflexivity.
  - vm_compute. split; [discriminate|reflexivity].
Defined.

Lemma tool_calls_authenticated_witness : ∃ access cap, @ParseDualTokens ascii_only_unicode TokenDemo.hdrs = Ok (access, cap).
Proof.
  destruct (@tool_calls_authenticated toy_crypto TokenDemo.wire ascii_only_unicode TokenDemo.pub TokenDemo.db (1100 * Second) TokenDemo.cert TokenDemo.hdrs TokenDemo.claims)
    as (access & cap & H & _).
  - vm_compute. reflexivity.
  - exists access, cap. exact H.
Defined.

Lemma revoked_token_refused_witness :
  is_ok (TokenDemo.authenticate TokenDemo.db) = true ∧
  is_ok (TokenDemo.authenticate (foldl (apply_write (C := toy_crypto) (W := TokenDemo.wire))
    (revokeStoredCapability (C := toy_crypto) (W := TokenDemo.wire) TokenDemo.db TokenDemo.token TokenDemo.pub (1050 * Second))
    [WriteRegister (cl_TokenID TokenDemo.claims) "bud-1" "lease-1" 2 (1900 * Second); WriteRevokeBudget "bud-2"])) = false.
Proof.
  split; [vm_compute; reflexivity|].
  apply (@revoked_token_refused toy_crypto TokenDemo.wire ascii_only_unicode TokenDemo.db TokenDemo.token TokenDemo.pub (1050 * Second) TokenDemo.claims
    [WriteRegister (cl_TokenID TokenDemo.claims) "bud-1" "lease-1" 2 (1900 * Second); WriteRevokeBudget "bud-2"]
    (1100 * Second) TokenDemo.cert TokenDemo.hdrs "acc").
  - vm_compute. reflexivity.
  - vm_compute. discriminate.
  - vm_compute. reflexivity.
  - intros i Hi. assert (td_instances TokenDemo.db !! cl_TokenID TokenDemo.claims = Some (mkInstanceRow "bud-1" "lease-1" 2 (1900 * Second) false)) as E by (vm_compute; reflexivity).
    rewrite E in Hi. injection Hi as <-. vm_compute. split; [reflexivity|]. split; [reflexivity|discriminate].
  - vm_compute. reflexivity.
Defined.
