(* ===== verification/ToolGateway.v ===== *)
(** * Tool calls

    [InvokeTool] of [lib/brain/toolgateway.go], from the moment the caller is authenticated: the
    reservation of its idempotency key and of its budget, the journal row of the invocation with its
    effect boundary, the count of calls, the tool itself and the settlement.

    Every statement and every transaction is one step; calls interleave in any way and may stop
    between any two steps.  The keys are those of [Idempotency], the budget that of [RunBudget], the
    count that of [Tokens].  What a tool answers, what the check of its arguments says and the
    coordinates read for the audit entry are arguments, and a failed audit entry is a refused
    transaction.  The demonstration mode, which keeps no journal, is remain out. *)

From S2P Require Import Prelude GoStrings Contracts Signing AuditChain Govern RunBudget Idempotency Tokens.

(** ** The journal *)

Inductive inv_state := INV_intent_recorded | INV_effect_started | INV_settled | INV_outcome_unknown.
#[global] Instance inv_state_eq_dec : EqDecision inv_state. Proof. solve_decision. Defined.
Record invocation := mkInvocation {
  iv_Budget : string; iv_Key : string; iv_Run : string; iv_Turn : string; iv_Epoch : Z; iv_Tool : string; iv_Args : string; iv_Reservation : string;
  iv_State : inv_state; iv_Outcome : string; iv_Result : string; iv_Error : string }.
Abbreviation journal := (gmap string invocation).

Definition find_invocation (j : journal) (budget key : string) : option (string * invocation) :=
  head (filter (λ kv, iv_Budget kv.2 = budget ∧ iv_Key kv.2 = key) (map_to_list j)).

Definition with_epoch (v : invocation) (epoch : Z) : invocation :=
  mkInvocation (iv_Budget v) (iv_Key v) (iv_Run v) (iv_Turn v) epoch (iv_Tool v) (iv_Args v) (iv_Reservation v) (iv_State v) (iv_Outcome v) (iv_Result v) (iv_Error v).
Definition with_state (v : invocation) (st : inv_state) : invocation :=
  mkInvocation (iv_Budget v) (iv_Key v) (iv_Run v) (iv_Turn v) (iv_Epoch v) (iv_Tool v) (iv_Args v) (iv_Reservation v) st (iv_Outcome v) (iv_Result v) (iv_Error v).

(** [coords]: the run and the turn of the budget. *)
Definition recordToolIntentTx (j : journal) (claims : Claims) (coords : string * string) (requestKey toolName argumentsDigest reservationID newid : string)
    : result (journal * string) :=
  match find_invocation j (budget_of claims) requestKey with
  | Some (id, v) =>
      guard! bool_decide (iv_Args v = argumentsDigest) else "tool invocation arguments digest changed" in
      guard! bool_decide (iv_State v = INV_intent_recorded) else "tool invocation already crossed effect boundary" in
      Ok (<[id := with_epoch v (cl_LeaseEpoch claims)]> j, id)
  | None =>
      guard! bool_decide (j !! newid = None) else "duplicate key" in
      Ok (<[newid := mkInvocation (budget_of claims) requestKey (fst coords) (snd coords) (cl_LeaseEpoch claims) toolName argumentsDigest reservationID
                       INV_intent_recorded "" "" ""]> j, newid)
  end.

Definition markToolEffectStartedTx (j : journal) (id : string) : result journal :=
  if bool_decide (id = "") then Ok j else
  match j !! id with
  | Some v => guard! bool_decide (iv_State v = INV_intent_recorded) else "tool invocation cannot cross effect boundary" in
              Ok (<[id := with_state v INV_effect_started]> j)
  | None => Err "tool invocation cannot cross effect boundary"
  end.

Section calls.
Context {C : Crypto} {Req Resp : Type} {W : IdemWire Req Resp} (canonical_json : string → option string).

Definition canonicalJSONDigest (raw : string) : string := auditPayloadDigest (default raw (canonical_json raw)).

Definition settleToolInvocationRowTx (j : journal) (id outcome res failure : string) (st : inv_state) : result journal :=
  if bool_decide (id = "") then Ok j else
  match j !! id with
  | Some v =>
      guard! bool_decide (iv_State v = INV_intent_recorded) || bool_decide (iv_State v = INV_effect_started) else "tool invocation is already settled" in
      Ok (<[id := mkInvocation (iv_Budget v) (iv_Key v) (iv_Run v) (iv_Turn v) (iv_Epoch v) (iv_Tool v) (iv_Args v) (iv_Reservation v) st outcome
                    (auditPayloadDigest res) (auditPayloadDigest failure)]> j)
  | None => Err "tool invocation is already settled"
  end.

Definition settleToolInvocation (l : ledger) (j : journal) (id reservationID outcome res failure : string) (actual : runBudgetAmount) (now : time)
    : result (ledger * journal) :=
  let! l' := settleRunBudget l reservationID RES_settled actual now in
  let! j' := settleToolInvocationRowTx j id outcome res failure INV_settled in Ok (l', j').
Definition settleToolInvocationUnknown (l : ledger) (j : journal) (id reservationID failure : string) (now : time) : result (ledger * journal) :=
  let! l' := settleRunBudgetFull l reservationID RES_outcome_unknown now in
  let! j' := settleToolInvocationRowTx j id "outcome_unknown" "" failure INV_outcome_unknown in Ok (l', j').

(** ** A call *)

Definition tool_amount (calls bytes : Z) : runBudgetAmount := mkAmount 0 0 0 0 calls bytes 0.
Definition known_tools : list string :=
  ["ticket.get"; "event.get"; "event.list"; "cluster.get"; "triage.get"; "triage.complete"; "release.list"; "session.reply"; "govern.propose"; "govern.gate";
   "govern.start_shadow"; "case.get"; "case.request_evidence"; "run.create"; "case.complete"; "worker.capacity.request"].

Inductive tool_outcome := ToolResult (raw : string) | ToolUnencodable (e : string) | ToolFailed (e : string).
Inductive settlement := SettleSucceeded (raw : string) | SettleNotAllowed | SettleUnknown (e : string) (abort : bool).
Inductive tool_answer := TaOk (raw : string) (remaining : Z) | TaErr (e : string).

Inductive tool_phase :=
| TBegin | TConflict | TTake (created : time) | TRetake | TAuthorize | TIntent
| TConsume (inv res : string) | TDenied (inv res e : string) | TMark (inv res : string) (remain : Z) | TEffect (inv res : string) (remain : Z)
| TSettle (inv res : string) (remain : Z) (how : settlement) | TStore (raw : string) (remain : Z) | TAbort (e : string) | TDone (a : tool_answer).

Record tool_call := mkToolCall {
  tc_Claims : Claims; tc_Tool : string; tc_Impl : string; tc_Args : string; tc_Idem : string; tc_Random : string; tc_Phase : tool_phase }.
Definition at_phase (c : tool_call) (p : tool_phase) : tool_call := mkToolCall (tc_Claims c) (tc_Tool c) (tc_Impl c) (tc_Args c) (tc_Idem c) (tc_Random c) p.

Definition tool_digest (c : tool_call) : string := requestDigest (tc_Tool c) (tc_Args c) (tc_Idem c).
Definition idem_key (c : tool_call) : string * string := ("tool:" +:+ budget_of (tc_Claims c), tc_Idem c).
Definition reservationKey (c : tool_call) : string :=
  if bool_decide (tc_Idem c = "") then newID "toolcall" (tc_Random c) else tc_Idem c +:+ ":" +:+ tool_digest c.

Record tool_world := mkToolWorld {
  tw_idem : idem_table; tw_ledger : ledger; tw_calls : gmap string calls_row; tw_journal : journal; tw_effects : list (string * string) }.

(** What the environment decides in one step. *)
Record tool_env := mkToolEnv {
  te_now : time; te_reply : db_reply; te_authorized : result unit; te_reservation : string; te_invocation : string; te_coords : string * string;
  te_later : gmap string calls_row; te_outcome : tool_outcome }.

Definition tw_with_idem (w : tool_world) (t : idem_table) : tool_world := mkToolWorld t (tw_ledger w) (tw_calls w) (tw_journal w) (tw_effects w).
Definition tw_with_journal (w : tool_world) (l : ledger) (j : journal) : tool_world := mkToolWorld (tw_idem w) l (tw_calls w) j (tw_effects w).

(** A statement, or a transaction: [next] when it is answered, [failed] when it is not. *)
Definition tool_statement (reply : db_reply) (w w' : tool_world) (next failed : tool_phase) : tool_world * tool_phase :=
  match reply with DbOk => (w', next) | DbRefused => (w, failed) | DbUnseen => (w', failed) end.

(** The key is released when there is one. *)
Definition abort_or_end (c : tool_call) (e : string) : tool_phase := if bool_decide (tc_Idem c = "") then TDone (TaErr e) else TAbort e.

Definition reserve_idem (w : tool_world) (c : tool_call) (env : tool_env) : tool_world * tool_phase :=
  match tc_Phase c with
  | TBegin =>
      if bool_decide (tc_Idem c = "") then (w, TAuthorize) else
      if idempotencyKeyMaxLen <? str_len (tc_Idem c) then (w, TDone (TaErr "idempotency-key exceeds 128 characters")) else
      let '(t, inserted) := insert_pending (tw_idem w) (idem_key c) (tool_digest c) (te_now env) in
      tool_statement (te_reply env) w (tw_with_idem w t) (if inserted then TAuthorize else TConflict) (TDone (TaErr "insert"))
  | TConflict =>
      match loadIdempotencyRow (tw_idem w) (idem_key c) (tool_digest c) with
      | Err e => (w, TDone (TaErr e))
      | Ok None => (w, TDone (TaErr "idempotency key in flight"))
      | Ok (Some row) =>
          if bool_decide (ir_status row = "pending") || bool_decide (ir_status row = "") then
            (w, if IdempotencyPendingTTL <? time_sub (te_now env) (ir_created row) then TTake (ir_created row) else TDone (TaErr "idempotency key in flight"))
          else (w, TDone (if bool_decide (ir_status row = "error") then TaErr (unwrapIdemBody (ir_body row)) else TaOk (unwrapIdemBody (ir_body row)) 0))
      end
  | TTake created =>
      let '(t, deleted) := delete_expired (tw_idem w) (idem_key c) created in
      tool_statement (te_reply env) w (tw_with_idem w t) (if deleted then TRetake else TDone (TaErr "idempotency key in flight")) (TDone (TaErr "delete"))
  | _ =>
      let '(t, inserted) := insert_pending (tw_idem w) (idem_key c) (tool_digest c) (te_now env) in
      tool_statement (te_reply env) w (tw_with_idem w t) (if inserted then TAuthorize else TDone (TaErr "idempotency key in flight")) (TDone (TaErr "insert"))
  end.

(** The budget is reserved and the intent recorded in one transaction. *)
Definition record_intent (w : tool_world) (c : tool_call) (env : tool_env) : tool_world * tool_phase :=
  let tx :=
    let! r := reserveRunBudget (tw_ledger w) (budget_of (tc_Claims c)) KIND_tool (reservationKey c) (tool_amount 1 RunToolResultBytesPerCall)
                (te_now env) (te_reservation env) in
    let! v := recordToolIntentTx (tw_journal w) (tc_Claims c) (te_coords env) (reservationKey c) (tc_Tool c) (canonicalJSONDigest (tc_Args c)) (snd r)
                (newID "toolinv" (te_invocation env)) in
    Ok (fst r, snd r, v) in
  match tx with
  | Err e => (w, abort_or_end c e)
  | Ok (l, res, (j, inv)) => tool_statement (te_reply env) w (tw_with_journal w l j) (TConsume inv res) (abort_or_end c "commit")
  end.

Definition settle_call (w : tool_world) (c : tool_call) (env : tool_env) (inv res : string) (remain : Z) (how : settlement) : tool_world * tool_phase :=
  let tx := match how with
            | SettleSucceeded raw => settleToolInvocation (tw_ledger w) (tw_journal w) inv res "succeeded" raw "" (tool_amount 1 (str_len raw)) (te_now env)
            | SettleNotAllowed => settleToolInvocation (tw_ledger w) (tw_journal w) inv res "denied" "" "tool not allowed" (tool_amount 1 0) (te_now env)
            | SettleUnknown e _ => settleToolInvocationUnknown (tw_ledger w) (tw_journal w) inv res e (te_now env)
            end in
  match tx with
  | Err e => (w, TDone (TaErr e))
  | Ok (l, j) =>
      let next := match how with
                  | SettleSucceeded raw => if bool_decide (tc_Idem c = "") then TDone (TaOk raw remain) else TStore raw remain
                  | SettleNotAllowed => abort_or_end c "tool not allowed"
                  | SettleUnknown e abort => if abort then abort_or_end c e else TDone (TaErr e)
                  end in
      tool_statement (te_reply env) w (tw_with_journal w l j) next (TDone (TaErr "commit"))
  end.

Definition invoke_step (w : tool_world) (c : tool_call) (env : tool_env) : tool_world * tool_phase :=
  match tc_Phase c with
  | TBegin | TConflict | TTake _ | TRetake => reserve_idem w c env
  | TAuthorize => match te_authorized env with Ok _ => (w, TIntent) | Err e => (w, abort_or_end c e) end
  | TIntent => record_intent w c env
  | TConsume inv res =>
      match consumeBudget (tw_calls w) (te_later env) (budget_of (tc_Claims c)) (cl_Subject (tc_Claims c)) (cl_AuthorizedParty (tc_Claims c)) (cl_MaxCalls (tc_Claims c)) with
      | (calls, Err e) => (mkToolWorld (tw_idem w) (tw_ledger w) calls (tw_journal w) (tw_effects w), TDenied inv res e)
      | (calls, Ok remain) =>
          tool_statement (te_reply env) w (mkToolWorld (tw_idem w) (tw_ledger w) calls (tw_journal w) (tw_effects w)) (TMark inv res remain) (TDenied inv res "update")
      end
  | TDenied inv res e =>
      match settleToolInvocation (tw_ledger w) (tw_journal w) inv res "denied" "" e zero_amount (te_now env) with
      | Err e' => (w, TDone (TaErr e'))
      | Ok (l, j) => tool_statement (te_reply env) w (tw_with_journal w l j) (abort_or_end c e) (TDone (TaErr "commit"))
      end
  | TMark inv res remain =>
      match markToolEffectStartedTx (tw_journal w) inv with
      | Err e => (w, TDone (TaErr e))
      | Ok j => tool_statement (te_reply env) w (tw_with_journal w (tw_ledger w) j) (TEffect inv res remain) (TDone (TaErr "commit"))
      end
  | TEffect inv res remain =>
      if negb (bool_decide (tc_Impl c ∈ known_tools)) then (w, TSettle inv res remain SettleNotAllowed) else
      let w' := mkToolWorld (tw_idem w) (tw_ledger w) (tw_calls w) (tw_journal w) (tw_effects w ++ [(budget_of (tc_Claims c), reservationKey c)]) in
      (w', TSettle inv res remain match te_outcome env with
                                | ToolResult raw => SettleSucceeded raw
                                | ToolUnencodable e => SettleUnknown e false
                                | ToolFailed e => SettleUnknown e true
                                end)
  | TSettle inv res remain how => settle_call w c env inv res remain how
  | TStore raw remain =>
      tool_statement (te_reply env) w (tw_with_idem w (storeIdempotencyDB (tw_idem w) (idem_key c) (tool_digest c) "ok" raw (te_now env)))
        (TDone (TaOk raw remain)) (TDone (TaErr "update"))
  | TAbort e => tool_statement (te_reply env) w (tw_with_idem w (abortIdempotency (tw_idem w) (idem_key c))) (TDone (TaErr e)) (TDone (TaErr e))
  | TDone a => (w, TDone a)
  end.

(** ** Calls in any order *)

Record tool_sys := mkToolSys { ts_world : tool_world; ts_calls : gmap nat tool_call }.
Inductive tool_step (s : tool_sys) : tool_sys → Prop :=
| tool_new i c : ts_calls s !! i = None → tc_Phase c = TBegin → tool_step s (mkToolSys (ts_world s) (<[i := c]> (ts_calls s)))
| tool_advance i c env :
    ts_calls s !! i = Some c →
    tool_step s (mkToolSys (invoke_step (ts_world s) c env).1 (<[i := at_phase c (invoke_step (ts_world s) c env).2]> (ts_calls s)))
| tool_others t l m : tool_step s (mkToolSys (mkToolWorld t l m (tw_journal (ts_world s)) (tw_effects (ts_world s))) (ts_calls s)).
Definition tool_init (l : ledger) : tool_sys := mkToolSys (mkToolWorld ∅ l ∅ ∅ []) ∅.

(** ** At most one effect for a request *)

Definition inv_pair (v : invocation) : string * string := (iv_Budget v, iv_Key v).
Definition call_pair (c : tool_call) : string * string := (budget_of (tc_Claims c), reservationKey c).

Record journal_wf (j : journal) : Prop := {
  jw_ids i v : j !! i = Some v → i ≠ "";
  jw_unique i k vi vk : j !! i = Some vi → j !! k = Some vk → inv_pair vi = inv_pair vk → i = k }.

(** Rows stay, and do not return to the intent. *)
Definition journal_le (j j' : journal) : Prop :=
  ∀ i v, j !! i = Some v → ∃ v', j' !! i = Some v' ∧ inv_pair v' = inv_pair v ∧ (iv_State v ≠ INV_intent_recorded → iv_State v' ≠ INV_intent_recorded).

Lemma journal_le_refl j : journal_le j j.
Proof. intros i v H. by exists v. Qed.

Lemma journal_replace j id v v' :
  journal_wf j → j !! id = Some v → inv_pair v' = inv_pair v → (iv_State v ≠ INV_intent_recorded → iv_State v' ≠ INV_intent_recorded) →
  journal_wf (<[id := v']> j) ∧ journal_le j (<[id := v']> j).
Proof.
  intros [Hi Hu] Hid Hp Hs. assert (∀ i x, <[id := v']> j !! i = Some x → ∃ y, j !! i = Some y ∧ inv_pair y = inv_pair x) as Hold.
  { intros i x. destruct (decide (id = i)) as [<-|Hn]; [rewrite lookup_insert_eq; intros [= <-]; by exists v|rewrite lookup_insert_ne by done; by exists x]. }
  split; [split|].
  - intros i x (y & Hy & _)%Hold. by eapply Hi.
  - intros i k vi vk (yi & Hyi & Ei)%Hold (yk & Hyk & Ek)%Hold E. apply (Hu i k yi yk); [done..|congruence].
  - intros i x Hx. destruct (decide (id = i)) as [<-|Hn]; [rewrite lookup_insert_eq; rewrite Hid in Hx; injection Hx as <-; by exists v'|].
    rewrite lookup_insert_ne by done. by exists x.
Qed.

Lemma find_invocation_Some j b k id v : find_invocation j b k = Some (id, v) → j !! id = Some v ∧ inv_pair v = (b, k).
Proof.
  unfold find_invocation. intros H. assert ((id, v) ∈ filter (λ kv : string * invocation, iv_Budget kv.2 = b ∧ iv_Key kv.2 = k) (map_to_list j)) as Hin.
  { destruct (filter _ _); simplify_eq/=. apply list_elem_of_here. }
  apply list_elem_of_filter in Hin as [[Hb Hk] Hin]. apply elem_of_map_to_list in Hin. split; [done|]. unfold inv_pair. simpl in *. by rewrite Hb, Hk.
Qed.

Lemma find_invocation_None j b k i v : find_invocation j b k = None → j !! i = Some v → inv_pair v ≠ (b, k).
Proof.
  unfold find_invocation. intros H Hi [= Hb Hk].
  assert ((i, v) ∈ filter (λ kv : string * invocation, iv_Budget kv.2 = b ∧ iv_Key kv.2 = k) (map_to_list j)) as Hin
    by (apply list_elem_of_filter; split; [done|by apply elem_of_map_to_list]).
  destruct (filter _ _); [by apply not_elem_of_nil in Hin|done].
Qed.

Lemma record_ok j claims coords key tool args res rnd j' id :
  journal_wf j → recordToolIntentTx j claims coords key tool args res (newID "toolinv" rnd) = Ok (j', id) →
  journal_wf j' ∧ journal_le j j' ∧ ∃ v, j' !! id = Some v ∧ inv_pair v = (budget_of claims, key).
Proof.
  intros Hwf. unfold recordToolIntentTx. destruct (find_invocation j (budget_of claims) key) as [[i v]|] eqn:Ef.
  - apply find_invocation_Some in Ef as [Hi Hp]. case_bool_decide; [|done]. case_bool_decide; [|done]. intros [= <- <-].
    destruct (journal_replace j i v (with_epoch v (cl_LeaseEpoch claims)) Hwf Hi eq_refl id) as [Hw Hle]. split_and!; [done..|].
    exists (with_epoch v (cl_LeaseEpoch claims)). by rewrite lookup_insert_eq.
  - case_bool_decide as Hfree; [|done]. intros [= <- <-]. split_and!; [split| |].
    + intros i v. destruct (decide (newID "toolinv" rnd = i)) as [<-|Hn]; [done|rewrite lookup_insert_ne by done; apply Hwf].
    + intros i k vi vk. destruct (decide (newID "toolinv" rnd = i)) as [<-|Hi]; destruct (decide (newID "toolinv" rnd = k)) as [<-|Hk]; [done| | |];
        rewrite ?lookup_insert_eq, ?lookup_insert_ne by done.
      * intros [= <-] Hvk E. exfalso. by apply (find_invocation_None _ _ _ _ _ Ef Hvk).
      * intros Hvi [= <-] E. exfalso. by apply (find_invocation_None _ _ _ _ _ Ef Hvi).
      * apply Hwf.
    + intros i v Hi. exists v. rewrite lookup_insert_ne; [done|]. intros <-. congruence.
    + eexists. by rewrite lookup_insert_eq.
Qed.

Lemma settle_row_ok j id outcome r f st j' :
  journal_wf j → st ≠ INV_intent_recorded → settleToolInvocationRowTx j id outcome r f st = Ok j' → journal_wf j' ∧ journal_le j j'.
Proof.
  intros Hwf Hst. unfold settleToolInvocationRowTx. case_bool_decide; [intros [= <-]; split; [done|apply journal_le_refl]|].
  destruct (j !! id) as [v|] eqn:Hid; [|done]. destruct (_ || _); [|done]. intros [= <-]. by apply (journal_replace j id v).
Qed.

Lemma settle_inv_ok l j id res outcome r f actual now l' j' :
  journal_wf j → settleToolInvocation l j id res outcome r f actual now = Ok (l', j') → journal_wf j' ∧ journal_le j j'.
Proof.
  intros Hwf. unfold settleToolInvocation. destruct (settleRunBudget _ _ _ _ _); [|done]. simpl. destruct (settleToolInvocationRowTx _ _ _ _ _ _) eqn:E; [|done].
  intros [= _ <-]. eapply settle_row_ok; [exact Hwf| |exact E]. done.
Qed.

Lemma settle_unknown_ok l j id res f now l' j' :
  journal_wf j → settleToolInvocationUnknown l j id res f now = Ok (l', j') → journal_wf j' ∧ journal_le j j'.
Proof.
  intros Hwf. unfold settleToolInvocationUnknown. destruct (settleRunBudgetFull _ _ _ _); [|done]. simpl. destruct (settleToolInvocationRowTx _ _ _ _ _ _) eqn:E; [|done].
  intros [= _ <-]. eapply settle_row_ok; [exact Hwf| |exact E]. done.
Qed.

(** The journal row a call works on, and the call that is at its effect. *)
Definition carried (p : tool_phase) : option string :=
  match p with TConsume i _ | TDenied i _ _ | TMark i _ _ | TEffect i _ _ => Some i | _ => None end.
Definition at_effect (p : tool_phase) : option string := match p with TEffect i _ _ => Some i | _ => None end.

Definition carries (j : journal) (c : tool_call) (i : string) : Prop := ∃ v, j !! i = Some v ∧ inv_pair v = call_pair c.

(** What a step does to the journal and the effects. *)
Record tool_good (w : tool_world) (c : tool_call) (w' : tool_world) (p : tool_phase) : Prop := {
  tg_wf : journal_wf (tw_journal w');
  tg_le : journal_le (tw_journal w) (tw_journal w');
  tg_carried i : carried p = Some i → carries (tw_journal w') c i;
  tg_enter i : at_effect p = Some i → tw_effects w' = tw_effects w ∧
    (∃ v, tw_journal w !! i = Some v ∧ iv_State v = INV_intent_recorded) ∧ ∃ v, tw_journal w' !! i = Some v ∧ iv_State v ≠ INV_intent_recorded;
  tg_effects : tw_effects w' = tw_effects w ∨
    ((∃ i, at_effect (tc_Phase c) = Some i) ∧ at_effect p = None ∧ tw_effects w' = tw_effects w ++ [call_pair c]) }.

Lemma tool_good_same w c w' p :
  journal_wf (tw_journal w) → tw_journal w' = tw_journal w → tw_effects w' = tw_effects w → at_effect p = None →
  (∀ i, carried p = Some i → carries (tw_journal w) c i) → tool_good w c w' p.
Proof.
  intros Hwf Ej Ee Hp Hc. split; rewrite ?Ej; [done|apply journal_le_refl|done| |by left]. intros i Hi. congruence.
Qed.

Lemma tool_good_journal w c w' p :
  journal_wf (tw_journal w') → journal_le (tw_journal w) (tw_journal w') → tw_effects w' = tw_effects w → at_effect p = None →
  (∀ i, carried p = Some i → carries (tw_journal w') c i) → tool_good w c w' p.
Proof. intros Hwf Hle Ee Hp Hc. split; [done..| |by left]. intros i Hi. congruence. Qed.

Lemma tool_statement_good w c reply w' p q :
  journal_wf (tw_journal w) → tool_good w c w' p → at_effect q = None → (∀ i, carried q = Some i → carries (tw_journal w) c i) →
  tool_good w c (tool_statement reply w w' p q).1 (tool_statement reply w w' p q).2 ∨ tw_effects w' ≠ tw_effects w.
Proof.
  intros Hwf [G1 G2 G3 G4 G5] Hq Hcq. destruct (decide (tw_effects w' = tw_effects w)) as [Ee|]; [left|by right]. destruct reply; simpl; [by split| |].
  - by apply tool_good_same.
  - apply tool_good_journal; [done..|]. intros i Hi. destruct (Hcq i Hi) as (v & Hv & Hp). destruct (G2 _ _ Hv) as (v' & Hv' & E & _). exists v'. split; [done|congruence].
Qed.

Lemma statement_good w c reply w' p q :
  journal_wf (tw_journal w) → tool_good w c w' p → tw_effects w' = tw_effects w → at_effect q = None → (∀ i, carried q = Some i → carries (tw_journal w) c i) →
  tool_good w c (tool_statement reply w w' p q).1 (tool_statement reply w w' p q).2.
Proof. intros Hwf Hg Ee Hq Hc. by destruct (tool_statement_good w c reply w' p q Hwf Hg Hq Hc). Qed.

Lemma reserve_idem_good w c env : journal_wf (tw_journal w) → tool_good w c (reserve_idem w c env).1 (reserve_idem w c env).2.
Proof.
  intros Hwf. assert (∀ t p q, at_effect p = None → carried p = None → at_effect q = None → carried q = None →
    tool_good w c (tool_statement (te_reply env) w (tw_with_idem w t) p q).1 (tool_statement (te_reply env) w (tw_with_idem w t) p q).2) as Hst.
  { intros t p q ?? ? Hq. apply statement_good; [done|apply tool_good_same; [done..|congruence]|done|done|congruence]. }
  assert (∀ p, at_effect p = None → carried p = None → tool_good w c w p) as Hend by (intros p ??; apply tool_good_same; [done..|congruence]).
  unfold reserve_idem. destruct (tc_Phase c).
  2:{ destruct (loadIdempotencyRow _ _ _) as [[row|]|]; [|by apply Hend..]. destruct (_ || _); [destruct (_ <? _)|]; by apply Hend. }
  2:{ destruct (delete_expired _ _ _) as [t []]; by apply Hst. }
  1: destruct (bool_decide _); [by apply Hend|]. 1: destruct (_ <? _); [by apply Hend|].
  all: destruct (insert_pending _ _ _ _) as [t []]; by apply Hst.
Qed.

Lemma abort_or_end_free c e : at_effect (abort_or_end c e) = None ∧ carried (abort_or_end c e) = None.
Proof. unfold abort_or_end. by destruct (bool_decide _). Qed.

Lemma record_intent_good w c env : journal_wf (tw_journal w) → tool_good w c (record_intent w c env).1 (record_intent w c env).2.
Proof.
  intros Hwf. unfold record_intent. destruct (reserveRunBudget _ _ _ _ _ _ _) as [[l res]|e]; simpl.
  - destruct (recordToolIntentTx _ _ _ _ _ _ _ _) as [[j inv]|e] eqn:Er; simpl.
    + destruct (record_ok _ _ _ _ _ _ _ _ _ _ Hwf Er) as (Hwf' & Hle & v & Hv & Hp). destruct (abort_or_end_free c "commit") as [H1 H2].
      apply statement_good; [done| |done|done|congruence]. apply tool_good_journal; [done..|]. intros i [= <-]. by exists v.
    + destruct (abort_or_end_free c e). apply tool_good_same; [done..|cbn [snd]; congruence].
  - destruct (abort_or_end_free c e). apply tool_good_same; [done..|cbn [snd]; congruence].
Qed.

Lemma settle_call_good w c env inv res remain how :
  journal_wf (tw_journal w) → tool_good w c (settle_call w c env inv res remain how).1 (settle_call w c env inv res remain how).2.
Proof.
  intros Hwf. unfold settle_call. match goal with |- context [match ?tx with Ok _ => _ | Err _ => _ end] => destruct tx as [[l j]|e] eqn:Et end;
    [|by apply tool_good_same].
  assert (journal_wf j ∧ journal_le (tw_journal w) j) as [Hwf' Hle]
    by (destruct how; [by eapply settle_inv_ok|by eapply settle_inv_ok|by eapply settle_unknown_ok]).
  apply statement_good; [done| |done|done|done].
  destruct how as [raw| |e abort]; [destruct (bool_decide _)|destruct (abort_or_end_free c "tool not allowed")|destruct abort; [destruct (abort_or_end_free c e)|]];
    (apply tool_good_journal; [done..|first [done|congruence]]).
Qed.

Lemma invoke_good w c env :
  journal_wf (tw_journal w) → (∀ i, carried (tc_Phase c) = Some i → carries (tw_journal w) c i) →
  tool_good w c (invoke_step w c env).1 (invoke_step w c env).2.
Proof.
  intros Hwf Hc. unfold invoke_step.
  destruct (tc_Phase c) as [| |created| | | |inv res|inv res e|inv res remain|inv res remain|inv res remain how|raw remain|e|a] eqn:Hp;
    try apply reserve_idem_good; try done.
  - destruct (te_authorized env) as [?|e]; [by apply tool_good_same|]. destruct (abort_or_end_free c e). apply tool_good_same; [done..|cbn [snd]; congruence].
  - by apply record_intent_good.
  - destruct (consumeBudget _ _ _ _ _ _) as [calls [remain|e]].
    + apply statement_good; [done| |done|done|exact Hc]. by apply tool_good_same.
    + by apply tool_good_same.
  - destruct (settleToolInvocation _ _ _ _ _ _ _ _ _) as [[l j]|] eqn:Es; [|by apply tool_good_same].
    destruct (settle_inv_ok _ _ _ _ _ _ _ _ _ _ _ Hwf Es) as [Hwf' Hle]. destruct (abort_or_end_free c e).
    apply statement_good; [done| |done|done|done]. apply tool_good_journal; [done..|congruence].
  - destruct (markToolEffectStartedTx (tw_journal w) inv) as [j|] eqn:Em; [|by apply tool_good_same].
    destruct (Hc inv eq_refl) as (v & Hv & Hpair). unfold markToolEffectStartedTx in Em.
    rewrite bool_decide_eq_false_2 in Em by (by eapply (jw_ids _ Hwf)). rewrite Hv in Em. case_bool_decide as Hst; [|done]. injection Em as <-.
    destruct (journal_replace (tw_journal w) inv v (with_state v INV_effect_started) Hwf Hv eq_refl) as [Hwf' Hle]; [done|].
    apply statement_good; [done| |done|done|done]. split; simpl; [done|done| | |by left].
    + intros i [= <-]. exists (with_state v INV_effect_started). by rewrite lookup_insert_eq.
    + intros i [= <-]. split; [done|]. split; [by exists v|]. exists (with_state v INV_effect_started). by rewrite lookup_insert_eq.
  - destruct (negb _); [by apply tool_good_same|]. split; simpl; [done|apply journal_le_refl|done|done|]. right. split; [rewrite Hp; by exists inv|done].
  - by apply settle_call_good.
  - apply statement_good; [done| |done|done|done]. by apply tool_good_same.
  - apply statement_good; [done| |done|done|done]. by apply tool_good_same.
  - by apply tool_good_same.
Qed.

Record tool_ok (s : tool_sys) : Prop := {
  to_wf : journal_wf (tw_journal (ts_world s));
  to_nodup : NoDup (tw_effects (ts_world s));
  to_journaled e : e ∈ tw_effects (ts_world s) → ∃ i v, tw_journal (ts_world s) !! i = Some v ∧ inv_pair v = e ∧ iv_State v ≠ INV_intent_recorded;
  to_carried n c i : ts_calls s !! n = Some c → carried (tc_Phase c) = Some i → carries (tw_journal (ts_world s)) c i;
  to_effect n c i : ts_calls s !! n = Some c → at_effect (tc_Phase c) = Some i →
    call_pair c ∉ tw_effects (ts_world s) ∧ ∃ v, tw_journal (ts_world s) !! i = Some v ∧ iv_State v ≠ INV_intent_recorded;
  to_alone n m cn cm i : ts_calls s !! n = Some cn → ts_calls s !! m = Some cm → at_effect (tc_Phase cn) = Some i → at_effect (tc_Phase cm) = Some i → n = m }.

Lemma carries_le j j' c i : journal_le j j' → carries j c i → carries j' c i.
Proof. intros Hle (v & Hv & Hp). destruct (Hle _ _ Hv) as (v' & Hv' & E & _). exists v'. split; [done|congruence]. Qed.

Lemma at_effect_carried p i : at_effect p = Some i → carried p = Some i.
Proof. by destruct p. Qed.

Lemma tool_advance_ok s n c env :
  tool_ok s → ts_calls s !! n = Some c →
  tool_ok (mkToolSys (invoke_step (ts_world s) c env).1 (<[n := at_phase c (invoke_step (ts_world s) c env).2]> (ts_calls s))).
Proof.
  intros [T1 T2 T3 T4 T5 T6] Hn. destruct (invoke_good (ts_world s) c env T1) as [G1 G2 G3 G4 G5]; [intros i; by apply (T4 n)|].
  set (w' := (invoke_step (ts_world s) c env).1) in *. set (p := (invoke_step (ts_world s) c env).2) in *.
  assert (∀ i v, tw_journal (ts_world s) !! i = Some v → iv_State v ≠ INV_intent_recorded → ∃ v', tw_journal w' !! i = Some v' ∧ iv_State v' ≠ INV_intent_recorded) as Hpast.
  { intros i v Hv Hs. destruct (G2 _ _ Hv) as (v' & Hv' & _ & Hs'). eauto. }
  (* the pair of a call at its effect is that of its row, so no other row has it *)
  assert (∀ m cm i, ts_calls s !! m = Some cm → at_effect (tc_Phase cm) = Some i → ∀ k, carries (tw_journal (ts_world s)) c k → call_pair cm = call_pair c → i = k) as Hrow.
  { intros m cm i Hm Hi k (vk & Hvk & Ek) E. destruct (T4 m cm i Hm (at_effect_carried _ _ Hi)) as (vi & Hvi & Ei). apply (jw_unique _ T1 i k vi vk); [done..|congruence]. }
  assert (∀ m cm i, ts_calls s !! m = Some cm → n ≠ m → at_effect (tc_Phase cm) = Some i → call_pair cm ∉ tw_effects w') as Hothers.
  { intros m cm i Hm Hnm Hi Hin. destruct G5 as [E|((k & Hk) & _ & E)]; rewrite E in Hin; [by apply (T5 m cm i Hm Hi)|].
    apply elem_of_app in Hin as [Hin|Hin%list_elem_of_singleton]; [by apply (T5 m cm i Hm Hi)|]. apply Hnm.
    assert (i = k) as -> by (eapply (Hrow m cm); [done..|by apply (T4 n), at_effect_carried|done]). eapply T6; [exact Hn|exact Hm|exact Hk|exact Hi]. }
  split; simpl.
  - done.
  - destruct G5 as [->|((k & Hk) & _ & ->)]; [done|]. apply NoDup_app. split; [done|]. split; [|apply NoDup_singleton].
    intros x Hx ->%list_elem_of_singleton. by apply (T5 n c k Hn Hk).
  - intros e He. assert (e ∈ tw_effects (ts_world s) ∨ (e = call_pair c ∧ ∃ k, at_effect (tc_Phase c) = Some k)) as [Hin|[-> [k Hk]]].
    { destruct G5 as [E|(Hk & _ & E)]; rewrite E in He; [by left|]. apply elem_of_app in He as [?|Hx%list_elem_of_singleton]; [by left|by right]. }
    + destruct (T3 e Hin) as (i & v & Hv & Hp & Hs). destruct (G2 _ _ Hv) as (v' & Hv' & Hp' & Hs'). exists i, v'. split; [done|]. split; [congruence|by apply Hs'].
    + destruct (T5 n c k Hn Hk) as [_ (v & Hv & Hs)]. destruct (T4 n c k Hn (at_effect_carried _ _ Hk)) as (v2 & Hv2 & Hp2). rewrite Hv in Hv2. injection Hv2 as <-.
      destruct (G2 _ _ Hv) as (v' & Hv' & Hp' & Hs'). exists k, v'. split; [done|]. split; [congruence|by apply Hs'].
  - intros m cm i. destruct (decide (n = m)) as [<-|Hnm]; [rewrite lookup_insert_eq; intros [= <-]; apply G3|rewrite lookup_insert_ne by done].
    intros Hm Hi. eapply carries_le; [exact G2|]. by eapply T4.
  - intros m cm i. destruct (decide (n = m)) as [<-|Hnm]; [rewrite lookup_insert_eq; intros [= <-] Hi|rewrite lookup_insert_ne by done; intros Hm Hi].
    + destruct (G4 i Hi) as (Ee & (v & Hv & Hint) & Hstarted). split; [|done]. rewrite Ee. intros Hin. destruct (T3 _ Hin) as (k & vk & Hvk & Hpk & Hsk).
      assert (carries (tw_journal w') c i) as (vi & Hvi & Hpi) by (apply G3; by apply at_effect_carried). destruct (G2 _ _ Hv) as (v1 & Hv1 & Hp1 & _).
      rewrite Hvi in Hv1. injection Hv1 as <-. assert (i = k) as -> by (apply (jw_unique _ T1 i k v vk); [done..|]; change (call_pair (at_phase c p)) with (call_pair c) in Hpk; congruence).
      rewrite Hv in Hvk. by injection Hvk as <-.
    + split; [by eapply Hothers|]. destruct (T5 m cm i Hm Hi) as [_ (v & Hv & Hs)]. by eapply Hpast.
  - assert (∀ m cm i, ts_calls s !! m = Some cm → n ≠ m → at_effect (tc_Phase cm) = Some i → at_effect p ≠ Some i) as Hnew.
    { intros m cm i Hm Hnm Hi Hpi. destruct (G4 i Hpi) as (_ & (v & Hv & Hint) & _). destruct (T5 m cm i Hm Hi) as [_ (v' & Hv' & Hs)]. congruence. }
    intros m k cm ck i. destruct (decide (n = m)) as [<-|Hm]; destruct (decide (n = k)) as [<-|Hk]; [done| | |].
    + rewrite lookup_insert_eq, lookup_insert_ne by done. intros [= <-] Hck Hi Hi'. exfalso. by eapply Hnew.
    + rewrite lookup_insert_eq, lookup_insert_ne by done. intros Hcm [= <-] Hi Hi'. exfalso. by eapply Hnew.
    + rewrite !lookup_insert_ne by done. apply T6.
Qed.

Lemma tool_reachable_ok l s : rtc tool_step (tool_init l) s → tool_ok s.
Proof.
  intros Hr. assert (tool_ok (tool_init l)) as H0.
  { split; simpl; try (intros *; by rewrite lookup_empty); [split; intros *; by rewrite lookup_empty|constructor|intros e He; by apply not_elem_of_nil in He]. }
  induction Hr as [|s1 s2 s3 Hstep _ IH]; [done|]. apply IH. destruct Hstep as [n c Hn Hp|n c env Hn|t l' m]; [|by apply tool_advance_ok|].
  - destruct H0 as [T1 T2 T3 T4 T5 T6]. split; simpl; [done..| | |].
    + intros m cm i. destruct (decide (n = m)) as [<-|Hnm]; [rewrite lookup_insert_eq; intros [= <-]; by rewrite Hp|rewrite lookup_insert_ne by done; apply T4].
    + intros m cm i. destruct (decide (n = m)) as [<-|Hnm]; [rewrite lookup_insert_eq; intros [= <-]; by rewrite Hp|rewrite lookup_insert_ne by done; apply T5].
    + intros m k cm ck i. destruct (decide (n = m)) as [<-|Hm]; [rewrite lookup_insert_eq; intros [= <-] _; by rewrite Hp|rewrite lookup_insert_ne by done].
      destruct (decide (n = k)) as [<-|Hk]; [rewrite lookup_insert_eq; intros _ [= <-] _; by rewrite Hp|rewrite lookup_insert_ne by done]. apply T6.
  - by destruct H0.
Qed.

(** C17: however calls interleave, stop half-way, are repeated with the same key, take over each other's reservations or meet errors of
    the database, the tool is run at most once for a budget and a request, and only after the journal row of that request had left the
    intent; a call that carries a key names the same request whenever its tool and arguments are the same. *)
Theorem tool_effect_once l s :
  rtc tool_step (tool_init l) s →
  NoDup (tw_effects (ts_world s)) ∧
  (∀ e, e ∈ tw_effects (ts_world s) → ∃ i v, tw_journal (ts_world s) !! i = Some v ∧ inv_pair v = e ∧ iv_State v ≠ INV_intent_recorded) ∧
  ∀ c c', tc_Idem c ≠ "" → tc_Idem c = tc_Idem c' → tc_Tool c = tc_Tool c' → tc_Args c = tc_Args c' → budget_of (tc_Claims c) = budget_of (tc_Claims c') →
    call_pair c = call_pair c'.
Proof.
  intros [T1 T2 T3 _ _ _]%tool_reachable_ok. split; [done|]. split; [done|]. intros c c' Hne Ei Et Ea Eb.
  unfold call_pair, reservationKey, tool_digest. rewrite <- Ei, <- Et, <- Ea, <- Eb. by rewrite bool_decide_eq_false_2.
Qed.

(** A tool whose result is longer than the bytes a call reserves has run, but its call is never settled: the settlement fails, the
    journal row stays at the started effect, and the run cannot be completed while the reservation is open. *)
Theorem oversize_result_unsettled l j budget account inv res r raw w c env remain now :
  tw_ledger w = l → tw_journal w = j → reservations l !! res = Some r → res ≠ "" → rv_budget r = budget → rv_state r = RES_reserved →
  rv_amount r = tool_amount 1 RunToolResultBytesPerCall → accounts l !! budget = Some account → budget ≠ "" → Reserved account ≠ zero_amount →
  RunToolResultBytesPerCall < str_len raw →
  (∃ e, settle_call w c env inv res remain (SettleSucceeded raw) = (w, TDone (TaErr e))) ∧
  is_ok (closeRunBudget l budget BUDGET_completed true now) = false.
Proof.
  intros <- <- Hr Hres Hb Hst Ham Hacc Hbne Hrv Hlen. split.
  - unfold settle_call, settleToolInvocation, settleRunBudget. rewrite bool_decide_eq_false_2 by done. simpl.
    destruct (validRunBudgetAmount _); [|by eexists]. rewrite Hr. unfold lockRunBudgetAccount. rewrite Hb, Hacc, Hst. simpl.
    assert (runBudgetAmountWithin (tool_amount 1 (str_len raw)) (rv_amount r) = false) as ->; [|by eexists].
    rewrite Ham. unfold runBudgetAmountWithin. simpl. rewrite (proj2 (Z.leb_gt _ _) Hlen). by rewrite ?andb_false_r.
  - unfold closeRunBudget. rewrite bool_decide_eq_false_2 by done. unfold lockRunBudgetAccount. rewrite Hacc. simpl. by rewrite bool_decide_eq_false_2.
Qed.
End calls.

(** ** Concrete runs *)
Module ToolDemo.
Definition canonical (raw : string) : option string := Some raw.
Definition call : tool_call := mkToolCall TokenDemo.asked "event.get" "event.get" "{}" "key-1" "" TBegin.
Definition env (now : time) : tool_env :=
  mkToolEnv now DbOk (Ok tt) "r" "i" ("", "") (<["bud-1" := mkCallsRow "bud-1" "run-1" "agent-1" 10 1 false]> ∅) (ToolResult "x").
Definition run (s : tool_sys) (n : nat) (now : time) : tool_sys :=
  match ts_calls s !! n with
  | Some c => mkToolSys (invoke_step (C := toy_crypto) (W := IdemDemo.wire) canonical (ts_world s) c (env now)).1
                (<[n := at_phase c (invoke_step (C := toy_crypto) (W := IdemDemo.wire) canonical (ts_world s) c (env now)).2]> (ts_calls s))
  | None => s
  end.
Definition arrive (s : tool_sys) (n : nat) : tool_sys := mkToolSys (ts_world s) (<[n := call]> (ts_calls s)).
(** The first call runs its tool and stops; the second takes the key over and is refused. *)
Definition s0 := arrive (arrive (tool_init empty_ledger) 0) 1.
Definition first_run := foldl (λ s t, run s 0 t) s0 [1; 2; 3; 4; 5; 6].
Definition second_run := foldl (λ s t, run s 1 (t * Minute)) first_run [10; 11; 12; 13; 14; 15].

Lemma run_step s n c t : ts_calls s !! n = Some c → tool_step (C := toy_crypto) (W := IdemDemo.wire) canonical s (run s n t).
Proof. intros H. unfold run. rewrite H. by apply tool_advance. Qed.
Lemma runs_step n ts : ∀ s, is_Some (ts_calls s !! n) → rtc (tool_step (C := toy_crypto) (W := IdemDemo.wire) canonical) s (foldl (λ s t, run s n t) s ts).
Proof.
  induction ts as [|t ts IH]; intros s [c Hc]; [apply rtc_refl|]. eapply rtc_l; [by eapply run_step|]. apply IH. unfold run. rewrite Hc. simpl. rewrite lookup_insert_eq. by eexists.
Qed.
Lemma foldl_minutes ts : ∀ s, foldl (λ s t, run s 1 (t * Minute)) s ts = foldl (λ s t, run s 1 t) s ((λ t, t * Minute) <$> ts).
Proof. induction ts as [|t ts IH]; intros s; [done|]. apply IH. Qed.

Definition big : string := String.concat "" (replicate (Z.to_nat 1025) (String.concat "" (replicate (Z.to_nat 1024) "x"))).
Definition owed : runBudgetAmount := tool_amount 1 RunToolResultBytesPerCall.
Definition open_ledger : ledger := mkLedger
  (<["bud-1" := mkBudget "run-1" BUDGET_active owed zero_amount owed 1000 0 None 1000]> ∅)
  (<["res-1" := mkReservation "bud-1" KIND_tool "key-1:d" RES_reserved owed zero_amount]> ∅).
Definition started : tool_world := mkToolWorld ∅ open_ledger ∅ ∅ [].
End ToolDemo.

Lemma tool_effect_once_witness :
  tw_effects (ts_world ToolDemo.second_run) = [call_pair (C := toy_crypto) ToolDemo.call] ∧
  tc_Phase <$> ts_calls ToolDemo.second_run !! 1%nat = Some (TAbort "tool invocation already crossed effect boundary") ∧
  NoDup (tw_effects (ts_world ToolDemo.second_run)).
Proof.
  split; [vm_compute; reflexivity|]. split; [vm_compute; reflexivity|].
  apply (@tool_effect_once toy_crypto string string IdemDemo.wire ToolDemo.canonical empty_ledger ToolDemo.second_run).
  eapply rtc_l; [apply (tool_new _ _ 0%nat ToolDemo.call); vm_compute; reflexivity|].
  eapply rtc_l; [apply (tool_new _ _ 1%nat ToolDemo.call); vm_compute; reflexivity|].
  transitivity ToolDemo.first_run; [apply (ToolDemo.runs_step 0 [1; 2; 3; 4; 5; 6] ToolDemo.s0); apply (bool_decide_unpack _); vm_compute; exact I|].
  unfold ToolDemo.second_run. rewrite ToolDemo.foldl_minutes. apply ToolDemo.runs_step. apply (bool_decide_unpack _). vm_compute. exact I.
Defined.

Lemma oversize_result_unsettled_witness : is_ok (closeRunBudget ToolDemo.open_ledger "bud-1" BUDGET_completed true 5) = false.
Proof.
  destruct (@oversize_result_unsettled toy_crypto ToolDemo.open_ledger ∅ "bud-1"
    (mkBudget "run-1" BUDGET_active ToolDemo.owed zero_amount ToolDemo.owed 1000 0 None 1000) "inv-1" "res-1"
    (mkReservation "bud-1" KIND_tool "key-1:d" RES_reserved ToolDemo.owed zero_amount) ToolDemo.big ToolDemo.started ToolDemo.call (ToolDemo.env 5) 0 5) as [_ H].
  - reflexivity.
  - reflexivity.
  - vm_compute. reflexivity.
  - discriminate.
  - reflexivity.
  - reflexivity.
  - reflexivity.
  - vm_compute. reflexivity.
  - discriminate.
  - vm_compute. discriminate.
  - vm_compute. reflexivity.
  - exact H.
Defined.
